(* ===== verification/_CoqProject ===== *)
-Q . S2P
Prelude.v
Floating.v
FloatFacts.v
CLib.v
Sys.v
UdsServer.v
Protocol.v
Json.v
Cli.v
CliMain.v
Utf8.v
Session.v
Config.v
ConfigParse.v
Logging.v
Poller.v
Llama.v
Model.v
Metrics.v
SessionManager.v
Policy.v
Bmt.v
Sampling.v
Scheduler.v
Daemon.v
JsonGrammar.v
SchedulerFacts.v
ToyLlama.v
SchedulerCorrect.v
Requests.v
Service.v
SessionManagerCorrect.v
EndToEnd.v
DaemonCorrect.v
UmadMain.v
