(* ===== verification/Prelude.v ===== *)
(** * uma-serve: a verification development

    uma-serve is a single-threaded daemon that serves a language model to many
    local clients. Clients connect over a Unix socket and send framed JSON
    requests; the daemon keeps one session per connection, and on every turn of
    its event loop it builds one batch out of the sessions that have work
    (one token for each decoding session, a chunk of the prompt for each
    prefilling one), runs the model once, samples, and streams token events
    back. The sources are under [src/src/].

    ** The parts and where they are modelled

    - [Floating], [FloatFacts]: IEEE binary32 and binary64 arithmetic (on the
      standard library's [SpecFloat]), conversions to integers, [strtod] and
      ["%.*f"] output. A conversion out of range is undefined in C++; the class
      [Conversions] gives it an arbitrary value, so no theorem depends on it.
    - [CLib]: [strtoul], [strtol], [atoi], [atof] and case folding of the C
      library. [Sys]: a monad for code that makes system calls. A program reads
      the answers from a list and logs calls, library calls and terminal output;
      what differs between systems is the class [Platform].
    - [Protocol] (ipc/protocol.cpp): length-prefixed frames, JSON escaping, the
      token, eos and error events. The receive buffer is a byte list;
      [try_read_frame] returns what the C++ function reports through its return
      value and its out-parameters.
    - [Json] (the field extractors inside ipc/session_manager.cpp and
      cli/main.cpp), [Utf8] (util/utf8.h).
    - [Cli], [CliMain] (cli/main.cpp): the request and the handling of one
      event; the argument parser, [connect_uds], [write_all], [read_exact] and
      [main] with its blocking read loop, as [Sys] programs.
    - [UdsServer] (ipc/uds_server.cpp): opening, closing and destroying the
      listening socket, and the blocking accept loop.
    - [Logging] (util/logging.h): levels, [configure_from_env], a log line.
    - [Session] (ipc/session.h): the session record and its states; the pool
      [unordered_map<int, unique_ptr<ClientSession>>] is a [gmap] from
      descriptors. The order in which a loop visits the map is unspecified in
      C++ and is an argument, any permutation of the keys ([iteration_order]).
    - [Config], [ConfigParse] (runtime/config.h, config.cpp): the configuration
      and [RuntimeConfig::from_args].
    - [Poller] (ipc/poller.h, poller_kqueue.cpp): [add], [remove], [wait]. The
      kernel's event queue is the class [Kernel]; the behaviour of [kevent] the
      daemon relies on is the class [KernelLaws], and [ToyKernel] is an instance
      of both.
    - [Llama] (runtime/tokens.cpp): the class [Llama] lists the functions of
      llama.cpp the program calls; the token helpers are defined over it.
      [ToyLlama] is a concrete instance, which the witnesses run.
    - [Model] (runtime/model.h, model.cpp): the parameters handed to llama.cpp,
      the model handle, the context and the backend guard, over the class
      [LlamaLoader].
    - [Metrics] (metrics/metrics.cpp): the counters and the JSON snapshot; the
      format of [long double] is a parameter ([LongDouble]).
    - [Policy] (sched/policy.cpp): [BaselinePolicy::schedule_tick]. The
      scheduler sees it through the class [IBatchPolicy]; the laws its proofs
      use are [BatchPolicyLaws] ([SchedulerFacts]), which the baseline policy
      satisfies.
    - [Bmt] (sched/bmt.cpp and the trimming loop of sched/scheduler.cpp).
    - [Sampling] (sched/sampling.cpp): [TopPSampler::sample] in binary32;
      [std::exp], [std::partial_sort] and the random numbers are the class
      [SamplingLib] with its laws.
    - [Scheduler] (sched/scheduler.cpp): [Scheduler::tick] as one function from
      scheduler, pool, iteration order, clock and measured duration to the new
      scheduler, the new pool and the descriptors to arm. [None] is the abort
      of an assertion or of an access out of range.
    - [SessionManager] (ipc/session_manager.cpp): accepting, closing, and
      [on_readable] with everything behind it; what [::read] answers is the
      argument [ReadInput].
    - [Daemon] (umad/main.cpp): the event loop. [on_event] dispatches one event,
      [iteration] is one turn of the loop: events, idle clean-up, tick, write
      arming. The answers of the system calls are part of the input.
    - [UmadMain] (umad/main.cpp): [main] around that loop: start-up, error
      exits, interrupted and failing waits, shutdown, destructors. The system
      calls outside the loop are in the [Sys] log; the descriptors of clients,
      which only the loop opens and closes, are those of the kernel state
      ([is_open]).

    ** What the theorems show

    - The whole system ([EndToEnd]): a request typed at the client's command
      line is sent, read, tokenized, scheduled to its end, framed and printed;
      the client exits with code 0 ([prompt_to_terminal]).
    - Requests ([Requests]): an abstract machine for the answer to a request,
      the refinement of every run of ticks to it ([ticks_refine_answer]), and
      termination by a ranking function: [n * (max_tokens + 2)] ticks end all
      requests of [n] sessions ([requests_answered]).
    - Service over runs of ticks ([Service]): as long as the same [N] sessions
      are ready to decode, each of them gets into a batch within [N] ticks
      ([decoders_not_starved]); what happens to a prompt longer than one burst
      ([long_prompt_truncated]).
    - The programs: every exit of the daemon's [main] with its code and cause,
      the library resources and the descriptors it gives back ([main_exits]); a
      run of the daemon to its shutdown, after which the sockets of clients that
      are still connected are the only ones left to the system ([main_serves]);
      the client program ([client_cleans_up], [client_streams_tokens]); no path
      of the socket server leaks a descriptor ([server_life]); which log lines
      are written.
    - The daemon ([DaemonCorrect]): from start-up, for any events, any answers
      of the system calls and any number of turns, an iteration never fails,
      sessions stay within the limit and on open descriptors with sequence ids
      of their own, no descriptor leaks, and pending output is always registered
      for writing, except on descriptors for which a decode has failed, which the
      program forgets to register ([daemon_runs_safely]); the loop sleeps only when the
      policy has nothing to plan; the write loop ends and loses no byte; the
      idle clean-up closes exactly the idle sessions.
    - The scheduler ([SchedulerCorrect], with the lemmas in [SchedulerFacts]): a
      tick never aborts, every row of the batch has the right sequence, token
      and position, each session makes one step of its state machine and emits
      at most one whole frame, new output is handed back for arming, the
      adaptive target stays in range, the time split is exact.
    - The policy: budget, soundness of the items, decode before prefill, the
      round robin as a rotation, work conservation. The guard:
      the 64-bit estimate is exact and trimming is sound and minimal where it
      stops. The sampler: the token is in the nucleus, greedy is the first
      maximum, the nucleus is minimal.
    - The protocol: frames round trip and survive any cut of the byte stream;
      a payload whose strings are UTF-8 is JSON and means the event it was built
      from, for an independent reader of the grammar ([JsonGrammar]); client and server
      understand each other's messages ([Json], [Cli], [SessionManagerCorrect]);
      sessions are kept apart; a frame cut between two read events is read as if
      it came at once.
    - Configuration and text: the flag grammar, a round trip of configurations
      through the environment and the command line;
      the UTF-8 validator accepts exactly the well-formed texts; the poller
      coalesces without loss.
    - Theorems that state behaviour the code or its documents do not intend:
      [long_prompt_truncated], [failed_decode_not_armed],
      [failed_decode_stalls_client], [token_limit_is_off_by_one],
      [idle_wait_is_200000_seconds], [busy_request_restarts],
      [sequence_ids_outgrow_context], [id_text_prints_token],
      [short_header_drops_stream], [second_frame_waits],
      [partial_character_not_json], [shutdown_leaves_client_open],
      [chmod_failure_ignored], [uma_debug_ignored],
      [documented_inputs_missing], [numbers_not_validated].

    ** Conventions and assumptions

    Machine integers are [Z] with their wrap-around written out ([u32], [u64],
    [i32]); sizes are [nat]. Every definition is a total function. Recursion is
    structural on the data, on the list of planned items or on the list of
    answers of the system calls; where it is not, it is bounded by a quantity it
    cannot exceed: a [Sys.loop] by the number of answers (every round makes a
    call), the JSON reader by the length of the text. [None] therefore only
    means that a list of answers ends before the program does, or an abort, and
    the theorems that give a result say that it is not reached ([event_ok],
    [steps_ok], [accepts], [delivers_frame] describe the answers). [tokens_fit]
    bounds prompt length plus token limit by [INT_MAX], as positions are
    [int32_t]; [1 <= llama_n_batch] and an upper bound keep the batch arithmetic
    in range. Clock values are arguments.

    What one part relies on in another is a class: [KernelLaws] for the event
    queue (registering an open descriptor does not run out of memory),
    [BatchPolicyLaws] and [PolicyProgress] for the policy (both proved of
    the baseline one), [LlamaLogits] for llama.cpp (logits are there for the rows
    that asked for them). Each has a concrete instance, on which the witnesses
    run; the laws of the sampler's library functions are hypotheses of its
    theorems.

    ** Not modelled

    The inside of llama.cpp, which is a submodule; the informational and debug
    log lines of the daemon; the installation of the signal handlers, whose
    effect, a flag that is set at any time, is the [LoadShutdown] interaction
    and [ls_shutdown]. Next: the write loop inside the end-to-end theorem, and
    finiteness of the means in the metrics snapshot. *)

From stdpp Require Import prelude gmap list strings.
From Stdlib Require Import Lia.
From Stdlib Require Strings.Byte DecimalString.

(** ** Tactics and hint databases *)

(** [uma] collects the lemmas that close the common side conditions of the
    components; [uma_rw] the rewrite rules that normalise machine integers
    and byte lists. *)
Create HintDb uma.

(** Arithmetic with [/] and [mod] spelled out as equations. *)
Ltac zlia := Z.div_mod_to_equations; lia.

(** Destruct the innermost scrutinee of a goal or of a hypothesis. *)
Ltac case_goal :=
  match goal with
  | |- context [ match ?x with _ => _ end ] =>
      lazymatch x with
      | context [ match _ with _ => _ end ] => fail
      | _ => let E := fresh "E" in destruct x eqn:E
      end
  end.

Ltac case_in H :=
  match type of H with
  | context [ match ?x with _ => _ end ] =>
      lazymatch x with
      | context [ match _ with _ => _ end ] => fail
      | _ => let E := fresh "E" in destruct x eqn:E
      end
  end.

(** Turn boolean tests of the code into propositions. *)
Ltac bool_prop :=
  repeat match goal with
  | H : (_ && _)%bool = true |- _ => apply andb_true_iff in H; destruct H
  | H : (_ && _)%bool = false |- _ => apply andb_false_iff in H
  | H : (_ || _)%bool = true |- _ => apply orb_true_iff in H
  | H : (_ || _)%bool = false |- _ => apply orb_false_iff in H; destruct H
  | H : negb _ = true |- _ => apply negb_true_iff in H
  | H : negb _ = false |- _ => apply negb_false_iff in H
  | H : (_ =? _)%Z = true |- _ => apply Z.eqb_eq in H
  | H : (_ =? _)%Z = false |- _ => apply Z.eqb_neq in H
  | H : (_ <? _)%Z = true |- _ => apply Z.ltb_lt in H
  | H : (_ <? _)%Z = false |- _ => apply Z.ltb_ge in H
  | H : (_ <=? _)%Z = true |- _ => apply Z.leb_le in H
  | H : (_ <=? _)%Z = false |- _ => apply Z.leb_gt in H
  | H : (_ =? _)%nat = true |- _ => apply Nat.eqb_eq in H
  | H : (_ =? _)%nat = false |- _ => apply Nat.eqb_neq in H
  | H : (_ <? _)%nat = true |- _ => apply Nat.ltb_lt in H
  | H : (_ <? _)%nat = false |- _ => apply Nat.ltb_ge in H
  | H : (_ <=? _)%nat = true |- _ => apply Nat.leb_le in H
  | H : (_ <=? _)%nat = false |- _ => apply Nat.leb_gt in H
  | H : bool_decide _ = true |- _ => apply bool_decide_eq_true in H
  | H : bool_decide _ = false |- _ => apply bool_decide_eq_false in H
  end.

(** ** Record field update

    [s <| f := v |>] is the record [s] with field [f] replaced by [v]: the
    assignment [s.f = v] of the source. A record type declares its
    eta-expansion once ([Eta]); a setter is derived from it per field. *)
Class Setter {R T : Type} (proj : R → T) : Type := set_field : T → R → R.
#[global] Hint Mode Setter - - ! : typeclass_instances.
Arguments set_field {R T} proj {_} _ _.

Ltac derive_setter eta :=
  lazymatch goal with
  | |- Setter ?proj =>
      let v := fresh "v" in let r := fresh "r" in
      intros v r;
      let t := eval cbv beta delta [eta] in (eta r) in
      match eval pattern (proj r) in t with
      | ?f _ => let b := eval cbv beta in (f v) in exact b
      end
  end.

Notation "s <| f := v |>" := (set_field f v s)
  (at level 1, left associativity, f at next level, v at level 200,
   format "s  <| f  :=  v |>").

(** ** Machine integers

    Unsigned types wrap; [i32] is the two's complement reduction that a C++
    conversion to [int32_t] performs. *)
Module MInt.
Local Open Scope Z_scope.

Definition u8 (z : Z) : Z := z mod 2 ^ 8.
Definition u32 (z : Z) : Z := z mod 2 ^ 32.
Definition u64 (z : Z) : Z := z mod 2 ^ 64.
Definition i32 (z : Z) : Z := (z + 2 ^ 31) mod 2 ^ 32 - 2 ^ 31.

Definition INT_MAX : Z := 2 ^ 31 - 1.
Definition INT_MIN : Z := - 2 ^ 31.

Definition in_i32 (z : Z) : Prop := INT_MIN ≤ z ≤ INT_MAX.
Definition in_u32 (z : Z) : Prop := 0 ≤ z < 2 ^ 32.
Definition in_u64 (z : Z) : Prop := 0 ≤ z < 2 ^ 64.

Lemma u32_range z : 0 ≤ u32 z < 2 ^ 32.
Proof. apply Z.mod_pos_bound. lia. Qed.
Lemma u64_range z : 0 ≤ u64 z < 2 ^ 64.
Proof. apply Z.mod_pos_bound. lia. Qed.
Lemma i32_range z : in_i32 (i32 z).
Proof. unfold in_i32, i32, INT_MIN, INT_MAX. zlia. Qed.

Lemma u8_id z : 0 ≤ z < 2 ^ 8 → u8 z = z.
Proof. apply Z.mod_small. Qed.
Lemma u32_id z : 0 ≤ z < 2 ^ 32 → u32 z = z.
Proof. apply Z.mod_small. Qed.
Lemma u64_id z : 0 ≤ z < 2 ^ 64 → u64 z = z.
Proof. apply Z.mod_small. Qed.
Lemma i32_id z : in_i32 z → i32 z = z.
Proof. unfold in_i32, i32, INT_MIN, INT_MAX. zlia. Qed.
End MInt.
Export MInt.

#[export] Hint Resolve u32_range u64_range i32_range : uma.

(** ** Bytes and byte strings

    A C++ [char]/[uint8_t] is a [Byte.byte]; [byte_val] is its value as an
    [unsigned char] and [byte_of_Z] the narrowing conversion to it. *)
Abbreviation byte := Init.Byte.byte.
Abbreviation bytes := (list Init.Byte.byte).

#[global] Instance byte_eq_decision : EqDecision byte := Strings.Byte.byte_eq_dec.

Definition byte_val (b : byte) : Z := Z.of_N (Strings.Byte.to_N b).

Definition byte_of_Z (z : Z) : byte :=
  match Strings.Byte.of_N (Z.to_N (u8 z)) with
  | Some b => b
  | None => Init.Byte.x00
  end.

Lemma byte_val_range b : (0 ≤ byte_val b < 256)%Z.
Proof.
  unfold byte_val. pose proof (Strings.Byte.to_N_bounded b). lia.
Qed.

Lemma byte_val_of_Z z : byte_val (byte_of_Z z) = u8 z.
Proof.
  unfold byte_val, byte_of_Z, u8.
  assert (0 ≤ z mod 2 ^ 8 < 256)%Z by (apply Z.mod_pos_bound; lia).
  destruct (Strings.Byte.of_N _) as [b|] eqn:E.
  - apply Strings.Byte.to_of_N in E. rewrite E. lia.
  - apply Strings.Byte.of_N_None_iff in E. lia.
Qed.

Lemma byte_val_inj b1 b2 : byte_val b1 = byte_val b2 → b1 = b2.
Proof.
  unfold byte_val. intros H%N2Z.inj.
  pose proof (Strings.Byte.of_to_N b1) as E1.
  pose proof (Strings.Byte.of_to_N b2) as E2. congruence.
Qed.

Lemma byte_of_Z_val b : byte_of_Z (byte_val b) = b.
Proof.
  apply byte_val_inj. rewrite byte_val_of_Z. apply u8_id, byte_val_range.
Qed.

(** A string literal of the source, and one in which the C++ text has escaped
    double quotes: [jstr] reads a single quote as a double quote. *)
Definition str (s : string) : bytes := String.list_byte_of_string s.

Definition quote_byte (b : byte) : byte :=
  if decide (b = Init.Byte.x27) then Init.Byte.x22 else b.
Definition jstr (s : string) : bytes := quote_byte <$> str s.

(** [std::to_string] of an integer. *)
Definition to_string (z : Z) : bytes :=
  str (DecimalString.NilZero.string_of_int (Z.to_int z)).

(** ** Lists *)

Definition sum_Z (l : list Z) : Z := foldr Z.add 0%Z l.

Lemma sum_Z_app l1 l2 : sum_Z (l1 ++ l2) = (sum_Z l1 + sum_Z l2)%Z.
Proof. induction l1; simpl; lia. Qed.

Lemma sum_Z_nonneg l : Forall (λ x, 0 ≤ x)%Z l → (0 ≤ sum_Z l)%Z.
Proof. induction 1; simpl; lia. Qed.

Lemma sum_Z_mono {A} (f g : A → Z) l :
  (∀ x, x ∈ l → f x ≤ g x)%Z → (sum_Z (f <$> l) ≤ sum_Z (g <$> l))%Z.
Proof.
  induction l as [|x l IH]; intros Hl; [done|]. rewrite !fmap_cons. cbn.
  pose proof (Hl x ltac:(left)). specialize (IH ltac:(intros y Hy; apply Hl; by right)). unfold sum_Z in IH.
  lia.
Qed.

Lemma sum_Z_mono_strict {A} (f g : A → Z) l y :
  (∀ x, x ∈ l → f x ≤ g x)%Z → y ∈ l → (f y < g y)%Z → (sum_Z (f <$> l) < sum_Z (g <$> l))%Z.
Proof.
  intros Hl Hy Hlt. apply list_elem_of_split in Hy as (l1 & l2 & ->).
  rewrite !fmap_app, !fmap_cons, !sum_Z_app. cbn.
  pose proof (sum_Z_mono f g l1 ltac:(intros x Hx; apply Hl, elem_of_app; by left)).
  pose proof (sum_Z_mono f g l2 ltac:(intros x Hx; apply Hl, elem_of_app; right; by right)).
  unfold sum_Z in *. lia.
Qed.

#[global] Instance sum_Z_perm : Proper ((≡ₚ) ==> (=)) sum_Z.
Proof. induction 1; simpl; lia. Qed.

Lemma filter_all {A} (P : A → Prop) `{∀ x, Decision (P x)} (l : list A) :
  Forall P l → filter P l = l.
Proof. induction 1; [done|]. rewrite filter_cons_True by done. by f_equal. Qed.

Lemma filter_none {A} (P : A → Prop) `{∀ x, Decision (P x)} (l : list A) :
  Forall (λ x, ¬ P x) l → filter P l = [].
Proof. induction 1; [done|]. by rewrite filter_cons_False. Qed.

Lemma alter_lookup_insert {A} (f : A → A) (m : gmap Z A) k x :
  m !! k = Some x → alter f k m = <[k := f x]> m.
Proof.
  intros Hk. apply map_eq. intros j. destruct (decide (j = k)) as [->|Hne].
  - by rewrite lookup_alter_eq, lookup_insert_eq, Hk.
  - by rewrite lookup_alter_ne, lookup_insert_ne.
Qed.

Lemma existsb_none {A} (p : A → bool) (l : list A) :
  (∀ x, x ∈ l → p x = false) → existsb p l = false.
Proof.
  induction l as [|x l IH]; intros Hp; [done|]. cbn. rewrite (Hp x) by left.
  apply IH. intros y Hy. apply Hp. by right.
Qed.

Lemma existsb_ext {A} (p q : A → bool) (l : list A) :
  (∀ x, p x = q x) → existsb p l = existsb q l.
Proof. intros Hpq. induction l as [|x l IH]; [done|]. cbn. by rewrite Hpq, IH. Qed.
