(* ===== verification/Floating.v ===== *)
(** * C++ [float] and [double] arithmetic

    IEEE 754 binary32 and binary64 as the Standard Library's [SpecFloat]
    (radix-2 mantissa and exponent, round to nearest even), which is the
    arithmetic of the source's [float] and [double] expressions evaluated
    without contraction: conversions between integers and floating point,
    decimal literals, and [std::strtod] on the alphabet the source feeds it. *)
From stdpp Require Import prelude list strings.
From Stdlib Require Import SpecFloat.
From S2P Require Import Prelude.
Local Open Scope Z_scope.

Abbreviation double := spec_float.
Abbreviation float := spec_float.

Module F64.
Definition prec : Z := 53.
Definition emax : Z := 1024.
Definition add : double → double → double := SFadd prec emax.
Definition sub : double → double → double := SFsub prec emax.
Definition mul : double → double → double := SFmul prec emax.
Definition div : double → double → double := SFdiv prec emax.
(** [static_cast<double>(z)] of an integer. *)
Definition of_Z (z : Z) : double := binary_normalize prec emax z 0 false.
(** The correctly rounded value of [m / d] for [0 < m] and [0 < d]. *)
Definition of_ratio (sign : bool) (m d : positive) : double :=
  let '(q, e, l) := SFdiv_core_binary prec emax (Z.pos m) 0 (Z.pos d) 0 in
  binary_round_aux prec emax sign q e l.
Definition lt (x y : double) : bool := SFltb x y.
Definition le (x y : double) : bool := SFleb x y.
End F64.

Module F32.
Definition prec : Z := 24.
Definition emax : Z := 128.
Definition add : float → float → float := SFadd prec emax.
Definition sub : float → float → float := SFsub prec emax.
Definition mul : float → float → float := SFmul prec emax.
Definition div : float → float → float := SFdiv prec emax.
(** [static_cast<float>(x)] of a [double]. *)
Definition of_double (x : double) : float :=
  match x with
  | S754_finite s m e => binary_normalize prec emax (cond_Zopp s (Z.pos m)) e s
  | _ => x
  end.
Definition of_Z (z : Z) : float := binary_normalize prec emax z 0 false.
Definition of_ratio (sign : bool) (m d : positive) : float :=
  let '(q, e, l) := SFdiv_core_binary prec emax (Z.pos m) 0 (Z.pos d) 0 in
  binary_round_aux prec emax sign q e l.
Definition lt (x y : float) : bool := SFltb x y.
Definition le (x y : float) : bool := SFleb x y.
Definition is_finite (x : float) : bool :=
  match x with S754_finite _ _ _ | S754_zero _ => true | _ => false end.
Definition zero : float := S754_zero false.
Definition one : float := of_Z 1.
Definition neg_infinity : float := S754_infinity true.
(** [std::max(a, b)] is [(a < b) ? b : a]; [std::min(a, b)] is
    [(b < a) ? b : a]. *)
Definition max (a b : float) : float := if lt a b then b else a.
Definition min (a b : float) : float := if lt b a then b else a.
End F32.

(** Truncation towards zero of a finite value; [None] for infinities and NaN. *)
Definition sf_trunc (x : spec_float) : option Z :=
  match x with
  | S754_zero _ => Some 0
  | S754_finite s m e =>
      let a := if 0 <=? e then Z.pos m * 2 ^ e else Z.pos m / 2 ^ (- e) in
      Some (if s then - a else a)
  | _ => None
  end.

(** Conversion of a floating value to an integer type of range [lo, hi]:
    undefined in C++ ([None]) when the truncated value does not fit. *)
Definition sf_to_int (lo hi : Z) (x : spec_float) : option Z :=
  match sf_trunc x with
  | Some z => if (lo <=? z) && (z <=? hi) then Some z else None
  | None => None
  end.

Definition double_to_i32 (x : double) : option Z := sf_to_int INT_MIN INT_MAX x.
Definition double_to_u32 (x : double) : option Z := sf_to_int 0 (2 ^ 32 - 1) x.
Definition double_to_u64 (x : double) : option Z := sf_to_int 0 (2 ^ 64 - 1) x.

(** What the target's conversion instruction yields where C++ leaves the
    conversion undefined; nothing is assumed about it. *)
Class Conversions := oob_conversion : double → Z.

Section Casts.
Context `{Conversions}.
Definition cast_i32 (x : double) : Z := default (i32 (oob_conversion x)) (double_to_i32 x).
Definition cast_u32 (x : double) : Z := default (u32 (oob_conversion x)) (double_to_u32 x).
Definition cast_u64 (x : double) : Z := default (u64 (oob_conversion x)) (double_to_u64 x).

Lemma sf_to_int_range lo hi x z : sf_to_int lo hi x = Some z → lo ≤ z ≤ hi.
Proof.
  unfold sf_to_int. destruct (sf_trunc x); [|done]. case_match; [|done].
  intros [= <-]. bool_prop. lia.
Qed.

Lemma cast_i32_range x : in_i32 (cast_i32 x).
Proof.
  unfold cast_i32. destruct (double_to_i32 x) eqn:E; [|apply i32_range].
  by apply sf_to_int_range in E.
Qed.

Lemma cast_u32_range x : in_u32 (cast_u32 x).
Proof.
  unfold cast_u32, in_u32. destruct (double_to_u32 x) eqn:E; [|apply u32_range].
  apply sf_to_int_range in E. simpl. lia.
Qed.
End Casts.

(** ** [std::strtod]

    The subject sequence over digits, sign, point and exponent letters: an
    optional sign, digits with an optional point (at least one digit), and an
    exponent part if it has at least one digit. [None] is "no conversion". *)
Definition is_digit (c : byte) : bool := (0x30 <=? byte_val c) && (byte_val c <=? 0x39).
Definition digit_val (c : byte) : Z := byte_val c - 0x30.

Fixpoint span_digits (s : bytes) : bytes * bytes :=
  match s with
  | c :: s' =>
      if is_digit c then let '(ds, rest) := span_digits s' in (c :: ds, rest)
      else ([], s)
  | [] => ([], [])
  end.

Definition digits_val (ds : bytes) : Z := foldl (λ acc c, 10 * acc + digit_val c) 0 ds.

Definition parse_sign (s : bytes) : bool * bytes :=
  match s with
  | c :: s' =>
      if decide (c = Init.Byte.x2d) then (true, s')
      else if decide (c = Init.Byte.x2b) then (false, s')
      else (false, s)
  | [] => (false, [])
  end.

Definition parse_exponent (s : bytes) : Z :=
  match s with
  | c :: s' =>
      if decide (c = Init.Byte.x65 ∨ c = Init.Byte.x45) then
        let '(neg, s'') := parse_sign s' in
        let '(ds, _) := span_digits s'' in
        if decide (ds = []) then 0
        else if neg then - digits_val ds else digits_val ds
      else 0
  | [] => 0
  end.

(** The double nearest to [(-1)^sign * m * 10^e]. *)
Definition decimal_to_double (sign : bool) (m e : Z) : double :=
  match m with
  | Z.pos p =>
      if 0 <=? e then
        binary_normalize F64.prec F64.emax (cond_Zopp sign (Z.pos p * 10 ^ e)) 0 sign
      else F64.of_ratio sign p (Z.to_pos (10 ^ (- e)))
  | _ => S754_zero sign
  end.

Definition strtod (s : bytes) : option double :=
  let '(sign, s1) := parse_sign s in
  let '(ip, s2) := span_digits s1 in
  let '(fp, s3) :=
    match s2 with
    | c :: s2' => if decide (c = Init.Byte.x2e) then span_digits s2' else ([], s2)
    | [] => ([], [])
    end in
  if decide (ip ++ fp = []) then None
  else Some (decimal_to_double sign (digits_val (ip ++ fp))
               (parse_exponent s3 - Z.of_nat (length fp))).

(** A decimal literal [m / 10^k] of the source. *)
Definition literal (m : positive) (k : Z) : double := F64.of_ratio false m (Z.to_pos (10 ^ k)).
Definition literalf (m : positive) (k : Z) : float := F32.of_ratio false m (Z.to_pos (10 ^ k)).

(** ** Decimal output

    [printf]'s ["%.*f"] (which [std::to_string] and [std::fixed] streams use):
    the exact value rounded half to even to [k] decimals, with at least one
    digit before the point. *)
Definition round_half_even (n d : Z) : Z :=
  let q := n / d in
  let r := n mod d in
  if 2 * r <? d then q else if d <? 2 * r then q + 1 else if Z.even q then q else q + 1.

(** The absolute value times [10^k], rounded. *)
Definition scaled_decimal (k : Z) (m : positive) (e : Z) : Z :=
  if 0 <=? e then Z.pos m * 2 ^ e * 10 ^ k else round_half_even (Z.pos m * 10 ^ k) (2 ^ (- e)).

Definition pad_zeros (k : Z) (s : bytes) : bytes :=
  replicate (Z.to_nat k - length s) Init.Byte.x30 ++ s.

Definition decimal_digits (k v : Z) : bytes :=
  to_string (v / 10 ^ k) ++ Init.Byte.x2e :: pad_zeros k (to_string (v mod 10 ^ k)).

Definition fixed_decimal (k : Z) (x : double) : bytes :=
  match x with
  | S754_zero s => (if s then [Init.Byte.x2d] else []) ++ decimal_digits k 0
  | S754_finite s m e => (if s then [Init.Byte.x2d] else []) ++ decimal_digits k (scaled_decimal k m e)
  | S754_infinity s => (if s then [Init.Byte.x2d] else []) ++ str "inf"
  | S754_nan => str "nan"
  end.

(** [std::to_string(double)] *)
Definition to_string_double (x : double) : bytes := fixed_decimal 6 x.

Example literal_0_8 : literal 8 1 = S754_finite false 7205759403792794 (-53).
Proof. reflexivity. Qed.
Example literal_0_7 : literal 7 1 = S754_finite false 6305039478318694 (-53).
Proof. reflexivity. Qed.
Example strtod_half : strtod (str "0.5e0,") = Some (literal 5 1).
Proof. reflexivity. Qed.
Example strtod_exp : strtod (str "-12.50e+2") = Some (F64.of_Z (-1250)).
Proof. reflexivity. Qed.
Example strtod_none : strtod (str "-.e5") = None.
Proof. reflexivity. Qed.
Example strtod_tiny : strtod (str "1e-320") = Some (S754_finite false 2024 (-1074)).
Proof. reflexivity. Qed.
Example fixed_1 : to_string_double (literal 7 1) = str "0.700000".
Proof. reflexivity. Qed.
Example fixed_2 : fixed_decimal 3 (F64.of_ratio true 12345 10) = str "-1234.500".
Proof. reflexivity. Qed.
Example fixed_3 : fixed_decimal 3 (F64.of_ratio false 1 16) = str "0.062".
Proof. reflexivity. Qed.
Example fixed_4 : fixed_decimal 3 (S754_zero false) = str "0.000".
Proof. reflexivity. Qed.
