(* ===== verification/FloatFacts.v ===== *)
(** * Rounding facts about binary64

    The bounds on [SpecFloat] rounding that the scheduler's adaptive batch
    target needs: scaling an [int32_t] by a constant below one and truncating
    gives an [int32_t] no larger than the operand. *)
From stdpp Require Import prelude.
From Stdlib Require Import SpecFloat.
From S2P Require Import Prelude Floating.
Local Open Scope Z_scope.

(** ** Digits and shifts *)

Lemma digits_bounds m : 0 < m → 1 ≤ Zdigits2 m ∧ 2 ^ (Zdigits2 m - 1) ≤ m < 2 ^ Zdigits2 m.
Proof.
  destruct m as [|p|p]; [lia| |lia]. intros _. cbn [Zdigits2].
  induction p as [p IH|p IH|]; cbn [digits2_pos]; [| |cbn; lia].
  all: rewrite Pos2Z.inj_succ; split; [lia|];
    replace (Z.succ _ - 1) with (Z.succ (Z.pos (digits2_pos p) - 1)) by lia;
    rewrite !Z.pow_succ_r by lia; lia.
Qed.

Lemma digits_unique m d : 0 < m → 2 ^ (d - 1) ≤ m < 2 ^ d → 1 ≤ d → Zdigits2 m = d.
Proof.
  intros Hm Hd H1. destruct (digits_bounds m Hm) as (H2 & H3).
  destruct (Z.lt_trichotomy (Zdigits2 m) d) as [Hlt|[Heq|Hgt]]; [|done|]; exfalso.
  - assert (2 ^ Zdigits2 m ≤ 2 ^ (d - 1)) by (apply Z.pow_le_mono_r; lia). lia.
  - assert (2 ^ d ≤ 2 ^ (Zdigits2 m - 1)) by (apply Z.pow_le_mono_r; lia). lia.
Qed.

Lemma shr_1_half r : 0 ≤ shr_m r → shr_m (shr_1 r) = shr_m r / 2.
Proof.
  destruct r as [m rr ss]. cbn [shr_m shr_1]. intros Hm.
  destruct m as [|[p|p|]|p]; cbn [shr_m]; try lia; zlia.
Qed.

Lemma shr_iter p r : 0 ≤ shr_m r → shr_m (iter_pos shr_1 p r) = shr_m r / 2 ^ Z.pos p.
Proof.
  revert r. induction p as [p IH|p IH|]; intros r Hr; cbn [iter_pos].
  - assert (0 ≤ shr_m (shr_1 r)) by (rewrite shr_1_half by done; zlia).
    rewrite IH; rewrite IH by done; [|apply Z.div_pos; [done|by apply Z.pow_pos_nonneg]].
    rewrite shr_1_half, !Z.div_div by lia. f_equal.
    rewrite Pos2Z.inj_xI. replace (2 * Z.pos p) with (Z.pos p + Z.pos p) by lia.
    rewrite !Z.pow_add_r by lia. ring.
  - rewrite IH; rewrite IH by done; [|apply Z.div_pos; [done|by apply Z.pow_pos_nonneg]].
    rewrite Z.div_div by lia. f_equal.
    rewrite (Pos2Z.inj_xO p). replace (2 * Z.pos p) with (Z.pos p + Z.pos p) by lia.
    rewrite Z.pow_add_r by lia. ring.
  - rewrite shr_1_half by done. done.
Qed.

Lemma shr_spec r e n :
  0 ≤ shr_m r → 0 ≤ n → shr_m (shr r e n).1 = shr_m r / 2 ^ n ∧ (shr r e n).2 = e + n.
Proof.
  intros Hr Hn. destruct n as [|p|p]; [|by rewrite <- shr_iter|lia].
  cbn. rewrite Z.div_1_r. lia.
Qed.

Lemma shr_m_of_loc m l : shr_m (shr_record_of_loc m l) = m.
Proof. by destruct l as [|[]]. Qed.

Lemma round_step m l : m ≤ round_nearest_even m l ≤ m + 1.
Proof. destruct l as [|[]]; cbn; try lia. destruct (Z.even m); lia. Qed.

Lemma fexp64 x : -1021 ≤ x → fexp F64.prec F64.emax x = x - 53.
Proof. unfold fexp, emin, F64.prec, F64.emax. lia. Qed.

(** ** Rounding to 53 bits *)

(** Rounding a mantissa of at least 53 bits, exponents in the normal range:
    the result is a normal number at most one unit above the truncation. *)
Lemma round_bound m e :
  0 < m → 53 ≤ Zdigits2 m → -1021 ≤ Zdigits2 m + e ≤ 1000 →
  let n := Zdigits2 m - 53 in
  ∃ m2 n2, binary_round_aux F64.prec F64.emax false m e loc_Exact
           = S754_finite false m2 (e + n + n2) ∧
    0 ≤ n2 ≤ 1 ∧ Z.pos m2 ≤ (m / 2 ^ n + 1) / 2 ^ n2.
Proof.
  intros Hm Hd He n. unfold binary_round_aux, shr_fexp.
  rewrite fexp64 by lia. replace (Zdigits2 m + e - 53 - e) with n by lia.
  destruct (shr_spec (shr_record_of_loc m loc_Exact) e n) as [Hm1 He1];
    [rewrite shr_m_of_loc; lia|lia|]. rewrite shr_m_of_loc in Hm1.
  destruct (shr (shr_record_of_loc m loc_Exact) e n) as [r1 e1]. cbn [fst snd] in *. subst e1.
  pose proof (digits_bounds m Hm) as (_ & Hlo & Hhi).
  assert (Hq : 2 ^ 52 ≤ m / 2 ^ n < 2 ^ 53).
  { split; [apply Z.div_le_lower_bound; [lia|]; rewrite <- Z.pow_add_r by lia|
            apply Z.div_lt_upper_bound; [lia|]; rewrite <- Z.pow_add_r by lia].
    - replace (n + 52) with (Zdigits2 m - 1) by lia. done.
    - replace (n + 53) with (Zdigits2 m) by lia. done. }
  pose proof (round_step (shr_m r1) (loc_of_shr_record r1)) as Hr.
  set (q := round_nearest_even _ _) in *. clearbody q. rewrite Hm1 in Hr.
  assert (Hdq : Zdigits2 q = 53 ∨ Zdigits2 q = 54 ∧ q = 2 ^ 53).
  { destruct (decide (q = 2 ^ 53)); [right|left].
    - split; [|done]. apply digits_unique; lia.
    - apply digits_unique; lia. }
  rewrite fexp64 by lia.
  destruct (shr_spec (shr_record_of_loc q loc_Exact) (e + n) (Zdigits2 q - 53)) as [Hm2 He2];
    [rewrite shr_m_of_loc; lia|lia|]. rewrite shr_m_of_loc in Hm2.
  replace (Zdigits2 q + (e + n) - 53 - (e + n)) with (Zdigits2 q - 53) by lia.
  destruct (shr (shr_record_of_loc q loc_Exact) (e + n) _) as [r2 e2]. cbn [fst snd] in *.
  assert (Hpos : 0 < shr_m r2).
  { rewrite Hm2. apply Z.div_str_pos. destruct Hdq as [->|[-> ->]]; cbn; lia. }
  destruct (shr_m r2) as [|m2|] eqn:Em2; [lia| |lia].
  rewrite (proj2 (Z.leb_le _ _)) by (unfold F64.prec, F64.emax; lia).
  exists m2, (Zdigits2 q - 53). rewrite He2. split_and!; [done|lia|lia|].
  rewrite Hm2. apply Z.div_le_mono; [|lia]. apply Z.pow_pos_nonneg; lia.
Qed.

Lemma round_exact m e :
  Zdigits2 (Z.pos m) = 53 → -1021 ≤ 53 + e ≤ 1000 →
  binary_round_aux F64.prec F64.emax false (Z.pos m) e loc_Exact = S754_finite false m e.
Proof.
  intros Hd He. unfold binary_round_aux, shr_fexp. rewrite fexp64, Hd by lia.
  replace (53 + e - 53 - e) with 0 by lia. cbn [shr shr_record_of_loc shr_m loc_of_shr_record
    round_nearest_even]. rewrite fexp64, Hd by lia.
  replace (53 + e - 53 - e) with 0 by lia. cbn [shr shr_m].
  by rewrite (proj2 (Z.leb_le _ _)) by (unfold F64.prec, F64.emax; lia).
Qed.

Lemma shift_left_value p d : Z.pos (Pos.iter xO p d) = Z.pos p * 2 ^ Z.pos d.
Proof.
  induction d as [|d IH] using Pos.peano_ind; [cbn; lia|].
  rewrite Pos.iter_succ, Pos2Z.inj_xO, IH, Pos2Z.inj_succ, Z.pow_succ_r by lia. lia.
Qed.

(** An integer of at most 52 bits converts exactly. *)
Lemma of_Z_exact t :
  0 < t → Zdigits2 t < 53 →
  ∃ m, F64.of_Z t = S754_finite false m (Zdigits2 t - 53) ∧
       Z.pos m = t * 2 ^ (53 - Zdigits2 t).
Proof.
  intros Ht Hd. pose proof (digits_bounds t Ht) as (Hd1 & Hlo & Hhi).
  destruct t as [|p|p]; try lia.
  unfold F64.of_Z, binary_normalize, binary_round, shl_align.
  change (Z.pos (digits2_pos p)) with (Zdigits2 (Z.pos p)). rewrite Z.add_0_r, fexp64 by lia.
  destruct (Zdigits2 (Z.pos p) - 53 - 0) as [|q|q] eqn:E; try lia.
  assert (Hv : Z.pos (Pos.iter xO p q) = Z.pos p * 2 ^ (53 - Zdigits2 (Z.pos p))).
  { rewrite shift_left_value. f_equal. f_equal. lia. }
  exists (Pos.iter xO p q). split; [|done]. apply round_exact; [|lia].
  apply digits_unique; [lia| |lia]. rewrite Hv. split.
  - replace (53 - 1) with (Zdigits2 (Z.pos p) - 1 + (53 - Zdigits2 (Z.pos p))) by lia.
    rewrite Z.pow_add_r by lia. apply Z.mul_le_mono_nonneg_r; [|lia]. by apply Z.pow_nonneg.
  - replace 53 with (Zdigits2 (Z.pos p) + (53 - Zdigits2 (Z.pos p))) at 2 by lia.
    rewrite Z.pow_add_r by lia. apply Z.mul_lt_mono_pos_r; [|lia].
    apply Z.pow_pos_nonneg; lia.
Qed.

(** Dropping [n + n2] bits with one round up stays below a strict bound. *)
Lemma round_trunc_le m n n2 j t m2 :
  0 ≤ n → 0 ≤ n2 → 0 ≤ j → m < t * 2 ^ (n + n2 + j) →
  m2 ≤ (m / 2 ^ n + 1) / 2 ^ n2 → m2 / 2 ^ j ≤ t.
Proof.
  intros Hn Hn2 Hj Hm Hm2.
  assert (Hq : m / 2 ^ n < t * 2 ^ (n2 + j)).
  { apply Z.div_lt_upper_bound; [by apply Z.pow_pos_nonneg|].
    replace (2 ^ n * (t * 2 ^ (n2 + j))) with (t * 2 ^ (n + n2 + j)); [done|].
    rewrite !Z.pow_add_r by lia. ring. }
  transitivity ((m / 2 ^ n + 1) / 2 ^ n2 / 2 ^ j).
  { apply Z.div_le_mono; [by apply Z.pow_pos_nonneg|done]. }
  rewrite Z.div_div by (lia || apply Z.pow_pos_nonneg; lia).
  rewrite <- Z.pow_add_r by lia.
  transitivity (t * 2 ^ (n2 + j) / 2 ^ (n2 + j)); [|rewrite Z.div_mul; lia].
  apply Z.div_le_mono; [apply Z.pow_pos_nonneg|]; lia.
Qed.

(** A 53-bit mantissa times a left-aligned integer has 105 or 106 bits. *)
Lemma product_digits t c d :
  0 < t → Zdigits2 t = d → d ≤ 53 → Zdigits2 (Z.pos c) = 53 →
  0 < t * 2 ^ (53 - d) * Z.pos c < t * 2 ^ (106 - d) ∧
  105 ≤ Zdigits2 (t * 2 ^ (53 - d) * Z.pos c) ≤ 106.
Proof.
  intros Ht Hd Hd53 Hc. destruct (digits_bounds t Ht) as (Hd1 & Hlo & Hhi).
  destruct (digits_bounds (Z.pos c)) as (_ & Hclo & Hchi); [lia|].
  rewrite Hc in Hclo, Hchi. rewrite Hd in Hd1, Hlo, Hhi.
  assert (H53 : 0 < 2 ^ (53 - d)) by (apply Z.pow_pos_nonneg; lia).
  assert (Hpow : 2 ^ (d - 1) * 2 ^ (53 - d) = 2 ^ 52)
    by (rewrite <- Z.pow_add_r by lia; f_equal; lia).
  assert (Hpow' : 2 ^ d * 2 ^ (53 - d) = 2 ^ 53)
    by (rewrite <- Z.pow_add_r by lia; f_equal; lia).
  assert (Htop : t * 2 ^ (106 - d) = t * 2 ^ (53 - d) * 2 ^ 53).
  { replace (106 - d) with (53 - d + 53) by lia. rewrite Z.pow_add_r by lia. ring. }
  assert (2 ^ 52 ≤ t * 2 ^ (53 - d) < 2 ^ 53) by nia.
  set (a := t * 2 ^ (53 - d)) in *. clearbody a.
  assert (Hm : 2 ^ 104 ≤ a * Z.pos c < 2 ^ 106) by nia.
  split; [rewrite Htop; split; [lia|apply Z.mul_lt_mono_pos_l; lia]|].
  destruct (digits_bounds (a * Z.pos c)) as (_ & HDlo & HDhi); [lia|].
  split; apply Z.nlt_ge; intros Hx.
  - assert (2 ^ Zdigits2 (a * Z.pos c) ≤ 2 ^ 104) by (apply Z.pow_le_mono_r; lia). lia.
  - assert (2 ^ 106 ≤ 2 ^ (Zdigits2 (a * Z.pos c) - 1)) by (apply Z.pow_le_mono_r; lia). lia.
Qed.

(** Scaling a positive [int32_t] by a normal constant in [1/2, 1) and
    truncating: in range, and at most the operand. *)
Lemma scale_down t c :
  0 < t ≤ INT_MAX → Zdigits2 (Z.pos c) = 53 →
  ∃ z, double_to_i32 (F64.mul (F64.of_Z t) (S754_finite false c (-53))) = Some z ∧ 0 ≤ z ≤ t.
Proof.
  intros Ht Hc. unfold INT_MAX in Ht.
  destruct (digits_bounds t) as (Hd1 & Hlo & _); [lia|].
  assert (Hd31 : Zdigits2 t ≤ 31).
  { apply Z.nlt_ge. intros Hx.
    assert (2 ^ 31 ≤ 2 ^ (Zdigits2 t - 1)) by (apply Z.pow_le_mono_r; lia). lia. }
  destruct (of_Z_exact t) as (mx & -> & Hmx); [lia|lia|].
  destruct (product_digits t c (Zdigits2 t)) as [Hm HD]; [lia|done|lia|done|].
  rewrite <- Hmx in Hm, HD. set (d := Zdigits2 t) in *. clearbody d.
  unfold F64.mul, SFmul. cbn [xorb]. rewrite <- Pos2Z.inj_mul in Hm, HD.
  destruct (round_bound (Z.pos (mx * c)) (d - 53 + -53)) as (m2 & n2 & -> & Hn2 & Hm2); [lia..|].
  set (D := Zdigits2 (Z.pos (mx * c))) in *. clearbody D.
  set (j := 106 - d - (D - 53) - n2).
  assert (Hle : Z.pos m2 / 2 ^ j ≤ t).
  { apply (round_trunc_le (Z.pos (mx * c)) (D - 53) n2); [lia..| |done].
    replace (D - 53 + n2 + j) with (106 - d) by lia. lia. }
  exists (Z.pos m2 / 2 ^ j).
  assert (Hpos : 0 ≤ Z.pos m2 / 2 ^ j) by (apply Z.div_pos; [lia|apply Z.pow_pos_nonneg; lia]).
  split; [|done]. unfold double_to_i32, sf_to_int, sf_trunc.
  rewrite (proj2 (Z.leb_gt 0 (d - 53 + -53 + (D - 53) + n2))) by lia.
  replace (- (d - 53 + -53 + (D - 53) + n2)) with j by lia.
  rewrite !(proj2 (Z.leb_le _ _)) by (unfold INT_MIN, INT_MAX; lia). done.
Qed.

(** ** The order of floating-point values

    On values that are not NaN, [x < y] is a strict weak order: irreflexive,
    transitive, with [y <= x] as its negation. *)
Definition not_nan (x : spec_float) : bool := match x with S754_nan => false | _ => true end.

(** Position in the order: sign class, then exponent, then mantissa. *)
Definition order_key (x : spec_float) : Z * (Z * Z) :=
  match x with
  | S754_infinity true => (-2, (0, 0))
  | S754_finite true m e => (-1, (- e, - Z.pos m))
  | S754_zero _ | S754_nan => (0, (0, 0))
  | S754_finite false m e => (1, (e, Z.pos m))
  | S754_infinity false => (2, (0, 0))
  end.

Definition key_lt (a b : Z * (Z * Z)) : Prop :=
  a.1 < b.1 ∨ a.1 = b.1 ∧ (a.2.1 < b.2.1 ∨ a.2.1 = b.2.1 ∧ a.2.2 < b.2.2).

Lemma SFcompare_keys x y :
  not_nan x → not_nan y →
  match SFcompare x y with
  | Some Lt => key_lt (order_key x) (order_key y)
  | Some Eq => order_key x = order_key y
  | Some Gt => key_lt (order_key y) (order_key x)
  | None => False
  end.
Proof.
  destruct x as [sx|[]| |[] mx ex], y as [sy|[]| |[] my ey]; cbn -[Z.compare Pos.compare_cont];
    intros ??; try done; unfold key_lt; cbn; try lia.
  all: destruct (Z.compare_spec ex ey); cbn; try lia; subst.
  all: change (Pos.compare_cont Eq mx my) with (mx ?= my)%positive;
    destruct (Pos.compare_spec mx my); cbn; subst; lia || done.
Qed.

Lemma SFltb_keys x y :
  not_nan x → not_nan y → SFltb x y = true ↔ key_lt (order_key x) (order_key y).
Proof.
  intros Hx Hy. pose proof (SFcompare_keys x y Hx Hy) as H. unfold SFltb, key_lt in *.
  destruct (SFcompare x y) as [[]|]; [rewrite H| | |done]; split; intros; lia || done.
Qed.

Lemma SFleb_keys x y :
  not_nan x → not_nan y → SFleb x y = true ↔ ¬ key_lt (order_key y) (order_key x).
Proof.
  intros Hx Hy. pose proof (SFcompare_keys x y Hx Hy) as H. unfold SFleb, key_lt in *.
  destruct (SFcompare x y) as [[]|]; [rewrite H| | |done]; split; intros; lia || done.
Qed.

Lemma SFltb_false x y : not_nan x → not_nan y → SFltb x y = false ↔ SFleb y x = true.
Proof.
  intros Hx Hy. rewrite SFleb_keys by done. rewrite <- SFltb_keys by done.
  destruct (SFltb x y); split; intros; congruence.
Qed.

Lemma SFleb_trans x y z :
  not_nan x → not_nan y → not_nan z → SFleb x y = true → SFleb y z = true → SFleb x z = true.
Proof. intros ???. rewrite !SFleb_keys by done. unfold key_lt. lia. Qed.

Lemma SFleb_refl x : not_nan x → SFleb x x = true.
Proof. intros. rewrite SFleb_keys by done. unfold key_lt. lia. Qed.

Lemma SFltb_leb x y : not_nan x → not_nan y → SFltb x y = true → SFleb x y = true.
Proof. intros ??. rewrite SFltb_keys, SFleb_keys by done. unfold key_lt. lia. Qed.

Lemma SFleb_ltb_trans x y z :
  not_nan x → not_nan y → not_nan z → SFleb x y = true → SFltb y z = true → SFltb x z = true.
Proof. intros ???. rewrite !SFltb_keys, SFleb_keys by done. unfold key_lt. lia. Qed.
