(* ===== verification/CLib.v ===== *)
(** * The C library's number and text functions

    [strtoul], [strtol], [atoi], [atof] and case folding as the C standard
    defines them, on an LP64 system and in the "C" locale, for C strings given
    as byte lists without their terminator; and that decimal text reads back. *)
From stdpp Require Import prelude list strings.
From Stdlib Require Import ZifyBool DecimalZ SpecFloat.
From S2P Require Import Prelude Floating.
Local Open Scope Z_scope.

(** ** The C library's number and text functions *)

(** [isspace] in the "C" locale. *)
Definition isspace (c : byte) : bool :=
  (byte_val c =? 32) || ((9 <=? byte_val c) && (byte_val c <=? 13)).

Fixpoint skip_isspace (s : bytes) : bytes :=
  match s with
  | c :: s' => if isspace c then skip_isspace s' else s
  | [] => []
  end.

(** Sign and magnitude of the subject sequence; no digits read as zero. *)
Definition parse_integer (s : bytes) : bool * Z :=
  let '(neg, s1) := parse_sign (skip_isspace s) in
  (neg, digits_val (fst (span_digits s1))).

(** [strtoul]/[strtoull]: [ULONG_MAX] when the magnitude does not fit, else
    negated in the return type after a minus sign. *)
Definition strtoul (s : bytes) : Z :=
  let '(neg, v) := parse_integer s in
  if 2 ^ 64 <=? v then 2 ^ 64 - 1 else if neg then u64 (- v) else v.

(** [strtol] saturates at [LONG_MIN] and [LONG_MAX]. *)
Definition strtol (s : bytes) : Z :=
  let '(neg, v) := parse_integer s in
  if neg then Z.max (- 2 ^ 63) (- v) else Z.min (2 ^ 63 - 1) v.

(** [tolower] in the "C" locale, and equality by [strcasecmp]. *)
Definition tolower (c : byte) : byte :=
  if (0x41 <=? byte_val c) && (byte_val c <=? 0x5A) then byte_of_Z (byte_val c + 0x20) else c.

Definition strcaseeq (s t : bytes) : bool := bool_decide (tolower <$> s = tolower <$> t).

(** ** [atoi] and [atof]

    [atoi] is [strtol] narrowed to [int]. [atof] is [strtod] on any text: white
    space, a sign, then [inf], [infinity] or [nan] in any case, a hexadecimal
    number, or a decimal one; anything else is zero. *)
Definition atoi (s : bytes) : Z := i32 (strtol s).

Definition starts_case (pat : string) (s : bytes) : bool :=
  strcaseeq (str pat) (take (length (str pat)) s).

Definition hex_val (c : byte) : option Z :=
  let v := byte_val c in
  if (0x30 <=? v) && (v <=? 0x39) then Some (v - 0x30)
  else if (0x41 <=? v) && (v <=? 0x46) then Some (v - 0x37)
  else if (0x61 <=? v) && (v <=? 0x66) then Some (v - 0x57)
  else None.

(** The digits at the front, most significant first, and the rest. *)
Fixpoint span_hex (s : bytes) : list Z * bytes :=
  match s with
  | c :: s' =>
      match hex_val c with
      | Some v => let '(ds, rest) := span_hex s' in (v :: ds, rest)
      | None => ([], s)
      end
  | [] => ([], [])
  end.

Definition binary_exponent (s : bytes) : Z :=
  match s with
  | c :: s' =>
      if strcaseeq [c] (str "p") then
        let '(neg, s'') := parse_sign s' in
        let v := digits_val (fst (span_digits s'')) in
        if neg then - v else v
      else 0
  | [] => 0
  end.

(** A hexadecimal number after its prefix; [None] without a digit. *)
Definition parse_hex_float (sign : bool) (s : bytes) : option double :=
  let '(ip, s1) := span_hex s in
  let '(fp, s2) := match s1 with
                   | c :: s1' => if decide (c = Init.Byte.x2e) then span_hex s1' else ([], s1)
                   | [] => ([], [])
                   end in
  if decide (ip ++ fp = []) then None
  else
    let m := foldl (λ acc d, 16 * acc + d) 0 (ip ++ fp) in
    Some (binary_normalize F64.prec F64.emax (cond_Zopp sign m)
            (binary_exponent s2 - 4 * Z.of_nat (length fp)) sign).

Definition atof (s : bytes) : double :=
  let '(sign, s1) := parse_sign (skip_isspace s) in
  if starts_case "inf" s1 then S754_infinity sign
  else if starts_case "nan" s1 then S754_nan
  else
    match (if starts_case "0x" s1 then parse_hex_float sign (drop 2 s1) else None) with
    | Some x => x
    | None => default (S754_zero false) (strtod ((if sign then Init.Byte.x2d else Init.Byte.x2b) :: s1))
    end.

Example atof_dec : atof (str " +0.7 rest") = literal 7 1.
Proof. vm_compute. reflexivity. Qed.
Example atof_hex : atof (str "-0x1.8p1") = F64.of_Z (-3).
Proof. vm_compute. reflexivity. Qed.
Example atof_bare_prefix : atof (str "-0xg") = S754_zero true.
Proof. vm_compute. reflexivity. Qed.
Example atof_inf : atof (str "-Infinity") = S754_infinity true.
Proof. vm_compute. reflexivity. Qed.
Example atof_none : atof (str "- 1") = S754_zero false.
Proof. vm_compute. reflexivity. Qed.
Example atof_two_signs : atof (str "+-1") = S754_zero false.
Proof. vm_compute. reflexivity. Qed.
Example atoi_wraps : atoi (str "4294967297") = 1.
Proof. vm_compute. reflexivity. Qed.

(** ** Decimal text reads back *)

Lemma span_digits_spec ds rest :
  Forall (λ c, is_digit c = true) ds →
  match rest with c :: _ => is_digit c = false | [] => True end →
  span_digits (ds ++ rest) = (ds, rest).
Proof.
  intros Hd Hr. induction Hd as [|c ds Hc _ IH]; cbn.
  - destruct rest as [|c rest]; [done|]. cbn. by rewrite Hr.
  - by rewrite Hc, IH.
Qed.

Ltac digit :=
  match goal with
  | |- context [digit_val ?c] =>
      let v := eval vm_compute in (digit_val c) in change (digit_val c) with v
  end.

Definition digit_step (acc : Z) (c : byte) : Z := 10 * acc + digit_val c.

Lemma uint_digits d :
  Forall (λ c, is_digit c = true) (str (DecimalString.NilEmpty.string_of_uint d)).
Proof. induction d; cbn; constructor; done. Qed.

Lemma uint_value_acc d acc :
  foldl digit_step (Z.pos acc) (str (DecimalString.NilEmpty.string_of_uint d)) =
  Z.pos (Pos.of_uint_acc d acc).
Proof.
  revert acc. induction d; intros acc; [done|..]; cbn -[digit_step Pos.mul Pos.add];
    rewrite <- IHd; f_equal; unfold digit_step; digit; lia.
Qed.

Lemma uint_value d :
  foldl digit_step 0 (str (DecimalString.NilEmpty.string_of_uint d)) = Z.of_uint d.
Proof.
  unfold Z.of_uint. induction d; try done; cbn -[digit_step];
    by rewrite <- uint_value_acc.
Qed.

Lemma nilzero_digits d :
  ∃ ds, str (DecimalString.NilZero.string_of_uint d) = ds ∧
        Forall (λ c, is_digit c = true) ds ∧ digits_val ds = Z.of_uint d ∧ ds ≠ [].
Proof.
  eexists. split; [done|]. destruct d; cbn [DecimalString.NilZero.string_of_uint];
    (split; [apply (uint_digits (Decimal.D0 Decimal.Nil)) || apply uint_digits|]);
    (split; [apply (uint_value (Decimal.D0 Decimal.Nil)) || apply uint_value|done]).
Qed.

Lemma digit_not_sign c s :
  is_digit c = true → skip_isspace (c :: s) = c :: s ∧ parse_sign (c :: s) = (false, c :: s).
Proof.
  intros Hc. unfold is_digit in Hc. cbn. unfold isspace.
  replace ((byte_val c =? 32) || (9 <=? byte_val c) && (byte_val c <=? 13)) with false by lia.
  split; [done|]. rewrite !decide_False; [done|by intros ->..].
Qed.

Lemma parse_integer_to_string z : parse_integer (to_string z) = (z <? 0, Z.abs z).
Proof.
  unfold to_string, parse_integer. pose proof (DecimalZ.of_to z) as Hz.
  assert (Hneg : (z <? 0) = match Z.to_int z with Decimal.Neg _ => true | _ => false end).
  { by destruct z. }
  assert (Habs : Z.abs z = match Z.to_int z with Decimal.Neg d | Decimal.Pos d => Z.of_uint d end).
  { destruct (Z.to_int z); cbn in Hz; unfold Z.of_uint in *; lia. }
  rewrite Hneg, Habs. clear. destruct (Z.to_int z) as [d|d]; cbn [DecimalString.NilZero.string_of_int];
    destruct (nilzero_digits d) as (ds & Hds & Hall & Hv & Hne).
  - rewrite Hds. destruct ds as [|c ds]; [done|]. apply Forall_cons in Hall as Hc. destruct Hc as [Hc _].
    destruct (digit_not_sign c ds Hc) as [-> ->].
    rewrite <- (app_nil_r (c :: ds)), span_digits_spec by done. by cbn [fst]; rewrite Hv.
  - change (str (String.String _ ?x)) with (Init.Byte.x2d :: str x). rewrite Hds.
    change (parse_sign (skip_isspace _)) with (true, ds).
    rewrite <- (app_nil_r ds), span_digits_spec by done. by cbn [fst]; rewrite Hv.
Qed.

Lemma strtoul_to_string z : 0 ≤ z < 2 ^ 64 → strtoul (to_string z) = z.
Proof.
  intros Hz. unfold strtoul. rewrite parse_integer_to_string.
  replace (z <? 0) with false by lia. rewrite Z.abs_eq by lia.
  by replace (2 ^ 64 <=? z) with false by lia.
Qed.

Lemma strtol_to_string z : - 2 ^ 63 ≤ z < 2 ^ 63 → strtol (to_string z) = z.
Proof.
  intros Hz. unfold strtol. rewrite parse_integer_to_string. destruct (Z.ltb_spec z 0); lia.
Qed.

Lemma digits_val_nonneg ds : Forall (λ c, is_digit c = true) ds → 0 ≤ digits_val ds.
Proof.
  unfold digits_val. intros Hd. generalize (Z.le_refl 0). generalize 0 at 2 4.
  induction Hd as [|c ds Hc _ IH]; intros acc Hacc; cbn; [lia|].
  apply IH. unfold is_digit in Hc. unfold digit_val. lia.
Qed.

Lemma span_digits_all s : Forall (λ c, is_digit c = true) (fst (span_digits s)).
Proof.
  induction s as [|c s IH]; cbn; [constructor|].
  destruct (is_digit c) eqn:Hc; [|constructor]. destruct (span_digits s). by constructor.
Qed.

Lemma strtoul_range s : in_u64 (strtoul s).
Proof.
  unfold strtoul, parse_integer, in_u64. destruct (parse_sign _) as [neg s1].
  pose proof (digits_val_nonneg _ (span_digits_all s1)).
  destruct (Z.leb_spec (2 ^ 64) (digits_val (span_digits s1).1)); [lia|].
  destruct neg; [apply u64_range|lia].
Qed.

