(* ===== verification/Sys.v ===== *)
(** * Programs that make system calls

    The straight-line and looping code around sockets and the terminal is
    written in a small monad: a program reads the answers of its system calls
    from a list and logs what it does. [None] means that the list ends before
    the program does, so a theorem that quantifies over the answers speaks about
    every behaviour of the operating system, and one that gives a result for a
    class of answer lists also says that the program terminates on them. *)
From stdpp Require Import prelude list strings.
From S2P Require Import Prelude.
Local Open Scope Z_scope.

(** ** Calls, answers and the log *)

(** Reading the shutdown flag, which a signal handler sets at any time, is an
    interaction like the system calls: it is set when the answer is not zero. *)
Inductive syscall :=
| SysSocket
| SysConnect (fd : Z) (path : bytes)
| SysBind (fd : Z) (path : bytes)
| SysChmod (path : bytes) (mode : Z)
| SysListen (fd backlog : Z)
| SysAccept (fd : Z)
| SysClose (fd : Z)
| SysUnlink (path : bytes)
| SysGetFd (fd : Z)
| SysSetCloexec (fd flags : Z)
| SysGetFl (fd : Z)
| SysSetNonblock (fd flags : Z)
| SysNoSigpipe (fd : Z)
| SysRead (fd n : Z)
| SysWrite (fd : Z) (data : bytes)
| SysUsleep (usec : Z)
| SysKqueue
| LoadShutdown.

#[global] Instance syscall_eq_dec : EqDecision syscall.
Proof. solve_decision. Defined.

Inductive sys_errno := EINTR | EAGAIN | EWOULDBLOCK | EANY.
#[global] Instance sys_errno_eq_dec : EqDecision sys_errno.
Proof. solve_decision. Defined.

(** The return value, the value of [errno] after the call, the bytes read. *)
Record answer := { a_ret : Z; a_errno : sys_errno; a_data : bytes }.

Definition ok_answer (r : Z) : answer := {| a_ret := r; a_errno := EANY; a_data := [] |}.
Definition read_answer (d : bytes) : answer :=
  {| a_ret := Z.of_nat (length d); a_errno := EANY; a_data := d |}.
Definition fail_answer (e : sys_errno) : answer := {| a_ret := -1; a_errno := e; a_data := [] |}.

(** Calls into llama.cpp that acquire and release what the process holds. *)
Inductive library_call := llama_backend_init | llama_backend_free | llama_model_free | llama_free.
#[global] Instance library_call_eq_dec : EqDecision library_call.
Proof. solve_decision. Defined.

(** What is logged: system calls with their answers, calls into the library, and
    output to the terminal. *)
Inductive logged :=
| Called (c : syscall) (a : answer)
| Library (c : library_call)
| Stdout (text : bytes)
| Stderr (text : bytes).

(** What differs between systems: the size of [sockaddr_un::sun_path], the
    texts [perror] prints, whether [SO_NOSIGPIPE] exists, and [O_NONBLOCK]. *)
Class Platform := {
  sun_path_size : Z;
  strerror : sys_errno → bytes;
  have_so_nosigpipe : bool;
  o_nonblock : Z;
}.

(** A concrete platform, for examples. *)
Definition Darwin : Platform := {|
  sun_path_size := 104; strerror := λ _, str "error"; have_so_nosigpipe := true; o_nonblock := 4 |}.

(** ** The monad *)

Record Sys (A : Type) := MkSys { run : list answer → option (A * list answer * list logged) }.
Arguments MkSys {A} _.
Arguments run {A} _ _.

#[global] Instance sys_ret : MRet Sys := λ A x, MkSys (λ ans, Some (x, ans, [])).
#[global] Instance sys_bind : MBind Sys := λ A B f m, MkSys (λ ans,
  match run m ans with
  | Some (x, ans', l) =>
      match run (f x) ans' with
      | Some (y, ans'', l') => Some (y, ans'', l ++ l')
      | None => None
      end
  | None => None
  end).

Definition invoke (c : syscall) : Sys answer := MkSys (λ ans,
  match ans with
  | a :: ans' => Some (a, ans', [Called c a])
  | [] => None
  end).

Definition log (e : logged) : Sys () := MkSys (λ ans, Some ((), ans, [e])).

(** [std::perror] after a failed call. *)
Definition perror `{Platform} (what : string) (a : answer) : Sys () :=
  log (Stderr (str what ++ str ": " ++ strerror (a_errno a) ++ [Init.Byte.x0a])).

(** A loop: the body says whether to go on ([inl]) or to stop ([inr]). Every
    round of the loops here makes a call, so there are never more rounds than
    answers, and their number bounds the recursion. *)
Fixpoint loop_rounds {S R} (fuel : nat) (body : S → Sys (S + R)) (s : S) : Sys R :=
  match fuel with
  | O => MkSys (λ _, None)
  | Datatypes.S fuel' =>
      r ← body s;
      match r with
      | inl s' => loop_rounds fuel' body s'
      | inr x => mret x
      end
  end.

Definition loop {S R} (body : S → Sys (S + R)) (s : S) : Sys R :=
  MkSys (λ ans, run (loop_rounds (Datatypes.S (length ans)) body s) ans).

(** ** Running programs *)

Lemma run_ret {A} (x : A) ans : run (mret x) ans = Some (x, ans, []).
Proof. reflexivity. Qed.

Lemma run_bind {A B} (m : Sys A) (f : A → Sys B) ans x ans' l :
  run m ans = Some (x, ans', l) →
  run (m ≫= f) ans = (λ '(y, ans'', l'), (y, ans'', l ++ l')) <$> run (f x) ans'.
Proof. intros E. unfold mbind, sys_bind. cbn [run]. rewrite E. by destruct (run (f x) ans') as [[[??]?]|]. Qed.

Lemma run_bind_None {A B} (m : Sys A) (f : A → Sys B) ans :
  run m ans = None → run (m ≫= f) ans = None.
Proof. intros E. unfold mbind, sys_bind. cbn [run]. by rewrite E. Qed.

Lemma run_bind_Some {A B} (m : Sys A) (f : A → Sys B) ans y ans'' l :
  run (m ≫= f) ans = Some (y, ans'', l) ↔
  ∃ x ans' l1 l2, run m ans = Some (x, ans', l1) ∧ run (f x) ans' = Some (y, ans'', l2) ∧ l = l1 ++ l2.
Proof.
  unfold mbind, sys_bind. cbn [run]. destruct (run m ans) as [[[x ans'] l1]|].
  - destruct (run (f x) ans') as [[[y' ans2] l2]|] eqn:E.
    + split; [intros [= -> -> <-]; by exists x, ans', l1, l2|].
      by intros (? & ? & ? & ? & [= <- <- <-] & E' & ->); rewrite E in E'; injection E' as -> -> ->.
    + split; [done|]. by intros (? & ? & ? & ? & [= <- <- <-] & E' & _); rewrite E in E'.
  - split; [done|]. by intros (? & ? & ? & ? & [=] & _).
Qed.

Lemma run_invoke c a ans : run (invoke c) (a :: ans) = Some (a, ans, [Called c a]).
Proof. reflexivity. Qed.

Lemma run_log e ans : run (log e) ans = Some ((), ans, [e]).
Proof. reflexivity. Qed.

Lemma run_log_Some {A} e (f : () → Sys A) ans x ans' l :
  run (log e ≫= f) ans = Some (x, ans', l) →
  ∃ l', run (f ()) ans = Some (x, ans', l') ∧ l = e :: l'.
Proof. intros (? & ? & ? & l2 & [= <- <- <-] & E & ->)%run_bind_Some. by exists l2. Qed.

(** ** Programs only use up answers *)

Definition uses_up {A} (m : Sys A) : Prop :=
  ∀ ans x ans' l, run m ans = Some (x, ans', l) → ∃ used, ans = used ++ ans'.

Create HintDb sys.

Lemma uses_up_ret {A} (x : A) : uses_up (mret x).
Proof. intros ans y ans' l [= -> -> _]. by exists []. Qed.

Lemma uses_up_invoke c : uses_up (invoke c).
Proof. intros [|a ans] y ans' l; [done|]. intros [= -> -> _]. by exists [y]. Qed.

Lemma uses_up_log e : uses_up (log e).
Proof. intros ans y ans' l [= _ -> _]. by exists []. Qed.

Lemma uses_up_bind {A B} (m : Sys A) (f : A → Sys B) :
  uses_up m → (∀ x, uses_up (f x)) → uses_up (m ≫= f).
Proof.
  intros Hm Hf ans y ans' l (x & ans1 & l1 & l2 & E1 & E2 & _)%run_bind_Some.
  apply Hm in E1 as [u1 ->]. apply Hf in E2 as [u2 ->]. exists (u1 ++ u2). by rewrite <- app_assoc.
Qed.

Lemma uses_up_rounds {S R} n (body : S → Sys (S + R)) s :
  (∀ s, uses_up (body s)) → uses_up (loop_rounds n body s).
Proof.
  intros Hb. revert s. induction n as [|n IH]; intros s; [done|]. cbn [loop_rounds].
  apply uses_up_bind; [done|]. intros [s'|x]; [apply IH|apply uses_up_ret].
Qed.

Lemma uses_up_loop {S R} (body : S → Sys (S + R)) s :
  (∀ s, uses_up (body s)) → uses_up (loop body s).
Proof. intros Hb ans x ans' l Hr. by eapply (uses_up_rounds (Datatypes.S (length ans))), Hr. Qed.

#[export] Hint Resolve uses_up_ret uses_up_invoke uses_up_log : sys.

Ltac uses_up :=
  repeat first
    [ progress auto with sys
    | apply uses_up_bind | apply uses_up_loop
    | match goal with
      | |- ∀ _, _ => intro; cbv beta
      | |- uses_up (match ?x with _ => _ end) => destruct x
      end ].

Lemma uses_up_length {A} (m : Sys A) ans x ans' l :
  uses_up m → run m ans = Some (x, ans', l) → (length ans' ≤ length ans)%nat.
Proof. intros Hm Hr. apply Hm in Hr as [u ->]. rewrite length_app. lia. Qed.

(** A program that starts with a call uses up at least one answer. *)
Lemma call_first_length {A} c (f : answer → Sys A) ans x ans' l :
  (∀ a, uses_up (f a)) → run (invoke c ≫= f) ans = Some (x, ans', l) →
  (length ans' < length ans)%nat.
Proof.
  intros Hf (a & ans1 & l1 & l2 & E1 & E2 & _)%run_bind_Some. apply uses_up_length in E2; [|done].
  destruct ans as [|b ans]; [done|]. injection E1 as _ -> _. cbn [length]. lia.
Qed.

(** A round of a loop that goes on has made a call. *)
Definition makes_call {S R} (body : S → Sys (S + R)) : Prop :=
  ∀ s ans s' ans' l, run (body s) ans = Some (inl s', ans', l) → (length ans' < length ans)%nat.

Lemma rounds_enough {S R} (body : S → Sys (S + R)) n1 n2 s ans :
  makes_call body → (length ans < n1)%nat → (length ans < n2)%nat →
  run (loop_rounds n1 body s) ans = run (loop_rounds n2 body s) ans.
Proof.
  intros Hb. revert n2 s ans.
  induction n1 as [|n1 IH]; intros [|n2] s ans H1 H2; [lia..|]. cbn [loop_rounds].
  destruct (run (body s) ans) as [[[r ans'] l]|] eqn:E; [|by rewrite !run_bind_None].
  rewrite !(run_bind _ _ _ _ _ _ E). f_equal. destruct r as [s'|x]; [|done].
  apply Hb in E. apply IH; lia.
Qed.

(** The equation of the loop. *)
Lemma run_loop {S R} (body : S → Sys (S + R)) s ans :
  makes_call body →
  run (loop body s) ans =
  run (r ← body s; match r with inl s' => loop body s' | inr x => mret x end) ans.
Proof.
  intros Hb. cbn [run loop loop_rounds].
  destruct (run (body s) ans) as [[[r ans'] l]|] eqn:E; [|by rewrite !run_bind_None].
  rewrite !(run_bind _ _ _ _ _ _ E). f_equal. destruct r as [s'|x]; [|done].
  apply Hb in E. cbn [run loop]. apply rounds_enough; [done|lia..].
Qed.

(** An invariant of the state and the log of a loop. *)
Lemma loop_ind {S R} (body : S → Sys (S + R)) (I : S → list logged → Prop)
    (Q : R → list logged → Prop) s ans x ans' l l0 :
  makes_call body →
  (∀ s ans r ans' l0 l, I s l0 → run (body s) ans = Some (r, ans', l) →
     match r with inl s' => I s' (l0 ++ l) | inr x => Q x (l0 ++ l) end) →
  I s l0 → run (loop body s) ans = Some (x, ans', l) → Q x (l0 ++ l).
Proof.
  intros Hb Hstep. remember (length ans) as n eqn:En. revert s ans l l0 En.
  induction n as [n IH] using lt_wf_ind. intros s ans l l0 -> Hs Hr.
  rewrite run_loop in Hr by done. apply run_bind_Some in Hr as (r & ans1 & l1 & l2 & E & Hr & ->).
  pose proof (Hstep _ _ _ _ _ _ Hs E) as Hn. rewrite app_assoc. destruct r as [s'|y].
  - eapply IH; [by eapply Hb|done|exact Hn|exact Hr].
  - injection Hr as -> -> <-. by rewrite app_nil_r.
Qed.

(** ** Reading the log *)

(** What was written to the terminal, and the bytes a descriptor took. *)
Definition stdout (l : list logged) : bytes :=
  l ≫= λ e, match e with Stdout t => t | _ => [] end.
Definition stderr (l : list logged) : bytes :=
  l ≫= λ e, match e with Stderr t => t | _ => [] end.
Definition sent (f : Z) (l : list logged) : bytes :=
  l ≫= λ e, match e with
            | Called (SysWrite f' d) a => if decide (f' = f) then take (Z.to_nat (a_ret a)) d else []
            | _ => []
            end.

(** The descriptors that are open after the log, of those opened in it. *)
Definition fd_effect (open : list Z) (e : logged) : list Z :=
  match e with
  | Called SysSocket a | Called (SysAccept _) a | Called SysKqueue a =>
      if 0 <=? a_ret a then a_ret a :: open else open
  | Called (SysClose f) _ => filter (λ g, g ≠ f) open
  | _ => open
  end.
Definition open_fds (open : list Z) (l : list logged) : list Z := foldl fd_effect open l.

(** The calls into the library, in order. *)
Definition library_calls (l : list logged) : list library_call :=
  omap (λ e, match e with Library c => Some c | _ => None end) l.

Lemma library_calls_app l1 l2 : library_calls (l1 ++ l2) = library_calls l1 ++ library_calls l2.
Proof. apply omap_app. Qed.

Lemma library_calls_cons c l : library_calls (Library c :: l) = c :: library_calls l.
Proof. reflexivity. Qed.
Lemma open_fds_library o c l : open_fds o (Library c :: l) = open_fds o l.
Proof. reflexivity. Qed.

Lemma stdout_app l1 l2 : stdout (l1 ++ l2) = stdout l1 ++ stdout l2.
Proof. apply bind_app. Qed.
Lemma stderr_app l1 l2 : stderr (l1 ++ l2) = stderr l1 ++ stderr l2.
Proof. apply bind_app. Qed.
Lemma sent_app f l1 l2 : sent f (l1 ++ l2) = sent f l1 ++ sent f l2.
Proof. apply bind_app. Qed.
Lemma open_fds_app o l1 l2 : open_fds o (l1 ++ l2) = open_fds (open_fds o l1) l2.
Proof. apply foldl_app. Qed.

(** The views of a log together: terminal output, bytes sent, open
    descriptors. *)
Record log_is (f : Z) (l : list logged) (out err snt : bytes) (o o' : list Z) : Prop := {
  li_out : stdout l = out;
  li_err : stderr l = err;
  li_sent : sent f l = snt;
  li_open : open_fds o l = o';
}.

Lemma log_is_nil f o : log_is f [] [] [] [] o o.
Proof. done. Qed.

Lemma log_is_app f l1 l2 out1 out2 err1 err2 s1 s2 o o1 o2 :
  log_is f l1 out1 err1 s1 o o1 → log_is f l2 out2 err2 s2 o1 o2 →
  log_is f (l1 ++ l2) (out1 ++ out2) (err1 ++ err2) (s1 ++ s2) o o2.
Proof.
  intros [<- <- <- <-] [<- <- <- <-].
  split; [apply stdout_app|apply stderr_app|apply sent_app|apply open_fds_app].
Qed.

(** [m] returns [x] on the answers [ans] and any rest, with a log of these
    views. *)
Definition runs_to {A} (m : Sys A) (ans : list answer) (x : A)
    (f : Z) (out err snt : bytes) (o o' : list Z) : Prop :=
  ∀ rest, ∃ l, run m (ans ++ rest) = Some (x, rest, l) ∧ log_is f l out err snt o o'.

Lemma runs_ret {A} (x : A) f o : runs_to (mret x) [] x f [] [] [] o o.
Proof. intros rest. by exists []. Qed.

Lemma runs_bind {A B} (m : Sys A) (k : A → Sys B) ans1 ans2 x y f out1 out2 err1 err2 s1 s2 o o1 o2 :
  runs_to m ans1 x f out1 err1 s1 o o1 → runs_to (k x) ans2 y f out2 err2 s2 o1 o2 →
  runs_to (m ≫= k) (ans1 ++ ans2) y f (out1 ++ out2) (err1 ++ err2) (s1 ++ s2) o o2.
Proof.
  intros Hm Hk rest. rewrite <- app_assoc.
  destruct (Hm (ans2 ++ rest)) as (l1 & E1 & V1). destruct (Hk rest) as (l2 & E2 & V2).
  exists (l1 ++ l2). split; [|by eapply log_is_app].
  rewrite (run_bind _ _ _ _ _ _ E1), E2. done.
Qed.

Lemma runs_invoke c a f o :
  runs_to (invoke c) [a] a f [] [] (sent f [Called c a]) o (open_fds o [Called c a]).
Proof. intros rest. by exists [Called c a]. Qed.

Lemma runs_log e f o : runs_to (log e) [] () f (stdout [e]) (stderr [e]) (sent f [e]) o (open_fds o [e]).
Proof. intros rest. by exists [e]. Qed.

Lemma runs_loop {S R} (body : S → Sys (S + R)) s ans x f out err snt o o' :
  makes_call body →
  runs_to (r ← body s; match r with inl s' => loop body s' | inr x => mret x end)
    ans x f out err snt o o' →
  runs_to (loop body s) ans x f out err snt o o'.
Proof. intros Hb Hr rest. rewrite run_loop by done. apply Hr. Qed.

Lemma runs_eq {A} (m : Sys A) ans ans' x f out out' err err' snt snt' o o1 o1' :
  runs_to m ans x f out err snt o o1 → ans = ans' → out = out' → err = err' → snt = snt' →
  o1 = o1' → runs_to m ans' x f out' err' snt' o o1'.
Proof. by intros H -> -> -> -> ->. Qed.

(** A call whose only effect is its answer. *)
Lemma runs_call {A} c a (k : answer → Sys A) ans x f out err snt o o1 :
  runs_to (k a) ans x f out err snt (open_fds o [Called c a]) o1 →
  runs_to (invoke c ≫= k) (a :: ans) x f out err (sent f [Called c a] ++ snt) o o1.
Proof. intros Hk. exact (runs_bind _ _ _ _ _ _ _ _ _ _ _ _ _ _ _ _ (runs_invoke c a f o) Hk). Qed.

Lemma runs_logged {A} e (k : () → Sys A) ans x f out err snt o o1 :
  runs_to (k ()) ans x f out err snt (open_fds o [e]) o1 →
  runs_to (log e ≫= k) ans x f (stdout [e] ++ out) (stderr [e] ++ err) (sent f [e] ++ snt) o o1.
Proof. intros Hk. exact (runs_bind _ _ _ _ _ _ _ _ _ _ _ _ _ _ _ _ (runs_log e f o) Hk). Qed.

Lemma runs_ret_bind {A B} (x : A) (k : A → Sys B) ans y f out err snt o o1 :
  runs_to (k x) ans y f out err snt o o1 → runs_to (mret x ≫= k) ans y f out err snt o o1.
Proof. intros Hk. exact (runs_bind _ _ _ _ _ _ _ _ _ _ _ _ _ _ _ _ (runs_ret x f o) Hk). Qed.

Lemma run_assoc {A B C} (m : Sys A) (f : A → Sys B) (g : B → Sys C) ans :
  run ((m ≫= f) ≫= g) ans = run (m ≫= λ x, f x ≫= g) ans.
Proof.
  destruct (run m ans) as [[[x ans1] l1]|] eqn:E1.
  - rewrite (run_bind m _ _ _ _ _ E1). destruct (run (f x) ans1) as [[[y ans2] l2]|] eqn:E2.
    + assert (Emf : run (m ≫= f) ans = Some (y, ans2, l1 ++ l2)) by (by rewrite (run_bind _ _ _ _ _ _ E1), E2).
      rewrite (run_bind _ g _ _ _ _ Emf), (run_bind _ g _ _ _ _ E2).
      destruct (run (g y) ans2) as [[[??]?]|]; [|done]. cbn. by rewrite app_assoc.
    + rewrite (run_bind_None (f x)) by done. apply run_bind_None.
      by rewrite (run_bind _ _ _ _ _ _ E1), E2.
  - by rewrite !run_bind_None by (try apply run_bind_None; done).
Qed.

Lemma runs_assoc {A B C} (m : Sys A) (f : A → Sys B) (g : B → Sys C) ans x fd out err snt o o1 :
  runs_to (m ≫= λ x, f x ≫= g) ans x fd out err snt o o1 →
  runs_to ((m ≫= f) ≫= g) ans x fd out err snt o o1.
Proof. intros Hr rest. rewrite run_assoc. apply Hr. Qed.

(** Inversion of a run of straight-line code: one goal per path, with the log
    written out. *)
Ltac inv_run H :=
  cbv beta in H;
  lazymatch type of H with
  | run (_ ≫= _) _ = Some _ =>
      let x := fresh "x" in let ans := fresh "ans" in
      let l1 := fresh "l" in let l2 := fresh "l" in let E := fresh "E" in let Hl := fresh "Hl" in
      apply run_bind_Some in H as (x & ans & l1 & l2 & E & H & Hl); subst; inv_run E; inv_run H
  | run (invoke _) ?ans = Some _ =>
      destruct ans; [discriminate H|injection H; clear H; intros; subst]
  | run (log _) _ = Some _ => injection H; clear H; intros; subst
  | run (perror _ _) _ = Some _ => unfold perror in H; inv_run H
  | run (mret _) _ = Some _ => injection H; clear H; intros; subst
  | run (match ?x with _ => _ end) _ = Some _ => destruct x eqn:?; inv_run H
  | _ => idtac
  end.
