(* ===== verification/UdsServer.v ===== *)
(** * The listening socket ([src/ipc/uds_server.h], [src/ipc/uds_server.cpp])

    [UDSServer] as programs over system calls: opening and closing the socket,
    the blocking accept loop, and the destructor; and that no path leaks a
    descriptor. *)
From stdpp Require Import prelude list strings.
From Stdlib Require Import ZifyBool.
From S2P Require Import Prelude Sys.
Local Open Scope Z_scope.

(** ** Definitions *)

Record UDSServer := { path_ : bytes; mode_ : Z; listen_fd_ : Z }.

Definition eta_server (s : UDSServer) : UDSServer :=
  {| path_ := path_ s; mode_ := mode_ s; listen_fd_ := listen_fd_ s |}.
#[global] Instance set_listen_fd_ : Setter listen_fd_ := ltac:(derive_setter eta_server).

Definition new_server (path : bytes) (mode : Z) : UDSServer :=
  {| path_ := path; mode_ := mode; listen_fd_ := -1 |}.

(** [std::oct]: the octal text of an [unsigned], at most eleven digits. *)
Fixpoint octal (fuel : nat) (z : Z) : bytes :=
  match fuel with
  | O => []
  | S fuel' => (if z <? 8 then [] else octal fuel' (z / 8)) ++ [byte_of_Z (0x30 + z mod 8)]
  end.

Definition FD_CLOEXEC : Z := 1.

Section Server.
Context `{Platform}.

(** Closing the descriptor on an error path of [open_socket_]. *)
Definition drop_socket (s : UDSServer) : Sys (bool * UDSServer) :=
  invoke (SysClose (listen_fd_ s));;
  mret (false, s <| listen_fd_ := -1 |>).

Definition open_socket_ (s : UDSServer) : Sys (bool * UDSServer) :=
  invoke (SysUnlink (path_ s));;
  a ← invoke SysSocket;
  let s := s <| listen_fd_ := a_ret a |> in
  if listen_fd_ s <? 0 then perror "socket" a;; mret (false, s)
  else
    g ← invoke (SysGetFd (listen_fd_ s));
    (if negb (a_ret g =? -1)
     then invoke (SysSetCloexec (listen_fd_ s) (Z.lor (a_ret g) FD_CLOEXEC));; mret ()
     else mret ());;
    if sun_path_size <=? Z.of_nat (length (path_ s)) then
      log (Stderr (str "UDS path too long: " ++ path_ s ++ [Init.Byte.x0a]));;
      drop_socket s
    else
      b ← invoke (SysBind (listen_fd_ s) (path_ s));
      if a_ret b <? 0 then perror "bind" b;; drop_socket s
      else
        c ← invoke (SysChmod (path_ s) (mode_ s));
        (if a_ret c <? 0 then perror "chmod" c else mret ());;
        l ← invoke (SysListen (listen_fd_ s) 16);
        if a_ret l <? 0 then perror "listen" l;; drop_socket s
        else
          log (Stdout (str "UDS listening at " ++ path_ s ++ str " (mode " ++ octal 11 (mode_ s) ++
                       str ")" ++ [Init.Byte.x0a]));;
          mret (true, s).

Definition close_socket_ (s : UDSServer) : Sys UDSServer :=
  if 0 <=? listen_fd_ s then
    invoke (SysClose (listen_fd_ s));; mret (s <| listen_fd_ := -1 |>)
  else mret s.

(** One round of the accept loop; [inr] leaves it. *)
Definition serve_round (handler : Z → Sys ()) (s : UDSServer) (_ : ()) : Sys (() + ()) :=
  f ← invoke LoadShutdown;
  if negb (a_ret f =? 0) then mret (inr ())
  else
    c ← invoke (SysAccept (listen_fd_ s));
    if a_ret c <? 0 then
      if decide (a_errno c = EINTR) then mret (inl ())
      else perror "accept" c;; mret (inr ())
    else
      handler (a_ret c);;
      invoke (SysClose (a_ret c));;
      mret (inl ()).

Definition serve (handler : Z → Sys ()) (s : UDSServer) : Sys (bool * UDSServer) :=
  '(ok, s) ← open_socket_ s;
  if (ok : bool) then
    loop (serve_round handler s) ();;
    s ← close_socket_ s;
    invoke (SysUnlink (path_ s));;
    mret (true, s)
  else mret (false, s).

Definition open_listen (s : UDSServer) : Sys (bool * UDSServer) :=
  '(ok, s) ← open_socket_ s;
  if (ok : bool) then
    g ← invoke (SysGetFl (listen_fd_ s));
    (if negb (a_ret g =? -1)
     then invoke (SysSetNonblock (listen_fd_ s) (Z.lor (a_ret g) o_nonblock));; mret ()
     else mret ());;
    (if have_so_nosigpipe then invoke (SysNoSigpipe (listen_fd_ s));; mret () else mret ());;
    mret (true, s)
  else mret (false, s).

Definition close_listen (s : UDSServer) : Sys UDSServer := close_socket_ s.

(** The destructor. *)
Definition destroy (s : UDSServer) : Sys () :=
  s ← close_socket_ s;
  if bool_decide (path_ s = []) then mret () else invoke (SysUnlink (path_ s));; mret ().
End Server.

(** ** Facts *)

Section ServerFacts.
Context `{Platform}.

(** The calls of a log that concern the address of the socket, in order, with
    their answers. *)
Definition setup_calls (l : list logged) : list (syscall * answer) :=
  omap (λ e, match e with
             | Called c a =>
                 match c with
                 | SysBind _ _ | SysChmod _ _ | SysListen _ _ | SysUnlink _ => Some (c, a)
                 | _ => None
                 end
             | _ => None
             end) l.

(** What a successful start has done: a stale address was removed, the path
    bound, its mode set, and only then does the socket listen. Binding and
    listening succeeded; when the mode could not be set this was reported, and
    ignored. *)
Definition set_up (path : bytes) (mode fd : Z) (l : list logged) : Prop :=
  ∃ u b c n,
    setup_calls l = [(SysUnlink path, u); (SysBind fd path, b); (SysChmod path mode, c); (SysListen fd 16, n)] ∧
    0 ≤ a_ret b ∧ 0 ≤ a_ret n ∧
    stderr l = if a_ret c <? 0 then str "chmod" ++ str ": " ++ strerror (a_errno c) ++ [Init.Byte.x0a]
               else [].

(** Opening: the descriptor of the result is the only one left open, and only
    on success. *)
Lemma open_socket_log s ans ok s' ans' l :
  run (open_socket_ s) ans = Some ((ok, s'), ans', l) →
  path_ s' = path_ s ∧ mode_ s' = mode_ s ∧
  if (ok : bool) then
    0 ≤ listen_fd_ s' ∧ open_fds [] l = [listen_fd_ s'] ∧
    Z.of_nat (length (path_ s)) < sun_path_size ∧ set_up (path_ s) (mode_ s) (listen_fd_ s') l
  else listen_fd_ s' < 0 ∧ open_fds [] l = [].
Proof.
  intros Hr. unfold open_socket_, drop_socket in Hr.
  inv_run Hr; cbn [set_field listen_fd_ path_ mode_ set_listen_fd_] in *; bool_prop;
    split_and!; try done; try lia;
    try (unfold set_up; do 4 eexists; split; [reflexivity|]; split_and!; [lia|lia|];
         match goal with |- _ = if a_ret ?c <? 0 then _ else _ => destruct (Z.ltb_spec (a_ret c) 0) end;
         first [lia | unfold stderr; cbn [mbind list_bind app]; by rewrite ?app_nil_r]);
    unfold open_fds; cbn [foldl fd_effect app];
    first [rewrite (proj2 (Z.leb_le _ _)) by lia | rewrite (proj2 (Z.leb_gt _ _)) by lia];
    first [done | by rewrite filter_cons_False by auto].
Qed.

(** The descriptors left when the listening one, if any, is closed. *)
Definition without_listen (s : UDSServer) (o : list Z) : list Z :=
  if 0 <=? listen_fd_ s then filter (λ g, g ≠ listen_fd_ s) o else o.

Lemma close_socket_log s ans s' ans' l o :
  run (close_socket_ s) ans = Some (s', ans', l) →
  path_ s' = path_ s ∧ listen_fd_ s' < 0 ∧ open_fds o l = without_listen s o ∧ setup_calls l = [].
Proof.
  intros Hr. unfold close_socket_ in Hr. unfold without_listen.
  inv_run Hr; split_and!; try done; try lia.
Qed.

Lemma without_only_listen s o :
  (∀ f, f ∈ o → f = listen_fd_ s) → 0 ≤ listen_fd_ s → without_listen s o = [].
Proof.
  intros Ho Hs. unfold without_listen. rewrite (proj2 (Z.leb_le _ _)) by done.
  apply filter_none, Forall_forall. intros f Hf Hne. by apply Hne, Ho.
Qed.

Lemma setup_calls_app a b : setup_calls (a ++ b) = setup_calls a ++ setup_calls b.
Proof. apply omap_app. Qed.

Lemma open_listen_log s ans ok s' ans' l :
  run (open_listen s) ans = Some ((ok, s'), ans', l) →
  path_ s' = path_ s ∧
  if (ok : bool) then
    0 ≤ listen_fd_ s' ∧ open_fds [] l = [listen_fd_ s'] ∧
    set_up (path_ s) (mode_ s) (listen_fd_ s') l
  else listen_fd_ s' < 0 ∧ open_fds [] l = [].
Proof.
  intros Hr. unfold open_listen in Hr.
  apply run_bind_Some in Hr as ([ok1 s1] & ans1 & l1 & l2 & E & Hr & ->).
  apply open_socket_log in E as (Hp & _ & E).
  assert (Hs : ok = ok1 ∧ s' = s1 ∧ (∀ o, open_fds o l2 = o) ∧ setup_calls l2 = [] ∧ stderr l2 = []).
  { destruct ok1; inv_run Hr; done. }
  destruct Hs as (-> & -> & O2 & S2 & E2). unfold set_up in *.
  rewrite open_fds_app, O2, setup_calls_app, S2, stderr_app, E2, !app_nil_r.
  split; [done|]. destruct ok1; [|exact E]. destruct E as (? & ? & _ & ?). done.
Qed.

Lemma destroy_log s ans x ans' l o :
  run (destroy s) ans = Some (x, ans', l) →
  open_fds o l = without_listen s o ∧ (path_ s ≠ [] → ∃ a, setup_calls l = [(SysUnlink (path_ s), a)]).
Proof.
  intros Hr. unfold destroy in Hr.
  apply run_bind_Some in Hr as (s2 & ans1 & l1 & l2 & E & Hr & ->).
  apply (close_socket_log _ _ _ _ _ o) in E as (Hp & _ & Ho & Hset).
  rewrite open_fds_app, Ho, setup_calls_app, Hset, <- Hp. inv_run Hr; bool_prop; eauto || done.
Qed.

(** The server does not call the library. *)
Lemma open_listen_library s ans x ans' l :
  run (open_listen s) ans = Some (x, ans', l) → library_calls l = [].
Proof.
  intros Hr. unfold open_listen, open_socket_, drop_socket in Hr. inv_run Hr; reflexivity.
Qed.

Lemma destroy_library s ans x ans' l :
  run (destroy s) ans = Some (x, ans', l) → library_calls l = [].
Proof. intros Hr. unfold destroy, close_socket_ in Hr. inv_run Hr; reflexivity. Qed.

(** ** The accept loop *)

(** What the caller's handler has to keep to: it uses up answers and neither
    opens nor closes descriptors of its own. *)
Definition handler_ok (handler : Z → Sys ()) : Prop :=
  ∀ c, uses_up (handler c) ∧
    ∀ ans x ans' l o, run (handler c) ans = Some (x, ans', l) → open_fds o l = o.

Lemma serve_round_calls handler s : handler_ok handler → makes_call (serve_round handler s).
Proof.
  intros Hh [] ans s' ans' l Hr. unfold serve_round in Hr. eapply call_first_length, Hr.
  assert (∀ c, uses_up (handler c)) by apply Hh. unfold perror. uses_up.
Qed.

Lemma serve_loop_log handler s ans x ans' l :
  handler_ok handler → run (loop (serve_round handler s) ()) ans = Some (x, ans', l) →
  ∀ f, f ∈ open_fds [listen_fd_ s] l → f = listen_fd_ s.
Proof.
  intros Hh. set (I := λ l, ∀ f, f ∈ open_fds [listen_fd_ s] l → f = listen_fd_ s).
  apply (loop_ind _ (λ _, I) (λ _, I) () ans x ans' l []);
    [by apply serve_round_calls| |intros f ?%list_elem_of_singleton; done].
  intros [] ans1 r ans2 l0 l1 H0 Hr.
  assert (Hn : I (l0 ++ l1)); [|by destruct r].
  unfold I. rewrite open_fds_app. intros f Hf. apply H0. revert Hf.
  generalize (open_fds [listen_fd_ s] l0). intros o Hf.
  unfold serve_round in Hr. inv_run Hr; try done; bool_prop;
    rewrite ?open_fds_app in Hf; unfold open_fds in Hf; cbn [foldl fd_effect app] in Hf;
    try (by rewrite (proj2 (Z.leb_gt _ _)) in Hf by lia).
  rewrite (proj2 (Z.leb_le _ _)) in Hf by lia.
  pose proof (proj2 (Hh _) _ _ _ _ (a_ret x1 :: o) E) as Ho. unfold open_fds in Ho. rewrite Ho in Hf.
  apply list_elem_of_filter in Hf as [Hne [->|Hf]%elem_of_cons]; [by destruct Hne|done].
Qed.

(** ** Theorems *)

(** C21. A server's life leaks nothing: opening the listening socket and destroying
    the server leaves no descriptor open, whatever the system calls answer, and
    it ends by asking to remove the socket's path. When opening succeeds,
    exactly the listening descriptor is open, a stale path was unlinked first,
    binding succeeded, the mode was then asked for, and after that listening
    succeeded; when the mode could not be set, that was printed on standard
    error and ignored. When opening fails nothing is open and the server holds no
    descriptor. *)
Theorem server_life path mode ans ok s ans1 l1 x ans2 l2 :
  run (open_listen (new_server path mode)) ans = Some ((ok, s), ans1, l1) →
  run (destroy s) ans1 = Some (x, ans2, l2) →
  (if (ok : bool)
   then open_fds [] l1 = [listen_fd_ s] ∧ 0 ≤ listen_fd_ s ∧ set_up path mode (listen_fd_ s) l1
   else open_fds [] l1 = [] ∧ listen_fd_ s < 0) ∧
  open_fds [] (l1 ++ l2) = [] ∧ (path ≠ [] → ∃ a, setup_calls l2 = [(SysUnlink path, a)]).
Proof.
  intros Hr Hd. apply open_listen_log in Hr as [Hp Hr]. cbn [path_ mode_ new_server] in Hp, Hr.
  apply (destroy_log _ _ _ _ _ (open_fds [] l1)) in Hd as [Ho Hset].
  rewrite open_fds_app, Ho. rewrite Hp in Hset. destruct ok; [destruct Hr as (Hfd & Hl1 & Hrest)|destruct Hr as (Hfd & Hl1)];
    rewrite Hl1.
  - split; [done|]. split; [|done]. apply without_only_listen; [|done]. by intros f ->%list_elem_of_singleton.
  - split; [done|]. split; [|done]. unfold without_listen. by destruct (_ <=? _).
Qed.

(** The blocking accept loop closes every connection it accepted and the
    listening socket, whatever the system calls answer and however often it is
    interrupted, and it does not fail once the socket is open. *)
Theorem serve_closes_all handler path mode ans ok s ans' l :
  handler_ok handler → run (serve handler (new_server path mode)) ans = Some ((ok, s), ans', l) →
  open_fds [] l = [] ∧ listen_fd_ s < 0 ∧ path_ s = path.
Proof.
  intros Hh Hr. unfold serve in Hr.
  apply run_bind_Some in Hr as ([ok1 s1] & ans3 & l3 & l4 & E & Hr & ->).
  apply open_socket_log in E as (Hp & _ & E). cbn [path_ new_server] in Hp.
  rewrite open_fds_app. destruct ok1.
  - destruct E as (Hfd & -> & _).
    apply run_bind_Some in Hr as (u & ans4 & l5 & l6 & El & Hr & ->).
    apply run_bind_Some in Hr as (s2 & ans5 & l7 & l8 & Ec & Hr & ->).
    rewrite !open_fds_app. pose proof (serve_loop_log _ _ _ _ _ _ Hh El) as Hl.
    apply (close_socket_log _ _ _ _ _ (open_fds [listen_fd_ s1] l5)) in Ec as (Hp2 & Hneg & -> & _).
    rewrite without_only_listen by done. inv_run Hr. split_and!; done || congruence.
  - destruct E as (Hneg & ->). inv_run Hr. auto.
Qed.
End ServerFacts.

(** ** Witnesses *)

#[local] Existing Instance Darwin.

Definition demo_server (fd : Z) : UDSServer :=
  {| path_ := str "/tmp/uma.sock"; mode_ := 384; listen_fd_ := fd |}.

(** A server that opens and is destroyed. *)
Definition life_answers : list answer :=
  [fail_answer EANY; ok_answer 7; ok_answer 0; ok_answer 0; ok_answer 0; ok_answer 0; ok_answer 0;
   ok_answer 2; ok_answer 0; ok_answer 0].

(** A mode that cannot be set does not keep the server from listening. *)
Theorem chmod_failure_ignored :
  ∃ l, run (open_listen (new_server (str "/tmp/uma.sock") 384))
         [fail_answer EANY; ok_answer 7; ok_answer 0; ok_answer 0; ok_answer 0; fail_answer EANY;
          ok_answer 0; ok_answer 2; ok_answer 0; ok_answer 0]
       = Some ((true, demo_server 7), [], l) ∧
    (SysChmod (str "/tmp/uma.sock") 384, fail_answer EANY) ∈ setup_calls l.
Proof. eexists. split; [vm_compute; reflexivity|]. right. right. left. Qed.

Lemma life_opens :
  ∃ l1, run (open_listen (new_server (str "/tmp/uma.sock") 384)) (life_answers ++ [ok_answer 0; ok_answer 0])
        = Some ((true, demo_server 7),
                [ok_answer 0; ok_answer 0], l1).
Proof. eexists. vm_compute. reflexivity. Defined.

Lemma life_ends :
  ∃ l2, run (destroy (demo_server 7)) [ok_answer 0; ok_answer 0]
        = Some ((), [], l2).
Proof. eexists. vm_compute. reflexivity. Defined.

Lemma server_life_witness :
  ∃ l1 l2, open_fds [] l1 = [7] ∧ set_up (str "/tmp/uma.sock") 384 7 l1 ∧ open_fds [] (l1 ++ l2) = [].
Proof.
  destruct life_opens as [l1 E1], life_ends as [l2 E2]. exists l1, l2.
  pose proof (server_life _ _ _ _ _ _ _ _ _ _ E1 E2) as ((Ho & _ & Hs) & Hc & _).
  exact (conj Ho (conj Hs Hc)).
Defined.

(** A handler that greets, one client, then a shutdown. *)
Definition greet (c : Z) : Sys () := invoke (SysWrite c (str "hi"));; mret ().

Lemma greet_ok : handler_ok greet.
Proof.
  intros c. split; [unfold greet; uses_up|]. intros ans x ans' l o Hr. unfold greet in Hr. by inv_run Hr.
Qed.

Lemma serve_runs :
  ∃ l, run (serve greet (new_server (str "/tmp/uma.sock") 384))
         (take 7 life_answers ++ [ok_answer 0; fail_answer EINTR; ok_answer 0; ok_answer 9; ok_answer 2;
           ok_answer 0; ok_answer 1; ok_answer 0; ok_answer 0])
       = Some ((true, new_server (str "/tmp/uma.sock") 384), [], l).
Proof. eexists. vm_compute. reflexivity. Defined.

Lemma serve_closes_all_witness : ∃ l, l ≠ [] ∧ open_fds [] l = [].
Proof.
  destruct serve_runs as [l E]. exists l. split.
  - intros ->. vm_compute in E. discriminate E.
  - apply (serve_closes_all greet _ _ _ _ _ _ _ greet_ok E).
Defined.
