(* ===== verification/Protocol.v ===== *)
(** * The framed JSON protocol ([src/ipc/protocol.cpp])

    Length-prefixed frames ([try_read_frame], [write_frame]), the JSON string
    escaper and the three event builders. *)
From stdpp Require Import prelude list strings.
From S2P Require Import Prelude.
Local Open Scope Z_scope.

Module Protocol.

(** ** Definitions *)

Definition kDefaultMaxFrameBytes : Z := 1 * 1024 * 1024.

Definition read_u32_le (b0 b1 b2 b3 : byte) : Z :=
  Z.lor (Z.lor (Z.lor (u32 (byte_val b0))
                      (u32 (Z.shiftl (byte_val b1) 8)))
               (u32 (Z.shiftl (byte_val b2) 16)))
        (u32 (Z.shiftl (byte_val b3) 24)).

(** What [try_read_frame] does to its arguments: [NeedMore] is [false] with
    [err_msg] left empty, [FrameError] is [false] with [err_msg] set (both
    leave [rx] alone), [Frame json rest] is [true] with [out_json = json] and
    [rx = rest]. *)
Inductive frame_result :=
| NeedMore
| FrameError (err_msg : bytes)
| Frame (out_json : bytes) (rx' : bytes).

Definition try_read_frame (rx : bytes) (max_frame_bytes : Z) : frame_result :=
  match rx with
  | b0 :: b1 :: b2 :: b3 :: body =>
      let len := read_u32_le b0 b1 b2 b3 in
      if len =? 0 then FrameError (str "invalid frame length 0")
      else if max_frame_bytes <? len then FrameError (str "frame too large")
      else if Z.of_nat (length rx) <? 4 + len then NeedMore
      else Frame (take (Z.to_nat len) body) (drop (Z.to_nat len) body)
  | _ => NeedMore
  end.

Definition frame_header (len : Z) : bytes :=
  [ byte_of_Z (Z.land len 0xFF);
    byte_of_Z (Z.land (Z.shiftr len 8) 0xFF);
    byte_of_Z (Z.land (Z.shiftr len 16) 0xFF);
    byte_of_Z (Z.land (Z.shiftr len 24) 0xFF) ].

Definition write_frame (tx : bytes) (json : bytes) : bytes :=
  let len := u32 (Z.of_nat (length json)) in
  tx ++ frame_header len ++ json.

Definition hex_digit (d : Z) : byte :=
  byte_of_Z (if d <? 10 then 0x30 + d else 0x61 + (d - 10)).

Definition escape_byte (c : byte) : bytes :=
  if decide (c = Init.Byte.x22) then [Init.Byte.x5c; Init.Byte.x22]
  else if decide (c = Init.Byte.x5c) then [Init.Byte.x5c; Init.Byte.x5c]
  else if decide (c = Init.Byte.x0a) then str "\n"
  else if decide (c = Init.Byte.x0d) then str "\r"
  else if decide (c = Init.Byte.x09) then str "\t"
  else if byte_val c <? 0x20 then
    str "\u00" ++ [hex_digit (byte_val c / 16); hex_digit (byte_val c mod 16)]
  else [c].

Definition json_escape (s : bytes) : bytes := s ≫= escape_byte.

Definition token_payload (id text : bytes) (token_id : Z) : bytes :=
  jstr "{'id':'" ++ json_escape id ++ jstr "',"
  ++ jstr "'event':'token',"
  ++ jstr "'text':'" ++ json_escape text ++ jstr "',"
  ++ jstr "'token_id':" ++ to_string token_id ++ str "}".

Definition append_token_event (tx id text : bytes) (token_id : Z) : bytes :=
  write_frame tx (token_payload id text token_id).

Definition eos_payload (id reason : bytes) : bytes :=
  jstr "{'id':'" ++ json_escape id
  ++ jstr "','event':'eos','reason':'" ++ json_escape reason ++ jstr "'}".

Definition append_eos_event (tx id reason : bytes) : bytes :=
  write_frame tx (eos_payload id reason).

Definition error_payload (id code message : bytes) : bytes :=
  jstr "{'id':'" ++ json_escape id ++ jstr "','event':'error',"
  ++ jstr "'code':'" ++ json_escape code
  ++ jstr "','message':'" ++ json_escape message ++ jstr "'}".

Definition append_error_event (tx id code message : bytes) : bytes :=
  write_frame tx (error_payload id code message).

(** ** Little-endian words *)

Lemma lor_shiftl_add a b n :
  0 ≤ n → 0 ≤ a < 2 ^ n → Z.lor a (Z.shiftl b n) = a + b * 2 ^ n.
Proof.
  intros Hn Ha.
  assert (Hd : Z.land a (Z.shiftl b n) = 0).
  { apply Z.bits_inj'. intros i Hi. rewrite Z.land_spec, Z.bits_0.
    destruct (Z.lt_ge_cases i n).
    - rewrite Z.shiftl_spec_low by lia. apply andb_false_r.
    - rewrite (proj2 (Z.testbit_false a i Hi)); [done|].
      rewrite Z.div_small; [done|]. split; [lia|].
      apply Z.lt_le_trans with (2 ^ n); [lia|]. apply Z.pow_le_mono_r; lia. }
  rewrite <- Z.shiftl_mul_pow2 by lia.
  by rewrite Z.add_nocarry_lxor, Z.lxor_lor.
Qed.

Lemma read_u32_le_value b0 b1 b2 b3 :
  read_u32_le b0 b1 b2 b3
  = byte_val b0 + byte_val b1 * 2 ^ 8 + byte_val b2 * 2 ^ 16 + byte_val b3 * 2 ^ 24.
Proof.
  unfold read_u32_le.
  pose proof (byte_val_range b0). pose proof (byte_val_range b1).
  pose proof (byte_val_range b2). pose proof (byte_val_range b3).
  rewrite !u32_id by (rewrite ?Z.shiftl_mul_pow2 by lia; lia).
  rewrite (lor_shiftl_add (byte_val b0)) by lia.
  rewrite (lor_shiftl_add _ (byte_val b2)) by lia.
  rewrite (lor_shiftl_add _ (byte_val b3)) by lia. lia.
Qed.

Lemma read_u32_le_range b0 b1 b2 b3 : in_u32 (read_u32_le b0 b1 b2 b3).
Proof.
  rewrite read_u32_le_value. unfold in_u32.
  pose proof (byte_val_range b0). pose proof (byte_val_range b1).
  pose proof (byte_val_range b2). pose proof (byte_val_range b3). lia.
Qed.

Lemma header_byte_val len k :
  0 ≤ k → byte_val (byte_of_Z (Z.land (Z.shiftr len k) 0xFF)) = (len / 2 ^ k) mod 2 ^ 8.
Proof.
  intros Hk. rewrite byte_val_of_Z, Z.shiftr_div_pow2 by done.
  change 0xFF with (Z.ones 8). rewrite Z.land_ones by lia.
  apply u8_id, Z.mod_pos_bound. lia.
Qed.

Lemma read_frame_header len :
  in_u32 len →
  ∃ b0 b1 b2 b3, frame_header len = [b0; b1; b2; b3] ∧ read_u32_le b0 b1 b2 b3 = len.
Proof.
  intros Hlen. unfold frame_header. do 4 eexists. split; [done|].
  rewrite read_u32_le_value, !header_byte_val by lia.
  replace (byte_val (byte_of_Z (Z.land len 255))) with (len mod 2 ^ 8)
    by (rewrite <- (Z.shiftr_0_r len) at 2; rewrite header_byte_val by lia;
        by rewrite Z.div_1_r).
  unfold in_u32 in Hlen. zlia.
Qed.

(** ** Framing *)

(** A payload a peer may send: non-empty and within the cap. *)
Definition sendable (max_frame_bytes : Z) (json : bytes) : Prop :=
  1 ≤ Z.of_nat (length json) ≤ max_frame_bytes.

Lemma write_frame_app tx json : write_frame tx json = tx ++ write_frame [] json.
Proof. done. Qed.

Lemma length_write_frame tx json :
  length (write_frame tx json) = (length tx + 4 + length json)%nat.
Proof. unfold write_frame, frame_header. rewrite !length_app. simpl. lia. Qed.

Lemma read_written_frame max json rest :
  max < 2 ^ 32 → sendable max json →
  try_read_frame (write_frame [] json ++ rest) max = Frame json rest.
Proof.
  intros Hmax [H1 H2]. unfold write_frame. rewrite app_nil_l.
  rewrite u32_id by lia.
  destruct (read_frame_header (Z.of_nat (length json))) as (b0&b1&b2&b3&->&Hlen);
    [unfold in_u32; lia|].
  cbn [app try_read_frame]. rewrite Hlen.
  rewrite (proj2 (Z.eqb_neq _ _)), (proj2 (Z.ltb_ge max _)) by lia.
  rewrite (proj2 (Z.ltb_ge _ _)) by (cbn [length]; rewrite length_app; lia).
  by rewrite Nat2Z.id, take_app_length, drop_app_length.
Qed.

(** The inversion of a successful read: the buffer was header, payload, rest. *)
Lemma try_read_frame_Frame rx max json rest :
  try_read_frame rx max = Frame json rest →
  sendable max json ∧
  ∃ b0 b1 b2 b3, rx = [b0; b1; b2; b3] ++ json ++ rest ∧
                 read_u32_le b0 b1 b2 b3 = Z.of_nat (length json).
Proof.
  destruct rx as [|b0 [|b1 [|b2 [|b3 body]]]]; try done. cbn [try_read_frame].
  pose proof (read_u32_le_range b0 b1 b2 b3) as Hr. unfold in_u32 in Hr.
  destruct (_ =? 0) eqn:E0; [done|]. destruct (max <? _) eqn:E1; [done|].
  destruct (_ <? 4 + _) eqn:E2; [done|]. intros [= <- <-]. bool_prop.
  cbn [length] in E2.
  assert (Hl : length (take (Z.to_nat (read_u32_le b0 b1 b2 b3)) body)
               = Z.to_nat (read_u32_le b0 b1 b2 b3)) by (rewrite length_take; lia).
  split; [unfold sendable; rewrite Hl; lia|].
  exists b0, b1, b2, b3. rewrite take_drop, Hl. split; [done|lia].
Qed.

Lemma try_read_frame_extend rx more max :
  match try_read_frame rx max with
  | NeedMore => True
  | FrameError e => try_read_frame (rx ++ more) max = FrameError e
  | Frame json rest => try_read_frame (rx ++ more) max = Frame json (rest ++ more)
  end.
Proof.
  destruct rx as [|b0 [|b1 [|b2 [|b3 body]]]]; try done.
  cbn [app try_read_frame].
  destruct (_ =? 0) eqn:E0; [done|]. destruct (max <? _) eqn:E1; [done|].
  destruct (_ <? 4 + _) eqn:E2; [done|]. bool_prop.
  pose proof (read_u32_le_range b0 b1 b2 b3) as Hr. unfold in_u32 in Hr.
  cbn [length] in *. rewrite length_app.
  rewrite (proj2 (Z.ltb_ge _ _)) by lia.
  by rewrite take_app_le, drop_app_le by lia.
Qed.

(** A buffer that is a proper prefix of a frame is left alone. *)
Lemma try_read_frame_partial max json p q :
  max < 2 ^ 32 → sendable max json →
  write_frame [] json = p ++ q → q ≠ [] → try_read_frame p max = NeedMore.
Proof.
  intros Hmax Hs Hpq Hq.
  pose proof (try_read_frame_extend p q max) as Hext.
  pose proof (read_written_frame max json [] Hmax Hs) as Hw.
  rewrite app_nil_r, Hpq in Hw. rewrite Hw in Hext.
  destruct (try_read_frame p max) as [|e|j r] eqn:E; [done|done|].
  injection Hext as _ Hr. destruct r, q; naive_solver.
Qed.

(** Repeated reads of a buffer until no full frame is left. *)
Inductive drains (max : Z) : bytes → list bytes → bytes → Prop :=
| drains_stop rx : try_read_frame rx max = NeedMore → drains max rx [] rx
| drains_frame rx json rx' js rest :
    try_read_frame rx max = Frame json rx' → drains max rx' js rest →
    drains max rx (json :: js) rest.

Definition encode_frames (payloads : list bytes) : bytes :=
  foldl write_frame [] payloads.

Lemma foldl_write_frame tx ps : foldl write_frame tx ps = tx ++ encode_frames ps.
Proof.
  unfold encode_frames. revert tx.
  induction ps as [|p ps IH] using rev_ind; intros tx; [by rewrite app_nil_r|].
  rewrite !foldl_snoc, IH. by rewrite (write_frame_app (tx ++ _)),
    (write_frame_app (foldl _ _ _)), <- app_assoc.
Qed.

Lemma encode_frames_cons p ps :
  encode_frames (p :: ps) = write_frame [] p ++ encode_frames ps.
Proof. unfold encode_frames at 1. simpl. by rewrite foldl_write_frame. Qed.

Lemma drains_encode max ps :
  max < 2 ^ 32 → Forall (sendable max) ps → drains max (encode_frames ps) ps [].
Proof.
  intros Hmax. induction 1 as [|p ps Hp _ IH]; [by constructor|].
  rewrite encode_frames_cons. econstructor; [by apply read_written_frame|done].
Qed.

Lemma drains_chunked max ps c1 c2 :
  max < 2 ^ 32 → Forall (sendable max) ps → encode_frames ps = c1 ++ c2 →
  ∃ k rest, drains max c1 (take k ps) rest ∧ drains max (rest ++ c2) (drop k ps) [].
Proof.
  intros Hmax Hps. revert c1. induction Hps as [|p ps Hp Hps IH]; intros c1 Hc.
  { exists 0%nat, []. unfold encode_frames in Hc. simpl in Hc.
    symmetry in Hc. apply app_eq_nil in Hc as [-> ->]. split; by constructor. }
  rewrite encode_frames_cons in Hc.
  apply app_eq_app in Hc as [l [[Hl ->]|[-> Hl]]].
  - destruct (decide (l = [])) as [->|Hne].
    + rewrite app_nil_r in Hl. subst c1.
      destruct (IH [] eq_refl) as (k & rest & H1 & H2).
      exists (S k), rest. split; [|done]. simpl.
      econstructor; [|done]. rewrite <- (app_nil_r (write_frame [] p)).
      by apply read_written_frame.
    + exists 0%nat, c1. split.
      * constructor. by eapply try_read_frame_partial.
      * rewrite app_assoc, <- Hl, <- encode_frames_cons.
        apply drains_encode; [done|by constructor].
  - destruct (IH l Hl) as (k & rest & H1 & H2).
    exists (S k), rest. split; [|done]. simpl.
    econstructor; [by apply read_written_frame|done].
Qed.

Lemma drains_functional max rx ps rest ps' rest' :
  drains max rx ps rest → drains max rx ps' rest' → ps = ps'.
Proof.
  intros Hd. revert ps'. induction Hd as [rx E|rx p rx1 ps rest E _ IH]; intros ps' Hd'.
  - inversion Hd'; [done|congruence].
  - inversion Hd' as [|? p' rx1' ps1 ? E' Hd1]; [congruence|]. subst.
    rewrite E in E'. injection E' as <- <-. f_equal. by apply IH.
Qed.

Lemma encode_frames_length ps p :
  p ∈ ps → (length p + 4 ≤ length (encode_frames ps))%nat.
Proof.
  induction 1 as [p ps|p q ps _ IH]; rewrite encode_frames_cons, length_app; [|lia].
  unfold write_frame. rewrite !length_app. cbn. lia.
Qed.

(** Frames of one stream are told apart. *)
Lemma encode_frames_inj ps qs :
  Forall (λ p, p ≠ []) ps → Forall (λ q, q ≠ []) qs →
  Z.of_nat (length (encode_frames ps)) < 2 ^ 31 → encode_frames ps = encode_frames qs → ps = qs.
Proof.
  intros Hp Hq Hl E.
  assert (Hs : ∀ l, Forall (λ p, p ≠ []) l → encode_frames l = encode_frames ps →
                    Forall (sendable (2 ^ 31)) l).
  { intros l Hne El. apply Forall_forall. intros p Hin. rewrite Forall_forall in Hne.
    specialize (Hne p Hin). apply encode_frames_length in Hin. rewrite El in Hin.
    unfold sendable. destruct p; [done|]. cbn [length] in *. lia. }
  eapply drains_functional; [apply (drains_encode (2 ^ 31)); [done|by apply Hs]|].
  rewrite E. apply drains_encode; [done|by apply Hs].
Qed.

(** ** Escaping *)

(** A byte that may stand in the middle of a JSON string literal as it is. *)
Definition plain_byte (c : byte) : bool :=
  negb (bool_decide (c = Init.Byte.x22)) && negb (bool_decide (c = Init.Byte.x5c)) &&
  (0x20 <=? byte_val c).

Lemma escape_byte_cases c :
  plain_byte c = true ∧ escape_byte c = [c] ∨
  ∃ d rest, escape_byte c = Init.Byte.x5c :: d :: rest ∧ Forall (λ b, plain_byte b = true) rest.
Proof.
  destruct c; first [left; split; reflexivity|
    right; do 2 eexists; split; [reflexivity|repeat constructor]].
Qed.

(** ** Theorems *)

(** Framing round trip: a payload of between one byte and the cap, written as
    a frame, is read back byte for byte, and exactly its frame is consumed,
    whatever follows it in the buffer. *)
Theorem frame_roundtrip max json rest :
  max < 2 ^ 32 → sendable max json →
  try_read_frame (write_frame [] json ++ rest) max = Frame json rest.
Proof. apply read_written_frame. Qed.

(** C15. Streaming: however a byte stream of frames is cut in two reads, draining
    the receive buffer after the first and again after the second yields
    exactly the payloads sent, in order, with nothing left over. *)
Theorem frames_survive_chunking max ps c1 c2 :
  max < 2 ^ 32 → Forall (sendable max) ps → encode_frames ps = c1 ++ c2 →
  ∃ k rest, drains max c1 (take k ps) rest ∧ drains max (rest ++ c2) (drop k ps) [].
Proof. apply drains_chunked. Qed.

(** C16. Every outcome of a read: an incomplete buffer is left alone, a zero length
    and a length above the cap are refused as soon as the header is there
    (without waiting for the body), and a frame is delivered only when it is
    complete and within the cap, its bytes removed from the buffer. *)
Theorem try_read_frame_outcomes rx max :
  0 ≤ max →
  match try_read_frame rx max with
  | NeedMore =>
      (length rx < 4)%nat ∨
      ∃ b0 b1 b2 b3 body, rx = b0 :: b1 :: b2 :: b3 :: body ∧
        Z.of_nat (length body) < read_u32_le b0 b1 b2 b3 ≤ max
  | FrameError e =>
      ∃ b0 b1 b2 b3 body, rx = b0 :: b1 :: b2 :: b3 :: body ∧
        (read_u32_le b0 b1 b2 b3 = 0 ∧ e = str "invalid frame length 0" ∨
         max < read_u32_le b0 b1 b2 b3 ∧ e = str "frame too large")
  | Frame json rest =>
      sendable max json ∧
      ∃ b0 b1 b2 b3, rx = [b0; b1; b2; b3] ++ json ++ rest ∧
                     read_u32_le b0 b1 b2 b3 = Z.of_nat (length json)
  end.
Proof.
  intros Hmax. destruct (try_read_frame rx max) as [|e|json rest] eqn:E;
    [| |by apply try_read_frame_Frame].
  all: destruct rx as [|b0 [|b1 [|b2 [|b3 body]]]]; try done; try (left; cbn; lia).
  all: cbn [try_read_frame] in E; pose proof (read_u32_le_range b0 b1 b2 b3) as Hr;
    unfold in_u32 in Hr; destruct (_ =? 0) eqn:E0; [try done|destruct (max <? _) eqn:E1;
    [try done|destruct (_ <? 4 + _) eqn:E2; try done]]; bool_prop.
  - right. exists b0, b1, b2, b3, body. split; [done|]. cbn [length] in *. lia.
  - injection E as <-. exists b0, b1, b2, b3, body. split; [done|]. left. done.
  - injection E as <-. exists b0, b1, b2, b3, body. split; [done|]. right. lia || done.
Qed.

(** ** Witnesses *)

Lemma frame_roundtrip_witness :
  try_read_frame (write_frame [] (str "{}") ++ str "tail") kDefaultMaxFrameBytes
  = Frame (str "{}") (str "tail").
Proof.
  apply (frame_roundtrip kDefaultMaxFrameBytes (str "{}") (str "tail")); [reflexivity|].
  split; vm_compute; discriminate.
Defined.

Lemma frames_survive_chunking_witness :
  ∃ k rest, drains 16 (take 5 (encode_frames [str "ab"; str "c"])) (take k [str "ab"; str "c"]) rest ∧
    drains 16 (rest ++ drop 5 (encode_frames [str "ab"; str "c"])) (drop k [str "ab"; str "c"]) [].
Proof.
  apply (frames_survive_chunking 16 [str "ab"; str "c"]); [reflexivity| |].
  - repeat constructor; vm_compute; discriminate.
  - symmetry. apply take_drop.
Defined.

Lemma try_read_frame_outcomes_witness :
  ∃ b0 b1 b2 b3 body, frame_header 17 ++ str "x" = b0 :: b1 :: b2 :: b3 :: body ∧
    (read_u32_le b0 b1 b2 b3 = 0 ∧ str "frame too large" = str "invalid frame length 0" ∨
     16 < read_u32_le b0 b1 b2 b3 ∧ str "frame too large" = str "frame too large").
Proof.
  exact (try_read_frame_outcomes (frame_header 17 ++ str "x") 16 ltac:(lia)).
Defined.

End Protocol.
