(* ===== verification/Json.v ===== *)
(** * Field extraction from JSON text

    The hand-written extractors of the session manager ([extract_json_string]
    and [extract_json_number], the lambdas of [SessionManager::on_readable] in
    [src/ipc/session_manager.cpp]) and of the client ([json_get_string] in
    [src/cli/main.cpp]). A position in the text that [std::string::find]
    returns is represented by the suffix that starts there. *)
From stdpp Require Import prelude list strings.
From S2P Require Import Prelude Floating Protocol.
Import Protocol.
Local Open Scope Z_scope.

Local Abbreviation quote := Init.Byte.x22.
Local Abbreviation backslash := Init.Byte.x5c.

(** ** Definitions *)

Fixpoint is_prefix (pat s : bytes) : bool :=
  match pat, s with
  | [], _ => true
  | p :: pat', c :: s' => bool_decide (p = c) && is_prefix pat' s'
  | _ :: _, [] => false
  end.

(** [std::string::find]: the suffix at the first occurrence. *)
Fixpoint find_sub (pat s : bytes) : option bytes :=
  if is_prefix pat s then Some s
  else match s with [] => None | _ :: s' => find_sub pat s' end.

Fixpoint find_char (c : byte) (s : bytes) : option bytes :=
  match s with
  | [] => None
  | x :: s' => if decide (x = c) then Some s else find_char c s'
  end.

(** The text after the colon that follows the first occurrence of the quoted
    key; starts with the colon. *)
Definition find_key (j key : bytes) : option bytes :=
  p ← find_sub (quote :: key ++ [quote]) j;
  find_char Init.Byte.x3a p.

(** The text after the quote that opens the next string. *)
Definition find_value (colon : bytes) : option bytes :=
  q1 ← find_char quote colon;
  Some (tail q1).

Definition is_hex (c : byte) : bool :=
  let v := byte_val c in
  ((0x30 <=? v) && (v <=? 0x39)) || ((0x61 <=? v) && (v <=? 0x66)) || ((0x41 <=? v) && (v <=? 0x46)).

(** The escapes of one character the server decodes. *)
Definition simple_escape (e : byte) : option byte :=
  if decide (e = quote) then Some quote
  else if decide (e = backslash) then Some backslash
  else if decide (e = Init.Byte.x2f) then Some Init.Byte.x2f
  else if decide (e = Init.Byte.x62) then Some Init.Byte.x08
  else if decide (e = Init.Byte.x66) then Some Init.Byte.x0c
  else if decide (e = Init.Byte.x6e) then Some Init.Byte.x0a
  else if decide (e = Init.Byte.x72) then Some Init.Byte.x0d
  else if decide (e = Init.Byte.x74) then Some Init.Byte.x09
  else None.

(** The scanning loop from just behind the opening quote: the decoded text and
    [invalid_escape]. *)
Fixpoint scan_string (s : bytes) : bytes * bool :=
  match s with
  | [] => ([], false)
  | c :: s1 =>
      if decide (c = backslash) then
        match s1 with
        | [] => ([], true)
        | e :: s2 =>
            match simple_escape e with
            | Some d => let '(out, bad) := scan_string s2 in (d :: out, bad)
            | None =>
                if decide (e = Init.Byte.x75) then
                  match s2 with
                  | h0 :: h1 :: h2 :: h3 :: s3 =>
                      if is_hex h0 && is_hex h1 && is_hex h2 && is_hex h3 then
                        let '(out, bad) := scan_string s3 in (Init.Byte.x3f :: out, bad)
                      else ([], true)
                  | _ => ([], true)
                  end
                else ([], true)
            end
        end
      else if decide (c = quote) then ([], false)
      else if byte_val c <? 0x20 then ([], true)
      else let '(out, bad) := scan_string s1 in (c :: out, bad)
  end.

Definition extract_json_string (j key : bytes) : bytes * bool :=
  match (c ← find_key j key; find_value c) with
  | None => ([], false)
  | Some s => scan_string s
  end.

Definition is_space (c : byte) : bool :=
  bool_decide (c = Init.Byte.x20 ∨ c = Init.Byte.x09 ∨ c = Init.Byte.x0a ∨ c = Init.Byte.x0d).

Fixpoint skip_spaces (s : bytes) : bytes :=
  match s with
  | c :: s' => if is_space c then skip_spaces s' else s
  | [] => []
  end.

Definition is_number_char (c : byte) : bool :=
  is_digit c ||
  bool_decide (c = Init.Byte.x2d ∨ c = Init.Byte.x2b ∨ c = Init.Byte.x65 ∨ c = Init.Byte.x45 ∨
               c = Init.Byte.x2e).

Fixpoint number_chars (s : bytes) : bytes :=
  match s with
  | c :: s' => if is_number_char c then c :: number_chars s' else []
  | [] => []
  end.

(** [None] is [found = false]. *)
Definition extract_json_number (j key : bytes) : option double :=
  colon ← find_key j key;
  let num := number_chars (skip_spaces (tail colon)) in
  if bool_decide (num = []) then None else strtod num.

(** The client's extractor: unknown escapes stand for themselves, control
    characters are accepted, a missing closing quote ends the value. *)
Definition cli_escape (e : byte) : byte :=
  if decide (e = Init.Byte.x6e) then Init.Byte.x0a
  else if decide (e = Init.Byte.x72) then Init.Byte.x0d
  else if decide (e = Init.Byte.x74) then Init.Byte.x09
  else e.

Fixpoint cli_scan (s : bytes) : bytes :=
  match s with
  | [] => []
  | c :: s1 =>
      if decide (c = backslash) then
        match s1 with
        | [] => []
        | e :: s2 => cli_escape e :: cli_scan s2
        end
      else if decide (c = quote) then []
      else c :: cli_scan s1
  end.

Definition json_get_string (j key : bytes) : bytes :=
  match (c ← find_key j key; find_value c) with
  | None => []
  | Some s => cli_scan s
  end.

(** ** Reading back an escaped string *)

(** What survives a round trip through the escaper: control characters other
    than newline, carriage return and tab come back as a question mark. *)
Definition readback (c : byte) : byte :=
  if (byte_val c <? 0x20) && negb (is_space c) then Init.Byte.x3f else c.

Lemma json_escape_cons c s : json_escape (c :: s) = escape_byte c ++ json_escape s.
Proof. reflexivity. Qed.

Lemma scan_escape_byte c X :
  scan_string (escape_byte c ++ X) = let '(out, bad) := scan_string X in (readback c :: out, bad).
Proof. destruct c; reflexivity. Qed.

Lemma scan_escaped s rest :
  scan_string (json_escape s ++ quote :: rest) = (readback <$> s, false).
Proof.
  induction s as [|c s IH]; [reflexivity|].
  by rewrite json_escape_cons, <- app_assoc, scan_escape_byte, IH.
Qed.

(** The client reads its own escaping back, except that it does not decode the
    six-character form of a control character. *)
Definition cli_plain (c : byte) : bool := negb (byte_val c <? 0x20) || is_space c.

Lemma cli_scan_escape_byte c X :
  cli_plain c = true → cli_scan (escape_byte c ++ X) = c :: cli_scan X.
Proof. destruct c; first [reflexivity|discriminate]. Qed.

Lemma cli_scan_escaped s rest :
  forallb cli_plain s = true → cli_scan (json_escape s ++ quote :: rest) = s.
Proof.
  induction s as [|c s IH]; [reflexivity|]. cbn [forallb]. intros [Hc Hs]%andb_true_iff.
  rewrite json_escape_cons, <- app_assoc, cli_scan_escape_byte by done. by rewrite IH.
Qed.

(** ** Finding a key behind an escaped string *)

(** A key of the protocol: no quote, no backslash. *)
Definition key_ok (key : bytes) : Prop := Forall (λ c, c ≠ quote ∧ c ≠ backslash) key.

Local Abbreviation quoted key := (quote :: key ++ [quote]).

Lemma is_prefix_app pat s : is_prefix pat (pat ++ s) = true.
Proof. induction pat as [|p pat IH]; [done|]. cbn. by rewrite bool_decide_eq_true_2. Qed.

Lemma find_sub_here pat s : find_sub pat (pat ++ s) = Some (pat ++ s).
Proof. unfold find_sub. destruct (pat ++ s) eqn:E; rewrite <- E; by rewrite is_prefix_app. Qed.

Lemma find_sub_cons pat c s :
  find_sub pat (c :: s) = if is_prefix pat (c :: s) then Some (c :: s) else find_sub pat s.
Proof. reflexivity. Qed.

(** Text in which every position differs from the pattern before either ends:
    a search passes over it. *)
Fixpoint mismatch (pat s : bytes) : bool :=
  match pat, s with
  | p :: pat', c :: s' => if decide (p = c) then mismatch pat' s' else true
  | _, _ => false
  end.
Fixpoint passes_over (pat l : bytes) : bool :=
  match l with
  | [] => true
  | _ :: l' => mismatch pat l && passes_over pat l'
  end.

Lemma mismatch_prefix pat l s : mismatch pat l = true → is_prefix pat (l ++ s) = false.
Proof.
  revert l. induction pat as [|p pat IH]; intros [|c l]; try done. cbn.
  destruct (decide (p = c)) as [->|Hne]; intros Hm; [|by rewrite bool_decide_eq_false_2].
  rewrite IH by done. apply andb_false_r.
Qed.

Lemma find_sub_passes pat l s :
  passes_over pat l = true → find_sub pat (l ++ s) = find_sub pat s.
Proof.
  induction l as [|c l IH]; [done|]. cbn [passes_over]. intros [Hm Hl]%andb_true_iff.
  cbn [app]. rewrite find_sub_cons, (mismatch_prefix pat (c :: l) s Hm : is_prefix pat (c :: l ++ s) = _).
  by apply IH.
Qed.

Lemma find_sub_skip key c s : c ≠ quote → find_sub (quoted key) (c :: s) = find_sub (quoted key) s.
Proof. intros Hc. cbn. by rewrite bool_decide_eq_false_2 by done. Qed.

Lemma find_sub_skips key l s :
  Forall (λ c, c ≠ quote) l → find_sub (quoted key) (l ++ s) = find_sub (quoted key) s.
Proof. induction 1; [done|]. cbn [app]. by rewrite find_sub_skip. Qed.

(** A key that is matched inside an escaped string is the whole of the rest of
    that string: its closing quote can only be the closing quote. *)
Lemma key_prefix_escaped key s rest :
  key_ok key → is_prefix (key ++ [quote]) (json_escape s ++ quote :: rest) = true →
  json_escape s = key.
Proof.
  intros Hk. revert s. induction Hk as [|k key [Hq Hb] Hk IH]; intros s Hp.
  - destruct s as [|c s]; [done|exfalso].
    rewrite json_escape_cons in Hp.
    destruct (escape_byte_cases c) as [[Hc E]|(d & r & E & _)]; rewrite E in Hp; cbn in Hp; [|done].
    apply andb_true_iff in Hp as [Hp _]. apply bool_decide_eq_true in Hp as <-. done.
  - destruct s as [|c s]; cbn [app] in Hp.
    { cbn in Hp. by rewrite bool_decide_eq_false_2 in Hp. }
    rewrite json_escape_cons in Hp |- *.
    destruct (escape_byte_cases c) as [[Hc E]|(d & r & E & _)]; rewrite E in Hp |- *; cbn in Hp.
    + apply andb_true_iff in Hp as [->%bool_decide_eq_true Hp]. cbn. f_equal. by apply IH.
    + by rewrite bool_decide_eq_false_2 in Hp.
Qed.

(** Searching a quoted key from the opening quote of an escaped string, or from
    inside it, either stops with its match ending at the closing quote or goes
    on behind the string. *)
Lemma find_sub_in_escaped key s rest :
  key_ok key →
  find_sub (quoted key) (json_escape s ++ quote :: rest) = Some (quoted key ++ rest) ∨
  find_sub (quoted key) (json_escape s ++ quote :: rest) = find_sub (quoted key) (quote :: rest).
Proof.
  intros Hk. induction s as [|c s IH]; [by right|].
  rewrite json_escape_cons, <- app_assoc.
  destruct (escape_byte_cases c) as [[Hc E]|(d & r & E & Hr)]; rewrite E.
  { cbn [app]. rewrite find_sub_skip; [done|]. by intros ->. }
  cbn [app]. rewrite find_sub_skip by done.
  assert (Hr' : Forall (λ c, c ≠ quote) r) by (eapply Forall_impl; [done|]; by intros x Hx ->).
  destruct (decide (d = quote)) as [->|Hd].
  - destruct r as [|x r].
    + cbn [app]. rewrite (find_sub_cons _ quote (json_escape s ++ quote :: rest)).
      destruct (is_prefix (quoted key) (quote :: json_escape s ++ quote :: rest)) eqn:Ep; [|done].
      left. cbn in Ep. rewrite bool_decide_eq_true_2 in Ep by done.
      rewrite (key_prefix_escaped key s rest Hk Ep). cbn. by rewrite <- app_assoc.
    + exfalso. clear -E. destruct c; discriminate E.
  - rewrite find_sub_skip, find_sub_skips by done. done.
Qed.

Lemma find_sub_quoted_escaped key s rest :
  key_ok key →
  find_sub (quoted key) (quote :: json_escape s ++ quote :: rest) = Some (quoted key ++ rest) ∨
  find_sub (quoted key) (quote :: json_escape s ++ quote :: rest) = find_sub (quoted key) (quote :: rest).
Proof.
  intros Hk. rewrite (find_sub_cons _ quote (json_escape s ++ quote :: rest)).
  destruct (is_prefix (quoted key) (quote :: json_escape s ++ quote :: rest)) eqn:Ep;
    [left|by apply find_sub_in_escaped].
  cbn in Ep. rewrite bool_decide_eq_true_2 in Ep by done.
  rewrite (key_prefix_escaped key s rest Hk Ep). cbn. by rewrite <- app_assoc.
Qed.

Lemma find_char_skip c l s : Forall (λ x, x ≠ c) l → find_char c (l ++ s) = find_char c s.
Proof. induction 1 as [|x l Hx _ IH]; [done|]. cbn. by rewrite decide_False. Qed.

(** A key without a colon as well. *)
Definition plain_key (key : bytes) : Prop :=
  key_ok key ∧ Forall (λ c, c ≠ Init.Byte.x3a) key.

#[global] Instance plain_key_dec key : Decision (plain_key key).
Proof. unfold plain_key, key_ok. apply _. Defined.

(** Decides [plain_key] of a literal. *)
Ltac solve_key := apply (bool_decide_unpack _); vm_compute; exact I.

Lemma find_char_quoted key rest :
  plain_key key → find_char Init.Byte.x3a (quoted key ++ rest) = find_char Init.Byte.x3a rest.
Proof.
  intros [_ Hk]. apply (find_char_skip _ (quoted key)).
  constructor; [done|]. apply Forall_app. split; [done|]. by constructor.
Qed.

(** Looking a key up from the opening quote of an escaped string: the value
    found is the one behind the next colon after that string, or the one found
    by looking on behind it. *)
Lemma find_key_escaped key s rest :
  plain_key key →
  find_key (quote :: json_escape s ++ quote :: rest) key = find_char Init.Byte.x3a rest ∨
  find_key (quote :: json_escape s ++ quote :: rest) key = find_key (quote :: rest) key.
Proof.
  intros Hk. unfold find_key. destruct (find_sub_quoted_escaped key s rest (proj1 Hk)) as [->| ->].
  - left. cbn [mbind option_bind]. by apply find_char_quoted.
  - by right.
Qed.

(** The next string value after a colon, escaped: it is read back. *)
Lemma extract_here j key s rest :
  find_key j key = Some (Init.Byte.x3a :: quote :: json_escape s ++ quote :: rest) →
  extract_json_string j key = (readback <$> s, false).
Proof. intros H. unfold extract_json_string. rewrite H. cbn [mbind option_bind]. apply scan_escaped. Qed.

Lemma json_get_here j key s rest :
  find_key j key = Some (Init.Byte.x3a :: quote :: json_escape s ++ quote :: rest) →
  forallb cli_plain s = true → json_get_string j key = s.
Proof.
  intros H Hs. unfold json_get_string. rewrite H. cbn [mbind option_bind].
  by apply cli_scan_escaped.
Qed.

(** ** Theorems *)

(** The server's string decoder inverts the escaper: scanning an escaped
    string up to its closing quote gives the string back, flags nothing, and
    only replaces control characters other than tab, newline and carriage
    return by a question mark. *)
Theorem unescape_escape s rest :
  scan_string (json_escape s ++ quote :: rest) = (readback <$> s, false) ∧
  (forallb cli_plain s = true → (scan_string (json_escape s ++ quote :: rest)).1 = s).
Proof.
  rewrite scan_escaped. split; [done|]. cbn [fst]. intros Hs.
  induction s as [|c s IH]; [done|]. cbn in Hs |- *. apply andb_true_iff in Hs as [Hc Hs].
  f_equal; [|by apply IH]. clear -Hc. destruct c; first [reflexivity|discriminate Hc].
Qed.
