(* ===== verification/Cli.v ===== *)
(** * The command-line client ([src/cli/main.cpp])

    The request the client builds, and what it does with an event,
    as functions of the options and of the bytes the daemon sends. *)
From stdpp Require Import prelude list strings.
From S2P Require Import Prelude Floating Protocol Json.
Import Protocol.
Local Open Scope Z_scope.

(** ** Definitions *)

Record CliOptions := {
  cli_socket_path : bytes;
  cli_id : bytes;
  cli_prompt : bytes;
  cli_max_tokens : Z;
  cli_temperature : double;
  cli_top_p : double;
  has_temperature : bool;
  has_top_p : bool;
  cli_stream : bool;
  cli_metrics : bool;
}.

Definition default_options : CliOptions := {|
  cli_socket_path := str "/tmp/uma.sock"; cli_id := []; cli_prompt := []; cli_max_tokens := -1;
  cli_temperature := F64.of_Z 0; cli_top_p := F64.of_Z 1; has_temperature := false;
  has_top_p := false; cli_stream := true; cli_metrics := false;
|}.

(** The optional fields of a request, after the prompt. *)
Definition request_tail (opt : CliOptions) : bytes :=
  jstr ",'stream':" ++ (if cli_stream opt then str "true" else str "false") ++
  (if 0 <? cli_max_tokens opt
   then jstr ",'max_tokens':" ++ to_string (cli_max_tokens opt) else []) ++
  (if has_temperature opt
   then jstr ",'temperature':" ++ to_string_double (cli_temperature opt) else []) ++
  (if has_top_p opt then jstr ",'top_p':" ++ to_string_double (cli_top_p opt) else []) ++
  str "}".

Definition request_payload (opt : CliOptions) : bytes :=
  if cli_metrics opt then jstr "{'type':'metrics'}"
  else
    jstr "{'id':'" ++ json_escape (cli_id opt) ++ jstr "','prompt':'" ++
    json_escape (cli_prompt opt) ++ jstr "'" ++ request_tail opt.

(** What the client does with one event: print text, print a line, finish with
    an exit code (and what it printed). *)
Inductive CliAction :=
| Print (text : bytes)
| PrintLine (text : bytes)
| Finish (code : Z) (text : bytes).

Definition on_event (opt : CliOptions) (js : bytes) : CliAction :=
  if cli_metrics opt then Finish 0 js
  else
    let event := json_get_string js (str "event") in
    if bool_decide (event = str "token") then Print (json_get_string js (str "text"))
    else if bool_decide (event = str "eos") then Finish 0 []
    else if bool_decide (event = str "error") then
      let msg := json_get_string js (str "message") in
      Finish 2 (if bool_decide (msg = []) then js else msg)
    else if bool_decide (event = str "metrics") then Finish 0 js
    else PrintLine js.

(** ** Plain text in the fixed parts *)

Lemma number_text_no_quote z : Forall (λ c, c ≠ Init.Byte.x22 ∧ c ≠ Init.Byte.x3a) (to_string z).
Proof.
  unfold to_string, DecimalString.NilZero.string_of_int.
  assert (Hu : ∀ u, Forall (λ c, c ≠ Init.Byte.x22 ∧ c ≠ Init.Byte.x3a)
                      (str (DecimalString.NilEmpty.string_of_uint u))).
  { intros u. induction u; cbn; [constructor|..]; by constructor. }
  assert (Hz : ∀ u, Forall (λ c, c ≠ Init.Byte.x22 ∧ c ≠ Init.Byte.x3a)
                      (str (DecimalString.NilZero.string_of_uint u))).
  { intros [| | | | | | | | | |]; cbn; [by repeat constructor|..]; (constructor; [done|apply Hu]). }
  destruct (Z.to_int z); [apply Hz|]. cbn. constructor; [done|apply Hz].
Qed.

Lemma double_text_no_quote x :
  Forall (λ c, c ≠ Init.Byte.x22 ∧ c ≠ Init.Byte.x3a) (to_string_double x).
Proof.
  assert (Hd : ∀ v, Forall (λ c, c ≠ Init.Byte.x22 ∧ c ≠ Init.Byte.x3a) (decimal_digits 6 v)).
  { intros v. unfold decimal_digits, pad_zeros. apply Forall_app. split; [apply number_text_no_quote|].
    constructor; [done|]. apply Forall_app. split; [|apply number_text_no_quote].
    by apply Forall_replicate. }
  unfold to_string_double, fixed_decimal. destruct x as [[]|[]| |[] m e]; cbn -[decimal_digits];
    try (repeat constructor; done); try (constructor; [done|]); apply Hd.
Qed.

Local Abbreviation quote := Init.Byte.x22.
Local Abbreviation colon := Init.Byte.x3a.
Local Abbreviation quoted key := (quote :: key ++ [quote]).

(** ** Looking up the fields of a request *)

Lemma find_sub_number key z s :
  find_sub (quoted key) (to_string z ++ s) = find_sub (quoted key) s.
Proof.
  apply find_sub_skips. apply (Forall_impl _ _ _ (number_text_no_quote z)). by intros c [].
Qed.

Lemma find_sub_double key x s :
  find_sub (quoted key) (to_string_double x ++ s) = find_sub (quoted key) s.
Proof.
  apply find_sub_skips. apply (Forall_impl _ _ _ (double_text_no_quote x)). by intros c [].
Qed.

(** The parts of a request behind an opening quote. *)
Definition after_id (opt : CliOptions) : bytes :=
  jstr ",'prompt':" ++ quote :: json_escape (cli_prompt opt) ++ quote :: request_tail opt.

Lemma request_shape opt :
  cli_metrics opt = false →
  request_payload opt = jstr "{'id':" ++ quote :: json_escape (cli_id opt) ++ quote :: after_id opt.
Proof. intros Hm. unfold request_payload. by rewrite Hm. Qed.

Lemma find_key_id opt :
  cli_metrics opt = false →
  find_key (request_payload opt) (str "id")
  = Some (colon :: quote :: json_escape (cli_id opt) ++ quote :: after_id opt).
Proof. intros Hm. rewrite request_shape by done. reflexivity. Qed.

Lemma find_key_prompt opt :
  cli_metrics opt = false →
  find_key (request_payload opt) (str "prompt")
  = Some (colon :: quote :: json_escape (cli_prompt opt) ++ quote :: request_tail opt).
Proof.
  intros Hm. rewrite request_shape by done.
  change (find_key (quote :: json_escape (cli_id opt) ++ quote :: after_id opt) (str "prompt")
          = Some (colon :: quote :: json_escape (cli_prompt opt) ++ quote :: request_tail opt)).
  destruct (find_key_escaped (str "prompt") (cli_id opt) (after_id opt)) as [-> | ->];
    [solve_key|reflexivity|reflexivity].
Qed.

(** Behind the prompt there is neither a [type] nor an [event] field, and the
    next value is not a string that could be taken for one. *)
Lemma tail_lookup opt key :
  key = str "type" ∨ key = str "event" →
  find_key (quote :: request_tail opt) key = None.
Proof.
  intros Hk. unfold find_key.
  assert (E : find_sub (quoted key) (quote :: request_tail opt) = None); [|by rewrite E].
  assert (Hp : ∀ l s, passes_over (quoted (str "type")) l = true →
                      passes_over (quoted (str "event")) l = true →
                      find_sub (quoted key) (l ++ s) = find_sub (quoted key) s)
    by (intros l s H1 H2; destruct Hk as [-> | ->]; by apply find_sub_passes).
  unfold request_tail.
  change (quote :: jstr ",'stream':" ++ ?x) with ((quote :: jstr ",'stream':") ++ x).
  rewrite Hp by (vm_compute; reflexivity).
  destruct (cli_stream opt); (rewrite Hp by (vm_compute; reflexivity));
  destruct (0 <? cli_max_tokens opt), (has_temperature opt), (has_top_p opt);
    rewrite <- ?app_assoc; rewrite ?app_nil_l;
    repeat (first [rewrite find_sub_number | rewrite find_sub_double
                  | rewrite Hp by (vm_compute; reflexivity)]);
    destruct Hk as [-> | ->]; reflexivity.
Qed.

(** The value behind the colon of ["stream"], if one looks for a string. *)
Lemma tail_value opt :
  ∃ c, find_char colon (request_tail opt) = Some c ∧
    match find_value c with
    | None => True
    | Some s => ∃ bad, scan_string s = (str "max_tokens", bad) ∨
                       scan_string s = (str "temperature", bad) ∨ scan_string s = (str "top_p", bad)
    end.
Proof.
  unfold request_tail. eexists. split; [reflexivity|].
  destruct (cli_stream opt), (0 <? cli_max_tokens opt), (has_temperature opt), (has_top_p opt);
    cbn -[to_string to_string_double]; try done; exists false; auto.
Qed.

(** A generation request is only taken for a metrics request when its prompt
    reads ["metrics"]. *)
Lemma request_string opt key :
  cli_metrics opt = false → key = str "type" ∨ key = str "event" →
  (extract_json_string (request_payload opt) key).1 = str "metrics" →
  readback <$> cli_prompt opt = str "metrics".
Proof.
  intros Hm Hk. assert (Hpk : plain_key key) by (destruct Hk as [-> | ->]; solve_key).
  rewrite request_shape by done.
  assert (E0 : find_key (jstr "{'id':" ++ quote :: json_escape (cli_id opt) ++ quote :: after_id opt) key
             = find_key (quote :: json_escape (cli_id opt) ++ quote :: after_id opt) key)
    by (destruct Hk as [-> | ->]; reflexivity).
  assert (E1 : find_key (quote :: after_id opt) key
             = find_key (quote :: json_escape (cli_prompt opt) ++ quote :: request_tail opt) key)
    by (destruct Hk as [-> | ->]; reflexivity).
  unfold extract_json_string. rewrite E0.
  destruct (find_key_escaped key (cli_id opt) (after_id opt) Hpk) as [-> | ->].
  { change (find_char colon (after_id opt))
      with (Some (colon :: quote :: json_escape (cli_prompt opt) ++ quote :: request_tail opt)).
    change ((scan_string (json_escape (cli_prompt opt) ++ quote :: request_tail opt)).1
            = str "metrics" → readback <$> cli_prompt opt = str "metrics").
    by rewrite scan_escaped. }
  rewrite E1.
  destruct (find_key_escaped key (cli_prompt opt) (request_tail opt) Hpk) as [-> | ->].
  - destruct (tail_value opt) as (c & -> & Hv). cbn [mbind option_bind].
    destruct (find_value c) as [s|]; [|done].
    destruct Hv as [bad [-> |[-> | ->]]]; discriminate.
  - rewrite tail_lookup by done. done.
Qed.

(** ** Looking up the fields of an event *)

(** A string without quotes that is not the key itself is passed over. *)
Lemma find_sub_other key s rest :
  key_ok key → Forall (λ c, c ≠ quote) s → json_escape s ≠ key →
  find_sub (quoted key) (quote :: json_escape s ++ quote :: rest)
  = find_sub (quoted key) (quote :: rest).
Proof.
  intros Hk Hq Hne. rewrite find_sub_cons.
  destruct (is_prefix (quoted key) (quote :: json_escape s ++ quote :: rest)) eqn:Ep.
  { exfalso. apply Hne. apply (key_prefix_escaped key s rest Hk). cbn in Ep.
    by rewrite bool_decide_eq_true_2 in Ep. }
  apply find_sub_skips. clear -Hq. induction Hq as [|c s Hc Hq IH]; [constructor|].
  rewrite json_escape_cons. apply Forall_app. split; [|done].
  clear -Hc. destruct c; first [by repeat constructor|done].
Qed.

(** The part of a token event behind the id. *)
Definition after_token_id (text : bytes) (token_id : Z) : bytes :=
  jstr ",'event':'token','text':" ++ quote :: json_escape text ++ quote ::
  jstr ",'token_id':" ++ to_string token_id ++ str "}".

Lemma token_payload_shape id text token_id :
  token_payload id text token_id
  = jstr "{'id':" ++ quote :: json_escape id ++ quote :: after_token_id text token_id.
Proof. reflexivity. Qed.

Lemma token_event_field id text token_id :
  json_get_string (token_payload id text token_id) (str "event") = str "token".
Proof.
  rewrite token_payload_shape. unfold json_get_string.
  change (find_key (jstr "{'id':" ++ ?x) (str "event")) with (find_key x (str "event")).
  destruct (find_key_escaped (str "event") id (after_token_id text token_id)) as [-> | ->];
    [solve_key|reflexivity|reflexivity].
Qed.

(** An end of stream is recognised whatever the id. *)
Lemma client_ends_at_eos opt id reason :
  cli_metrics opt = false → on_event opt (eos_payload id reason) = Finish 0 [].
Proof.
  intros Hm. unfold on_event. rewrite Hm. unfold json_get_string, eos_payload.
  change (find_key (jstr "{'id':'" ++ json_escape id ++ jstr "','event':'eos','reason':'" ++
                    json_escape reason ++ jstr "'}") (str "event"))
    with (find_key (quote :: json_escape id ++ quote :: jstr ",'event':'eos','reason':'" ++
                    json_escape reason ++ jstr "'}") (str "event")).
  destruct (find_key_escaped (str "event") id (jstr ",'event':'eos','reason':'" ++
    json_escape reason ++ jstr "'}")) as [-> | ->]; [solve_key|reflexivity|reflexivity].
Qed.

Lemma token_text_field id text token_id :
  Forall (λ c, c ≠ quote) id → json_escape id ≠ str "text" →
  find_key (token_payload id text token_id) (str "text")
  = Some (colon :: quote :: json_escape text ++ quote :: jstr ",'token_id':" ++ to_string token_id ++ str "}").
Proof.
  intros Hq Hne. rewrite token_payload_shape. unfold find_key.
  change (find_sub (quoted (str "text")) (jstr "{'id':" ++ ?x))
    with (find_sub (quoted (str "text")) x).
  rewrite find_sub_other; [reflexivity| |done|done].
  by apply (bool_decide_unpack _).
Qed.

(** ** Theorems *)

(** C30. The request the client builds for a prompt is understood by the server: for
    every id and every prompt, whatever quotes, backslashes or names of keys they
    contain, the server's extractor finds the client's id and prompt and reports
    no invalid escape. They are read back byte for byte except that control
    characters other than tab, newline and carriage return, which the client
    sends as Unicode escapes, become question marks ([readback]). *)
Theorem request_fields_roundtrip opt :
  cli_metrics opt = false →
  extract_json_string (request_payload opt) (str "id") = (readback <$> cli_id opt, false) ∧
  extract_json_string (request_payload opt) (str "prompt") = (readback <$> cli_prompt opt, false).
Proof.
  intros Hm. split; eapply extract_here; [by apply find_key_id|by apply find_key_prompt].
Qed.

(** The client prints what the daemon sent: for a token event whose id has no
    quote and is not the word [text], the client recognises a token and
    recovers its text (without control characters other than tab, newline and
    carriage return). *)
Theorem client_prints_token opt id text token_id :
  cli_metrics opt = false → Forall (λ c, c ≠ quote) id → json_escape id ≠ str "text" →
  forallb cli_plain text = true →
  on_event opt (token_payload id text token_id) = Print text.
Proof.
  intros Hm Hq Hne Ht. unfold on_event. rewrite Hm, token_event_field.
  rewrite bool_decide_eq_true_2 by done. f_equal.
  by eapply json_get_here; [apply token_text_field|].
Qed.

(** Searching for a key by substring can pick the wrong field: a request whose
    id is the word [text] makes the client print ["token"] for every token. *)
Theorem id_text_prints_token text token_id :
  on_event default_options (token_payload (str "text") text token_id) = Print (str "token").
Proof. unfold on_event. by rewrite token_event_field. Qed.

(** ** Witnesses *)

Definition demo_options : CliOptions := {|
  cli_socket_path := str "/tmp/uma.sock"; cli_id := str "req-1"; cli_prompt := jstr "say 'hi'";
  cli_max_tokens := 8; cli_temperature := literal 7 1; cli_top_p := F64.of_Z 1;
  has_temperature := true; has_top_p := false; cli_stream := true; cli_metrics := false;
|}.

Example demo_request :
  request_payload demo_options
  = jstr "{'id':'req-1','prompt':'say \'hi\'','stream':true,'max_tokens':8,'temperature':0.700000}".
Proof. vm_compute. reflexivity. Qed.

Lemma request_fields_roundtrip_witness :
  extract_json_string (request_payload demo_options) (str "prompt") = (jstr "say 'hi'", false).
Proof. exact (proj2 (request_fields_roundtrip demo_options eq_refl)). Defined.

Lemma client_prints_token_witness :
  on_event demo_options (token_payload (str "req-1") (str "ok") 5) = Print (str "ok").
Proof.
  apply (client_prints_token demo_options (str "req-1") (str "ok") 5);
    [reflexivity|by apply (bool_decide_unpack _)|discriminate|reflexivity].
Defined.
