(* ===== verification/CliMain.v ===== *)
(** * The client program ([src/cli/main.cpp])

    [main] of the command-line client: the arguments, the connection, sending
    the request and the blocking loop that reads frames and prints events, as
    a program over system calls; and what a run of it does. *)
From stdpp Require Import prelude list strings.
From Stdlib Require Import ZifyBool.
From S2P Require Import Prelude Floating CLib Sys Protocol Json Cli.
Import Protocol.
Local Open Scope Z_scope.

(** ** Definitions *)

Definition eta_options (o : CliOptions) : CliOptions := {|
  cli_socket_path := cli_socket_path o; cli_id := cli_id o; cli_prompt := cli_prompt o;
  cli_max_tokens := cli_max_tokens o; cli_temperature := cli_temperature o;
  cli_top_p := cli_top_p o; has_temperature := has_temperature o; has_top_p := has_top_p o;
  cli_stream := cli_stream o; cli_metrics := cli_metrics o |}.
#[global] Instance set_cli_socket_path : Setter cli_socket_path := ltac:(derive_setter eta_options).
#[global] Instance set_cli_id : Setter cli_id := ltac:(derive_setter eta_options).
#[global] Instance set_cli_prompt : Setter cli_prompt := ltac:(derive_setter eta_options).
#[global] Instance set_cli_max_tokens : Setter cli_max_tokens := ltac:(derive_setter eta_options).
#[global] Instance set_cli_temperature : Setter cli_temperature := ltac:(derive_setter eta_options).
#[global] Instance set_cli_top_p : Setter cli_top_p := ltac:(derive_setter eta_options).
#[global] Instance set_has_temperature : Setter has_temperature := ltac:(derive_setter eta_options).
#[global] Instance set_has_top_p : Setter has_top_p := ltac:(derive_setter eta_options).
#[global] Instance set_cli_stream : Setter cli_stream := ltac:(derive_setter eta_options).
#[global] Instance set_cli_metrics : Setter cli_metrics := ltac:(derive_setter eta_options).

(** The outcome of the argument loop: options, help, or the offending word. *)
Inductive CliArgs := ArgsOk (opt : CliOptions) | ArgsHelp | ArgsBad (a : bytes).

Definition word (a : bytes) (w : string) : bool := bool_decide (a = str w).

Fixpoint cli_args (args : list bytes) (opt : CliOptions) : CliArgs :=
  match args with
  | [] => ArgsOk opt
  | a :: rest =>
      if word a "--help" || word a "-h" then ArgsHelp
      else
        match rest with
        | v :: rest' =>
            if word a "--socket" then cli_args rest' (opt <| cli_socket_path := v |>)
            else if word a "--prompt" then cli_args rest' (opt <| cli_prompt := v |>)
            else if word a "--id" then cli_args rest' (opt <| cli_id := v |>)
            else if word a "--max-tokens" then cli_args rest' (opt <| cli_max_tokens := atoi v |>)
            else if word a "--temp" then
              cli_args rest' (opt <| cli_temperature := atof v |> <| has_temperature := true |>)
            else if word a "--top-p" then
              cli_args rest' (opt <| cli_top_p := atof v |> <| has_top_p := true |>)
            else if word a "--no-stream" then cli_args rest (opt <| cli_stream := false |>)
            else if word a "--metrics" then cli_args rest (opt <| cli_metrics := true |>)
            else ArgsBad a
        | [] =>
            if word a "--no-stream" then cli_args rest (opt <| cli_stream := false |>)
            else if word a "--metrics" then cli_args rest (opt <| cli_metrics := true |>)
            else ArgsBad a
        end
  end.

Definition newline : bytes := [Init.Byte.x0a].

Definition usage (argv0 : bytes) : bytes :=
  str "uma-cli - UMA Serve client (UDS, framed JSON)" ++ newline ++ str "Usage: " ++ argv0 ++
  str " --prompt 'text' [--socket /tmp/uma.sock] [--id req-1] [--max-tokens N] [--temp T] [--top-p P] [--no-stream] [--metrics]"
  ++ newline.

Definition gen_default_id (pid time : Z) : bytes :=
  str "req-" ++ to_string pid ++ str "-" ++ to_string time.

Section Client.
Context `{Platform}.

Definition connect_uds (path : bytes) : Sys Z :=
  s ← invoke SysSocket;
  let fd := a_ret s in
  if fd <? 0 then perror "socket" s;; mret (-1)
  else if sun_path_size <=? Z.of_nat (length path) then
    log (Stderr (str "socket path too long" ++ newline));;
    invoke (SysClose fd);;
    mret (-1)
  else
    c ← invoke (SysConnect fd path);
    if negb (a_ret c =? 0) then perror "connect" c;; invoke (SysClose fd);; mret (-1)
    else mret fd.

(** One round of the sending loop, at offset [off]. The result is the failed
    call's answer when [send_all] returns [false]. *)
Definition send_round (fd : Z) (data : bytes) (off : nat) : Sys (nat + option answer) :=
  if (off <? length data)%nat then
    a ← invoke (SysWrite fd (drop off data));
    if a_ret a <? 0 then
      if decide (a_errno a = EINTR) then mret (inl off)
      else if decide (a_errno a = EAGAIN ∨ a_errno a = EWOULDBLOCK) then
        invoke (SysUsleep 1000);; mret (inl off)
      else mret (inr (Some a))
    else mret (inl (off + Z.to_nat (a_ret a))%nat)
  else mret (inr None).

Definition send_all (fd : Z) (data : bytes) : Sys (option answer) := loop (send_round fd data) 0%nat.

(** One round of the payload loop, with [js] received so far. *)
Definition payload_round (fd len : Z) (js : bytes) : Sys (bytes + bytes) :=
  if Z.of_nat (length js) <? len then
    a ← invoke (SysRead fd (len - Z.of_nat (length js)));
    if a_ret a <=? 0 then
      if decide (a_errno a = EINTR) then mret (inl js) else mret (inr js)
    else mret (inl (js ++ take (Z.to_nat (a_ret a)) (a_data a)))
  else mret (inr js).

(** The exit path of the receive loop's [break]s. *)
Definition close_and (fd code : Z) : Sys Z := invoke (SysClose fd);; mret code.

Definition act (fd : Z) (a : CliAction) : Sys (() + Z) :=
  match a with
  | Print t => (if bool_decide (t = []) then mret () else log (Stdout t));; mret (inl ())
  | PrintLine t => log (Stdout (t ++ newline));; mret (inl ())
  | Finish code t =>
      log ((if code =? 2 then Stderr else Stdout) (t ++ newline));;
      r ← close_and fd code; mret (inr r)
  end.

(** One round of the receive loop: the header, the payload, the event. *)
Definition receive_round (opt : CliOptions) (fd : Z) (_ : ()) : Sys (() + Z) :=
  h ← invoke (SysRead fd 4);
  if a_ret h =? 0 then r ← close_and fd 0; mret (inr r)
  else if a_ret h <? 0 then
    if decide (a_errno h = EINTR) then mret (inl ())
    else perror "read" h;; r ← close_and fd 3; mret (inr r)
  else
    match a_ret h =? 4, a_data h with
    | true, [b0; b1; b2; b3] =>
        let len := read_u32_le b0 b1 b2 b3 in
        js ← loop (payload_round fd len) [];
        if negb (Z.of_nat (length js) =? len) then
          log (Stderr (str "short payload read" ++ newline));;
          r ← close_and fd 0; mret (inr r)
        else act fd (on_event opt js)
    | _, _ =>
        log (Stderr (str "short header read" ++ newline));;
        r ← close_and fd 0; mret (inr r)
    end.

Definition exchange (opt : CliOptions) : Sys Z :=
  fd ← connect_uds (cli_socket_path opt);
  if fd <? 0 then mret 3
  else
    b ← send_all fd (write_frame [] (request_payload opt));
    match b with
    | None => loop (receive_round opt fd) ()
    | Some a => perror "send" a;; close_and fd 3
    end.

Definition main (argv0 : bytes) (args : list bytes) (pid time : Z) : Sys Z :=
  match cli_args args default_options with
  | ArgsHelp => log (Stderr (usage argv0));; mret 0
  | ArgsBad a =>
      log (Stderr (str "Unknown or incomplete flag: " ++ a ++ newline ++ usage argv0));; mret 1
  | ArgsOk opt =>
      if negb (cli_metrics opt) && bool_decide (cli_prompt opt = []) then
        log (Stderr (str "--prompt is required (or use --metrics)" ++ newline ++ usage argv0));;
        mret 1
      else
        exchange (if bool_decide (cli_id opt = []) then opt <| cli_id := gen_default_id pid time |>
                  else opt)
  end.
End Client.

(** ** The loops make a call in every round *)

Section ClientFacts.
Context `{Platform}.

Lemma send_round_calls fd data : makes_call (send_round fd data).
Proof.
  intros off ans s' ans' l Hr. unfold send_round in Hr. destruct (off <? length data)%nat; [|done].
  eapply call_first_length, Hr. uses_up.
Qed.

Lemma payload_round_calls fd len : makes_call (payload_round fd len).
Proof.
  intros js ans s' ans' l Hr. unfold payload_round in Hr. destruct (_ <? len); [|done].
  eapply call_first_length, Hr. uses_up.
Qed.

Lemma payload_uses_up fd len js : uses_up (payload_round fd len js).
Proof. unfold payload_round. uses_up. Qed.
#[local] Hint Resolve payload_uses_up : sys.

Lemma act_uses_up fd a : uses_up (act fd a).
Proof. unfold act, close_and. uses_up. Qed.
#[local] Hint Resolve act_uses_up : sys.

Lemma receive_round_calls opt fd : makes_call (receive_round opt fd).
Proof.
  intros [] ans s' ans' l Hr. unfold receive_round in Hr. eapply call_first_length, Hr.
  unfold close_and, perror. uses_up.
Qed.

(** ** Sending *)

(** The answers with which a socket takes [d] completely: any number of partial
    writes, interruptions and pauses. *)
Inductive accepts : bytes → list answer → Prop :=
| accepts_done : accepts [] []
| accepts_part d a ans :
    d ≠ [] → 0 ≤ a_ret a ≤ Z.of_nat (length d) → accepts (drop (Z.to_nat (a_ret a)) d) ans →
    accepts d (a :: ans)
| accepts_interrupted d a ans :
    d ≠ [] → a_ret a < 0 → a_errno a = EINTR → accepts d ans → accepts d (a :: ans)
| accepts_full d a u ans :
    d ≠ [] → a_ret a < 0 → a_errno a = EAGAIN ∨ a_errno a = EWOULDBLOCK → accepts d ans →
    accepts d (a :: u :: ans).

Lemma sent_write fd d a : sent fd [Called (SysWrite fd d) a] = take (Z.to_nat (a_ret a)) d.
Proof. cbn. rewrite decide_True by done. apply app_nil_r. Qed.

Lemma sent_write_any f fd d a :
  sent f [Called (SysWrite fd d) a] = if decide (f = fd) then take (Z.to_nat (a_ret a)) d else [].
Proof. cbn. destruct (decide (fd = f)), (decide (f = fd)); try congruence; by rewrite ?app_nil_r. Qed.

(** A round at the end and a round before it. *)
Lemma send_round_end fd data off :
  drop off data = [] → send_round fd data off = mret (inr None).
Proof.
  intros Hd. unfold send_round. rewrite (proj2 (Nat.ltb_ge _ _)); [done|].
  apply (f_equal length) in Hd. rewrite length_drop in Hd. cbn in Hd. lia.
Qed.

Lemma send_round_go fd data off a ans r o snt f :
  drop off data ≠ [] →
  runs_to (if a_ret a <? 0 then
             if decide (a_errno a = EINTR) then mret (inl off)
             else if decide (a_errno a = EAGAIN ∨ a_errno a = EWOULDBLOCK) then
               invoke (SysUsleep 1000);; mret (inl off)
             else mret (inr (Some a))
           else mret (inl (off + Z.to_nat (a_ret a))%nat)) ans r f [] [] snt o o →
  runs_to (send_round fd data off) (a :: ans) r f [] []
    (sent f [Called (SysWrite fd (drop off data)) a] ++ snt) o o.
Proof.
  intros Hne Hr. unfold send_round. rewrite (proj2 (Nat.ltb_lt _ _)).
  - by apply (runs_call (SysWrite fd (drop off data))).
  - destruct (Nat.lt_ge_cases off (length data)); [done|]. by rewrite drop_ge in Hne.
Qed.

Lemma send_ok fd data d ws : accepts d ws → ∀ off o, d = drop off data →
  runs_to (loop (send_round fd data) off) ws None fd [] [] d o o.
Proof.
  induction 1 as [|d a ans Hne Hr _ IH|d a ans Hne Hr He _ IH|d a u ans Hne Hr He _ IH];
    intros off o Hd; (apply runs_loop; [apply send_round_calls|]); [|subst d..].
  - rewrite send_round_end by done. apply runs_ret_bind, runs_ret.
  - eapply runs_eq; [eapply (runs_bind _ _ [a] ans)|..].
    { apply send_round_go; [done|]. replace (a_ret a <? 0) with false by lia. apply runs_ret. }
    { apply IH. by rewrite drop_drop. }
    all: try done. rewrite sent_write, app_nil_r. apply take_drop.
  - eapply runs_eq; [eapply (runs_bind _ _ [a] ans)|..].
    { apply send_round_go; [done|]. replace (a_ret a <? 0) with true by lia.
      rewrite decide_True by done. apply runs_ret. }
    { by apply IH. }
    all: try done. by rewrite sent_write, Z2Nat.nonpos by lia.
  - eapply runs_eq; [eapply (runs_bind _ _ [a; u] ans)|..].
    { apply send_round_go; [done|]. replace (a_ret a <? 0) with true by lia.
      rewrite decide_False by (destruct He as [-> | ->]; done). rewrite decide_True by done.
      apply (runs_call (SysUsleep 1000)), runs_ret. }
    { by apply IH. }
    all: try done. by rewrite sent_write, Z2Nat.nonpos by lia.
Qed.

(** ** Receiving *)

(** The answers with which a socket delivers [d]: pieces of any size and
    interruptions. *)
Inductive delivers : bytes → list answer → Prop :=
| delivers_done : delivers [] []
| delivers_part a d ans :
    a_data a ≠ [] → a_ret a = Z.of_nat (length (a_data a)) → delivers d ans →
    delivers (a_data a ++ d) (a :: ans)
| delivers_interrupted d a ans :
    d ≠ [] → a_ret a ≤ 0 → a_errno a = EINTR → delivers d ans → delivers d (a :: ans).

Lemma payload_round_end fd len js :
  len ≤ Z.of_nat (length js) → payload_round fd len js = mret (inr js).
Proof. intros Hl. unfold payload_round. by rewrite (proj2 (Z.ltb_ge _ _)). Qed.

Lemma payload_round_go fd len js a r o f :
  Z.of_nat (length js) < len →
  runs_to (if a_ret a <=? 0 then
             if decide (a_errno a = EINTR) then mret (inl js) else mret (inr js)
           else mret (inl (js ++ take (Z.to_nat (a_ret a)) (a_data a)))) [] r f [] [] [] o o →
  runs_to (payload_round fd len js) [a] r f [] [] [] o o.
Proof.
  intros Hl Hr. unfold payload_round. rewrite (proj2 (Z.ltb_lt _ _)) by done.
  by apply (runs_call (SysRead fd (len - Z.of_nat (length js)))).
Qed.

Lemma payload_ok fd len d ans : delivers d ans → ∀ js o, Z.of_nat (length (js ++ d)) = len →
  runs_to (loop (payload_round fd len) js) ans (js ++ d) fd [] [] [] o o.
Proof.
  induction 1 as [|a d ans Hne Hr _ IH|d a ans Hne Hr He _ IH]; intros js o Hlen;
    (apply runs_loop; [apply payload_round_calls|]).
  - rewrite app_nil_r in Hlen |- *. rewrite payload_round_end by lia.
    apply runs_ret_bind, runs_ret.
  - assert (0 < length (a_data a))%nat by (destruct (a_data a); [done|cbn; lia]).
    apply (runs_bind _ _ [a] ans (inl (js ++ a_data a)) _ _ [] [] [] [] [] [] _ o).
    + apply payload_round_go; [rewrite !length_app in Hlen; lia|].
      replace (a_ret a <=? 0) with false by lia.
      rewrite take_ge by lia. apply runs_ret.
    + rewrite app_assoc. apply IH. by rewrite <- app_assoc.
  - assert (0 < length d)%nat by (destruct d; [done|cbn; lia]).
    apply (runs_bind _ _ [a] ans (inl js) _ _ [] [] [] [] [] [] _ o).
    + apply payload_round_go; [rewrite length_app in Hlen; lia|].
      replace (a_ret a <=? 0) with true by lia. rewrite decide_True by done. apply runs_ret.
    + by apply IH.
Qed.

(** The answers with which one frame arrives: interrupted attempts, the header
    in one piece, then the payload. *)
Inductive delivers_frame (p : bytes) : list answer → Prop :=
| frame_header_read h ans :
    a_ret h = 4 → a_data h = frame_header (Z.of_nat (length p)) → delivers p ans →
    delivers_frame p (h :: ans)
| frame_interrupted a ans :
    a_ret a < 0 → a_errno a = EINTR → delivers_frame p ans → delivers_frame p (a :: ans).

(** What a user sees of a list of events that ends the program: standard
    output, standard error, exit code. *)
Fixpoint client_view (opt : CliOptions) (ps : list bytes) : option (bytes * bytes * Z) :=
  match ps with
  | [] => None
  | p :: ps' =>
      match on_event opt p with
      | Print t => '(out, err, code) ← client_view opt ps'; Some (t ++ out, err, code)
      | PrintLine t => '(out, err, code) ← client_view opt ps'; Some (t ++ newline ++ out, err, code)
      | Finish code t =>
          if bool_decide (ps' = []) then
            Some (if code =? 2 then ([], t ++ newline, code) else (t ++ newline, [], code))
          else None
      end
  end.

Lemma open_fds_close f a : open_fds [f] [Called (SysClose f) a] = [].
Proof. unfold open_fds. cbn [foldl fd_effect]. by rewrite filter_cons_False by auto. Qed.

Ltac close_last :=
  unfold open_fds; cbn [foldl fd_effect app]; rewrite filter_cons_False by auto; reflexivity.

Lemma act_finish fd code t a :
  runs_to (act fd (Finish code t)) [a] (inr code) fd
    (if code =? 2 then [] else t ++ newline) (if code =? 2 then t ++ newline else []) [] [fd] [].
Proof.
  intros rest. eexists. split; [reflexivity|].
  split; destruct (code =? 2); first [exact (open_fds_close fd a)|cbn; by rewrite ?app_nil_r].
Qed.

Lemma act_print fd t : runs_to (act fd (Print t)) [] (inl ()) fd t [] [] [fd] [fd].
Proof.
  intros rest. unfold act. destruct (bool_decide_reflect (t = [])) as [->|Ht]; eexists;
    (split; [reflexivity|]); split; cbn; by rewrite ?app_nil_r.
Qed.

Lemma act_print_line fd t :
  runs_to (act fd (PrintLine t)) [] (inl ()) fd (t ++ newline) [] [] [fd] [fd].
Proof. intros rest. eexists. split; [reflexivity|]. split; cbn; by rewrite ?app_nil_r. Qed.

(** One frame is received whole and acted upon, once the interrupted attempts
    are over. *)
Lemma receive_frame opt fd p ans1 ans2 x out err o' :
  delivers_frame p ans1 → Z.of_nat (length p) < 2 ^ 32 →
  runs_to (r ← act fd (on_event opt p);
           match r with inl s' => loop (receive_round opt fd) s' | inr x => mret x end)
    ans2 x fd out err [] [fd] o' →
  runs_to (loop (receive_round opt fd) ()) (ans1 ++ ans2) x fd out err [] [fd] o'.
Proof.
  intros Hd Hlen Hact. induction Hd as [h ans Hr Hh Hp|a ans Hr He _ IH];
    (apply runs_loop; [apply receive_round_calls|]); unfold receive_round at 1; apply runs_assoc.
  - apply (runs_call (SysRead fd 4)). rewrite Hr, Hh.
    destruct (read_frame_header (Z.of_nat (length p))) as (b0 & b1 & b2 & b3 & -> & Hl); [unfold in_u32; lia|].
    cbn [Z.eqb Z.ltb Z.compare Pos.eqb]. rewrite Hl. apply runs_assoc.
    apply (runs_bind _ _ ans ans2 p _ _ [] _ [] _ [] _ _ [fd]).
    + by apply (payload_ok fd _ p ans Hp []).
    + rewrite Z.eqb_refl. exact Hact.
  - apply (runs_call (SysRead fd 4)). rewrite (proj2 (Z.eqb_neq _ _)), (proj2 (Z.ltb_lt _ _)) by lia.
    rewrite decide_True by done. apply runs_ret_bind. exact IH.
Qed.


(** A list of frames that ends the program. *)
Lemma receive_ok opt fd cl ps anss : Forall2 delivers_frame ps anss →
  Forall (λ p, Z.of_nat (length p) < 2 ^ 32) ps → ∀ out err code,
  client_view opt ps = Some (out, err, code) →
  runs_to (loop (receive_round opt fd) ()) (concat anss ++ [cl]) code fd out err [] [fd] [].
Proof.
  induction 1 as [|p ans ps anss Hd Hrest IH]; [done|]. intros [Hp Hps]%Forall_cons out err code Hv.
  cbn [client_view] in Hv. cbn [concat]. rewrite <- app_assoc.
  apply (receive_frame opt fd p); [done|done|]. destruct (on_event opt p) as [t|t|c t].
  - destruct (client_view opt ps) as [[[out' err'] code']|]; [|done]. injection Hv as <- <- <-.
    apply (runs_bind _ _ [] _ (inl ()) _ _ t out' [] err' [] [] _ [fd]); [apply act_print|by apply IH].
  - destruct (client_view opt ps) as [[[out' err'] code']|]; [|done].
    assert (out = (t ++ newline) ++ out' ∧ err = err' ∧ code = code') as (-> & -> & ->)
      by (rewrite <- app_assoc; by injection Hv).
    apply (runs_bind _ _ [] _ (inl ()) _ _ _ out' [] err' [] [] _ [fd]); [apply act_print_line|by apply IH].
  - case_bool_decide as Hps'; [|done]. subst ps. apply Forall2_nil_inv_l in Hrest as ->.
    injection Hv as Hv. cbn [concat app]. pose proof (act_finish fd c t cl) as Hact.
    destruct (c =? 2); injection Hv as <- <- <-;
      (eapply runs_eq; [eapply (runs_bind _ _ [cl] []); [exact Hact|apply runs_ret]|..];
       by rewrite ?app_nil_r).
Qed.

(** ** The exchange when everything goes well *)

Lemma exchange_ok opt sk c ws anss cl ps out err code :
  0 ≤ a_ret sk → Z.of_nat (length (cli_socket_path opt)) < sun_path_size → a_ret c = 0 →
  accepts (write_frame [] (request_payload opt)) ws →
  Forall2 delivers_frame ps anss → Forall (λ p, Z.of_nat (length p) < 2 ^ 32) ps →
  client_view opt ps = Some (out, err, code) →
  runs_to (exchange opt) (sk :: c :: ws ++ concat anss ++ [cl]) code (a_ret sk) out err
    (write_frame [] (request_payload opt)) [] [].
Proof.
  intros Hs Hp Hc Hw Hd Hlen Hv. unfold exchange.
  apply (runs_bind _ _ [sk; c] _ (a_ret sk) _ (a_ret sk) [] out [] err [] _ _ [a_ret sk]).
  - unfold connect_uds. apply (runs_call SysSocket). rewrite (proj2 (Z.ltb_ge _ _)) by lia.
    rewrite (proj2 (Z.leb_gt _ _)) by lia. apply (runs_call (SysConnect _ _)).
    rewrite Hc. cbn [Z.eqb negb]. cbn [open_fds foldl fd_effect]. rewrite (proj2 (Z.leb_le _ _)) by lia.
    apply runs_ret.
  - rewrite (proj2 (Z.ltb_ge _ _)) by lia.
    eapply runs_eq; [eapply (runs_bind _ _ ws)|..].
    + by apply send_ok.
    + cbn. by apply (receive_ok opt (a_ret sk) cl ps anss Hd Hlen).
    + done.
    + done.
    + done.
    + by rewrite app_nil_r.
    + done.
Qed.

(** ** Every run *)

(** Logs that leave the descriptors and the peer alone. *)
Definition neutral (fd : Z) (l : list logged) : Prop :=
  open_fds [fd] l = [fd] ∧ ∀ f, sent f l = [].

Lemma neutral_nil fd : neutral fd [].
Proof. done. Qed.

Lemma neutral_app fd l1 l2 : neutral fd l1 → neutral fd l2 → neutral fd (l1 ++ l2).
Proof.
  intros [O1 S1] [O2 S2]. split; [by rewrite open_fds_app, O1|]. intros f. by rewrite sent_app, S1, S2.
Qed.

Lemma payload_neutral fd len js ans x ans' l :
  run (loop (payload_round fd len) js) ans = Some (x, ans', l) → neutral fd l.
Proof.
  apply (loop_ind _ (λ _ l, neutral fd l) (λ _ l, neutral fd l) js ans x ans' l []);
    [apply payload_round_calls| |apply neutral_nil].
  intros js1 ans1 r ans2 l0 l1 Hl Hr.
  assert (Hn : neutral fd l1).
  { unfold payload_round in Hr. inv_run Hr; done. }
  destruct r; by apply neutral_app.
Qed.

(** Logs that close the descriptor. *)
Definition closing (fd : Z) (l : list logged) : Prop :=
  open_fds [fd] l = [] ∧ ∀ f, sent f l = [].

Lemma closing_app fd l1 l2 : neutral fd l1 → closing fd l2 → closing fd (l1 ++ l2).
Proof.
  intros [O1 S1] [O2 S2]. split; [by rewrite open_fds_app, O1|]. intros f. by rewrite sent_app, S1, S2.
Qed.

Ltac solve_closing := split; [close_last|done].

Lemma act_log fd a ans r ans' l :
  run (act fd a) ans = Some (r, ans', l) →
  match r with
  | inl _ => neutral fd l
  | inr code => closing fd l ∧ ∃ t, a = Finish code t
  end.
Proof.
  intros Hr. unfold act, close_and in Hr. destruct a as [t|t|c t]; inv_run Hr; try done.
  split; [|by eexists]. destruct (_ =? 2); solve_closing.
Qed.

(** The exit codes of the exchange, given what ended it. *)
Lemma finish_code opt p code t : on_event opt p = Finish code t → code = 0 ∨ code = 2.
Proof. unfold on_event. intros E. repeat case_match; try discriminate E; injection E as <- _; auto. Qed.

Lemma receive_log opt fd ans code ans' l :
  run (loop (receive_round opt fd) ()) ans = Some (code, ans', l) →
  closing fd l ∧ (code = 0 ∨ code = 2 ∨ code = 3).
Proof.
  apply (loop_ind _ (λ _ l, neutral fd l) (λ code l, closing fd l ∧ (code = 0 ∨ code = 2 ∨ code = 3))
    () ans code ans' l []); [apply receive_round_calls| |apply neutral_nil].
  intros [] ans1 r ans2 l0 l1 H0 Hr.
  assert (Hn : match r with
    | inl _ => neutral fd l1
    | inr c => closing fd l1 ∧ (c = 0 ∨ c = 2 ∨ c = 3)
    end).
  { unfold receive_round, close_and in Hr. inv_run Hr; try done;
      try (split; [solve_closing|by auto]);
      match goal with
      | E : run (loop (payload_round _ _) _) _ = _ |- _ => apply payload_neutral in E
      end.
    - split; [|by auto]. apply (closing_app fd [_]); [done|]. apply closing_app; [done|solve_closing].
    - apply act_log in Hr. destruct r as [[]|c].
      + apply (neutral_app fd [_]); [done|]. by apply neutral_app.
      + destruct Hr as [Hcl [t Ht]]. split; [|apply finish_code in Ht as [-> | ->]; auto].
        apply (closing_app fd [_]); [done|]. by apply closing_app. }
  destruct r as [[]|c]; [by apply neutral_app|]. destruct Hn. split; [by apply closing_app|done].
Qed.

(** What the sending loop has sent is a prefix, whatever the socket does. *)
Lemma send_log fd data ans r ans' l :
  run (send_all fd data) ans = Some (r, ans', l) →
  open_fds [fd] l = [fd] ∧ ∀ f, sent f l `prefix_of` data.
Proof.
  set (I := λ (off : nat) (l : list logged), open_fds [fd] l = [fd] ∧
    ∀ f, sent f l = if decide (f = fd) then take off data else []).
  apply (loop_ind _ I (λ _ l, open_fds [fd] l = [fd] ∧ ∀ f, sent f l `prefix_of` data)
    0%nat ans r ans' l []); [apply send_round_calls| |].
  - intros off ans1 r1 ans2 l0 l1 [O0 S0] Hr.
    assert (Hn : open_fds [fd] l1 = [fd] ∧ ∃ k,
      (∀ f, sent f l1 = if decide (f = fd) then take k (drop off data) else []) ∧
      match r1 with inl off' => off' = (off + k)%nat | inr _ => True end).
    { unfold send_round in Hr. destruct (off <? length data)%nat.
      - apply run_bind_Some in Hr as (a & ans3 & l2 & l3 & E & Hr & ->).
        destruct ans1 as [|b ans1]; [done|]. injection E as -> -> <-.
        assert (Hq : open_fds [fd] l3 = [fd] ∧ (∀ f, sent f l3 = []) ∧
          match r1 with inl off' => off' = (off + Z.to_nat (a_ret a))%nat | inr _ => True end).
        { inv_run Hr; split_and!; try done; rewrite Z2Nat.nonpos; lia. }
        destruct Hq as (Oq & Sq & Hr1). split; [by rewrite open_fds_app|].
        exists (Z.to_nat (a_ret a)). split; [|done]. intros f.
        rewrite sent_app, Sq, app_nil_r. apply sent_write_any.
      - inv_run Hr. split; [done|]. exists 0%nat. split; [|done]. intros f. by destruct (decide _). }
    destruct Hn as (O1 & k & S1 & Hr1).
    assert (Ho : open_fds [fd] (l0 ++ l1) = [fd]) by (by rewrite open_fds_app, O0).
    assert (Hs : ∀ f, sent f (l0 ++ l1) = if decide (f = fd) then take (off + k) data else []).
    { intros f. rewrite sent_app, S0, S1. destruct (decide _); [|done].
      apply take_take_drop. }
    destruct r1 as [off'|r1]; [subst off'; by split|]. split; [exact Ho|]. intros f. rewrite Hs.
    destruct (decide _); [apply prefix_take|apply prefix_nil].
  - split; [done|]. intros f. by destruct (decide _).
Qed.

Lemma exchange_log opt ans code ans' l :
  run (exchange opt) ans = Some (code, ans', l) →
  open_fds [] l = [] ∧ (∀ f, sent f l `prefix_of` write_frame [] (request_payload opt)) ∧
  (code = 0 ∨ code = 2 ∨ code = 3).
Proof.
  intros Hr. unfold exchange in Hr.
  apply run_bind_Some in Hr as (fd & ans1 & l1 & l2 & E & Hr & ->).
  assert (Hc : (∀ f, sent f l1 = []) ∧ (fd < 0 → open_fds [] l1 = []) ∧
               (0 ≤ fd → open_fds [] l1 = [fd])).
  { unfold connect_uds in E. inv_run E; bool_prop; split_and!; try done; try lia; intros ?;
      unfold open_fds; cbn [foldl fd_effect app];
      try first [rewrite (proj2 (Z.leb_le _ _)) by lia | rewrite (proj2 (Z.leb_gt _ _)) by lia];
      try done; by rewrite filter_cons_False by auto. }
  destruct Hc as (S1 & Oneg & Opos). destruct (Z.ltb_spec fd 0) as [Hn|Hp].
  { injection Hr as <- _ <-. rewrite app_nil_r, Oneg by done. split_and!; [done| |by auto].
    intros f. rewrite S1. apply prefix_nil. }
  rewrite open_fds_app, Opos by done.
  apply run_bind_Some in Hr as (b & ans2 & l3 & l4 & Es & Hr & ->).
  apply send_log in Es as [O3 S3]. rewrite open_fds_app, O3.
  assert (Hl4 : closing fd l4 ∧ (code = 0 ∨ code = 2 ∨ code = 3)).
  { destruct b as [a|]; [|by apply receive_log in Hr]. unfold close_and in Hr. inv_run Hr.
    split; [solve_closing|by auto]. }
  destruct Hl4 as [[O4 S4] Hcode]. split_and!; [done| |done].
  intros f. rewrite !sent_app, S1, S4, app_nil_r. apply S3.
Qed.

(** ** Theorems *)

(** The options with which the exchange runs: a missing id is generated. *)
Definition named (opt : CliOptions) (pid time : Z) : CliOptions :=
  if bool_decide (cli_id opt = []) then opt <| cli_id := gen_default_id pid time |> else opt.

(** The client on a connection that works, for events with any id. *)
Lemma main_streams argv0 args pid time opt sk c ws rid (toks : list (bytes * Z)) reason anss cl rest :
  let o := named opt pid time in
  let events := ((λ '(t, k), token_payload rid t k) <$> toks) ++ [eos_payload rid reason] in
  cli_args args default_options = ArgsOk opt → cli_metrics opt = false → cli_prompt opt ≠ [] →
  Forall (λ c, c ≠ Init.Byte.x22) rid → json_escape rid ≠ str "text" →
  Forall (λ '(t, _), forallb cli_plain t = true) toks →
  Forall (λ p, Z.of_nat (length p) < 2 ^ 32) events →
  0 ≤ a_ret sk → Z.of_nat (length (cli_socket_path opt)) < sun_path_size → a_ret c = 0 →
  accepts (write_frame [] (request_payload o)) ws → Forall2 delivers_frame events anss →
  ∃ l, run (main argv0 args pid time) (sk :: c :: ws ++ concat anss ++ cl :: rest) = Some (0, rest, l) ∧
    stdout l = concat (fst <$> toks) ++ newline ∧ stderr l = [] ∧
    sent (a_ret sk) l = write_frame [] (request_payload o) ∧ open_fds [] l = [].
Proof.
  intros o events Ha Hm Hp Hq Ht Htoks Hlen Hs Hpath Hc Hw Hd.
  assert (Hmo : cli_metrics o = false ∧ cli_socket_path o = cli_socket_path opt).
  { unfold o, named. by destruct (bool_decide _). }
  assert (Hv : client_view o events = Some (concat (fst <$> toks) ++ newline, [], 0)).
  { subst events. clear Hlen Hd. induction Htoks as [|[t k] toks Htk _ IH]; cbn [fmap list_fmap app client_view concat].
    - by rewrite client_ends_at_eos by apply Hmo.
    - rewrite client_prints_token by (done || apply Hmo).
      change (list_fmap _ _ _ toks) with (fst <$> toks) in *. rewrite IH. cbn. by rewrite app_assoc. }
  destruct (exchange_ok o sk c ws anss cl events _ _ _ Hs ltac:(by rewrite (proj2 Hmo)) Hc Hw Hd Hlen Hv rest)
    as (l & Hr & [Lo Le Ls Lf]).
  exists l. split; [|done]. unfold main. rewrite Ha, Hm, bool_decide_eq_false_2 by done. cbn [negb andb].
  change (if bool_decide (cli_id opt = []) then _ else _) with o. rewrite <- Hr. f_equal.
  cbn [app]. by rewrite <- !app_assoc.
Qed.

(** C18. The client program as a whole, for a prompt, on a connection that works
    (socket and connection succeed, the path fits its buffer): it sends exactly
    one frame with the request, however the socket splits, interrupts or delays
    the writes; and when the daemon answers with token events and an end of
    stream under the client's id, it prints the concatenation of the tokens'
    texts and a newline, nothing on standard error, closes its socket and exits
    with code 0. This is for an id without quotes that is not the word [text]
    ([id_text_prints_token]), texts without control characters other than tab,
    newline and carriage return, events below 4 GiB, and headers that arrive in
    one read each ([short_header_drops_stream]), however the payloads are split. *)
Theorem client_streams_tokens argv0 args pid time opt sk c ws (toks : list (bytes * Z)) reason anss cl rest :
  let o := named opt pid time in
  let events := ((λ '(t, k), token_payload (cli_id o) t k) <$> toks) ++ [eos_payload (cli_id o) reason] in
  cli_args args default_options = ArgsOk opt → cli_metrics opt = false → cli_prompt opt ≠ [] →
  Forall (λ c, c ≠ Init.Byte.x22) (cli_id o) → json_escape (cli_id o) ≠ str "text" →
  Forall (λ '(t, _), forallb cli_plain t = true) toks →
  Forall (λ p, Z.of_nat (length p) < 2 ^ 32) events →
  0 ≤ a_ret sk → Z.of_nat (length (cli_socket_path opt)) < sun_path_size → a_ret c = 0 →
  accepts (write_frame [] (request_payload o)) ws → Forall2 delivers_frame events anss →
  ∃ l, run (main argv0 args pid time) (sk :: c :: ws ++ concat anss ++ cl :: rest) = Some (0, rest, l) ∧
    stdout l = concat (fst <$> toks) ++ newline ∧ stderr l = [] ∧
    sent (a_ret sk) l = write_frame [] (request_payload o) ∧ open_fds [] l = [].
Proof. intros o events. apply main_streams. Qed.

(** C20. Whatever the system calls answer, a run of the client that ends has closed
    the socket it opened, has sent nothing but a prefix of one frame with its
    request, and its exit code is one of the documented ones: 0 (done), 1 (bad
    arguments), 2 (server error), 3 (connection error). *)
Theorem client_cleans_up argv0 args pid time ans code ans' l :
  run (main argv0 args pid time) ans = Some (code, ans', l) →
  open_fds [] l = [] ∧ (code = 0 ∨ code = 1 ∨ code = 2 ∨ code = 3) ∧
  match cli_args args default_options with
  | ArgsOk opt => ∀ f, sent f l `prefix_of` write_frame [] (request_payload (named opt pid time))
  | _ => ∀ f, sent f l = []
  end.
Proof.
  unfold main. intros Hr. destruct (cli_args args default_options) as [opt| |a]; [|inv_run Hr; auto..].
  destruct (negb (cli_metrics opt) && bool_decide (cli_prompt opt = [])).
  - inv_run Hr. split_and!; [done|by auto|]. intros f. apply prefix_nil.
  - apply exchange_log in Hr as (Ho & Hsent & Hcode). split_and!; [done| |exact Hsent].
    by destruct Hcode as [-> |[-> | ->]]; auto.
Qed.

(** A header that arrives in two reads ends the program silently: with any
    first read of one to three bytes the client prints no event, reports
    success and closes the connection, although the rest of the frame would
    follow. *)
Theorem short_header_drops_stream opt fd h cl rest :
  1 ≤ a_ret h ≤ 3 →
  ∃ l, run (loop (receive_round opt fd) ()) (h :: cl :: rest) = Some (0, rest, l) ∧ stdout l = [].
Proof.
  intros Hh.
  assert (Hr : ∃ l, run (receive_round opt fd ()) (h :: cl :: rest) = Some (inr 0, rest, l) ∧ stdout l = []).
  { unfold receive_round. eexists. rewrite (run_bind _ _ _ _ _ _ (run_invoke _ _ _)).
    rewrite (proj2 (Z.eqb_neq _ 0)), (proj2 (Z.ltb_ge _ 0)), (proj2 (Z.eqb_neq _ 4)) by lia.
    split; reflexivity. }
  destruct Hr as (l & Hr & Hl). exists l. split; [|done].
  rewrite run_loop by apply receive_round_calls. rewrite (run_bind _ _ _ _ _ _ Hr). cbn.
  by rewrite app_nil_r.
Qed.
End ClientFacts.

(** ** Witnesses *)

#[local] Existing Instance Darwin.

Definition demo_args : list bytes := str <$> ["--prompt"; "hi"; "--id"; "req-1"; "--temp"; "0.7"].
Definition demo_opt : CliOptions :=
  default_options <| cli_prompt := str "hi" |> <| cli_id := str "req-1" |>
    <| cli_temperature := literal 7 1 |> <| has_temperature := true |>.

Definition demo_toks : list (bytes * Z) := [(str "Hel", 11); (str "lo", 12)].
Definition demo_events : list bytes :=
  ((λ '(t, k), token_payload (str "req-1") t k) <$> demo_toks) ++ [eos_payload (str "req-1") (str "stop")].

(** The request is taken in two writes with an interruption and a pause. *)
Definition demo_writes : list answer :=
  [fail_answer EINTR; ok_answer 9; fail_answer EAGAIN; ok_answer 0;
   ok_answer (Z.of_nat (length (write_frame [] (request_payload demo_opt)) - 9))].

(** Each payload arrives in two pieces, after an interrupted header read. *)
Definition demo_frame (p : bytes) : list answer :=
  [fail_answer EINTR; read_answer (frame_header (Z.of_nat (length p))); read_answer (take 3 p);
   fail_answer EINTR; read_answer (drop 3 p)].

Lemma demo_accepts : accepts (write_frame [] (request_payload demo_opt)) demo_writes.
Proof.
  unfold demo_writes.
  apply accepts_interrupted; [done|done|done|].
  apply accepts_part; [done|vm_compute; split; discriminate|].
  apply accepts_full; [done|done|by left|].
  apply accepts_part; [done|vm_compute; split; discriminate|].
  replace (drop _ _) with (@nil byte) by (vm_compute; reflexivity). constructor.
Qed.

Lemma demo_delivers p : (3 < length p)%nat → delivers_frame p (demo_frame p).
Proof.
  intros Hp. apply frame_interrupted; [done|done|]. apply frame_header_read; [done|done|].
  rewrite <- (take_drop 3 p) at 1. apply (delivers_part (read_answer (take 3 p))).
  - cbn. destruct p; [cbn in Hp; lia|done].
  - done.
  - apply delivers_interrupted; [|done|done|].
    + intros Hd. apply (f_equal length) in Hd. rewrite length_drop in Hd. cbn in Hd. lia.
    + rewrite <- (app_nil_r (drop 3 p)) at 1.
      apply (delivers_part (read_answer (drop 3 p))); [|done|constructor].
      cbn [a_data read_answer]. intros Hd. apply (f_equal length) in Hd.
      rewrite length_drop in Hd. cbn in Hd. lia.
Qed.

Lemma client_streams_tokens_witness :
  ∃ l, run (main (str "uma-cli") demo_args 1 2)
         (ok_answer 5 :: ok_answer 0 :: demo_writes ++ concat (demo_frame <$> demo_events) ++ [ok_answer 0])
       = Some (0, [], l) ∧ stdout l = str "Hello" ++ newline ∧ stderr l = [] ∧
    sent 5 l = write_frame [] (request_payload demo_opt) ∧ open_fds [] l = [].
Proof.
  refine (client_streams_tokens (str "uma-cli") demo_args 1 2 demo_opt (ok_answer 5) (ok_answer 0)
    demo_writes demo_toks (str "stop") (demo_frame <$> demo_events) (ok_answer 0) []
    _ eq_refl _ _ _ _ _ _ _ eq_refl demo_accepts _).
  - vm_compute. reflexivity.
  - discriminate.
  - apply (bool_decide_unpack _). vm_compute. exact I.
  - vm_compute. discriminate.
  - repeat constructor.
  - repeat (apply Forall_cons; split; [vm_compute; reflexivity|]). constructor.
  - vm_compute. discriminate.
  - vm_compute. reflexivity.
  - repeat (apply Forall2_cons; split; [apply demo_delivers; vm_compute; lia|]). constructor.
Defined.

Definition refused_log : list logged :=
  [Called SysSocket (ok_answer 5); Called (SysConnect 5 (str "/tmp/uma.sock")) (fail_answer EANY);
   Stderr (str "connect: error" ++ newline); Called (SysClose 5) (ok_answer 0)].

Lemma refused_run :
  run (main (str "uma-cli") demo_args 1 2) [ok_answer 5; fail_answer EANY; ok_answer 0]
  = Some (3, [], refused_log).
Proof. vm_compute. reflexivity. Qed.

Lemma client_cleans_up_witness :
  run (main (str "uma-cli") demo_args 1 2) [ok_answer 5; fail_answer EANY; ok_answer 0]
  = Some (3, [], refused_log) ∧ open_fds [] refused_log = [].
Proof.
  split; [exact refused_run|].
  exact (proj1 (client_cleans_up (str "uma-cli") demo_args 1 2
    [ok_answer 5; fail_answer EANY; ok_answer 0] 3 [] refused_log refused_run)).
Defined.
