(* ===== verification/Utf8.v ===== *)
(** * UTF-8 validation ([src/util/utf8.h])

    The validator as the loop it is, the well-formed byte sequences of the
    Unicode standard as an inductive definition, and their equivalence. *)
From stdpp Require Import prelude list strings.
From Stdlib Require Import ZifyBool.
From S2P Require Import Prelude.
Local Open Scope Z_scope.

(** ** Definitions *)

(** The loop's variables. *)
Record Utf8State := { u_remaining : Z; u_lead : Z; u_pos : Z }.

Definition utf8_start : Utf8State := {| u_remaining := 0; u_lead := 0; u_pos := 0 |}.

(** One iteration; [None] is [return false]. *)
Definition utf8_step (st : Utf8State) (c : Z) : option Utf8State :=
  if u_remaining st =? 0 then
    if c <=? 0x7F then Some st
    else if (0xC2 <=? c) && (c <=? 0xDF) then
      Some {| u_remaining := 1; u_lead := c; u_pos := 0 |}
    else if (0xE0 <=? c) && (c <=? 0xEF) then
      Some {| u_remaining := 2; u_lead := c; u_pos := 0 |}
    else if (0xF0 <=? c) && (c <=? 0xF4) then
      Some {| u_remaining := 3; u_lead := c; u_pos := 0 |}
    else None
  else if negb (Z.land c 0xC0 =? 0x80) then None
  else
    let pos := u_pos st + 1 in
    let lead := u_lead st in
    if (pos =? 1) &&
       (((lead =? 0xE0) && (c <? 0xA0)) || ((lead =? 0xED) && (0x9F <? c)) ||
        ((lead =? 0xF0) && (c <? 0x90)) || ((lead =? 0xF4) && (0x8F <? c)))
    then None
    else
      let remaining := u_remaining st - 1 in
      if remaining =? 0 then Some {| u_remaining := 0; u_lead := 0; u_pos := 0 |}
      else Some {| u_remaining := remaining; u_lead := lead; u_pos := pos |}.

Fixpoint utf8_loop (st : Utf8State) (s : bytes) : bool :=
  match s with
  | [] => u_remaining st =? 0
  | c :: s' =>
      match utf8_step st (byte_val c) with
      | Some st' => utf8_loop st' s'
      | None => false
      end
  end.

Definition is_valid_utf8 (s : bytes) : bool := utf8_loop utf8_start s.

(** ** The specification *)

(** The encoding of a Unicode scalar value: a code point up to 0x10FFFF that is
    not a surrogate, in the shortest form. *)
Definition scalar_value (cp : Z) : bool :=
  ((0 <=? cp) && (cp <? 0xD800)) || ((0xE000 <=? cp) && (cp <=? 0x10FFFF)).

Definition encode_scalar (cp : Z) : list Z :=
  if cp <? 0x80 then [cp]
  else if cp <? 0x800 then [0xC0 + cp / 64; 0x80 + cp mod 64]
  else if cp <? 0x10000 then [0xE0 + cp / 4096; 0x80 + (cp / 64) mod 64; 0x80 + cp mod 64]
  else [0xF0 + cp / 262144; 0x80 + (cp / 4096) mod 64; 0x80 + (cp / 64) mod 64; 0x80 + cp mod 64].

(** A text is well formed when it is a concatenation of such encodings. *)
Inductive well_formed : bytes → Prop :=
| wf_nil : well_formed []
| wf_char cp b s :
    scalar_value cp = true → byte_val <$> b = encode_scalar cp → well_formed s →
    well_formed (b ++ s).

(** ** Steps of the validator *)

Definition continuation (c : Z) : Prop := 0x80 ≤ c ≤ 0xBF.

Lemma continuation_mask c : 0 ≤ c < 256 → (Z.land c 0xC0 =? 0x80) = true ↔ continuation c.
Proof.
  intros Hc. unfold continuation.
  assert (Hall : forallb (λ c, Bool.eqb (Z.land c 0xC0 =? 0x80) ((0x80 <=? c) && (c <=? 0xBF)))
                   (Z.of_nat <$> List.seq 0 256) = true) by (vm_compute; reflexivity).
  rewrite forallb_forall in Hall. specialize (Hall c).
  rewrite Bool.eqb_true_iff in Hall. rewrite Hall; [bool_prop; lia|].
  apply in_map_iff. exists (Z.to_nat c). split; [lia|]. apply in_seq. lia.
Qed.

(** What the first continuation byte has to satisfy for a given lead. *)
Definition first_ok (lead c : Z) : Prop :=
  (lead = 0xE0 → 0xA0 ≤ c) ∧ (lead = 0xED → c ≤ 0x9F) ∧
  (lead = 0xF0 → 0x90 ≤ c) ∧ (lead = 0xF4 → c ≤ 0x8F).

(** The state inside a character: [n] bytes to come after [p]. *)
Definition inside (n lead p : Z) : Utf8State := {| u_remaining := n; u_lead := lead; u_pos := p |}.

Lemma step_inside n lead p c st :
  1 ≤ n → 0 ≤ c < 256 → 0 ≤ p →
  utf8_step (inside n lead p) c = Some st ↔
  continuation c ∧ (p = 0 → first_ok lead c) ∧
  st = (if n =? 1 then utf8_start else inside (n - 1) lead (p + 1)).
Proof.
  intros Hn Hc Hp. unfold utf8_step, inside. cbn [u_remaining u_pos u_lead].
  rewrite (proj2 (Z.eqb_neq n 0)) by lia.
  pose proof (continuation_mask c Hc) as Hm. destruct (Z.land c 0xC0 =? 0x80).
  2: { split; [done|]. intros (H%Hm & _). done. }
  assert (Hcont : continuation c) by (by apply Hm). cbn [negb]. unfold first_ok, continuation in *.
  assert (Hst : (if n - 1 =? 0 then Some utf8_start else Some (inside (n - 1) lead (p + 1)))
              = Some (if n =? 1 then utf8_start else inside (n - 1) lead (p + 1))).
  { destruct (Z.eqb_spec (n - 1) 0), (Z.eqb_spec n 1); done || lia. }
  fold utf8_start. fold (inside (n - 1) lead (p + 1)). rewrite Hst.
  destruct ((p + 1 =? 1) && _) eqn:Hb.
  - split; [done|]. lia.
  - split; [|by intros (_ & _ & ->)]. intros [= <-]. split; [done|]. split; [lia|done].
Qed.

Lemma step_lead c st :
  0 ≤ c →
  utf8_step utf8_start c = Some st ↔
  (c ≤ 0x7F ∧ st = utf8_start) ∨ (0xC2 ≤ c ≤ 0xDF ∧ st = inside 1 c 0) ∨
  (0xE0 ≤ c ≤ 0xEF ∧ st = inside 2 c 0) ∨ (0xF0 ≤ c ≤ 0xF4 ∧ st = inside 3 c 0).
Proof.
  intros Hc. unfold utf8_step. cbn [u_remaining utf8_start Z.eqb].
  fold (inside 1 c 0) (inside 2 c 0) (inside 3 c 0).
  destruct (c <=? 0x7F) eqn:?; [|destruct ((0xC2 <=? c) && (c <=? 0xDF)) eqn:?;
    [|destruct ((0xE0 <=? c) && (c <=? 0xEF)) eqn:?;
      [|destruct ((0xF0 <=? c) && (c <=? 0xF4)) eqn:?]]];
    (split; [intros [= <-] | intros [[? ->]|[[? ->]|[[? ->]|[? ->]]]]]);
    try done; try lia; naive_solver lia.
Qed.

Lemma loop_cons st s :
  u_remaining st ≠ 0 ∨ s ≠ [] →
  utf8_loop st s = true ↔
  ∃ c s' st', s = c :: s' ∧ utf8_step st (byte_val c) = Some st' ∧ utf8_loop st' s' = true.
Proof.
  intros Hne. destruct s as [|c s]; cbn [utf8_loop].
  - rewrite Z.eqb_eq. split; [by destruct Hne|by intros (? & ? & ? & [=] & _)].
  - destruct (utf8_step st (byte_val c)) as [st'|] eqn:E.
    + split; [by eexists c, s, st'|by intros (? & ? & ? & [= <- <-] & [= ->]%(eq_trans (eq_sym E)) & ?)].
    + split; [done|by intros (? & ? & ? & [= <- <-] & [=]%(eq_trans (eq_sym E)) & ?)].
Qed.

Lemma loop_inside n lead p s :
  1 ≤ n → 0 ≤ p →
  utf8_loop (inside n lead p) s = true ↔
  ∃ c s', s = c :: s' ∧ continuation (byte_val c) ∧ (p = 0 → first_ok lead (byte_val c)) ∧
    utf8_loop (if n =? 1 then utf8_start else inside (n - 1) lead (p + 1)) s' = true.
Proof.
  intros Hn Hp. rewrite loop_cons by (left; cbn; lia). split.
  - intros (c & s' & st & -> & Hst & Hl). apply step_inside in Hst as (? & ? & ->); [|lia|apply byte_val_range|lia].
    eexists c, s'. done.
  - intros (c & s' & -> & Hc & Hf & Hl). eexists c, s', _. split; [done|]. split; [|exact Hl].
    apply step_inside; [lia|apply byte_val_range|lia|done].
Qed.

(** ** Characters *)

(** The byte sequences of one character, as the standard's table lists them. *)
Definition char_shape (bs : list Z) : Prop :=
  match bs with
  | [a] => 0 ≤ a ≤ 0x7F
  | [a; b] => 0xC2 ≤ a ≤ 0xDF ∧ continuation b
  | [a; b; c] => 0xE0 ≤ a ≤ 0xEF ∧ continuation b ∧ first_ok a b ∧ continuation c
  | [a; b; c; d] =>
      0xF0 ≤ a ≤ 0xF4 ∧ continuation b ∧ first_ok a b ∧ continuation c ∧ continuation d
  | _ => False
  end.


(** The table lists exactly the encodings of the scalar values. *)
Lemma char_shape_encodes bs :
  char_shape bs ↔ ∃ cp, scalar_value cp = true ∧ bs = encode_scalar cp.
Proof.
  unfold scalar_value, encode_scalar. split.
  - unfold char_shape, first_ok, continuation. intros H.
    destruct bs as [|a [|b [|c [|d [|]]]]]; try done.
    + exists a. split; [lia|]. rewrite (proj2 (Z.ltb_lt _ _)) by lia. done.
    + exists ((a - 0xC0) * 64 + (b - 0x80)). split; [lia|].
      rewrite (proj2 (Z.ltb_ge _ _)), (proj2 (Z.ltb_lt _ _)) by lia. repeat f_equal; Z.to_euclidean_division_equations; lia.
    + exists ((a - 0xE0) * 4096 + (b - 0x80) * 64 + (c - 0x80)). split; [lia|].
      rewrite !(proj2 (Z.ltb_ge _ _)), (proj2 (Z.ltb_lt _ _)) by lia. repeat f_equal; Z.to_euclidean_division_equations; lia.
    + exists ((a - 0xF0) * 262144 + (b - 0x80) * 4096 + (c - 0x80) * 64 + (d - 0x80)). split; [lia|].
      rewrite !(proj2 (Z.ltb_ge _ _)) by lia. repeat f_equal; Z.to_euclidean_division_equations; lia.
  - intros (cp & Hcp & ->).
    destruct (Z.ltb_spec cp 0x80); [cbn; lia|].
    destruct (Z.ltb_spec cp 0x800); [cbn; unfold continuation; Z.to_euclidean_division_equations; lia|].
    destruct (Z.ltb_spec cp 0x10000); cbn; unfold first_ok, continuation; Z.to_euclidean_division_equations; lia.
Qed.

(** The validator reads one character after the other. *)
Lemma valid_char s :
  is_valid_utf8 s = true ↔
  s = [] ∨ ∃ b s', s = b ++ s' ∧ char_shape (byte_val <$> b) ∧ is_valid_utf8 s' = true.
Proof.
  unfold is_valid_utf8. destruct s as [|a s].
  { split; [by left|done]. }
  rewrite loop_cons by (by right). pose proof (byte_val_range a) as Ha. split.
  - intros (? & ? & st & [= <- <-] & Hst & Hl). right.
    apply step_lead in Hst as [[? ->]|[[? ->]|[[? ->]|[? ->]]]]; [..|lia].
    + exists [a], s. cbn. repeat split; [lia|lia|done].
    + apply loop_inside in Hl as (b & s1 & -> & Hb & _ & Hl); [|lia..].
      exists [a; b], s1. cbn. auto 6.
    + apply loop_inside in Hl as (b & s1 & -> & Hb & Hf & Hl); [|lia..].
      apply loop_inside in Hl as (c & s2 & -> & Hc & _ & Hl); [|lia..].
      exists [a; b; c], s2. cbn. auto 9.
    + apply loop_inside in Hl as (b & s1 & -> & Hb & Hf & Hl); [|lia..].
      apply loop_inside in Hl as (c & s2 & -> & Hc & _ & Hl); [|lia..].
      apply loop_inside in Hl as (d & s3 & -> & Hd & _ & Hl); [|lia..].
      exists [a; b; c; d], s3. cbn. auto 12.
  - intros [[=]|(b & s' & Hs & Hb & Hv)].
    destruct b as [|a1 [|b [|c [|d [|]]]]]; cbn in Hb; try done; injection Hs as <- ->;
      eexists _, _, _; (split; [done|]).
    + split; [apply step_lead; [lia|]; left; split; [lia|done]|done].
    + split; [apply step_lead; [lia|]; right; left; split; [lia|done]|].
      apply loop_inside; [lia..|]. eexists _, _. destruct Hb as [? ?].
      split; [done|]. split; [done|]. split; [unfold first_ok; lia|done].
    + destruct Hb as (? & ? & ? & ?).
      split; [apply step_lead; [lia|]; right; right; left; split; [lia|done]|].
      apply loop_inside; [lia..|]. eexists _, _. split; [done|]. do 2 (split; [done|]).
      apply loop_inside; [lia..|]. eexists _, _. split; [done|]. split; [done|]. split; [lia|done].
    + destruct Hb as (? & ? & ? & ? & ?).
      split; [apply step_lead; [lia|]; right; right; right; split; [lia|done]|].
      apply loop_inside; [lia..|]. eexists _, _. split; [done|]. do 2 (split; [done|]).
      apply loop_inside; [lia..|]. eexists _, _. split; [done|]. split; [done|]. split; [lia|].
      apply loop_inside; [lia..|]. eexists _, _. split; [done|]. split; [done|]. split; [lia|done].
Qed.

(** ** Correctness *)

(** C34. The validator accepts exactly the well-formed texts: the concatenations of
    shortest-form encodings of Unicode scalar values, so neither overlong forms
    nor surrogates nor code points above U+10FFFF. *)
Theorem utf8_valid_iff s : is_valid_utf8 s = true ↔ well_formed s.
Proof.
  split.
  - induction s as [s IH] using (induction_ltof1 _ length). unfold ltof in IH. intros Hv.
    apply valid_char in Hv as [->|(b & s' & -> & Hb & Hv)]; [constructor|].
    apply char_shape_encodes in Hb as Hcp. destruct Hcp as (cp & Hcp & He).
    econstructor; [exact Hcp|exact He|]. apply IH; [|done].
    rewrite length_app. destruct b; [done|cbn; lia].
  - induction 1 as [|cp b s Hcp He Hw IH]; [done|].
    apply valid_char. right. exists b, s. split; [done|]. split; [|done].
    apply char_shape_encodes. eauto.
Qed.
