(* ===== verification/Session.v ===== *)
(** * Per-client session state ([src/ipc/session.h])

    The session record, its state enumeration and the pool that owns the
    sessions. The pool is the source's [std::unordered_map<int, ...>]: a finite
    map from descriptors, together with the order in which a range-for over
    the map visits it, which the standard leaves unspecified and which the
    definitions that iterate take as an argument constrained by
    [iteration_order]. *)
From stdpp Require Import prelude gmap list strings.
From S2P Require Import Prelude Floating.
Local Open Scope Z_scope.

Inductive SessionState := RECV_REQ | PREFILL | DECODE | STREAM | DONE | ERRORED.

#[global] Instance SessionState_eq_dec : EqDecision SessionState.
Proof. solve_decision. Defined.

Record UmaSlo := {
  target_ttft_ms : Z;
  target_tbt_ms : Z;
  priority : Z;
}.

Definition default_slo : UmaSlo :=
  {| target_ttft_ms := 150; target_tbt_ms := 80; priority := 5 |}.

(** [ctx] is the per-session context pointer, [true] when it is not null. *)
Record ClientSession := {
  fd : Z;
  rx : bytes;
  tx : bytes;
  ctx : bool;
  seq : Z;
  state : SessionState;
  prompt_tokens : list Z;
  prefill_idx : nat;
  has_pending_tok : bool;
  pending_tok : Z;
  n_past : Z;
  generated_count : Z;
  last_activity_ns : Z;
  wants_stream : bool;
  read_closed : bool;
  last_error : bytes;
  slo : UmaSlo;
  req_start_ns : Z;
  first_emit_ns : Z;
  last_emit_ns : Z;
  temperature : double;
  top_p : double;
  top_k : Z;
  request_id : bytes;
}.

(** The default member initialisers. *)
Definition new_session : ClientSession := {|
  fd := -1; rx := []; tx := []; ctx := false; seq := -1; state := RECV_REQ;
  prompt_tokens := []; prefill_idx := 0; has_pending_tok := false; pending_tok := 0;
  n_past := 0; generated_count := 0; last_activity_ns := 0; wants_stream := true;
  read_closed := false; last_error := []; slo := default_slo;
  req_start_ns := 0; first_emit_ns := 0; last_emit_ns := 0;
  temperature := literal 8 1; top_p := literal 95 2; top_k := 0; request_id := [];
|}.

Definition eta_session (s : ClientSession) : ClientSession := {|
  fd := fd s; rx := rx s; tx := tx s; ctx := ctx s; seq := seq s; state := state s;
  prompt_tokens := prompt_tokens s; prefill_idx := prefill_idx s;
  has_pending_tok := has_pending_tok s; pending_tok := pending_tok s;
  n_past := n_past s; generated_count := generated_count s;
  last_activity_ns := last_activity_ns s; wants_stream := wants_stream s;
  read_closed := read_closed s; last_error := last_error s; slo := slo s;
  req_start_ns := req_start_ns s; first_emit_ns := first_emit_ns s;
  last_emit_ns := last_emit_ns s; temperature := temperature s; top_p := top_p s;
  top_k := top_k s; request_id := request_id s;
|}.

#[global] Instance set_fd : Setter fd := ltac:(derive_setter eta_session).
#[global] Instance set_rx : Setter rx := ltac:(derive_setter eta_session).
#[global] Instance set_tx : Setter tx := ltac:(derive_setter eta_session).
#[global] Instance set_ctx : Setter ctx := ltac:(derive_setter eta_session).
#[global] Instance set_seq : Setter seq := ltac:(derive_setter eta_session).
#[global] Instance set_state : Setter state := ltac:(derive_setter eta_session).
#[global] Instance set_prompt_tokens : Setter prompt_tokens := ltac:(derive_setter eta_session).
#[global] Instance set_prefill_idx : Setter prefill_idx := ltac:(derive_setter eta_session).
#[global] Instance set_has_pending_tok : Setter has_pending_tok := ltac:(derive_setter eta_session).
#[global] Instance set_pending_tok : Setter pending_tok := ltac:(derive_setter eta_session).
#[global] Instance set_n_past : Setter n_past := ltac:(derive_setter eta_session).
#[global] Instance set_generated_count : Setter generated_count := ltac:(derive_setter eta_session).
#[global] Instance set_last_activity_ns : Setter last_activity_ns := ltac:(derive_setter eta_session).
#[global] Instance set_read_closed : Setter read_closed := ltac:(derive_setter eta_session).
#[global] Instance set_last_error : Setter last_error := ltac:(derive_setter eta_session).
#[global] Instance set_slo : Setter slo := ltac:(derive_setter eta_session).
#[global] Instance set_req_start_ns : Setter req_start_ns := ltac:(derive_setter eta_session).
#[global] Instance set_first_emit_ns : Setter first_emit_ns := ltac:(derive_setter eta_session).
#[global] Instance set_last_emit_ns : Setter last_emit_ns := ltac:(derive_setter eta_session).
#[global] Instance set_temperature : Setter temperature := ltac:(derive_setter eta_session).
#[global] Instance set_top_p : Setter top_p := ltac:(derive_setter eta_session).
#[global] Instance set_top_k : Setter top_k := ltac:(derive_setter eta_session).
#[global] Instance set_request_id : Setter request_id := ltac:(derive_setter eta_session).

Abbreviation SessionPool := (gmap Z ClientSession).

(** [order] is one of the orders in which a loop over the pool can visit it:
    every descriptor of the pool exactly once. *)
Definition iteration_order (sessions : SessionPool) (order : list Z) : Prop :=
  NoDup order ∧ ∀ k, k ∈ order ↔ is_Some (sessions !! k).

(** A session is filed under its own descriptor. *)
Definition keyed_by_fd (sessions : SessionPool) : Prop :=
  map_Forall (λ k s, fd s = k) sessions.

(** The executable order used by the concrete instances of the theorems. *)
Definition map_order (sessions : SessionPool) : list Z := (map_to_list sessions).*1.

Lemma map_order_spec sessions : iteration_order sessions (map_order sessions).
Proof.
  split; [apply NoDup_fst_map_to_list|]. intros k. unfold map_order.
  rewrite list_elem_of_fmap. split.
  - intros [[k' s] [-> H%elem_of_map_to_list]]. by eexists.
  - intros [s H]. exists (k, s). split; [done|]. by apply elem_of_map_to_list.
Qed.

Lemma keyed_by_fd_lookup sessions k s :
  keyed_by_fd sessions → sessions !! k = Some s → fd s = k.
Proof. intros H Hs. exact (H k s Hs). Qed.
#[export] Hint Resolve map_order_spec : uma.

(** ** Concrete sessions

    The sessions and the pool on which the theorems are exercised. *)

(** A session on descriptor [f] that has just been given a prompt of [n] tokens. *)
Definition prompt_session (f : Z) (n : nat) : ClientSession :=
  new_session <| fd := f |> <| seq := f |> <| state := PREFILL |>
    <| prompt_tokens := replicate n 7 |> <| temperature := SpecFloat.S754_zero false |>
    <| request_id := str "r" |>.

(** A session on descriptor [f] in the middle of a generation. *)
Definition decode_session (f : Z) (n : nat) : ClientSession :=
  (prompt_session f n) <| state := DECODE |> <| prefill_idx := n |> <| n_past := Z.of_nat n |>
    <| has_pending_tok := true |> <| pending_tok := 1 |> <| first_emit_ns := 5 |>.

Definition toy_pool : SessionPool :=
  <[3 := prompt_session 3 20]> (<[4 := decode_session 4 2]> ∅).

Lemma toy_pool_keyed : keyed_by_fd toy_pool.
Proof. by repeat (apply map_Forall_insert_2; [done|]). Qed.
