(* ===== verification/Config.v ===== *)
(** * Runtime configuration ([src/runtime/config.h]) *)
From stdpp Require Import prelude list strings.
From S2P Require Import Prelude.
Local Open Scope Z_scope.

Record RuntimeConfig := {
  model_path : bytes;
  n_ctx : Z;
  n_threads : Z;
  n_batch : Z;
  n_ubatch : Z;
  socket_path : bytes;
  socket_mode : Z;
  max_sessions : Z;
  max_prompt_bytes : Z;
  max_tokens : Z;
  idle_timeout_sec : Z;
  max_merge : Z;
  n_seq_max : Z;
  slo_ttft_ms : Z;
  slo_tbt_ms : Z;
  bmt_budget_units : Z;
  use_mmap : bool;
  use_mlock : bool;
  offload_kqv : bool;
  kv_unified : bool;
  swa_full : bool;
  enable_perf : bool;
}.

(** The default member initialisers. *)
Definition default_config : RuntimeConfig := {|
  model_path := []; n_ctx := 4096; n_threads := 0; n_batch := 0; n_ubatch := 0;
  socket_path := str "/tmp/uma.sock"; socket_mode := 384; max_sessions := 16;
  max_prompt_bytes := 8192; max_tokens := 64; idle_timeout_sec := 300; max_merge := 4;
  n_seq_max := 4; slo_ttft_ms := 150; slo_tbt_ms := 80; bmt_budget_units := 0;
  use_mmap := true; use_mlock := false; offload_kqv := true; kv_unified := true;
  swa_full := true; enable_perf := false;
|}.

(** Field assignment. *)
Definition eta_config (c : RuntimeConfig) : RuntimeConfig := {|
  model_path := model_path c; n_ctx := n_ctx c; n_threads := n_threads c;
  n_batch := n_batch c; n_ubatch := n_ubatch c; socket_path := socket_path c;
  socket_mode := socket_mode c; max_sessions := max_sessions c;
  max_prompt_bytes := max_prompt_bytes c; max_tokens := max_tokens c;
  idle_timeout_sec := idle_timeout_sec c; max_merge := max_merge c;
  n_seq_max := n_seq_max c; slo_ttft_ms := slo_ttft_ms c; slo_tbt_ms := slo_tbt_ms c;
  bmt_budget_units := bmt_budget_units c; use_mmap := use_mmap c; use_mlock := use_mlock c;
  offload_kqv := offload_kqv c; kv_unified := kv_unified c; swa_full := swa_full c;
  enable_perf := enable_perf c;
|}.

#[global] Instance set_model_path : Setter model_path := ltac:(derive_setter eta_config).
#[global] Instance set_n_ctx : Setter n_ctx := ltac:(derive_setter eta_config).
#[global] Instance set_n_threads : Setter n_threads := ltac:(derive_setter eta_config).
#[global] Instance set_n_batch : Setter n_batch := ltac:(derive_setter eta_config).
#[global] Instance set_n_ubatch : Setter n_ubatch := ltac:(derive_setter eta_config).
#[global] Instance set_socket_path : Setter socket_path := ltac:(derive_setter eta_config).
#[global] Instance set_max_sessions : Setter max_sessions := ltac:(derive_setter eta_config).
#[global] Instance set_max_tokens : Setter max_tokens := ltac:(derive_setter eta_config).
#[global] Instance set_n_seq_max : Setter n_seq_max := ltac:(derive_setter eta_config).
#[global] Instance set_slo_ttft_ms : Setter slo_ttft_ms := ltac:(derive_setter eta_config).
#[global] Instance set_slo_tbt_ms : Setter slo_tbt_ms := ltac:(derive_setter eta_config).
#[global] Instance set_bmt_budget_units : Setter bmt_budget_units := ltac:(derive_setter eta_config).
#[global] Instance set_use_mmap : Setter use_mmap := ltac:(derive_setter eta_config).
#[global] Instance set_use_mlock : Setter use_mlock := ltac:(derive_setter eta_config).
#[global] Instance set_enable_perf : Setter enable_perf := ltac:(derive_setter eta_config).
