(* ===== verification/ConfigParse.v ===== *)
(** * Reading the configuration ([src/runtime/config.cpp])

    [RuntimeConfig::from_args]: environment variables, then the command line.
    The environment is a function from names to values; [argv] is the list of
    the arguments after the program's name, as C strings without their
    terminator. Lengths and numbers are those of an LP64 system. *)
From stdpp Require Import prelude list strings.
From Stdlib Require Import ZifyBool.
From S2P Require Import Prelude Floating CLib Config.
Local Open Scope Z_scope.

(** ** The environment *)

Abbreviation Environment := (bytes → option bytes).

(** An empty value counts as unset. *)
Definition get_env (env : Environment) (key : string) : option bytes :=
  match env (str key) with
  | Some [] | None => None
  | Some v => Some v
  end.

Definition parse_bool_flag (s : bytes) : bool :=
  bool_decide (s = str "1") || strcaseeq s (str "true") || strcaseeq s (str "yes") ||
  strcaseeq s (str "on").

(** [if (auto* v = get_env(key)) cfg.field = parse(v);] *)
Definition env_set {T} (env : Environment) (key : string) (parse : bytes → T)
    (set : T → RuntimeConfig → RuntimeConfig) (cfg : RuntimeConfig) : RuntimeConfig :=
  match get_env env key with
  | Some v => set (parse v) cfg
  | None => cfg
  end.

Definition parse_u32 (s : bytes) : Z := u32 (strtoul s).
Definition parse_i32 (s : bytes) : Z := i32 (strtol s).

(** The debug gate. *)
Definition debug_enabled (env : Environment) : bool :=
  match get_env env "UMA_LOG_LEVEL" with
  | Some l => bool_decide (tolower <$> l = str "debug")
  | None => false
  end.

Definition from_env (env : Environment) : RuntimeConfig :=
  let cfg := default_config in
  let cfg := env_set env "UMA_MODEL" id (set_field model_path) cfg in
  let cfg := env_set env "UMA_N_CTX" parse_u32 (set_field n_ctx) cfg in
  let cfg := env_set env "UMA_THREADS" parse_i32 (set_field n_threads) cfg in
  let cfg := env_set env "UMA_N_BATCH" parse_u32 (set_field n_batch) cfg in
  let cfg := env_set env "UMA_N_UBATCH" parse_u32 (set_field n_ubatch) cfg in
  let cfg := env_set env "UMA_SOCK" id (set_field socket_path) cfg in
  let cfg := env_set env "UMA_N_SEQ" parse_u32 (set_field n_seq_max) cfg in
  let cfg := env_set env "UMA_USE_MMAP" parse_bool_flag (set_field use_mmap) cfg in
  let cfg := env_set env "UMA_USE_MLOCK" parse_bool_flag (set_field use_mlock) cfg in
  let cfg := env_set env "UMA_SLO_TTFT_MS" parse_u32 (set_field slo_ttft_ms) cfg in
  let cfg := env_set env "UMA_SLO_TBT_MS" parse_u32 (set_field slo_tbt_ms) cfg in
  let cfg := env_set env "UMA_BMT_BUDGET" strtoul (set_field bmt_budget_units) cfg in
  cfg <| enable_perf := debug_enabled env |>.

(** ** The command line *)

Abbreviation Parsed := (bytes + RuntimeConfig)%type.

Definition arg_is (arg : bytes) (name : string) : bool := bool_decide (arg = str name).

(** [need(name)]: the next argument, or the exception's text. *)
Definition missing_value (name : string) : bytes := str "missing value for " ++ str name.
Definition unknown_flag (arg : bytes) : bytes := str "unknown flag: " ++ arg.

(** What one argument asks for: an immediate change, a change that takes a
    value (with the name [need] reports), or an exception. *)
Inductive ArgAction :=
| act_set (f : RuntimeConfig → RuntimeConfig)
| act_need (name : string) (f : bytes → RuntimeConfig → RuntimeConfig)
| act_throw (what : bytes).

Definition parse_arg (arg : bytes) : ArgAction :=
  if arg_is arg "--model" then act_need "--model" (set_field model_path)
  else if arg_is arg "--n-ctx" then act_need "--n-ctx" (λ v, set_field n_ctx (parse_u32 v))
  else if arg_is arg "--threads" then act_need "--threads" (λ v, set_field n_threads (parse_i32 v))
  else if arg_is arg "--mlock" then act_set (set_field use_mlock true)
  else if arg_is arg "--no-mlock" then act_set (set_field use_mlock false)
  else if arg_is arg "--no-mmap" then act_set (set_field use_mmap false)
  else if arg_is arg "--mmap" then act_set (set_field use_mmap true)
  else if arg_is arg "--sock" || arg_is arg "--socket" then
    act_need "--socket" (set_field socket_path)
  else if arg_is arg "--max-sessions" then
    act_need "--max-sessions" (λ v, set_field max_sessions (parse_u32 v))
  else if arg_is arg "--parallel" || arg_is arg "--n-seq-max" then
    act_need "--parallel" (λ v, set_field n_seq_max (parse_u32 v))
  else if arg_is arg "--max-tokens" then
    act_need "--max-tokens" (λ v, set_field max_tokens (parse_u32 v))
  else if arg_is arg "--bmt-budget" then
    act_need "--bmt-budget" (λ v, set_field bmt_budget_units (strtoul v))
  else if arg_is arg "--help" || arg_is arg "-h" then act_throw (str "help")
  else act_throw (unknown_flag arg).

Fixpoint parse_args (args : list bytes) (cfg : RuntimeConfig) : Parsed :=
  match args with
  | [] => inr cfg
  | arg :: rest =>
      match parse_arg arg with
      | act_set f => parse_args rest (f cfg)
      | act_need name f =>
          match rest with
          | v :: rest' => parse_args rest' (f v cfg)
          | [] => inl (missing_value name)
          end
      | act_throw what => inl what
      end
  end.

Definition from_args (env : Environment) (args : list bytes) : Parsed :=
  parse_args args (from_env env).

(** ** Decimal text reads back *)

Lemma parse_u32_to_string z : in_u32 z → parse_u32 (to_string z) = z.
Proof.
  unfold in_u32, parse_u32. intros Hz. rewrite strtoul_to_string by lia. by apply u32_id.
Qed.

Lemma parse_i32_to_string z : in_i32 z → parse_i32 (to_string z) = z.
Proof.
  intros Hz. unfold parse_i32. rewrite strtol_to_string; [by apply i32_id|].
  unfold in_i32, INT_MIN, INT_MAX in Hz. lia.
Qed.

(** ** The grammar of the command line *)

(** The flags, with the spelling where there are two, and the text of the
    value. *)
Inductive Flag :=
| flag_model (v : bytes)
| flag_n_ctx (v : bytes)
| flag_threads (v : bytes)
| flag_mlock (on : bool)
| flag_mmap (on : bool)
| flag_socket (long : bool) (v : bytes)
| flag_max_sessions (v : bytes)
| flag_parallel (short : bool) (v : bytes)
| flag_max_tokens (v : bytes)
| flag_bmt_budget (v : bytes).

Definition render (f : Flag) : list bytes :=
  match f with
  | flag_model v => [str "--model"; v]
  | flag_n_ctx v => [str "--n-ctx"; v]
  | flag_threads v => [str "--threads"; v]
  | flag_mlock on => [str (if on then "--mlock" else "--no-mlock")]
  | flag_mmap on => [str (if on then "--mmap" else "--no-mmap")]
  | flag_socket long v => [str (if long then "--socket" else "--sock"); v]
  | flag_max_sessions v => [str "--max-sessions"; v]
  | flag_parallel short v => [str (if short then "--parallel" else "--n-seq-max"); v]
  | flag_max_tokens v => [str "--max-tokens"; v]
  | flag_bmt_budget v => [str "--bmt-budget"; v]
  end.

Definition apply_flag (cfg : RuntimeConfig) (f : Flag) : RuntimeConfig :=
  match f with
  | flag_model v => cfg <| model_path := v |>
  | flag_n_ctx v => cfg <| n_ctx := parse_u32 v |>
  | flag_threads v => cfg <| n_threads := parse_i32 v |>
  | flag_mlock on => cfg <| use_mlock := on |>
  | flag_mmap on => cfg <| use_mmap := on |>
  | flag_socket _ v => cfg <| socket_path := v |>
  | flag_max_sessions v => cfg <| max_sessions := parse_u32 v |>
  | flag_parallel _ v => cfg <| n_seq_max := parse_u32 v |>
  | flag_max_tokens v => cfg <| max_tokens := parse_u32 v |>
  | flag_bmt_budget v => cfg <| bmt_budget_units := strtoul v |>
  end.

(** The name an exception reports for a flag whose value is missing: of two
    spellings always the same one. *)
Definition need_name (f : Flag) : string :=
  match f with
  | flag_model _ => "--model"
  | flag_n_ctx _ => "--n-ctx"
  | flag_threads _ => "--threads"
  | flag_socket _ _ => "--socket"
  | flag_max_sessions _ => "--max-sessions"
  | flag_parallel _ _ => "--parallel"
  | flag_max_tokens _ => "--max-tokens"
  | flag_bmt_budget _ => "--bmt-budget"
  | flag_mlock _ | flag_mmap _ => ""
  end.

(** The words of the grammar, and the rests it cannot read. *)
Definition is_flag_word (arg : bytes) : Prop := ∃ f, head (render f) = Some arg.

Definition unreadable (rest : list bytes) (what : bytes) : Prop :=
  match rest with
  | [] => False
  | arg :: rest' =>
      (arg = str "--help" ∨ arg = str "-h") ∧ what = str "help" ∨
      arg ≠ str "--help" ∧ arg ≠ str "-h" ∧ ¬ is_flag_word arg ∧ what = unknown_flag arg ∨
      rest' = [] ∧ ∃ f v, render f = [arg; v] ∧ what = missing_value (need_name f)
  end.

Lemma parse_args_render f rest cfg :
  parse_args (render f ++ rest) cfg = parse_args rest (apply_flag cfg f).
Proof. destruct f as [| | |[]|[]|[]| |[]| |]; reflexivity. Qed.

(** An argument as the code's chain of comparisons classifies it. *)
Lemma parse_arg_cases arg :
  match parse_arg arg with
  | act_set g => ∃ f, render f = [arg] ∧ ∀ cfg, g cfg = apply_flag cfg f
  | act_need name g =>
      ∃ f, ∀ v, render (f v) = [arg; v] ∧ name = need_name (f v) ∧
                ∀ cfg, g v cfg = apply_flag cfg (f v)
  | act_throw what => ∀ rest, unreadable (arg :: rest) what
  end.
Proof.
  unfold parse_arg, arg_is.
  repeat match goal with
  | |- context [bool_decide (arg = ?x)] =>
      destruct (bool_decide_reflect (arg = x)) as [->|?]; cbn [orb]
  end; try (intros rest; left; by auto);
    first
    [ by exists (flag_mlock true) | by exists (flag_mlock false)
    | by exists (flag_mmap true) | by exists (flag_mmap false)
    | by exists flag_model | by exists flag_n_ctx | by exists flag_threads
    | by exists (flag_socket true) | by exists (flag_socket false) | by exists flag_max_sessions
    | by exists (flag_parallel true) | by exists (flag_parallel false)
    | by exists flag_max_tokens | by exists flag_bmt_budget | idtac ].
  intros rest. right. left. split_and!; try done.
  intros (f & Hf). destruct f as [| | |[]|[]|[]| |[]| |]; injection Hf as <-; done.
Qed.

Lemma parse_args_flags fs rest cfg :
  parse_args (concat (render <$> fs) ++ rest) cfg = parse_args rest (foldl apply_flag cfg fs).
Proof.
  revert cfg. induction fs as [|f fs IH]; intros cfg; [done|].
  change (concat (render <$> f :: fs)) with (render f ++ concat (render <$> fs)).
  rewrite <- app_assoc, parse_args_render. apply IH.
Qed.

(** The parser splits any command line into flags and an unreadable rest. *)
Lemma parse_args_split args cfg :
  ∃ fs rest, args = concat (render <$> fs) ++ rest ∧
    (rest = [] ∧ parse_args args cfg = inr (foldl apply_flag cfg fs) ∨
     ∃ what, unreadable rest what ∧ parse_args args cfg = inl what).
Proof.
  revert cfg. induction args as [args IH] using (induction_ltof1 _ length). unfold ltof in IH.
  intros cfg. destruct args as [|arg args]; [exists [], []; auto|].
  assert (Hstep : ∀ f rest, arg :: args = render f ++ rest → (length rest < S (length args))%nat →
    ∃ fs rest', arg :: args = concat (render <$> fs) ++ rest' ∧
      (rest' = [] ∧ parse_args (arg :: args) cfg = inr (foldl apply_flag cfg fs) ∨
       ∃ what, unreadable rest' what ∧ parse_args (arg :: args) cfg = inl what)).
  { intros f rest -> Hl. destruct (IH rest Hl (apply_flag cfg f)) as (fs & r & -> & Hr).
    exists (f :: fs), r. rewrite parse_args_render. split; [|exact Hr].
    change (concat (render <$> f :: fs)) with (render f ++ concat (render <$> fs)).
    by rewrite <- app_assoc. }
  pose proof (parse_arg_cases arg) as Ha. cbn [parse_args].
  destruct (parse_arg arg) as [g|name g|what] eqn:E.
  - destruct Ha as (f & Hf & _). destruct (Hstep f args) as (fs & r & Hr); [by rewrite Hf|lia|].
    cbn [parse_args] in Hr. rewrite E in Hr. by exists fs, r.
  - destruct Ha as (f & Hf). destruct args as [|v args].
    + exists [], [arg]. split; [done|]. right. eexists. split; [|done]. right. right. split; [done|].
      destruct (Hf []) as (Hr & -> & _). by exists (f []), [].
    + destruct (Hstep (f v) args) as (fs & r & Hr); [by rewrite (proj1 (Hf v))|cbn; lia|].
      cbn [parse_args] in Hr. rewrite E in Hr. by exists fs, r.
  - exists [], (arg :: args). split; [done|]. right. exists what. by split.
Qed.

(** C36. [from_args] is total and reads exactly the grammar of the flags the code has
    ([Flag]; three of docs/CONFIG.md are not among them,
    [documented_inputs_missing]): a sequence of flags is accepted, and every
    command line is a sequence of flags followed by nothing or by a word that
    cannot be read. In the first case the result is the environment's
    configuration with the flags applied from left to right (the last occurrence
    wins and the command line overrides the environment); otherwise it is the
    exception of the first unreadable word: help, an unknown flag, or a flag
    without its value. *)
Theorem from_args_grammar env :
  (∀ fs, from_args env (concat (render <$> fs)) = inr (foldl apply_flag (from_env env) fs)) ∧
  ∀ args, ∃ fs rest, args = concat (render <$> fs) ++ rest ∧
    (rest = [] ∧ from_args env args = inr (foldl apply_flag (from_env env) fs) ∨
     ∃ what, unreadable rest what ∧ from_args env args = inl what).
Proof.
  split; [|intros args; apply parse_args_split].
  intros fs. unfold from_args. rewrite <- (app_nil_r (concat _)), parse_args_flags. done.
Qed.

(** ** Ranges *)

(** Every number is a value of its member's type, and the members without an
    input keep their defaults. *)
Record config_ok (cfg : RuntimeConfig) : Prop := {
  co_u32 : Forall in_u32 [n_ctx cfg; n_batch cfg; n_ubatch cfg; max_sessions cfg; max_tokens cfg;
                          n_seq_max cfg; slo_ttft_ms cfg; slo_tbt_ms cfg];
  co_threads : in_i32 (n_threads cfg);
  co_budget : in_u64 (bmt_budget_units cfg);
  co_fixed : socket_mode cfg = 384 ∧ max_prompt_bytes cfg = 8192 ∧ idle_timeout_sec cfg = 300 ∧
             max_merge cfg = 4 ∧ offload_kqv cfg = true ∧ kv_unified cfg = true ∧ swa_full cfg = true;
}.

Lemma parse_u32_range s : in_u32 (parse_u32 s).
Proof. apply u32_range. Qed.

Lemma parse_i32_range s : in_i32 (parse_i32 s).
Proof. apply i32_range. Qed.

#[local] Hint Resolve strtoul_range parse_u32_range parse_i32_range : uma.

(** An assignment of a value in range keeps the configuration well formed. *)
Ltac config_set :=
  intros [Hu Ht Hb Hf]; split; cbn -[in_u32 in_i32 in_u64];
  first [done | assumption | apply strtoul_range | apply parse_i32_range | idtac];
  decompose_Forall_hyps; repeat (apply Forall_cons; split); auto with uma.

Lemma apply_flag_ok cfg f : config_ok cfg → config_ok (apply_flag cfg f).
Proof. destruct f; config_set. Qed.

Lemma env_set_ok {T} env key (parse : bytes → T) set cfg :
  (∀ s c, config_ok c → config_ok (set (parse s) c)) → config_ok cfg →
  config_ok (env_set env key parse set cfg).
Proof. intros Hs Hc. unfold env_set. destruct (get_env env key); auto. Qed.

(** A configuration written out is well formed by computation. *)
Ltac concrete_config :=
  split; cbn; unfold in_u32, in_i32, in_u64, INT_MIN, INT_MAX; [repeat constructor; lia|lia..|done].

Lemma default_config_ok : config_ok default_config.
Proof. concrete_config. Qed.

Lemma from_env_ok env : config_ok (from_env env).
Proof.
  unfold from_env. match goal with |- config_ok (?c <| enable_perf := _ |>) => assert (Hc : config_ok c) end.
  { repeat (apply env_set_ok; [intros s c; config_set|]). apply default_config_ok. }
  revert Hc. config_set.
Qed.

Lemma flags_ok fs cfg : config_ok cfg → config_ok (foldl apply_flag cfg fs).
Proof. revert cfg. induction fs as [|f fs IH]; intros cfg Hc; [done|]. apply IH, apply_flag_ok, Hc. Qed.

Lemma flags_perf fs cfg : enable_perf (foldl apply_flag cfg fs) = enable_perf cfg.
Proof. revert cfg. induction fs as [|f fs IH]; intros cfg; [done|]. cbn [foldl]. rewrite IH. by destruct f. Qed.

Lemma parsed_config env args cfg :
  from_args env args = inr cfg → config_ok cfg ∧ enable_perf cfg = debug_enabled env.
Proof.
  intros Hc. destruct (parse_args_split args (from_env env)) as (fs & rest & _ & [[_ H]|(w & _ & H)]);
    unfold from_args in Hc; rewrite Hc in H; [|done].
  injection H as ->. split; [apply flags_ok, from_env_ok|]. by rewrite flags_perf.
Qed.

(** Inputs of [docs/CONFIG.md] that the parser does not have: the flags
    [--slo-ttft-ms], [--slo-tbt-ms] and [--max-merge] are rejected as unknown, and
    whatever the environment says ([UMA_MAX_PROMPT_BYTES] and
    [UMA_IDLE_TIMEOUT_SEC] included) the prompt limit, the idle timeout and
    [max_merge], which is 4 and not the documented 2, keep their defaults. *)
Theorem documented_inputs_missing env :
  (∀ flag rest, flag ∈ ["--slo-ttft-ms"; "--slo-tbt-ms"; "--max-merge"] →
     from_args env (str flag :: rest) = inl (unknown_flag (str flag))) ∧
  (∀ args cfg, from_args env args = inr cfg →
     max_prompt_bytes cfg = 8192 ∧ idle_timeout_sec cfg = 300 ∧ max_merge cfg = 4).
Proof.
  split.
  - intros flag rest Hf. rewrite !elem_of_cons, elem_of_nil in Hf.
    destruct Hf as [->|[->|[->|[]]]]; reflexivity.
  - intros args cfg Hc. apply parsed_config in Hc as [[_ _ _ Hf] _]. tauto.
Qed.

(** ** Writing a configuration as a command line *)

Definition to_flags (c : RuntimeConfig) : list Flag := [
  flag_model (model_path c); flag_n_ctx (to_string (n_ctx c)); flag_threads (to_string (n_threads c));
  flag_mlock (use_mlock c); flag_mmap (use_mmap c); flag_socket true (socket_path c);
  flag_max_sessions (to_string (max_sessions c)); flag_parallel true (to_string (n_seq_max c));
  flag_max_tokens (to_string (max_tokens c)); flag_bmt_budget (to_string (bmt_budget_units c))].

(** The members only the environment sets, and an environment that sets them. *)
Definition env_only (c : RuntimeConfig) : Z * Z * Z * Z * bool :=
  (n_batch c, n_ubatch c, slo_ttft_ms c, slo_tbt_ms c, enable_perf c).

Definition to_env (c : RuntimeConfig) : Environment := λ key,
  if bool_decide (key = str "UMA_N_BATCH") then Some (to_string (n_batch c))
  else if bool_decide (key = str "UMA_N_UBATCH") then Some (to_string (n_ubatch c))
  else if bool_decide (key = str "UMA_SLO_TTFT_MS") then Some (to_string (slo_ttft_ms c))
  else if bool_decide (key = str "UMA_SLO_TBT_MS") then Some (to_string (slo_tbt_ms c))
  else if bool_decide (key = str "UMA_LOG_LEVEL") then
    Some (str (if enable_perf c then "debug" else "info"))
  else None.

Lemma to_string_nonempty z : to_string z ≠ [].
Proof.
  intros E. pose proof (parse_integer_to_string z) as Hz. rewrite E in Hz.
  apply (f_equal snd) in Hz. cbn in Hz. assert (z = 0) as -> by lia. done.
Qed.

(** A variable that holds a number is read as that number. *)
Lemma env_set_number env key set z cfg :
  env (str key) = Some (to_string z) → in_u32 z →
  env_set env key parse_u32 set cfg = set z cfg.
Proof.
  intros He Hz. unfold env_set, get_env. rewrite He. pose proof (to_string_nonempty z).
  destruct (to_string z) eqn:E; [done|]. by rewrite <- E, parse_u32_to_string.
Qed.

Lemma to_env_only c : config_ok c → env_only (from_env (to_env c)) = env_only c.
Proof.
  intros [Hu _ _ _]. decompose_Forall_hyps. unfold from_env.
  rewrite (env_set_number (to_env c) "UMA_N_BATCH" _ (n_batch c)),
    (env_set_number (to_env c) "UMA_N_UBATCH" _ (n_ubatch c)),
    (env_set_number (to_env c) "UMA_SLO_TTFT_MS" _ (slo_ttft_ms c)),
    (env_set_number (to_env c) "UMA_SLO_TBT_MS" _ (slo_tbt_ms c)) by done.
  destruct c as []. cbn in *. by destruct enable_perf.
Qed.

Lemma flags_roundtrip env c :
  config_ok c → env_only (from_env env) = env_only c →
  from_args env (concat (render <$> to_flags c)) = inr c.
Proof.
  intros Hc He. unfold from_args. rewrite <- (app_nil_r (concat _)), parse_args_flags. cbn [parse_args].
  f_equal. destruct (from_env_ok env) as [_ _ _ Hfix']. destruct Hc as [Hu Ht Hb Hfix].
  destruct (from_env env), c. cbn in He, Hu, Ht, Hb, Hfix, Hfix'. injection He as <- <- <- <- <-.
  decompose_Forall_hyps. cbn. rewrite !parse_u32_to_string, parse_i32_to_string, strtoul_to_string by done.
  by destruct Hfix as (-> & -> & -> & -> & -> & -> & ->), Hfix' as (-> & -> & -> & -> & -> & -> & ->).
Qed.

(** C37. Any configuration that is well formed (every number within its member's
    type, the members without any input at their defaults) can be written down
    and read back exactly: the members with a flag as a command line (numbers in
    decimal, negative thread counts included) and the five members without one
    as environment variables. The command line alone is read back exactly under
    every environment that agrees on these five members, whatever else the
    environment says. *)
Theorem configuration_roundtrip c :
  config_ok c →
  from_args (to_env c) (concat (render <$> to_flags c)) = inr c ∧
  ∀ env, env_only (from_env env) = env_only c →
    from_args env (concat (render <$> to_flags c)) = inr c.
Proof.
  intros Hc. split; [|intros env; by apply flags_roundtrip]. apply flags_roundtrip; [done|by apply to_env_only].
Qed.

(** ** Witnesses *)

Definition sample_env : Environment := λ k,
  if bool_decide (k = str "UMA_N_CTX") then Some (str "2048")
  else if bool_decide (k = str "UMA_LOG_LEVEL") then Some (str "DEBUG") else None.

Definition sample_args : list bytes :=
  str <$> ["--threads"; " -3"; "--n-ctx"; "8192x"; "--sock"; "/run/uma"; "--max-tokens"; "-1"].

Definition sample_config : RuntimeConfig :=
  default_config <| n_threads := -3 |> <| n_ctx := 8192 |> <| socket_path := str "/run/uma" |>
    <| max_tokens := 4294967295 |> <| enable_perf := true |>.

(** Numbers are not validated: a value keeps its longest numeric prefix, and a
    negative one wraps. *)
Theorem numbers_not_validated : from_args sample_env sample_args = inr sample_config.
Proof. vm_compute. reflexivity. Qed.

Lemma sample_config_ok : config_ok sample_config.
Proof. concrete_config. Qed.

(** A configuration with values of its own in the members of both kinds. *)
Definition tuned_config : RuntimeConfig :=
  sample_config <| n_batch := 512 |> <| slo_tbt_ms := 40 |> <| bmt_budget_units := 100000 |>
    <| model_path := str "m.gguf" |> <| use_mlock := true |>.

Lemma tuned_config_ok : config_ok tuned_config.
Proof. concrete_config. Qed.

Lemma configuration_roundtrip_witness :
  to_env tuned_config (str "UMA_N_BATCH") = Some (str "512") ∧
  from_args (to_env tuned_config) (concat (render <$> to_flags tuned_config)) = inr tuned_config ∧
  from_args sample_env (concat (render <$> to_flags sample_config)) = inr sample_config.
Proof.
  split; [vm_compute; reflexivity|]. split.
  - apply (proj1 (configuration_roundtrip tuned_config tuned_config_ok)).
  - apply (proj2 (configuration_roundtrip sample_config sample_config_ok)). vm_compute. reflexivity.
Defined.
