(* ===== verification/Logging.v ===== *)
(** * Logging ([src/util/logging.h])

    The logger's level, its configuration from the environment, and a log line
    from its construction to the text it writes. *)
From stdpp Require Import prelude list strings.
From Stdlib Require Import ZifyBool.
From S2P Require Import Prelude Floating CLib Config ConfigParse.
Local Open Scope Z_scope.

(** ** Definitions *)

Module LogLevel.
Inductive t := Error | Warn | Info | Debug.
#[global] Instance eq_dec : EqDecision t.
Proof. solve_decision. Defined.
(** The underlying [uint8_t]. *)
Definition value (l : t) : Z :=
  match l with Error => 0 | Warn => 1 | Info => 2 | Debug => 3 end.
End LogLevel.

(** [level_], the logger's only state. *)
Record Logger := { level_ : Z }.

Definition new_logger : Logger := {| level_ := LogLevel.value LogLevel.Info |}.

Definition set_level (g : Logger) (lvl : LogLevel.t) : Logger := {| level_ := LogLevel.value lvl |}.

Definition should (g : Logger) (lvl : LogLevel.t) : bool := LogLevel.value lvl <=? level_ g.

Definition configure_from_env (g : Logger) (env : Environment) : Logger :=
  match get_env env "UMA_LOG_LEVEL" with
  | Some lvl =>
      let s := tolower <$> lvl in
      if bool_decide (s = str "debug") then set_level g LogLevel.Debug
      else if bool_decide (s = str "info") then set_level g LogLevel.Info
      else if bool_decide (s = str "warn" ∨ s = str "warning") then set_level g LogLevel.Warn
      else if bool_decide (s = str "error" ∨ s = str "err") then set_level g LogLevel.Error
      else g
  | None => g
  end.

Definition level_tag (lvl : LogLevel.t) : bytes :=
  match lvl with
  | LogLevel.Error => str "error"
  | LogLevel.Warn => str "warn"
  | LogLevel.Info => str "info"
  | LogLevel.Debug => str "debug"
  end.

(** What [emit] writes to standard error, with the clock's text. *)
Definition emit (g : Logger) (clock : bytes) (lvl : LogLevel.t) (msg : bytes) : bytes :=
  if negb (should g lvl) then []
  else str "[" ++ level_tag lvl ++ str " " ++ clock ++ str "] " ++ msg ++ [Init.Byte.x0a].

(** A line under construction: whether it is enabled is decided once. *)
Record LogLine := { lvl_ : LogLevel.t; enabled_ : bool; oss_ : bytes }.

Definition new_line (g : Logger) (lvl : LogLevel.t) : LogLine :=
  {| lvl_ := lvl; enabled_ := should g lvl; oss_ := [] |}.

Definition line_append (l : LogLine) (v : bytes) : LogLine :=
  {| lvl_ := lvl_ l; enabled_ := enabled_ l; oss_ := if enabled_ l then oss_ l ++ v else oss_ l |}.

(** The destructor. *)
Definition line_end (g : Logger) (clock : bytes) (l : LogLine) : bytes :=
  if enabled_ l then emit g clock (lvl_ l) (oss_ l) else [].

(** ** The whole line *)

Definition log_line (g : Logger) (clock : bytes) (lvl : LogLevel.t) (parts : list bytes) : bytes :=
  line_end g clock (foldl line_append (new_line g lvl) parts).

Lemma line_parts l parts :
  foldl line_append l parts =
  {| lvl_ := lvl_ l; enabled_ := enabled_ l;
     oss_ := if enabled_ l then oss_ l ++ concat parts else oss_ l |}.
Proof.
  revert l. induction parts as [|p parts IH]; intros [lvl en os]; cbn.
  - destruct en; by rewrite ?app_nil_r.
  - rewrite IH. unfold line_append. cbn. destruct en; [by rewrite <- app_assoc|done].
Qed.

(** What [UMA_LOG_LEVEL] asks for, in any case of letters: the most detailed
    level that is written; anything else, and an unset variable, ask for [Info].
    No other variable is consulted, [UMA_DEBUG] included. *)
Definition requested_level (env : Environment) : LogLevel.t :=
  match get_env env "UMA_LOG_LEVEL" with
  | Some v =>
      if strcaseeq v (str "debug") then LogLevel.Debug
      else if strcaseeq v (str "warn") || strcaseeq v (str "warning") then LogLevel.Warn
      else if strcaseeq v (str "error") || strcaseeq v (str "err") then LogLevel.Error
      else LogLevel.Info
  | None => LogLevel.Info
  end.

Lemma configured_level env :
  configure_from_env new_logger env = {| level_ := LogLevel.value (requested_level env) |}.
Proof.
  unfold configure_from_env, requested_level, strcaseeq.
  destruct (get_env env "UMA_LOG_LEVEL") as [v|]; [|done]. generalize (tolower <$> v). intros w.
  change (tolower <$> str "debug") with (str "debug").
  change (tolower <$> str "warn") with (str "warn"). change (tolower <$> str "warning") with (str "warning").
  change (tolower <$> str "error") with (str "error"). change (tolower <$> str "err") with (str "err").
  rewrite !bool_decide_or.
  destruct (bool_decide_reflect (w = str "debug")); [done|].
  destruct (bool_decide_reflect (w = str "info")) as [->|]; [reflexivity|].
  by destruct (bool_decide (w = str "warn")), (bool_decide (w = str "warning")),
    (bool_decide (w = str "error")), (bool_decide (w = str "err")).
Qed.

(** Debug lines are enabled exactly with the configuration's debug gate. *)
Lemma should_debug env :
  should (configure_from_env new_logger env) LogLevel.Debug = debug_enabled env.
Proof.
  rewrite configured_level. unfold should, requested_level, debug_enabled, strcaseeq. cbn [level_].
  destruct (get_env env "UMA_LOG_LEVEL") as [v|]; [|done].
  change (tolower <$> str "debug") with (str "debug").
  destruct (bool_decide (_ = str "debug")); [done|]. by repeat destruct (_ || _).
Qed.

(** ** Theorems *)

(** C22. The daemon's log: a line is written exactly when its level is at most the
    one [UMA_LOG_LEVEL] asks for, complete and unchanged behind its tag and
    time, and nothing otherwise; and debug lines (which also gate the extended
    metrics) are enabled exactly when the configuration enables the performance
    counters. Environments that agree on [UMA_LOG_LEVEL] log alike: [UMA_DEBUG],
    which docs/CONFIG.md documents as a second switch, has no effect. *)
Theorem log_lines_filtered env clock lvl parts :
  log_line (configure_from_env new_logger env) clock lvl parts
  = (if LogLevel.value lvl <=? LogLevel.value (requested_level env)
     then str "[" ++ level_tag lvl ++ str " " ++ clock ++ str "] " ++ concat parts ++ [Init.Byte.x0a]
     else []) ∧
  should (configure_from_env new_logger env) LogLevel.Debug = enable_perf (from_env env) ∧
  ∀ env', env' (str "UMA_LOG_LEVEL") = env (str "UMA_LOG_LEVEL") →
    configure_from_env new_logger env' = configure_from_env new_logger env.
Proof.
  split; [|split; [apply should_debug|]].
  2: { intros env' He. unfold configure_from_env, get_env. by rewrite He. }
  rewrite configured_level. unfold log_line. rewrite line_parts.
  unfold line_end, emit, new_line, should. cbn [enabled_ oss_ lvl_ level_]. by destruct (_ <=? _).
Qed.

(** With [UMA_DEBUG=1] alone no debug line is written and the performance
    counters stay off. *)
Theorem uma_debug_ignored clock parts :
  let env name := if decide (name = str "UMA_DEBUG") then Some (str "1") else None in
  log_line (configure_from_env new_logger env) clock LogLevel.Debug parts = [] ∧
  enable_perf (from_env env) = false.
Proof.
  cbn zeta. split; [|reflexivity]. unfold log_line. rewrite line_parts. reflexivity.
Qed.

(** ** Witness *)

Lemma log_lines_filtered_witness :
  configure_from_env new_logger (λ name, if decide (name = str "UMA_DEBUG") then Some (str "1") else None)
  = configure_from_env new_logger (λ _, None).
Proof.
  exact (proj2 (proj2 (log_lines_filtered (λ _, None) [] LogLevel.Debug [])) _ eq_refl).
Defined.
