(* ===== verification/Poller.v ===== *)
(** * Readiness notification ([src/ipc/poller.h], [src/ipc/poller_kqueue.cpp])

    The poll flags and the [Poller] over a kqueue. The kernel (descriptors and
    kqueue registrations) is the class [Kernel], a parameter; what the daemon
    relies on is [KernelLaws]. *)
From stdpp Require Import prelude gmap list strings.
From S2P Require Import Prelude.
Local Open Scope Z_scope.

(** ** Flags *)

Module PollFlags.
Definition None : Z := 0.
Definition Read : Z := Z.shiftl 1 0.
Definition Write : Z := Z.shiftl 1 1.
Definition Hup : Z := Z.shiftl 1 2.
Definition Err : Z := Z.shiftl 1 3.
End PollFlags.

Definition flags_or (a b : Z) : Z := Z.lor a b.
Definition flags_and (a b : Z) : Z := Z.land a b.
Definition any (a : Z) : bool := negb (a =? 0).
Definition has (a b : Z) : bool := any (flags_and a b).

Record PollEvent := { ev_fd : Z; ev_f : Z }.

Definition readable (e : PollEvent) : bool := has (ev_f e) PollFlags.Read.
Definition writable (e : PollEvent) : bool := has (ev_f e) PollFlags.Write.
Definition hup (e : PollEvent) : bool := has (ev_f e) PollFlags.Hup.
Definition err (e : PollEvent) : bool := has (ev_f e) PollFlags.Err.

(** ** The kernel interface *)

Inductive Filter := EVFILT_READ | EVFILT_WRITE | EVFILT_OTHER.
#[global] Instance Filter_eq_dec : EqDecision Filter.
Proof. solve_decision. Defined.

#[global] Instance Filter_countable : Countable Filter.
Proof.
  refine (inj_countable'
    (λ f, match f with EVFILT_READ => 0%nat | EVFILT_WRITE => 1%nat | EVFILT_OTHER => 2%nat end)
    (λ n, match n with O => EVFILT_READ | S O => EVFILT_WRITE | _ => EVFILT_OTHER end) _).
  by intros [].
Defined.

Inductive Action := EV_ADD | EV_DELETE.

(** An entry of a change list. *)
Record kchange := { kc_fd : Z; kc_filter : Filter; kc_action : Action }.

(** An entry of an event list; [ke_error] and [ke_eof] are the flag bits
    [EV_ERROR] and [EV_EOF]. *)
Record kev := { ke_fd : Z; ke_filter : Filter; ke_error : bool; ke_eof : bool }.

Inductive errno := ENOENT | EBADF | EOTHER.

Class Kernel := {
  kq : Type;
  (** [kevent(handle, changes, n, nullptr, 0, nullptr)]: the new registrations
      and, for a return value of -1, [errno]. *)
  kevent_change : kq → list kchange → kq * option errno;
  (** The effect of [::close(fd)]. *)
  kq_close : kq → Z → kq;
  (** A descriptor returned by [::accept] (or [::socket]). *)
  kq_opened : kq → Z → kq;
}.

(** ** Operations *)

Section Poller.
Context `{Kernel}.

Definition changes (fd interest : Z) (act : Action) : list kchange :=
  (if has interest PollFlags.Read
   then [{| kc_fd := fd; kc_filter := EVFILT_READ; kc_action := act |}] else []) ++
  (if has interest PollFlags.Write
   then [{| kc_fd := fd; kc_filter := EVFILT_WRITE; kc_action := act |}] else []).

Definition poller_add (q : kq) (fd interest : Z) : kq * bool :=
  let evs := changes fd interest EV_ADD in
  if bool_decide (length evs = 0%nat) then (q, true)
  else
    let '(q', r) := kevent_change q evs in
    match r with Some _ => (q', false) | None => (q', true) end.

Definition poller_remove (q : kq) (fd interest : Z) : kq * bool :=
  let evs := changes fd interest EV_DELETE in
  if bool_decide (length evs = 0%nat) then (q, true)
  else
    let '(q', r) := kevent_change q evs in
    match r with
    | Some ENOENT | Some EBADF => (q', true)
    | Some EOTHER => (q', false)
    | None => (q', true)
    end.
End Poller.

(** The timeout passed to [kevent]: seconds and nanoseconds; [None] is a null
    pointer (wait for ever). *)
Definition timeout_spec (timeout_ms : Z) : option (Z * Z) :=
  if 0 <=? timeout_ms
  then Some (Z.quot timeout_ms 1000, Z.rem timeout_ms 1000 * 1000000)
  else None.

Definition kev_flags (k : kev) : Z :=
  let f := PollFlags.None in
  let f := if decide (ke_filter k = EVFILT_READ) then flags_or f PollFlags.Read else f in
  let f := if decide (ke_filter k = EVFILT_WRITE) then flags_or f PollFlags.Write else f in
  let f := if ke_error k then flags_or f PollFlags.Err else f in
  if ke_eof k then flags_or f PollFlags.Hup else f.

(** The coalescing loop. *)
Definition coalesce (kevs : list kev) : gmap Z Z :=
  foldl (λ acc k,
    <[ke_fd k := match acc !! ke_fd k with
                 | Some f0 => flags_or f0 (kev_flags k)
                 | None => kev_flags k
                 end]> acc) ∅ kevs.

(** [wait] once [kevent] returned [nev] entries ([nev <= 0]: timeout or error);
    [order] is the order in which the loop over the map visits it. *)
Definition poller_wait (nev : Z) (kevs : list kev) (order : list Z) : Z * list PollEvent :=
  if nev <=? 0 then (nev, [])
  else
    let acc := coalesce kevs in
    let out := omap (λ k, (λ f, {| ev_fd := k; ev_f := f |}) <$> acc !! k) order in
    (Z.of_nat (length out), out).

(** ** Flags of a coalesced descriptor *)

Lemma has_flag_or a b f : has (flags_or a b) f = has a f || has b f.
Proof.
  unfold has, any, flags_and, flags_or. rewrite Z.land_lor_distr_l.
  destruct (Z.eqb_spec (Z.land a f) 0) as [->|Ha]; cbn [negb orb].
  - by rewrite Z.lor_0_l.
  - destruct (Z.eqb_spec (Z.lor (Z.land a f) (Z.land b f)) 0) as [E|]; [|done].
    apply Z.lor_eq_0_iff in E as [E _]. done.
Qed.

Lemma kev_flags_spec k :
  has (kev_flags k) PollFlags.Read = bool_decide (ke_filter k = EVFILT_READ) ∧
  has (kev_flags k) PollFlags.Write = bool_decide (ke_filter k = EVFILT_WRITE) ∧
  has (kev_flags k) PollFlags.Err = ke_error k ∧ has (kev_flags k) PollFlags.Hup = ke_eof k.
Proof. destruct k as [f [] [] []]; vm_compute; done. Qed.

Lemma existsb_snoc {A} (p : A → bool) l x : existsb p (l ++ [x]) = existsb p l || p x.
Proof. rewrite existsb_app. cbn. by rewrite orb_false_r. Qed.

(** Each descriptor of the list is in the map, and a flag is set for it exactly
    when one of its entries sets it. *)
Lemma coalesce_spec kevs fd :
  (is_Some (coalesce kevs !! fd) ↔ fd ∈ ke_fd <$> kevs) ∧
  ∀ f acc, coalesce kevs !! fd = Some acc →
    has acc f = existsb (λ k, bool_decide (ke_fd k = fd) && has (kev_flags k) f) kevs.
Proof.
  induction kevs as [|k kevs IH] using rev_ind; [split; [|done]|].
  { unfold coalesce. cbn. rewrite lookup_empty, elem_of_nil. split; [by intros []|done]. }
  unfold coalesce in *. rewrite foldl_snoc, fmap_app, elem_of_app.
  set (m := foldl _ _ _) in *. destruct (decide (fd = ke_fd k)) as [->|Hne].
  - rewrite lookup_insert_eq. split.
    { split; [intros _; right; by left|by eexists]. }
    intros f acc [= <-]. rewrite existsb_snoc, bool_decide_eq_true_2 by done. cbn [andb].
    destruct (m !! ke_fd k) as [f0|] eqn:E.
    + rewrite has_flag_or. by rewrite (proj2 IH f f0 eq_refl).
    + rewrite (existsb_none _ kevs); [done|]. intros x Hx.
      rewrite bool_decide_eq_false_2; [done|]. intros Hf.
      destruct (proj2 (proj1 IH)) as [y Hy]; [|congruence].
      rewrite <- Hf. by apply list_elem_of_fmap_2.
  - rewrite lookup_insert_ne by done. split.
    + rewrite (proj1 IH). split; [by left|]. intros [?|Hin]; [done|].
      apply list_elem_of_singleton in Hin. done.
    + intros f acc Hacc. rewrite existsb_snoc, (proj2 IH f acc Hacc).
      rewrite (bool_decide_eq_false_2 (ke_fd k = fd)) by done. by rewrite orb_false_r.
Qed.

(** ** What the daemon relies on

    [is_open] and [armed] are the observable state: which descriptors are open
    and which filters are registered. Registering a filter on an open
    descriptor succeeds (the laws are those of a kernel that has memory for the
    registration: [ENOMEM] is assumed away); deleting a filter leaves it unregistered, failing at
    most because there was nothing to delete; a change list of two deletions
    touches no other descriptor; closing a descriptor drops its filters. *)
Class KernelLaws `{Kernel} := {
  is_open : kq → Z → Prop;
  armed : kq → Z → Filter → bool;
  add_open q fd f :
    is_open q fd →
    let '(q', r) := kevent_change q [{| kc_fd := fd; kc_filter := f; kc_action := EV_ADD |}] in
    r = None ∧ (∀ k, is_open q' k ↔ is_open q k) ∧
    ∀ k g, armed q' k g = bool_decide (k = fd ∧ g = f) || armed q k g;
  delete_one q fd f :
    let '(q', r) := kevent_change q [{| kc_fd := fd; kc_filter := f; kc_action := EV_DELETE |}] in
    r ≠ Some EOTHER ∧ (∀ k, is_open q' k ↔ is_open q k) ∧
    ∀ k g, armed q' k g = negb (bool_decide (k = fd ∧ g = f)) && armed q k g;
  delete_both q fd :
    let '(q', _) := kevent_change q
       [{| kc_fd := fd; kc_filter := EVFILT_READ; kc_action := EV_DELETE |};
        {| kc_fd := fd; kc_filter := EVFILT_WRITE; kc_action := EV_DELETE |}] in
    (∀ k, is_open q' k ↔ is_open q k) ∧ ∀ k g, k ≠ fd → armed q' k g = armed q k g;
  close_drops q fd :
    (∀ k, is_open (kq_close q fd) k ↔ k ≠ fd ∧ is_open q k) ∧
    ∀ k g, armed (kq_close q fd) k g = negb (bool_decide (k = fd)) && armed q k g;
  opened_fresh q fd :
    (∀ k, is_open (kq_opened q fd) k ↔ k = fd ∨ is_open q k) ∧
    ∀ k g, armed (kq_opened q fd) k g = negb (bool_decide (k = fd)) && armed q k g;
}.

Section Laws.
Context `{KernelLaws}.

Lemma add_read_spec q fd :
  is_open q fd →
  let '(q', ok) := poller_add q fd PollFlags.Read in
  ok = true ∧ (∀ k, is_open q' k ↔ is_open q k) ∧
  ∀ k g, armed q' k g = bool_decide (k = fd ∧ g = EVFILT_READ) || armed q k g.
Proof.
  intros Hopen. unfold poller_add, changes. cbn. pose proof (add_open q fd EVFILT_READ Hopen) as Hk.
  destruct (kevent_change q _) as [q' r]. destruct Hk as (-> & Ho & Ha). done.
Qed.

Lemma add_write_spec q fd :
  is_open q fd →
  let '(q', ok) := poller_add q fd PollFlags.Write in
  ok = true ∧ (∀ k, is_open q' k ↔ is_open q k) ∧
  ∀ k g, armed q' k g = bool_decide (k = fd ∧ g = EVFILT_WRITE) || armed q k g.
Proof.
  intros Hopen. unfold poller_add, changes. cbn. pose proof (add_open q fd EVFILT_WRITE Hopen) as Hk.
  destruct (kevent_change q _) as [q' r]. destruct Hk as (-> & Ho & Ha). done.
Qed.

Lemma remove_read_spec q fd :
  let '(q', ok) := poller_remove q fd PollFlags.Read in
  ok = true ∧ (∀ k, is_open q' k ↔ is_open q k) ∧
  ∀ k g, armed q' k g = negb (bool_decide (k = fd ∧ g = EVFILT_READ)) && armed q k g.
Proof.
  unfold poller_remove, changes. cbn. pose proof (delete_one q fd EVFILT_READ) as Hk.
  destruct (kevent_change q _) as [q' r]. destruct Hk as (Hr & Ho & Ha).
  by destruct r as [[]|].
Qed.

Lemma remove_write_spec q fd :
  let '(q', ok) := poller_remove q fd PollFlags.Write in
  ok = true ∧ (∀ k, is_open q' k ↔ is_open q k) ∧
  ∀ k g, armed q' k g = negb (bool_decide (k = fd ∧ g = EVFILT_WRITE)) && armed q k g.
Proof.
  unfold poller_remove, changes. cbn. pose proof (delete_one q fd EVFILT_WRITE) as Hk.
  destruct (kevent_change q _) as [q' r]. destruct Hk as (Hr & Ho & Ha).
  by destruct r as [[]|].
Qed.

(** Deregistering both filters and closing, as the session manager does. *)
Lemma remove_close_spec q fd :
  let q' := kq_close (poller_remove q fd (flags_or PollFlags.Read PollFlags.Write)).1 fd in
  (∀ k, is_open q' k ↔ k ≠ fd ∧ is_open q k) ∧
  ∀ k g, armed q' k g = negb (bool_decide (k = fd)) && armed q k g.
Proof.
  unfold poller_remove, changes. cbn. pose proof (delete_both q fd) as Hk.
  destruct (kevent_change q _) as [q1 r]. destruct Hk as (Ho & Ha).
  destruct (close_drops q1 fd) as [Hc Hd].
  assert (Hq : (∀ k, is_open (kq_close q1 fd) k ↔ k ≠ fd ∧ is_open q k) ∧
    ∀ k g, armed (kq_close q1 fd) k g = negb (bool_decide (k = fd)) && armed q k g).
  { split; [intros k; by rewrite Hc, Ho|].
    intros k g. rewrite Hd. destruct (bool_decide_reflect (k = fd)); [done|]. cbn. by apply Ha. }
  by destruct r as [[]|].
Qed.
End Laws.

(** ** Theorems *)

(** C35. Events are coalesced per descriptor without loss: every descriptor the
    kernel reported appears exactly once, it is readable (writable, in error,
    hung up) exactly when one of its entries said so, the count returned is the
    number of events delivered, and a timeout or an error delivers none. *)
Theorem wait_coalesces nev kevs order :
  NoDup order → (∀ k, k ∈ order ↔ is_Some (coalesce kevs !! k)) →
  let '(n, evs) := poller_wait nev kevs order in
  (nev ≤ 0 → n = nev ∧ evs = []) ∧
  (0 < nev → n = Z.of_nat (length evs) ∧ ev_fd <$> evs = order ∧
     (∀ fd, fd ∈ ev_fd <$> evs ↔ fd ∈ ke_fd <$> kevs) ∧
     ∀ e, e ∈ evs →
       let own k := bool_decide (ke_fd k = ev_fd e) in
       readable e = existsb (λ k, own k && bool_decide (ke_filter k = EVFILT_READ)) kevs ∧
       writable e = existsb (λ k, own k && bool_decide (ke_filter k = EVFILT_WRITE)) kevs ∧
       err e = existsb (λ k, own k && ke_error k) kevs ∧
       hup e = existsb (λ k, own k && ke_eof k) kevs).
Proof.
  intros Hnd Hord. unfold poller_wait. destruct (Z.leb_spec nev 0) as [Hle|Hgt].
  { split; [done|lia]. }
  split; [lia|]. intros _. split; [done|].
  assert (Hfds : ev_fd <$> omap (λ k, (λ f, {| ev_fd := k; ev_f := f |}) <$> coalesce kevs !! k) order
                 = order).
  { assert (Hall : Forall (λ k, is_Some (coalesce kevs !! k)) order)
      by (apply Forall_forall; intros k; apply Hord).
    clear -Hall. induction Hall as [|k order [f Hk] _ IH]; [done|].
    cbn. rewrite Hk. cbn. by f_equal. }
  split; [done|]. split.
  { intros fd. rewrite Hfds, Hord. apply coalesce_spec. }
  intros e He. apply list_elem_of_omap in He as (k & _ & Hk).
  apply fmap_Some in Hk as (f & Hf & ->). unfold readable, writable, err, hup. cbn [ev_f ev_fd].
  rewrite !(proj2 (coalesce_spec kevs k) _ _ Hf).
  split_and!; apply existsb_ext; intros x; destruct (kev_flags_spec x) as (E1 & E2 & E3 & E4);
    by rewrite ?E1, ?E2, ?E3, ?E4.
Qed.

(** ** A concrete kernel

    Open descriptors and registered filters as finite sets; a change list stops
    at the first change that fails, as [kevent] does without room for events. *)
Record toy_kq := { tk_open : gset Z; tk_armed : gset (Z * Filter) }.

Definition toy_change (q : toy_kq) (c : kchange) : toy_kq * option errno :=
  let key := (kc_fd c, kc_filter c) in
  if bool_decide (kc_fd c ∈ tk_open q) then
    match kc_action c with
    | EV_ADD => ({| tk_open := tk_open q; tk_armed := {[key]} ∪ tk_armed q |}, None)
    | EV_DELETE =>
        if bool_decide (key ∈ tk_armed q)
        then ({| tk_open := tk_open q; tk_armed := tk_armed q ∖ {[key]} |}, None)
        else (q, Some ENOENT)
    end
  else (q, Some EBADF).

Fixpoint toy_changes (q : toy_kq) (cs : list kchange) : toy_kq * option errno :=
  match cs with
  | [] => (q, None)
  | c :: cs' =>
      let '(q', r) := toy_change q c in
      match r with Some e => (q', Some e) | None => toy_changes q' cs' end
  end.

Definition drop_fd (fd : Z) (a : gset (Z * Filter)) : gset (Z * Filter) :=
  a ∖ {[(fd, EVFILT_READ); (fd, EVFILT_WRITE); (fd, EVFILT_OTHER)]}.

#[export] Instance ToyKernel : Kernel := {|
  kq := toy_kq;
  kevent_change := toy_changes;
  kq_close := λ q fd,
    {| tk_open := tk_open q ∖ {[fd]}; tk_armed := drop_fd fd (tk_armed q) |};
  kq_opened := λ q fd,
    {| tk_open := {[fd]} ∪ tk_open q; tk_armed := drop_fd fd (tk_armed q) |};
|}.

Definition empty_kq : toy_kq := {| tk_open := ∅; tk_armed := ∅ |}.

(** Only open descriptors have registrations that count. *)
Definition toy_armed (q : toy_kq) (fd : Z) (f : Filter) : bool :=
  bool_decide (fd ∈ tk_open q ∧ (fd, f) ∈ tk_armed q).

Lemma elem_of_drop_fd fd a k f : (k, f) ∈ drop_fd fd a ↔ k ≠ fd ∧ (k, f) ∈ a.
Proof.
  unfold drop_fd. rewrite elem_of_difference, !elem_of_union, !elem_of_singleton.
  destruct f; naive_solver.
Qed.

#[export] Instance ToyKernelLaws : @KernelLaws ToyKernel.
Proof.
  refine {| is_open := λ q fd, fd ∈ tk_open q; armed := toy_armed |}.
  - intros q fd f Ho. cbn. unfold toy_change. cbn. rewrite bool_decide_eq_true_2 by done.
    split; [done|]. split; [done|]. intros k g. unfold toy_armed. cbn.
    apply eq_true_iff_eq. rewrite orb_true_iff, !bool_decide_eq_true.
    rewrite elem_of_union, elem_of_singleton. naive_solver.
  - intros q fd f. cbn. unfold toy_change. cbn.
    destruct (bool_decide_reflect (fd ∈ tk_open q)) as [Ho|Ho];
      [destruct (bool_decide_reflect ((fd, f) ∈ tk_armed q)) as [Ha|Ha]|];
      (split; [done|]; split; [done|]); intros k g; unfold toy_armed; cbn;
      apply eq_true_iff_eq; rewrite andb_true_iff, negb_true_iff, bool_decide_eq_false,
        !bool_decide_eq_true, ?elem_of_difference, ?elem_of_singleton; naive_solver.
  - intros q fd. cbn. unfold toy_change. cbn.
    destruct (bool_decide_reflect (fd ∈ tk_open q)) as [Ho|Ho]; [|by cbn].
    destruct (bool_decide_reflect ((fd, EVFILT_READ) ∈ tk_armed q)) as [Ha|Ha]; [|by cbn].
    cbn. rewrite bool_decide_eq_true_2 by done.
    destruct (bool_decide_reflect ((fd, EVFILT_WRITE) ∈ tk_armed q ∖ {[(fd, EVFILT_READ)]}))
      as [Hw|Hw]; (split; [done|]); intros k g Hk;
      unfold toy_armed; cbn; apply bool_decide_ext;
      rewrite ?elem_of_difference, ?elem_of_singleton; naive_solver.
  - intros q fd. cbn. split; [set_solver|]. intros k g. unfold toy_armed. cbn.
    apply eq_true_iff_eq. rewrite andb_true_iff, negb_true_iff, bool_decide_eq_false,
      !bool_decide_eq_true, elem_of_drop_fd, elem_of_difference, elem_of_singleton. naive_solver.
  - intros q fd. cbn. split; [set_solver|]. intros k g. unfold toy_armed. cbn.
    apply eq_true_iff_eq. rewrite andb_true_iff, negb_true_iff, bool_decide_eq_false,
      !bool_decide_eq_true, elem_of_drop_fd, elem_of_union, elem_of_singleton. naive_solver.
Defined.

Lemma wait_coalesces_witness :
  poller_wait 3
    [{| ke_fd := 5; ke_filter := EVFILT_READ; ke_error := false; ke_eof := true |};
     {| ke_fd := 6; ke_filter := EVFILT_READ; ke_error := false; ke_eof := false |};
     {| ke_fd := 5; ke_filter := EVFILT_WRITE; ke_error := false; ke_eof := false |}] [5; 6]
  = (2, [{| ev_fd := 5; ev_f := 7 |}; {| ev_fd := 6; ev_f := 1 |}]) ∧
  2 = Z.of_nat (length [{| ev_fd := 5; ev_f := 7 |}; {| ev_fd := 6; ev_f := 1 |}]).
Proof.
  split; [vm_compute; reflexivity|].
  refine (proj1 (proj2 (wait_coalesces 3
    [{| ke_fd := 5; ke_filter := EVFILT_READ; ke_error := false; ke_eof := true |};
     {| ke_fd := 6; ke_filter := EVFILT_READ; ke_error := false; ke_eof := false |};
     {| ke_fd := 5; ke_filter := EVFILT_WRITE; ke_error := false; ke_eof := false |}] [5; 6] _ _)
     eq_refl)).
  - repeat constructor; set_solver.
  - intros k. rewrite (proj1 (coalesce_spec _ k)). set_solver.
Defined.
