(* ===== verification/Llama.v ===== *)
(** * The llama.cpp interface the daemon is built on

    llama.cpp is a git submodule, outside the repository: its functions are the
    fields of the class [Llama], parameters of every definition that calls
    them. Each field has the signature of the C function with the memory it
    writes made explicit. The helpers of [src/runtime/tokens.cpp], which only
    wrap these calls, follow. *)
From stdpp Require Import prelude list strings.
From S2P Require Import Prelude Floating.
Local Open Scope Z_scope.

(** [llama_batch]: five parallel arrays; [b_seq_id] holds for every row the
    sequence ids that its pointer designates. *)
Record llama_batch := {
  b_token : list Z;
  b_pos : list Z;
  b_n_seq_id : list Z;
  b_seq_id : list Z;
  b_logits : list Z;
}.

(** The fields of [llama_perf_context_data] that are read. *)
Record llama_perf_context_data := {
  t_eval_ms : double;
  t_p_eval_ms : double;
  n_eval : Z;
  n_p_eval : Z;
}.

Class Llama := {
  llama_context : Type;
  llama_vocab : Type;
  llama_n_batch : llama_context → Z;
  (** new context and return code *)
  llama_decode : llama_context → llama_batch → llama_context * Z;
  llama_synchronize : llama_context → llama_context;
  (** [None] is the null pointer *)
  llama_get_logits_ith : llama_context → Z → option (list float);
  (** [llama_memory_seq_rm(llama_get_memory(ctx), seq, p0, p1)] *)
  llama_memory_seq_rm : llama_context → Z → Z → Z → llama_context;
  llama_perf_context_reset : llama_context → llama_context;
  llama_perf_context : llama_context → llama_perf_context_data;
  llama_vocab_n_tokens : llama_vocab → Z;
  llama_vocab_is_eog : llama_vocab → Z → bool;
  (** return value and the bytes stored in the buffer of the given size *)
  llama_token_to_piece : llama_vocab → Z → Z → Z → bool → Z * bytes;
  (** return value and the tokens stored in the array of the given size *)
  llama_tokenize : llama_vocab → bytes → Z → bool → bool → Z * list Z;
}.

(** What llama.cpp documents about logits: between a successful [llama_decode]
    of a batch and the next one (synchronising and removing sequences in
    between), every row of the batch whose [logits] flag is set has some. *)
Inductive decoded `{Llama} (b : llama_batch) : llama_context → Prop :=
| decoded_now c :
    (llama_decode c b).2 = 0%Z → decoded b (llama_synchronize (llama_decode c b).1)
| decoded_seq_rm c seq_id p0 p1 : decoded b c → decoded b (llama_memory_seq_rm c seq_id p0 p1).

Definition flag_set (b : llama_batch) (i : Z) : Prop :=
  (0 ≤ i)%Z ∧ b_logits b !! Z.to_nat i = Some 1%Z.

Class LlamaLogits `{Llama} :=
  logits_available : ∀ b c i, decoded b c → flag_set b i → is_Some (llama_get_logits_ith c i).

(** ** [uma::runtime::tokens] *)

Section Tokens.
Context `{Llama}.

(** [tokenize]; the first call passes no array, so it only returns the
    negated length. *)
Definition tokenize (vocab : option llama_vocab) (text : bytes)
    (add_bos special : bool) : list Z :=
  match vocab with
  | None => []
  | Some v =>
      let n := - (llama_tokenize v text 0 add_bos special).1 in
      if n <=? 0 then []
      else
        let '(rc, written) := llama_tokenize v text n add_bos special in
        if rc <? 0 then []
        else
          let w := take (Z.to_nat n) written in
          w ++ replicate (Z.to_nat n - length w) 0
  end.

(** [token_to_piece] into a buffer of [buf_size] bytes. *)
Definition token_to_piece (vocab : option llama_vocab) (token_id buf_size : Z)
    (special : bool) : Z * bytes :=
  match vocab with
  | None => (0, [])
  | Some v =>
      if buf_size =? 0 then (0, [])
      else llama_token_to_piece v token_id buf_size 0 special
  end.

Definition token_to_piece_str (vocab : option llama_vocab) (token_id : Z)
    (special : bool) : bytes :=
  let '(n, tmp) := token_to_piece vocab token_id 256 special in
  if n <=? 0 then [] else take (Z.to_nat n) tmp.

Lemma length_tokenize vocab text add_bos special :
  tokenize vocab text add_bos special = [] ∨
  ∃ v, vocab = Some v ∧
    Z.of_nat (length (tokenize vocab text add_bos special))
    = - (llama_tokenize v text 0 add_bos special).1.
Proof.
  unfold tokenize. destruct vocab as [v|]; [|by left].
  destruct (_ <=? 0) eqn:E; [by left|]. bool_prop.
  destruct (llama_tokenize v text (- _) add_bos special) as [rc w].
  destruct (rc <? 0); [by left|]. right. exists v. split; [done|].
  rewrite length_app, length_take, length_replicate. lia.
Qed.
End Tokens.
