(* ===== verification/Model.v ===== *)
(** * Loading the model ([src/runtime/model.h], [src/runtime/model.cpp])

    The parameters handed to llama.cpp, the handle that owns the model and the
    guard that owns the backend. The
    llama.cpp functions and the fields of its parameter structs that the program
    does not touch are the class [LlamaLoader]. *)
From stdpp Require Import prelude list strings.
From S2P Require Import Prelude Floating CLib Sys Config ConfigParse Llama.
Local Open Scope Z_scope.

(** ** Definitions *)

(** The fields the program sets; [mp_rest] and [cp_rest] stand for the others. *)
Record llama_model_params (rest : Type) := {
  mp_use_mlock : bool;
  mp_use_mmap : bool;
  mp_rest : rest;
}.
Arguments mp_use_mlock {rest} _.
Arguments mp_use_mmap {rest} _.
Arguments mp_rest {rest} _.

Record llama_context_params (rest : Type) := {
  cp_n_ctx : Z;
  cp_n_batch : Z;
  cp_n_ubatch : Z;
  cp_n_threads : Z;
  cp_n_threads_batch : Z;
  cp_n_seq_max : Z;
  cp_flash_attn_type : Z;
  cp_offload_kqv : bool;
  cp_kv_unified : bool;
  cp_swa_full : bool;
  cp_no_perf : bool;
  cp_op_offload : bool;
  cp_rest : rest;
}.
Arguments cp_n_ctx {rest} _.
Arguments cp_n_batch {rest} _.
Arguments cp_n_ubatch {rest} _.
Arguments cp_n_threads {rest} _.
Arguments cp_n_threads_batch {rest} _.
Arguments cp_n_seq_max {rest} _.
Arguments cp_flash_attn_type {rest} _.
Arguments cp_offload_kqv {rest} _.
Arguments cp_kv_unified {rest} _.
Arguments cp_swa_full {rest} _.
Arguments cp_no_perf {rest} _.
Arguments cp_op_offload {rest} _.
Arguments cp_rest {rest} _.

Class LlamaLoader `{Llama} := {
  llama_model : Type;
  model_rest : Type;
  context_rest : Type;
  llama_model_default_params : llama_model_params model_rest;
  llama_context_default_params : llama_context_params context_rest;
  LLAMA_FLASH_ATTN_TYPE_AUTO : Z;
  (** [None] is the null pointer *)
  llama_model_load_from_file : bytes → llama_model_params model_rest → option llama_model;
  llama_init_from_model : llama_model → llama_context_params context_rest → option llama_context;
  llama_model_get_vocab : llama_model → llama_vocab;
}.

(** The exceptions the program throws, with their text. *)
Inductive exn := InvalidArgument (what : bytes) | RuntimeError (what : bytes).

Section Loader.
Context `{LlamaLoader}.

Definition make_model_params (cfg : RuntimeConfig) : llama_model_params model_rest :=
  {| mp_use_mlock := use_mlock cfg; mp_use_mmap := use_mmap cfg;
     mp_rest := mp_rest llama_model_default_params |}.

(** [if (v > 0) cp.field = v;] *)
Definition if_positive (v dflt : Z) : Z := if 0 <? v then v else dflt.

Definition make_context_params (cfg : RuntimeConfig) : llama_context_params context_rest :=
  let cp := llama_context_default_params in
  {| cp_n_ctx := if_positive (n_ctx cfg) (cp_n_ctx cp);
     cp_n_batch := if_positive (n_batch cfg) (cp_n_batch cp);
     cp_n_ubatch := if_positive (n_ubatch cfg) (cp_n_ubatch cp);
     cp_n_threads := if_positive (n_threads cfg) (cp_n_threads cp);
     cp_n_threads_batch := if 0 <? n_threads cfg then n_threads cfg else cp_n_threads_batch cp;
     cp_n_seq_max := Z.max (n_seq_max cfg) 1;
     cp_flash_attn_type := LLAMA_FLASH_ATTN_TYPE_AUTO;
     cp_offload_kqv := offload_kqv cfg;
     cp_kv_unified := kv_unified cfg;
     cp_swa_full := swa_full cfg;
     cp_no_perf := negb (enable_perf cfg);
     cp_op_offload := true;
     cp_rest := cp_rest cp |}.

Record ModelHandle := {
  mh_cfg : RuntimeConfig;
  mh_model : llama_model;
  mh_ctx_params : llama_context_params context_rest;
}.

Definition new_model_handle (cfg : RuntimeConfig) : exn + ModelHandle :=
  if bool_decide (model_path cfg = []) then
    inl (InvalidArgument (str "Model path not provided. Use --model or UMA_MODEL."))
  else
    match llama_model_load_from_file (model_path cfg) (make_model_params cfg) with
    | None => inl (RuntimeError (str "Failed to load model: " ++ model_path cfg))
    | Some m => inr {| mh_cfg := cfg; mh_model := m; mh_ctx_params := make_context_params cfg |}
    end.

(** The destructors: of the backend guard, the handle and the context. *)
Definition new_backend_guard : Sys () := log (Library llama_backend_init).
Definition destroy_backend_guard : Sys () := log (Library llama_backend_free).
Definition destroy_model_handle : Sys () := log (Library llama_model_free).
Definition destroy_context : Sys () := log (Library llama_free).

Definition new_context (h : ModelHandle) : exn + llama_context :=
  match llama_init_from_model (mh_model h) (mh_ctx_params h) with
  | None => inl (RuntimeError (str "Failed to create llama_context"))
  | Some c => inr c
  end.
End Loader.
