(* ===== verification/Metrics.v ===== *)
(** * Runtime metrics ([src/metrics/metrics.h], [src/metrics/metrics.cpp])

    The counters and gauges as a record, with the width of every atomic kept
    by the operations: [fetch_add] wraps at the counter's width. *)
From stdpp Require Import prelude list strings.
From S2P Require Import Prelude Floating.
Local Open Scope Z_scope.

Record Metrics := {
  tokens_generated_total : Z;
  batch_calls_total : Z;
  last_batch_size : Z;
  decode_ms_last : Z;
  decode_ms_ewma_x1000 : Z;
  decode_ns_total : Z;
  decode_calls : Z;
  decode_tokens_total : Z;
  decode_ms_min : Z;
  decode_ms_max : Z;
  decode_phase_tokens_total : Z;
  prefill_tokens_total : Z;
  decode_ns_total_gen : Z;
  prefill_ns_total : Z;
  last_decode_tokens : Z;
  last_prefill_tokens : Z;
  max_batch_size_seen : Z;
  prefill_calls : Z;
  eval_ms_last : Z;
  p_eval_ms_last : Z;
  eval_ns_total : Z;
  p_eval_ns_total : Z;
  eval_calls : Z;
  p_eval_calls : Z;
  bmt_units_last : Z;
  m_bmt_budget_units : Z;
  bmt_guard_activations : Z;
  bmt_guard_active : Z;
}.

Definition new_metrics : Metrics := {|
  tokens_generated_total := 0; batch_calls_total := 0; last_batch_size := 0;
  decode_ms_last := 0; decode_ms_ewma_x1000 := 0; decode_ns_total := 0; decode_calls := 0;
  decode_tokens_total := 0; decode_ms_min := 0xFFFFFFFF; decode_ms_max := 0;
  decode_phase_tokens_total := 0; prefill_tokens_total := 0; decode_ns_total_gen := 0;
  prefill_ns_total := 0; last_decode_tokens := 0; last_prefill_tokens := 0;
  max_batch_size_seen := 0; prefill_calls := 0; eval_ms_last := 0; p_eval_ms_last := 0;
  eval_ns_total := 0; p_eval_ns_total := 0; eval_calls := 0; p_eval_calls := 0;
  bmt_units_last := 0; m_bmt_budget_units := 0; bmt_guard_activations := 0;
  bmt_guard_active := 0;
|}.

Definition eta_metrics (m : Metrics) : Metrics := {|
  tokens_generated_total := tokens_generated_total m; batch_calls_total := batch_calls_total m;
  last_batch_size := last_batch_size m; decode_ms_last := decode_ms_last m;
  decode_ms_ewma_x1000 := decode_ms_ewma_x1000 m; decode_ns_total := decode_ns_total m;
  decode_calls := decode_calls m; decode_tokens_total := decode_tokens_total m;
  decode_ms_min := decode_ms_min m; decode_ms_max := decode_ms_max m;
  decode_phase_tokens_total := decode_phase_tokens_total m;
  prefill_tokens_total := prefill_tokens_total m; decode_ns_total_gen := decode_ns_total_gen m;
  prefill_ns_total := prefill_ns_total m; last_decode_tokens := last_decode_tokens m;
  last_prefill_tokens := last_prefill_tokens m; max_batch_size_seen := max_batch_size_seen m;
  prefill_calls := prefill_calls m; eval_ms_last := eval_ms_last m;
  p_eval_ms_last := p_eval_ms_last m; eval_ns_total := eval_ns_total m;
  p_eval_ns_total := p_eval_ns_total m; eval_calls := eval_calls m;
  p_eval_calls := p_eval_calls m; bmt_units_last := bmt_units_last m;
  m_bmt_budget_units := m_bmt_budget_units m; bmt_guard_activations := bmt_guard_activations m;
  bmt_guard_active := bmt_guard_active m;
|}.

#[global] Instance set_tokens_generated_total : Setter tokens_generated_total := ltac:(derive_setter eta_metrics).
#[global] Instance set_batch_calls_total : Setter batch_calls_total := ltac:(derive_setter eta_metrics).
#[global] Instance set_last_batch_size : Setter last_batch_size := ltac:(derive_setter eta_metrics).
#[global] Instance set_decode_ms_last : Setter decode_ms_last := ltac:(derive_setter eta_metrics).
#[global] Instance set_decode_ms_ewma_x1000 : Setter decode_ms_ewma_x1000 := ltac:(derive_setter eta_metrics).
#[global] Instance set_decode_ns_total : Setter decode_ns_total := ltac:(derive_setter eta_metrics).
#[global] Instance set_decode_calls : Setter decode_calls := ltac:(derive_setter eta_metrics).
#[global] Instance set_decode_tokens_total : Setter decode_tokens_total := ltac:(derive_setter eta_metrics).
#[global] Instance set_decode_ms_min : Setter decode_ms_min := ltac:(derive_setter eta_metrics).
#[global] Instance set_decode_ms_max : Setter decode_ms_max := ltac:(derive_setter eta_metrics).
#[global] Instance set_decode_phase_tokens_total : Setter decode_phase_tokens_total := ltac:(derive_setter eta_metrics).
#[global] Instance set_prefill_tokens_total : Setter prefill_tokens_total := ltac:(derive_setter eta_metrics).
#[global] Instance set_decode_ns_total_gen : Setter decode_ns_total_gen := ltac:(derive_setter eta_metrics).
#[global] Instance set_prefill_ns_total : Setter prefill_ns_total := ltac:(derive_setter eta_metrics).
#[global] Instance set_eval_ms_last : Setter eval_ms_last := ltac:(derive_setter eta_metrics).
#[global] Instance set_p_eval_ms_last : Setter p_eval_ms_last := ltac:(derive_setter eta_metrics).
#[global] Instance set_eval_ns_total : Setter eval_ns_total := ltac:(derive_setter eta_metrics).
#[global] Instance set_p_eval_ns_total : Setter p_eval_ns_total := ltac:(derive_setter eta_metrics).
#[global] Instance set_eval_calls : Setter eval_calls := ltac:(derive_setter eta_metrics).
#[global] Instance set_p_eval_calls : Setter p_eval_calls := ltac:(derive_setter eta_metrics).
#[global] Instance set_bmt_units_last : Setter bmt_units_last := ltac:(derive_setter eta_metrics).
#[global] Instance set_m_bmt_budget_units : Setter m_bmt_budget_units := ltac:(derive_setter eta_metrics).
#[global] Instance set_bmt_guard_activations : Setter bmt_guard_activations := ltac:(derive_setter eta_metrics).
#[global] Instance set_bmt_guard_active : Setter bmt_guard_active := ltac:(derive_setter eta_metrics).

(** [counter.fetch_add(n)] on a 64-bit counter. *)
Definition fetch_add64 (counter n : Z) : Z := u64 (counter + n).
Definition fetch_add32 (counter n : Z) : Z := u32 (counter + n).

Section Ewma.
Context `{Conversions}.

Definition set_decode_ms_ewma (m : Metrics) (ms : double) : Metrics :=
  let ms := if F64.lt ms (F64.of_Z 0) then F64.of_Z 0 else ms in
  let fx := cast_u32 (F64.mul ms (F64.of_Z 1000)) in
  m <| decode_ms_ewma_x1000 := fx |>.
End Ewma.

Definition get_decode_ms_ewma (m : Metrics) : double :=
  F64.div (F64.of_Z (decode_ms_ewma_x1000 m)) (F64.of_Z 1000).

(** The file's own escaper, which nothing calls: [std::setw(4)] with zero fill
    in front of the hexadecimal text. *)
Fixpoint hex_text (fuel : nat) (z : Z) : bytes :=
  match fuel with
  | O => []
  | S fuel' =>
      (if z <? 16 then [] else hex_text fuel' (z / 16)) ++
      [byte_of_Z (if z mod 16 <? 10 then 0x30 + z mod 16 else 0x61 + (z mod 16 - 10))]
  end.

Definition setw4 (s : bytes) : bytes := replicate (4 - length s) Init.Byte.x30 ++ s.

Definition metrics_escape_byte (c : byte) : bytes :=
  if decide (c = Init.Byte.x22) then [Init.Byte.x5c; Init.Byte.x22]
  else if decide (c = Init.Byte.x5c) then [Init.Byte.x5c; Init.Byte.x5c]
  else if decide (c = Init.Byte.x0a) then str "\n"
  else if decide (c = Init.Byte.x0d) then str "\r"
  else if decide (c = Init.Byte.x09) then str "\t"
  else if byte_val c <? 0x20 then str "\u" ++ setw4 (hex_text 8 (byte_val c))
  else [c].

Definition metrics_json_escape (s : bytes) : bytes := s ≫= metrics_escape_byte.

(** ** The JSON snapshot

    [long double] has an implementation-defined format: its precision and
    exponent range are parameters. *)
Class LongDouble := { ld_prec : Z; ld_emax : Z }.

Section Snapshot.
Context `{LongDouble}.

Definition ld_of_Z (z : Z) : SpecFloat.spec_float := SpecFloat.binary_normalize ld_prec ld_emax z 0 false.
Definition ld_div : SpecFloat.spec_float → SpecFloat.spec_float → SpecFloat.spec_float := SpecFloat.SFdiv ld_prec ld_emax.

(** [static_cast<double>] of a [long double]. *)
Definition ld_to_double (x : SpecFloat.spec_float) : double :=
  match x with
  | SpecFloat.S754_finite s m e =>
      SpecFloat.binary_normalize F64.prec F64.emax (SpecFloat.cond_Zopp s (Z.pos m)) e s
  | _ => x
  end.

(** A mean with three decimals; [0.000] when there is nothing to divide by. *)
Definition mean_ms (ns calls : Z) : bytes :=
  if calls =? 0 then fixed_decimal 3 (F64.of_Z 0)
  else fixed_decimal 3 (ld_to_double (ld_div (ld_div (ld_of_Z ns) (ld_of_Z calls)) (ld_of_Z 1000000))).

Definition mean_tokens (toks calls : Z) : bytes :=
  if calls =? 0 then fixed_decimal 3 (F64.of_Z 0)
  else fixed_decimal 3 (ld_to_double (ld_div (ld_of_Z toks) (ld_of_Z calls))).

Definition to_json (m : Metrics) (active_sessions : Z) (debug : bool) : bytes :=
  jstr "{'tokens_generated_total':" ++ to_string (tokens_generated_total m) ++
  jstr ",'batch_calls_total':" ++ to_string (batch_calls_total m) ++
  jstr ",'last_batch_size':" ++ to_string (last_batch_size m) ++
  jstr ",'decode_ms_last':" ++ to_string (decode_ms_last m) ++
  jstr ",'decode_ms_ewma':" ++ fixed_decimal 3 (get_decode_ms_ewma m) ++
  jstr ",'decode_calls':" ++ to_string (decode_calls m) ++
  jstr ",'decode_ns_total':" ++ to_string (decode_ns_total m) ++
  jstr ",'decode_tokens_total':" ++ to_string (decode_tokens_total m) ++
  jstr ",'decode_ms_min':" ++ to_string (decode_ms_min m) ++
  jstr ",'decode_ms_max':" ++ to_string (decode_ms_max m) ++
  jstr ",'decode_ms_mean':" ++ mean_ms (decode_ns_total m) (decode_calls m) ++
  jstr ",'decode_tokens_per_call_mean':" ++ mean_tokens (decode_tokens_total m) (decode_calls m) ++
  jstr ",'decode_phase_tokens_total':" ++ to_string (decode_phase_tokens_total m) ++
  jstr ",'prefill_tokens_total':" ++ to_string (prefill_tokens_total m) ++
  jstr ",'decode_ns_total_gen':" ++ to_string (decode_ns_total_gen m) ++
  jstr ",'prefill_ns_total':" ++ to_string (prefill_ns_total m) ++
  jstr ",'gen_ms_per_token_mean':" ++ mean_ms (decode_ns_total_gen m) (decode_phase_tokens_total m) ++
  jstr ",'prefill_ms_per_token_mean':" ++ mean_ms (prefill_ns_total m) (prefill_tokens_total m) ++
  (if debug then
     jstr ",'eval_ms_last':" ++ to_string (eval_ms_last m) ++
     jstr ",'p_eval_ms_last':" ++ to_string (p_eval_ms_last m) ++
     jstr ",'eval_calls':" ++ to_string (eval_calls m) ++
     jstr ",'p_eval_calls':" ++ to_string (p_eval_calls m) ++
     jstr ",'eval_ns_total':" ++ to_string (eval_ns_total m) ++
     jstr ",'p_eval_ns_total':" ++ to_string (p_eval_ns_total m) ++
     jstr ",'eval_ms_mean':" ++ mean_ms (eval_ns_total m) (eval_calls m) ++
     jstr ",'p_eval_ms_mean':" ++ mean_ms (p_eval_ns_total m) (p_eval_calls m)
   else []) ++
  jstr ",'active_sessions':" ++ to_string active_sessions ++
  (if debug then
     jstr ",'last_decode_tokens':" ++ to_string (last_decode_tokens m) ++
     jstr ",'last_prefill_tokens':" ++ to_string (last_prefill_tokens m) ++
     jstr ",'max_batch_size_seen':" ++ to_string (max_batch_size_seen m) ++
     jstr ",'prefill_calls':" ++ to_string (prefill_calls m) ++
     jstr ",'bmt_units_last':" ++ to_string (bmt_units_last m) ++
     jstr ",'bmt_budget_units':" ++ to_string (m_bmt_budget_units m) ++
     jstr ",'bmt_guard_active':" ++ to_string (bmt_guard_active m) ++
     jstr ",'bmt_guard_activations':" ++ to_string (bmt_guard_activations m)
   else []) ++
  str "}".
End Snapshot.
