(* ===== verification/SessionManager.v ===== *)
(** * The session manager ([src/ipc/session_manager.h], [src/ipc/session_manager.cpp])

    Creation, lookup and closing of sessions, and [on_readable]: draining the
    socket, reading one frame, validating the request and starting it. What
    [::read] returned is an input: the blocks of data in order and how the
    sequence of reads ended. *)
From stdpp Require Import prelude gmap list strings.
From S2P Require Import Prelude Floating Protocol Json Session Config Poller Llama.
Import Protocol.
Local Open Scope Z_scope.

(** ** Definitions *)

Record SessionManager := {
  sessions_ : SessionPool;
  next_seq_id_ : Z;
}.

Definition eta_manager (m : SessionManager) : SessionManager :=
  {| sessions_ := sessions_ m; next_seq_id_ := next_seq_id_ m |}.
#[global] Instance set_sessions_ : Setter sessions_ := ltac:(derive_setter eta_manager).
#[global] Instance set_next_seq_id_ : Setter next_seq_id_ := ltac:(derive_setter eta_manager).

Definition new_manager : SessionManager := {| sessions_ := ∅; next_seq_id_ := 1 |}.

Definition add_client (m : SessionManager) (f now_ns : Z) : SessionManager :=
  m <| sessions_ := <[f := new_session <| fd := f |> <| ctx := false |>
                             <| last_activity_ns := now_ns |>]> (sessions_ m) |>.

Definition find (m : SessionManager) (f : Z) : option ClientSession := sessions_ m !! f.

Record ReadResult := {
  wants_write : bool;
  removed_read : bool;
  admin_request : bool;
  admin_line : bytes;
}.

Definition no_result : ReadResult := {|
  wants_write := false; removed_read := false; admin_request := false; admin_line := [];
|}.

Definition eta_result (r : ReadResult) : ReadResult := {|
  wants_write := wants_write r; removed_read := removed_read r;
  admin_request := admin_request r; admin_line := admin_line r;
|}.
#[global] Instance set_wants_write : Setter wants_write := ltac:(derive_setter eta_result).
#[global] Instance set_removed_read : Setter removed_read := ltac:(derive_setter eta_result).
#[global] Instance set_admin_request : Setter admin_request := ltac:(derive_setter eta_result).

(** How the read loop ended: end of file, would block, another error. *)
Inductive ReadEnd := ReadEof | ReadAgain | ReadError.

Record ReadInput := { read_blocks : list bytes; read_end : ReadEnd }.

Definition read_block (now_ns : Z) (s : ClientSession) (blk : bytes) : ClientSession :=
  s <| rx := rx s ++ blk |> <| last_activity_ns := now_ns |>.

(** The three assignments with which every answer-and-close path ends. *)
Definition stop_reading (s : ClientSession) : ClientSession :=
  s <| state := STREAM |> <| read_closed := true |>.

Definition reject (s : ClientSession) (id code message : bytes) : ClientSession :=
  stop_reading (s <| tx := append_error_event (tx s) id code message |>).

Definition answer_and_stop (rr : ReadResult) : ReadResult :=
  rr <| wants_write := true |> <| removed_read := true |>.

Section Manager.
Context `{Llama, Kernel, Conversions}.

(** [close]: the new manager, kernel and context. A session's own context is
    never set, so the [llama_free] of it has nothing to free. *)
Definition close (m : SessionManager) (f : Z) (q : kq) (c : option llama_context)
    : SessionManager * kq * option llama_context :=
  let q := (poller_remove q f (flags_or PollFlags.Read PollFlags.Write)).1 in
  match sessions_ m !! f with
  | Some s =>
      let c' := match c with
                | Some c0 => if 0 <=? seq s then Some (llama_memory_seq_rm c0 (seq s) (-1) (-1))
                             else Some c0
                | None => None
                end in
      (m <| sessions_ := delete f (sessions_ m) |>, kq_close q f, c')
  | None => (m, kq_close q f, c)
  end.

Definition set_sampling (s : ClientSession) (js : bytes) : ClientSession :=
  let s := match extract_json_number js (str "temperature") with
           | Some v => s <| temperature := v |> | None => s end in
  let s := match extract_json_number js (str "top_p") with
           | Some v => s <| top_p := v |> | None => s end in
  match extract_json_number js (str "top_k") with
  | Some v => s <| top_k := cast_i32 v |> | None => s end.

(** The transition to [PREFILL]. *)
Definition start_request (s : ClientSession) (cfg : RuntimeConfig) (toks : list Z) (now_ns : Z)
    (next_seq_id : Z) : ClientSession * Z :=
  let s := s <| prompt_tokens := toks |> <| prefill_idx := 0%nat |> <| generated_count := 0 |>
             <| has_pending_tok := false |> <| n_past := 0 |> <| req_start_ns := now_ns |>
             <| first_emit_ns := 0 |> <| last_emit_ns := 0 |> in
  let s := s <| slo := {| target_ttft_ms := slo_ttft_ms cfg; target_tbt_ms := slo_tbt_ms cfg;
                          priority := priority (slo s) |} |> in
  let '(s, next) :=
    if seq s <? 0 then (s <| seq := next_seq_id |>, i32 (next_seq_id + 1)) else (s, next_seq_id) in
  (s <| state := PREFILL |>, next).

(** Whether a frame asks for the metrics. *)
Definition is_admin (js : bytes) : bool :=
  let '(typ, type_invalid) := extract_json_string js (str "type") in
  let '(evt, event_invalid) := extract_json_string js (str "event") in
  (negb type_invalid && bool_decide (typ = str "metrics")) ||
  (negb event_invalid && bool_decide (evt = str "metrics")).

(** Everything behind a complete frame: the answer, the session, and the next
    sequence id. *)
Definition handle_frame (cfg : RuntimeConfig) (vocab : option llama_vocab) (now_ns : Z)
    (js : bytes) (rr : ReadResult) (s : ClientSession) (next_seq_id : Z)
    : ReadResult * ClientSession * Z :=
  if is_admin js then
    (answer_and_stop (rr <| admin_request := true |>), stop_reading s, next_seq_id)
  else
    let '(req_id, id_invalid) := extract_json_string js (str "id") in
    let '(prompt, prompt_invalid) := extract_json_string js (str "prompt") in
    if id_invalid || prompt_invalid then
      (answer_and_stop rr, reject s req_id (str "E_PROTO_001") (str "invalid utf-8"), next_seq_id)
    else if bool_decide (prompt = []) then
      (answer_and_stop rr,
       reject s req_id (str "E_PROTO_BAD_REQUEST") (str "missing or invalid prompt"), next_seq_id)
    else
      let s := set_sampling (s <| request_id := req_id |>) js in
      if max_prompt_bytes cfg <? Z.of_nat (length prompt) then
        (answer_and_stop rr,
         reject s (request_id s) (str "E_LIMIT_001") (str "prompt too large"), next_seq_id)
      else
        let s := s <| prompt_tokens := [] |> in
        let toks := tokenize vocab prompt true true in
        if bool_decide (toks = []) then
          (rr <| wants_write := true |>,
           s <| state := STREAM |>
             <| tx := append_eos_event (tx s) (request_id s) (str "stop") |>, next_seq_id)
        else
          let '(s, next) := start_request s cfg toks now_ns next_seq_id in
          (rr, s, next).

(** Everything behind the reads. *)
Definition after_read (cfg : RuntimeConfig) (vocab : option llama_vocab) (now_ns : Z)
    (saw_eof : bool) (s : ClientSession) (next_seq_id : Z) : ReadResult * ClientSession * Z :=
  let '(rr, s) :=
    if saw_eof
    then (no_result <| removed_read := true |>,
          s <| read_closed := true |> <| last_activity_ns := now_ns |>)
    else (no_result, s) in
  match try_read_frame (rx s) kDefaultMaxFrameBytes with
  | NeedMore => (rr, s, next_seq_id)
  | FrameError err =>
      let code := match find_sub (str "invalid frame length 0") err with
                  | Some _ => str "E_PROTO_INVALID_LEN"
                  | None => str "E_PROTO_FRAME_TOO_LARGE"
                  end in
      (answer_and_stop rr, reject s (request_id s) code err, next_seq_id)
  | Frame js rx' => handle_frame cfg vocab now_ns js rr (s <| rx := rx' |>) next_seq_id
  end.

Definition on_readable (m : SessionManager) (f : Z) (cfg : RuntimeConfig)
    (vocab : option llama_vocab) (now_ns : Z) (input : ReadInput) : ReadResult * SessionManager :=
  match sessions_ m !! f with
  | None => (no_result, m)
  | Some s0 =>
      let s := foldl (read_block now_ns) s0 (read_blocks input) in
      let '(rr, s, next) :=
        match read_end input with
        | ReadError => (no_result <| removed_read := true |>, s, next_seq_id_ m)
        | ReadEof => after_read cfg vocab now_ns true s (next_seq_id_ m)
        | ReadAgain => after_read cfg vocab now_ns false s (next_seq_id_ m)
        end in
      (rr, {| sessions_ := <[f := s]> (sessions_ m); next_seq_id_ := next |})
  end.
End Manager.
