(* ===== verification/Policy.v ===== *)
(** * The batching policy ([src/sched/policy.h], [src/sched/policy.cpp])

    [BaselinePolicy::schedule_tick]: decode first, one token per ready session
    in round-robin order, then budgeted prefill with sessions that have not
    emitted yet served first in bursts of at most 16 tokens. *)
From stdpp Require Import prelude gmap list strings.
From S2P Require Import Prelude Floating Session.
Local Open Scope Z_scope.

(** ** Data *)

Module Phase.
Inductive t := PREFILL | DECODE.
#[global] Instance eq_dec : EqDecision t.
Proof. solve_decision. Defined.
End Phase.

Record BatchItem := {
  item_fd : Z;
  phase : Phase.t;
  n_tokens : Z;
}.

Record Plan := {
  items : list BatchItem;
  next_rr_decode_idx : nat;
  next_rr_prefill_idx : nat;
  decode_tok_count : Z;
  prefill_tok_count : Z;
}.

Definition empty_plan : Plan := {|
  items := []; next_rr_decode_idx := 0; next_rr_prefill_idx := 0;
  decode_tok_count := 0; prefill_tok_count := 0;
|}.

Definition eta_plan (p : Plan) : Plan := {|
  items := items p; next_rr_decode_idx := next_rr_decode_idx p;
  next_rr_prefill_idx := next_rr_prefill_idx p;
  decode_tok_count := decode_tok_count p; prefill_tok_count := prefill_tok_count p;
|}.

#[global] Instance set_items : Setter items := ltac:(derive_setter eta_plan).
#[global] Instance set_next_rr_decode_idx : Setter next_rr_decode_idx := ltac:(derive_setter eta_plan).
#[global] Instance set_next_rr_prefill_idx : Setter next_rr_prefill_idx := ltac:(derive_setter eta_plan).
#[global] Instance set_decode_tok_count : Setter decode_tok_count := ltac:(derive_setter eta_plan).
#[global] Instance set_prefill_tok_count : Setter prefill_tok_count := ltac:(derive_setter eta_plan).

(** ** [BaselinePolicy::schedule_tick] *)

Definition decode_ready (s : ClientSession) : bool :=
  bool_decide (state s = DECODE) && has_pending_tok s.

Definition prefill_ready (s : ClientSession) : bool :=
  bool_decide (state s = PREFILL) && (prefill_idx s <? length (prompt_tokens s))%nat.

(** The two pools, in the order the loop over the session map visits it. *)
Fixpoint build_pools (sessions : SessionPool) (order : list Z) : list Z * list Z :=
  match order with
  | [] => ([], [])
  | k :: order' =>
      let '(decode_pool, prefill_pool) := build_pools sessions order' in
      match sessions !! k with
      | Some s =>
          if decode_ready s then (fd s :: decode_pool, prefill_pool)
          else if prefill_ready s then (decode_pool, fd s :: prefill_pool)
          else (decode_pool, prefill_pool)
      | None => (decode_pool, prefill_pool)
      end
  end.

(** Phase A: the loop from index [i], with [left] iterations to go. The cursors
    are [size_t] in the source and [nat] here: [schedule_tick] stores them below
    the number of sessions, so that the sum does not wrap. *)
Fixpoint decode_loop (decode_pool : list Z) (rr_decode_idx i left : nat)
    (plan : Plan) (budget : Z) : Plan * Z :=
  match left with
  | O => (plan, budget)
  | S left' =>
      if 0 <? budget then
        let fd := decode_pool !!! ((rr_decode_idx + i) mod length decode_pool)%nat in
        let plan1 := plan <| items := items plan ++
          [{| item_fd := fd; phase := Phase.DECODE; n_tokens := 1 |}] |> in
        let plan2 := plan1 <| decode_tok_count := decode_tok_count plan1 + 1 |> in
        decode_loop decode_pool rr_decode_idx (S i) left' plan2 (budget - 1)
      else (plan, budget)
  end.

(** Phase B: the rotated prefill pool split by whether the session has emitted
    (the cursor as in phase A). *)
Fixpoint split_prefill (sessions : SessionPool) (prefill_pool : list Z)
    (rr_prefill_idx i left : nat) : list Z * list Z :=
  match left with
  | O => ([], [])
  | S left' =>
      let fd := prefill_pool !!! ((rr_prefill_idx + i) mod length prefill_pool)%nat in
      let '(ttft_pool, rest_pool) :=
        split_prefill sessions prefill_pool rr_prefill_idx (S i) left' in
      match sessions !! fd with
      | None => (ttft_pool, rest_pool)
      | Some s =>
          if first_emit_ns s =? 0 then (fd :: ttft_pool, rest_pool)
          else (ttft_pool, fd :: rest_pool)
      end
  end.

Definition kBurst : Z := 16.

(** The chunk size for a session when [budget] tokens are left. *)
Definition prefill_chunk (s : ClientSession) (budget : Z) : Z :=
  let remain_sz := u64 (Z.of_nat (length (prompt_tokens s)) - Z.of_nat (prefill_idx s)) in
  let remain := i32 (Z.min remain_sz INT_MAX) in
  let chunk := Z.min remain budget in
  if first_emit_ns s =? 0 then Z.min chunk kBurst else chunk.

Fixpoint schedule_pool (sessions : SessionPool) (pool : list Z)
    (plan : Plan) (budget : Z) : Plan * Z :=
  match pool with
  | [] => (plan, budget)
  | fd :: pool' =>
      if budget <=? 0 then (plan, budget)
      else
        match sessions !! fd with
        | None => schedule_pool sessions pool' plan budget
        | Some s =>
            let chunk := prefill_chunk s budget in
            if chunk <=? 0 then schedule_pool sessions pool' plan budget
            else
              let plan1 := plan <| items := items plan ++
                [{| item_fd := fd; phase := Phase.PREFILL; n_tokens := chunk |}] |> in
              let plan2 := plan1 <| prefill_tok_count := prefill_tok_count plan1 + chunk |> in
              schedule_pool sessions pool' plan2 (budget - chunk)
        end
  end.

Definition schedule_tick (sessions : SessionPool) (order : list Z)
    (batch_cap target_batch : Z) (rr_decode_idx rr_prefill_idx : nat) : Plan :=
  let budget0 := Z.min target_batch batch_cap in
  let '(decode_pool, prefill_pool) := build_pools sessions order in
  let N := length decode_pool in
  let '(planA, budgetA) :=
    if negb (bool_decide (decode_pool = [])) && (0 <? budget0) then
      let '(p, b) := decode_loop decode_pool rr_decode_idx 0 N empty_plan budget0 in
      (p <| next_rr_decode_idx := ((rr_decode_idx + 1) mod N)%nat |>, b)
    else (empty_plan <| next_rr_decode_idx := 0%nat |>, budget0) in
  if negb (bool_decide (prefill_pool = [])) && (0 <? budgetA) then
    let M := length prefill_pool in
    let '(ttft_pool, rest_pool) :=
      split_prefill sessions prefill_pool rr_prefill_idx 0 M in
    let '(planB, budgetB) := schedule_pool sessions ttft_pool planA budgetA in
    let '(planC, budgetC) :=
      if 0 <? budgetB then schedule_pool sessions rest_pool planB budgetB
      else (planB, budgetB) in
    planC <| next_rr_prefill_idx := ((rr_prefill_idx + 1) mod M)%nat |>
  else planA <| next_rr_prefill_idx := 0%nat |>.

(** ** Closed forms of the loops *)

Definition ready_in (P : ClientSession → bool) (sessions : SessionPool) (k : Z) : bool :=
  match sessions !! k with Some s => P s | None => false end.

Abbreviation pool_of P sessions order := (filter (λ k, ready_in P sessions k = true) order).

Lemma decode_prefill_disjoint s : decode_ready s = true → prefill_ready s = false.
Proof. unfold decode_ready, prefill_ready. by destruct (state s). Qed.

Lemma ready_in_Some P sessions k :
  ready_in P sessions k = true ↔ ∃ s, sessions !! k = Some s ∧ P s = true.
Proof.
  unfold ready_in. split; [|by intros (s & -> & H)].
  destruct (sessions !! k); [by eauto|done].
Qed.

Lemma ready_in_lookup P sessions k :
  ready_in P sessions k = match sessions !! k with Some s => P s | None => false end.
Proof. done. Qed.

Lemma pool_of_cons P sessions k order :
  pool_of P sessions (k :: order)
  = (if ready_in P sessions k then [k] else []) ++ pool_of P sessions order.
Proof. rewrite filter_cons. by destruct (ready_in P sessions k). Qed.

Lemma build_pools_spec sessions order :
  keyed_by_fd sessions →
  build_pools sessions order
  = (pool_of decode_ready sessions order, pool_of prefill_ready sessions order).
Proof.
  intros Hk. induction order as [|k order IH]; [done|].
  cbn [build_pools]. rewrite IH, !pool_of_cons, !ready_in_lookup.
  destruct (sessions !! k) as [s|] eqn:Hs; [|done].
  rewrite (keyed_by_fd_lookup _ _ _ Hk Hs).
  destruct (decode_ready s) eqn:Ed, (prefill_ready s) eqn:Ep; simpl; try done.
  apply decode_prefill_disjoint in Ed. congruence.
Qed.

(** The entries visited by indices [i .. i+n-1] of a round-robin scan. *)
Definition picked (pool : list Z) (rr i n : nat) : list Z :=
  (λ j, pool !!! ((rr + j) mod length pool)%nat) <$> List.seq i n.

Lemma picked_cons pool rr i n :
  picked pool rr i (S n) = pool !!! ((rr + i) mod length pool)%nat :: picked pool rr (S i) n.
Proof. done. Qed.

Lemma length_picked pool rr i n : length (picked pool rr i n) = n.
Proof. unfold picked. by rewrite length_fmap, length_seq. Qed.

Lemma take_picked pool rr i n m :
  take m (picked pool rr i n) = picked pool rr i (m `min` n).
Proof. unfold picked. by rewrite <- fmap_take, take_seq. Qed.

Lemma picked_all pool rr : picked pool rr 0 (length pool) = rotate rr pool.
Proof.
  destruct pool as [|x pool']; [unfold rotate; by rewrite take_nil, drop_nil|].
  set (pool := x :: pool') in *.
  assert (Hlen : (0 < length pool)%nat) by (simpl; lia).
  apply list_eq_same_length with (length pool);
    [by rewrite length_rotate|by rewrite length_picked|].
  intros i a b Hi. unfold picked. rewrite list_lookup_fmap, lookup_seq_lt by done.
  simpl. intros [= <-]. rewrite lookup_rotate_r by done.
  unfold rotate_nat_add. intros Hb.
  replace (Z.to_nat _) with ((rr + i) mod length pool)%nat in Hb
    by (rewrite <- Nat2Z.inj_add, <- Nat2Z.inj_mod; lia).
  by apply list_lookup_total_correct in Hb.
Qed.

Lemma rotate_perm {A} n (l : list A) : rotate n l ≡ₚ l.
Proof. unfold rotate. rewrite Permutation_app_comm. by rewrite take_drop. Qed.

Definition decode_item (k : Z) : BatchItem :=
  {| item_fd := k; phase := Phase.DECODE; n_tokens := 1 |}.

(** [plan] extended by decode items, resp. by prefill items. *)
Definition with_decodes (plan : Plan) (ks : list Z) : Plan :=
  plan <| items := items plan ++ (decode_item <$> ks) |>
       <| decode_tok_count := decode_tok_count plan + Z.of_nat (length ks) |>.

Definition tok_total (its : list BatchItem) : Z := sum_Z (n_tokens <$> its).

Lemma tok_total_nil : tok_total [] = 0.
Proof. done. Qed.
Lemma tok_total_cons it its : tok_total (it :: its) = n_tokens it + tok_total its.
Proof. done. Qed.
Lemma tok_total_app its1 its2 : tok_total (its1 ++ its2) = tok_total its1 + tok_total its2.
Proof. unfold tok_total. by rewrite fmap_app, sum_Z_app. Qed.

Definition with_prefills (plan : Plan) (its : list BatchItem) : Plan :=
  plan <| items := items plan ++ its |>
       <| prefill_tok_count := prefill_tok_count plan + tok_total its |>.

Lemma plan_eq p q :
  items p = items q → next_rr_decode_idx p = next_rr_decode_idx q →
  next_rr_prefill_idx p = next_rr_prefill_idx q →
  decode_tok_count p = decode_tok_count q → prefill_tok_count p = prefill_tok_count q →
  p = q.
Proof. destruct p, q; simpl; congruence. Qed.

Lemma decode_loop_spec pool rr i left plan budget :
  decode_loop pool rr i left plan budget
  = let n := (left `min` Z.to_nat budget)%nat in
    (with_decodes plan (picked pool rr i n), budget - Z.of_nat n).
Proof.
  revert i plan budget. induction left as [|left IH]; intros i plan budget.
  - simpl. f_equal; [|lia]. apply plan_eq; simpl; rewrite ?app_nil_r; try done; lia.
  - cbn [decode_loop]. destruct (0 <? budget) eqn:E; bool_prop.
    + rewrite IH. cbn zeta.
      replace (S left `min` Z.to_nat budget)%nat
        with (S (left `min` Z.to_nat (budget - 1)))%nat by lia.
      rewrite picked_cons. f_equal; [|lia].
      apply plan_eq; simpl; rewrite ?length_picked; try done; [|lia].
      by rewrite <- app_assoc.
    + replace (S left `min` Z.to_nat budget)%nat with 0%nat by lia. simpl.
      f_equal; [|lia]. apply plan_eq; simpl; rewrite ?app_nil_r; try done; lia.
Qed.

Definition awaiting_first (s : ClientSession) : bool := first_emit_ns s =? 0.
Definition emitted_before (s : ClientSession) : bool := negb (first_emit_ns s =? 0).

Lemma split_prefill_spec sessions pool rr i left :
  split_prefill sessions pool rr i left
  = (pool_of awaiting_first sessions (picked pool rr i left),
     pool_of emitted_before sessions (picked pool rr i left)).
Proof.
  revert i. induction left as [|left IH]; intros i; [done|].
  cbn [split_prefill]. rewrite IH, picked_cons, !pool_of_cons, !ready_in_lookup.
  set (k := pool !!! _). destruct (sessions !! k) as [s|]; [|done].
  change (awaiting_first s) with (first_emit_ns s =? 0).
  change (emitted_before s) with (negb (first_emit_ns s =? 0)).
  by destruct (first_emit_ns s =? 0).
Qed.

(** The items a pass over [pool] adds to the plan. *)
Fixpoint allocate (sessions : SessionPool) (pool : list Z) (budget : Z) : list BatchItem :=
  match pool with
  | [] => []
  | k :: pool' =>
      if budget <=? 0 then []
      else
        match sessions !! k with
        | None => allocate sessions pool' budget
        | Some s =>
            let chunk := prefill_chunk s budget in
            if chunk <=? 0 then allocate sessions pool' budget
            else {| item_fd := k; phase := Phase.PREFILL; n_tokens := chunk |}
                 :: allocate sessions pool' (budget - chunk)
        end
  end.

Lemma with_prefills_nil plan : with_prefills plan [] = plan.
Proof. apply plan_eq; simpl; rewrite ?app_nil_r; try done. rewrite tok_total_nil. lia. Qed.

Lemma with_prefills_app plan its1 its2 :
  with_prefills (with_prefills plan its1) its2 = with_prefills plan (its1 ++ its2).
Proof.
  apply plan_eq; simpl; rewrite <- ?app_assoc; try done.
  rewrite tok_total_app. lia.
Qed.

Lemma schedule_pool_spec sessions pool plan budget :
  schedule_pool sessions pool plan budget
  = (with_prefills plan (allocate sessions pool budget),
     budget - tok_total (allocate sessions pool budget)).
Proof.
  revert plan budget. induction pool as [|k pool IH]; intros plan budget.
  { simpl. rewrite with_prefills_nil, tok_total_nil. f_equal. lia. }
  assert (Hnil : (plan, budget) = (with_prefills plan [], budget - tok_total [])).
  { rewrite with_prefills_nil, tok_total_nil. f_equal. lia. }
  cbn [schedule_pool allocate].
  destruct (budget <=? 0); [done|]. destruct (sessions !! k) as [s|]; [|by rewrite IH].
  cbn zeta. destruct (_ <=? 0); [by rewrite IH|]. rewrite IH.
  rewrite tok_total_cons. cbn [n_tokens]. f_equal; [|lia].
  apply plan_eq; simpl items; simpl prefill_tok_count; try done.
  - by rewrite <- app_assoc.
  - rewrite tok_total_cons. cbn [n_tokens]. lia.
Qed.

(** ** The plan in closed form *)

Section Tick.
Context (sessions : SessionPool) (order : list Z).
Context (batch_cap target_batch : Z) (rr_decode_idx rr_prefill_idx : nat).
Context (Hkeyed : keyed_by_fd sessions).

Definition budget0 : Z := Z.min target_batch batch_cap.
Definition decoders : list Z := pool_of decode_ready sessions order.
Definition prefillers : list Z := pool_of prefill_ready sessions order.

(** The decode sessions served: a prefix of the rotated pool. *)
Definition served : list Z := take (Z.to_nat budget0) (rotate rr_decode_idx decoders).
Definition budgetA : Z := budget0 - Z.of_nat (length served).

Definition ttft : list Z := pool_of awaiting_first sessions (rotate rr_prefill_idx prefillers).
Definition rest : list Z := pool_of emitted_before sessions (rotate rr_prefill_idx prefillers).
Definition ttft_items : list BatchItem := allocate sessions ttft budgetA.
Definition budgetB : Z := budgetA - tok_total ttft_items.
Definition rest_items : list BatchItem := allocate sessions rest budgetB.

Abbreviation plan :=
  (schedule_tick sessions order batch_cap target_batch rr_decode_idx rr_prefill_idx).

Lemma allocate_broke pool budget : budget ≤ 0 → allocate sessions pool budget = [].
Proof using. intros. destruct pool; simpl; [done|]. by rewrite (proj2 (Z.leb_le _ _)). Qed.

Lemma allocate_nil budget : allocate sessions [] budget = [].
Proof using. done. Qed.

Lemma served_picked :
  served = picked decoders rr_decode_idx 0 (length decoders `min` Z.to_nat budget0).
Proof using.
  unfold served. by rewrite <- picked_all, take_picked, Nat.min_comm.
Qed.

Lemma length_served : length served = (length decoders `min` Z.to_nat budget0)%nat.
Proof using. by rewrite served_picked, length_picked. Qed.

(** The phase A block of the code. *)
Lemma phase_A_spec :
  (if negb (bool_decide (decoders = [])) && (0 <? budget0) then
     let '(p, b) := decode_loop decoders rr_decode_idx 0 (length decoders) empty_plan budget0 in
     (p <| next_rr_decode_idx := ((rr_decode_idx + 1) mod length decoders)%nat |>, b)
   else (empty_plan <| next_rr_decode_idx := 0%nat |>, budget0))
  = ((with_decodes empty_plan served)
       <| next_rr_decode_idx :=
            if negb (bool_decide (decoders = [])) && (0 <? budget0)
            then ((rr_decode_idx + 1) mod length decoders)%nat else 0%nat |>,
     budgetA).
Proof using.
  unfold budgetA. rewrite length_served, served_picked.
  destruct (negb _ && _) eqn:E.
  - rewrite decode_loop_spec. cbn zeta. done.
  - assert (length decoders `min` Z.to_nat budget0 = 0)%nat as ->.
    { apply andb_false_iff in E as [E|E]; bool_prop.
      - rewrite E. simpl. lia.
      - lia. }
    f_equal; lia.
Qed.

Lemma rotate_nil_inv {A} n (l : list A) : rotate n l = [] → l = [].
Proof using. intros H. apply Permutation_nil. by rewrite <- (rotate_perm n l), H. Qed.

Lemma schedule_tick_spec :
  items plan = (decode_item <$> served) ++ ttft_items ++ rest_items ∧
  decode_tok_count plan = Z.of_nat (length served) ∧
  prefill_tok_count plan = tok_total (ttft_items ++ rest_items) ∧
  next_rr_decode_idx plan
    = (if negb (bool_decide (decoders = [])) && (0 <? budget0)
       then ((rr_decode_idx + 1) mod length decoders)%nat else 0%nat) ∧
  next_rr_prefill_idx plan
    = (if negb (bool_decide (prefillers = [])) && (0 <? budgetA)
       then ((rr_prefill_idx + 1) mod length prefillers)%nat else 0%nat).
Proof using Hkeyed.
  unfold schedule_tick. rewrite build_pools_spec by done.
  fold decoders prefillers budget0. cbn zeta. rewrite phase_A_spec.
  destruct (negb _ && (0 <? budgetA)) eqn:E.
  - rewrite split_prefill_spec, picked_all. fold ttft rest.
    rewrite schedule_pool_spec. fold ttft_items budgetB.
    destruct (0 <? budgetB) eqn:EB.
    + rewrite schedule_pool_spec. fold rest_items.
      by rewrite with_prefills_app.
    + bool_prop. unfold rest_items. rewrite (allocate_broke _ budgetB) by lia.
      rewrite app_nil_r. simpl. done.
  - assert (ttft_items = [] ∧ rest_items = []) as [-> ->].
    { unfold rest_items, budgetB, ttft_items, ttft, rest.
      apply andb_false_iff in E as [E|E]; bool_prop.
      - rewrite E. unfold rotate. rewrite take_nil, drop_nil. done.
      - rewrite (allocate_broke _ budgetA), tok_total_nil by lia.
        by rewrite allocate_broke by lia. }
    simpl. by rewrite app_nil_r.
Qed.
End Tick.

(** ** What an allocation pass guarantees *)

Definition remaining (s : ClientSession) : Z :=
  Z.of_nat (length (prompt_tokens s)) - Z.of_nat (prefill_idx s).

(** A prefill item that the code may put in a plan: a ready session, a
    non-empty chunk within its prompt, and the burst cap before the first
    emission. *)
Definition prefill_item_ok (sessions : SessionPool) (it : BatchItem) : Prop :=
  phase it = Phase.PREFILL ∧
  ∃ s, sessions !! item_fd it = Some s ∧ prefill_ready s = true ∧
       1 ≤ n_tokens it ≤ remaining s ∧
       (first_emit_ns s = 0 → n_tokens it ≤ kBurst).

(** The share a session gets when the budget does not run out. *)
Definition full_share (s : ClientSession) : Z :=
  if first_emit_ns s =? 0 then Z.min (Z.min (remaining s) INT_MAX) kBurst
  else Z.min (remaining s) INT_MAX.

Lemma prefill_ready_remaining s : prefill_ready s = true → 1 ≤ remaining s.
Proof. unfold prefill_ready, remaining. intros. bool_prop. lia. Qed.

Lemma prefill_chunk_spec s budget :
  prefill_ready s = true → 0 < budget → remaining s < 2 ^ 64 →
  prefill_chunk s budget = Z.min (full_share s) budget.
Proof.
  intros Hr%prefill_ready_remaining Hb H64. unfold prefill_chunk, full_share.
  fold (remaining s). rewrite u64_id by lia.
  rewrite i32_id by (unfold in_i32, INT_MIN, INT_MAX; lia).
  unfold kBurst, INT_MAX. destruct (_ =? 0); lia.
Qed.

Lemma prefill_chunk_bound s budget :
  prefill_ready s = true →
  prefill_chunk s budget ≤ remaining s ∧ prefill_chunk s budget ≤ budget ∧
  (first_emit_ns s = 0 → prefill_chunk s budget ≤ kBurst).
Proof.
  intros Hr%prefill_ready_remaining. unfold prefill_chunk. fold (remaining s).
  assert (0 ≤ u64 (remaining s) ≤ remaining s).
  { split; [apply u64_range|]. unfold u64. apply Z.mod_le; lia. }
  rewrite i32_id by (unfold in_i32, INT_MIN, INT_MAX; lia).
  destruct (_ =? 0) eqn:E; bool_prop; unfold kBurst; repeat split; try lia.
Qed.

Lemma allocate_sublist sessions pool budget :
  item_fd <$> allocate sessions pool budget `sublist_of` pool.
Proof.
  revert budget. induction pool as [|k pool IH]; intros budget; [done|].
  cbn [allocate]. destruct (budget <=? 0); [apply sublist_nil_l|].
  destruct (sessions !! k); cbn zeta; [destruct (_ <=? 0)|];
    first [by apply sublist_cons|by apply sublist_skip].
Qed.

Lemma allocate_sound sessions pool budget :
  (∀ k, k ∈ pool → ready_in prefill_ready sessions k = true) →
  Forall (prefill_item_ok sessions) (allocate sessions pool budget) ∧
  (0 ≤ budget → 0 ≤ tok_total (allocate sessions pool budget) ≤ budget).
Proof.
  revert budget. induction pool as [|k pool IH]; intros budget Hready.
  { split; [constructor|]. rewrite allocate_nil, tok_total_nil. lia. }
  assert (Hk : ready_in prefill_ready sessions k = true) by (apply Hready; left).
  apply ready_in_Some in Hk as (s & Hs & Hr).
  assert (IH' := λ b, IH b (λ k' H, Hready k' (list_elem_of_further _ _ _ H))).
  cbn [allocate]. rewrite Hs. destruct (budget <=? 0) eqn:E0; bool_prop.
  { split; [constructor|]. rewrite tok_total_nil. lia. }
  cbn zeta. destruct (_ <=? 0) eqn:E1; bool_prop; [apply IH'|].
  destruct (prefill_chunk_bound s budget Hr) as (H1 & H2 & H3).
  destruct (IH' (budget - prefill_chunk s budget)) as [HF HT].
  split.
  - constructor; [|done]. split; [done|]. exists s. simpl. split_and!; try done; lia.
  - rewrite tok_total_cons. simpl n_tokens. lia.
Qed.

(** If tokens are left over, every session of the pool got its full share. *)
Lemma allocate_complete sessions pool budget :
  (∀ k, k ∈ pool → ready_in prefill_ready sessions k = true) →
  (∀ k s, k ∈ pool → sessions !! k = Some s → remaining s < 2 ^ 64) →
  tok_total (allocate sessions pool budget) < budget →
  ∀ k s, k ∈ pool → sessions !! k = Some s →
    {| item_fd := k; phase := Phase.PREFILL; n_tokens := full_share s |}
      ∈ allocate sessions pool budget.
Proof.
  revert budget. induction pool as [|k' pool IH]; intros budget Hready H64 Hlt k s Hin Hs;
    [by apply elem_of_nil in Hin|].
  assert (Hk : ready_in prefill_ready sessions k' = true) by (apply Hready; left).
  apply ready_in_Some in Hk as (s' & Hs' & Hr').
  assert (H64' : remaining s' < 2 ^ 64) by (eapply H64; [|done]; left).
  assert (IH' := λ b, IH b (λ j H, Hready j (list_elem_of_further _ _ _ H))
                        (λ j t H, H64 j t (list_elem_of_further _ _ _ H))).
  pose proof (prefill_ready_remaining _ Hr') as Hrem.
  cbn [allocate] in *. rewrite Hs' in *.
  destruct (budget <=? 0) eqn:E0; bool_prop; [rewrite tok_total_nil in Hlt; lia|].
  rewrite prefill_chunk_spec in * by (done || lia). cbn zeta in *.
  assert (1 ≤ full_share s').
  { unfold full_share, kBurst, INT_MAX. destruct (_ =? 0); lia. }
  rewrite (proj2 (Z.leb_gt _ _)) in * by lia.
  rewrite tok_total_cons in Hlt. simpl n_tokens in Hlt.
  destruct (allocate_sound sessions pool (budget - (full_share s' `min` budget)))
    as [_ HT]; [intros; apply Hready; by right|].
  assert (full_share s' `min` budget = full_share s') as Hmin by lia.
  rewrite Hmin in *.
  apply elem_of_cons in Hin as [->|Hin].
  - simplify_eq. apply list_elem_of_here.
  - apply list_elem_of_further. apply IH'; [lia|done|done].
Qed.

(** ** Theorems *)

Section TickFacts.
Context (sessions : SessionPool) (order : list Z).
Context (batch_cap target_batch : Z) (rr_decode_idx rr_prefill_idx : nat).
Context (Hkeyed : keyed_by_fd sessions) (Horder : iteration_order sessions order).

Abbreviation plan :=
  (schedule_tick sessions order batch_cap target_batch rr_decode_idx rr_prefill_idx).
Local Abbreviation served' := (served sessions order batch_cap target_batch rr_decode_idx).
Local Abbreviation ttft_items' :=
  (ttft_items sessions order batch_cap target_batch rr_decode_idx rr_prefill_idx).
Local Abbreviation rest_items' :=
  (rest_items sessions order batch_cap target_batch rr_decode_idx rr_prefill_idx).
Local Abbreviation budgetA' := (budgetA sessions order batch_cap target_batch rr_decode_idx).
Local Abbreviation budgetB' :=
  (budgetB sessions order batch_cap target_batch rr_decode_idx rr_prefill_idx).

Lemma elem_of_pool P k : k ∈ pool_of P sessions order ↔ ready_in P sessions k = true.
Proof using Horder.
  rewrite list_elem_of_filter. split; [by intros []|]. intros H. split; [done|].
  apply Horder. apply ready_in_Some in H as (s & Hs & _). by eexists.
Qed.

Lemma elem_of_rotated P Q n k :
  k ∈ pool_of P sessions (rotate n (pool_of Q sessions order)) ↔
  ready_in P sessions k = true ∧ ready_in Q sessions k = true.
Proof using Horder. by rewrite list_elem_of_filter, rotate_perm, elem_of_pool. Qed.

Lemma ttft_prefill k :
  k ∈ ttft sessions order rr_prefill_idx → ready_in prefill_ready sessions k = true.
Proof using Horder. by intros [_ ?]%elem_of_rotated. Qed.
Lemma rest_prefill k :
  k ∈ rest sessions order rr_prefill_idx → ready_in prefill_ready sessions k = true.
Proof using Horder. by intros [_ ?]%elem_of_rotated. Qed.

Lemma budgetA_nonneg : 0 ≤ Z.max 0 (budget0 batch_cap target_batch) - Z.of_nat (length served') .
Proof using. rewrite length_served. lia. Qed.

Lemma served_decode k : k ∈ served' → ready_in decode_ready sessions k = true.
Proof using Horder.
  intros H. apply elem_of_pool.
  rewrite <- (rotate_perm rr_decode_idx). unfold served in H.
  by apply (subseteq_take (Z.to_nat (budget0 batch_cap target_batch))).
Qed.

(** The tokens of the two prefill passes stay within what decode left. *)
Lemma prefill_totals :
  0 ≤ tok_total ttft_items' ∧ 0 ≤ tok_total rest_items' ∧
  tok_total ttft_items' + tok_total rest_items' ≤ Z.max 0 budgetA'.
Proof using Horder.
  destruct (Z_le_gt_dec 0 budgetA') as [Hge|Hlt].
  - destruct (allocate_sound sessions _ budgetA' ttft_prefill) as [_ H1].
    destruct (allocate_sound sessions _ budgetB' rest_prefill) as [_ H2].
    specialize (H1 Hge).
    fold (ttft_items sessions order batch_cap target_batch rr_decode_idx rr_prefill_idx) in H1.
    fold (rest_items sessions order batch_cap target_batch rr_decode_idx rr_prefill_idx) in H2.
    unfold budgetB in H2. lia.
  - unfold rest_items, budgetB, ttft_items.
    rewrite (allocate_broke _ _ budgetA'), tok_total_nil by lia.
    rewrite allocate_broke, tok_total_nil by lia. lia.
Qed.

Lemma tok_total_decode ks : tok_total (decode_item <$> ks) = Z.of_nat (length ks).
Proof using. induction ks as [|k ks IH]; [done|]. simpl length. rewrite fmap_cons,
  tok_total_cons, IH. simpl n_tokens. lia. Qed.

Lemma plan_totals :
  tok_total (items plan) = decode_tok_count plan + prefill_tok_count plan ∧
  0 ≤ decode_tok_count plan ∧ 0 ≤ prefill_tok_count plan ∧
  tok_total (items plan) ≤ Z.max 0 (Z.min target_batch batch_cap).
Proof using Hkeyed Horder.
  destruct (schedule_tick_spec sessions order batch_cap target_batch rr_decode_idx
    rr_prefill_idx Hkeyed) as (-> & -> & -> & _).
  destruct prefill_totals as (H1 & H2 & H3). pose proof budgetA_nonneg.
  rewrite !tok_total_app, tok_total_decode in *.
  unfold budgetA, budget0 in *. lia.
Qed.

Definition item_ok (it : BatchItem) : Prop :=
  match phase it with
  | Phase.DECODE => n_tokens it = 1 ∧ ready_in decode_ready sessions (item_fd it) = true
  | Phase.PREFILL => prefill_item_ok sessions it
  end.

Lemma prefill_items_ok its :
  Forall (prefill_item_ok sessions) its → Forall item_ok its.
Proof using.
  intros H. apply (Forall_impl _ _ _ H). intros it Hit. unfold item_ok.
  by rewrite (proj1 Hit).
Qed.

Lemma plan_items_ok : Forall item_ok (items plan).
Proof using Hkeyed Horder.
  destruct (schedule_tick_spec sessions order batch_cap target_batch rr_decode_idx
    rr_prefill_idx Hkeyed) as (-> & _).
  rewrite !Forall_app. split_and!.
  - apply Forall_fmap, Forall_forall. intros k Hk. split; [done|]. by apply served_decode.
  - apply prefill_items_ok, allocate_sound, ttft_prefill.
  - apply prefill_items_ok, allocate_sound, rest_prefill.
Qed.

Lemma NoDup_rotated P n : NoDup (rotate n (pool_of P sessions order)).
Proof using Horder. rewrite rotate_perm. apply NoDup_filter, Horder. Qed.

Lemma allocated_in pool budget k :
  k ∈ item_fd <$> allocate sessions pool budget → k ∈ pool.
Proof using. intros H. eapply elem_of_sublist; [done|]. apply allocate_sublist. Qed.

Lemma allocated_NoDup pool budget :
  NoDup pool → NoDup (item_fd <$> allocate sessions pool budget).
Proof using. intros H. eapply sublist_NoDup; [done|]. apply allocate_sublist. Qed.

Lemma ready_disjoint k :
  ready_in decode_ready sessions k = true → ready_in prefill_ready sessions k = true → False.
Proof using.
  intros (s & Hs & Hd)%ready_in_Some (s' & Hs' & Hp)%ready_in_Some.
  simplify_eq. apply decode_prefill_disjoint in Hd. congruence.
Qed.

Lemma emit_disjoint k :
  ready_in awaiting_first sessions k = true → ready_in emitted_before sessions k = true → False.
Proof using.
  intros (s & Hs & Hd)%ready_in_Some (s' & Hs' & Hp)%ready_in_Some.
  simplify_eq. unfold awaiting_first, emitted_before in *. by rewrite Hd in Hp.
Qed.

Lemma plan_items_NoDup : NoDup (item_fd <$> items plan).
Proof using Hkeyed Horder.
  destruct (schedule_tick_spec sessions order batch_cap target_batch rr_decode_idx
    rr_prefill_idx Hkeyed) as (-> & _).
  rewrite !fmap_app, <- list_fmap_compose.
  assert ((item_fd ∘ decode_item) <$> served' = served') as ->
    by (by rewrite <- list_fmap_id).
  rewrite !NoDup_app. split_and!.
  - eapply sublist_NoDup; [apply (NoDup_rotated decode_ready rr_decode_idx)|].
    apply sublist_take.
  - intros k Hk%served_decode. rewrite elem_of_app.
    intros [H|H]; apply allocated_in, elem_of_rotated in H as [_ H];
      by eapply ready_disjoint.
  - apply allocated_NoDup, NoDup_filter, NoDup_rotated.
  - intros k [H1 _]%allocated_in%elem_of_rotated [H2 _]%allocated_in%elem_of_rotated.
    by eapply emit_disjoint.
  - apply allocated_NoDup, NoDup_filter, NoDup_rotated.
Qed.

(** Every decode-ready session is served as soon as a prefill item or an
    unused token exists. *)
Lemma served_all :
  0 < budgetA' → ∀ k, ready_in decode_ready sessions k = true → k ∈ served'.
Proof using Horder.
  unfold budgetA. rewrite length_served. intros Hb k Hk%elem_of_pool.
  unfold served. rewrite take_ge; [by rewrite rotate_perm|].
  rewrite length_rotate. unfold decoders in *. lia.
Qed.

Lemma prefill_needs_budget it :
  it ∈ items plan → phase it = Phase.PREFILL → 0 < budgetA'.
Proof using Hkeyed Horder.
  destruct (schedule_tick_spec sessions order batch_cap target_batch rr_decode_idx
    rr_prefill_idx Hkeyed) as (-> & _).
  intros Hin Hph. destruct (Z_lt_ge_dec 0 budgetA') as [|Hle]; [done|exfalso].
  destruct prefill_totals as (H1 & _).
  unfold rest_items, budgetB, ttft_items in *.
  rewrite (allocate_broke _ _ budgetA'), tok_total_nil in Hin by lia.
  rewrite allocate_broke, app_nil_r in Hin by lia.
  apply list_elem_of_fmap in Hin as (k & -> & _). done.
Qed.
End TickFacts.

(** ** Round-robin fairness *)

(** A plan serves the session the cursor points to ... *)
Lemma head_served sessions order cap target rr k :
  0 < Z.min target cap → rotate rr (decoders sessions order) !! 0%nat = Some k →
  k ∈ served sessions order cap target rr.
Proof.
  intros Hb Hk. apply elem_of_take. exists 0%nat. split; [done|]. unfold budget0. lia.
Qed.

(** ... and brings the others one place closer to it. *)
Lemma rotate_step {A} (l : list A) n d x :
  rotate n l !! S d = Some x → rotate ((n + 1) mod length l) l !! d = Some x.
Proof.
  rewrite !lookup_rotate_r_Some, <- rotate_nat_add_add_mod. intros [Hx Hd]. split; [|lia].
  rewrite <- Hx. f_equal. unfold rotate_nat_add. f_equal. f_equal. lia.
Qed.

Lemma rotate_lookup {A} (l : list A) n x :
  x ∈ l → ∃ d, (d < length l)%nat ∧ rotate n l !! d = Some x.
Proof.
  intros Hx. rewrite <- (elem_of_rotate l n) in Hx. apply list_elem_of_lookup in Hx as [d Hd].
  exists d. split; [|done]. apply lookup_lt_Some in Hd. by rewrite length_rotate in Hd.
Qed.

Lemma plan_serves_head sessions order cap target rr rp k :
  keyed_by_fd sessions → 0 < Z.min target cap →
  rotate rr (decoders sessions order) !! 0%nat = Some k →
  decode_item k ∈ items (schedule_tick sessions order cap target rr rp).
Proof.
  intros Hk Hb Hh. destruct (schedule_tick_spec sessions order cap target rr rp Hk) as (-> & _).
  apply elem_of_app. left. apply list_elem_of_fmap. exists k. split; [done|]. by apply head_served.
Qed.

Lemma plan_moves_cursor sessions order cap target rr rp :
  keyed_by_fd sessions → 0 < Z.min target cap → decoders sessions order ≠ [] →
  next_rr_decode_idx (schedule_tick sessions order cap target rr rp)
  = ((rr + 1) mod length (decoders sessions order))%nat.
Proof.
  intros Hk Hb Hne. destruct (schedule_tick_spec sessions order cap target rr rp Hk) as (_ & _ & _ & -> & _).
  rewrite bool_decide_eq_false_2 by done. unfold budget0. by rewrite (proj2 (Z.ltb_lt _ _)) by done.
Qed.

(** Leftover budget means that every ready session is fully served. *)
Lemma plan_complete sessions order batch_cap target_batch rr_decode_idx rr_prefill_idx
    (Hkeyed : keyed_by_fd sessions) (Horder : iteration_order sessions order)
    (Hsize : map_Forall (λ _ s, remaining s < 2 ^ 64) sessions)
    (Hleft : tok_total (items (schedule_tick sessions order batch_cap target_batch
                                 rr_decode_idx rr_prefill_idx))
             < Z.min target_batch batch_cap) :
  let plan := schedule_tick sessions order batch_cap target_batch rr_decode_idx rr_prefill_idx in
  ∀ k s, sessions !! k = Some s →
    (decode_ready s = true → decode_item k ∈ items plan) ∧
    (prefill_ready s = true →
       {| item_fd := k; phase := Phase.PREFILL; n_tokens := full_share s |} ∈ items plan).
Proof.
  cbn zeta. revert Hleft.
  destruct (schedule_tick_spec sessions order batch_cap target_batch rr_decode_idx
      rr_prefill_idx Hkeyed) as (-> & _).
  destruct (prefill_totals _ _ batch_cap target_batch rr_decode_idx rr_prefill_idx Horder)
    as (H1 & H2 & H3).
  rewrite !tok_total_app, tok_total_decode. intros Hleft k s Hs.
  rewrite !elem_of_app. split; intros Hr.
  - left. apply list_elem_of_fmap. exists k. split; [done|].
    apply served_all; [done| |by apply ready_in_Some; eauto]. unfold budgetA, budget0. lia.
  - right. assert (Hp : ready_in prefill_ready sessions k = true)
      by (apply ready_in_Some; eauto).
    assert (Hs64 : ∀ pool (j : Z) t, j ∈ (pool : list Z) → sessions !! j = Some t →
      remaining t < 2 ^ 64) by (intros; by eapply Hsize).
    assert (ready_in awaiting_first sessions k = true ∨ ready_in emitted_before sessions k = true)
      as [Hf|Hf].
    { rewrite !ready_in_lookup, Hs. unfold awaiting_first, emitted_before.
      destruct (_ =? 0); auto. }
    + left. apply allocate_complete; eauto using ttft_prefill.
      * fold (ttft_items sessions order batch_cap target_batch rr_decode_idx rr_prefill_idx).
        unfold budgetA, budget0 in *. lia.
      * by apply elem_of_rotated.
    + right. apply allocate_complete; eauto using rest_prefill.
      * fold (rest_items sessions order batch_cap target_batch rr_decode_idx rr_prefill_idx).
        unfold budgetB, budgetA, budget0 in *. lia.
      * by apply elem_of_rotated.
Qed.

(** A ready session makes the plan non-empty; a planned session is ready. *)
Lemma plan_of_ready sessions order batch_cap target_batch rr_decode_idx rr_prefill_idx k s :
  keyed_by_fd sessions → iteration_order sessions order → 0 < Z.min target_batch batch_cap →
  map_Forall (λ _ s, remaining s < 2 ^ 64) sessions →
  sessions !! k = Some s → prefill_ready s = true ∨ decode_ready s = true →
  items (schedule_tick sessions order batch_cap target_batch rr_decode_idx rr_prefill_idx) ≠ [].
Proof.
  intros Hk Hord Hb Hsz Hs Hr Hnil.
  destruct (plan_complete sessions order batch_cap target_batch rr_decode_idx rr_prefill_idx
    Hk Hord Hsz) with k s as [Hd Hp]; [by rewrite Hnil, tok_total_nil|done|].
  rewrite Hnil in Hd, Hp. destruct Hr as [Hr|Hr]; [specialize (Hp Hr)|specialize (Hd Hr)];
    by eapply elem_of_nil.
Qed.

Lemma ready_of_plan sessions order batch_cap target_batch rr_decode_idx rr_prefill_idx it :
  keyed_by_fd sessions → iteration_order sessions order →
  it ∈ items (schedule_tick sessions order batch_cap target_batch rr_decode_idx rr_prefill_idx) →
  ∃ s, sessions !! item_fd it = Some s ∧ (prefill_ready s = true ∨ decode_ready s = true).
Proof.
  intros Hk Hord Hit.
  pose proof (plan_items_ok sessions order batch_cap target_batch rr_decode_idx rr_prefill_idx
    Hk Hord) as HF.
  rewrite Forall_forall in HF. specialize (HF it Hit). unfold item_ok in HF.
  destruct (phase it).
  - destruct HF as (_ & s & Hs & Hr & _). eauto.
  - destruct HF as [_ (s & Hs & Hr)%ready_in_Some]. eauto.
Qed.

(** ** The policy's contract *)

(** C11. The plan never exceeds the tick's budget, and its two token counters
    account for every planned token. *)
Theorem policy_within_budget sessions order batch_cap target_batch rr_decode_idx rr_prefill_idx
    (Hkeyed : keyed_by_fd sessions) (Horder : iteration_order sessions order) :
  let plan := schedule_tick sessions order batch_cap target_batch rr_decode_idx rr_prefill_idx in
  tok_total (items plan) = decode_tok_count plan + prefill_tok_count plan ∧
  0 ≤ decode_tok_count plan ∧ 0 ≤ prefill_tok_count plan ∧
  tok_total (items plan) ≤ Z.max 0 (Z.min target_batch batch_cap).
Proof. by apply plan_totals. Qed.

(** C12. A planned item names a session that is ready for that phase, at most one
    item per session, chunks stay inside the prompt and respect the burst. *)
Theorem policy_items_sound sessions order batch_cap target_batch rr_decode_idx rr_prefill_idx
    (Hkeyed : keyed_by_fd sessions) (Horder : iteration_order sessions order) :
  let plan := schedule_tick sessions order batch_cap target_batch rr_decode_idx rr_prefill_idx in
  NoDup (item_fd <$> items plan) ∧ Forall (item_ok sessions) (items plan).
Proof. split; [by apply plan_items_NoDup|by apply plan_items_ok]. Qed.

(** Decode first: a prefill chunk is planned only in a tick that serves every
    decode-ready session. *)
Theorem policy_decode_first sessions order batch_cap target_batch rr_decode_idx rr_prefill_idx it k
    (Hkeyed : keyed_by_fd sessions) (Horder : iteration_order sessions order)
    (Hit : it ∈ items (schedule_tick sessions order batch_cap target_batch
                         rr_decode_idx rr_prefill_idx))
    (Hph : phase it = Phase.PREFILL)
    (Hk : ready_in decode_ready sessions k = true) :
  decode_item k ∈ items (schedule_tick sessions order batch_cap target_batch
                           rr_decode_idx rr_prefill_idx).
Proof.
  pose proof (prefill_needs_budget _ _ _ _ _ _ Hkeyed Horder it Hit Hph) as Hb.
  destruct (schedule_tick_spec sessions order batch_cap target_batch rr_decode_idx
      rr_prefill_idx Hkeyed) as (-> & _).
  apply elem_of_app. left. apply list_elem_of_fmap. exists k. split; [done|].
  by apply served_all.
Qed.

(** C23. The decode part of a plan is the prefix, as long as the budget allows, of
    the ready pool rotated to the cursor. *)
Theorem policy_round_robin sessions order batch_cap target_batch rr_decode_idx rr_prefill_idx
    (Hkeyed : keyed_by_fd sessions) (Horder : iteration_order sessions order) :
  let plan := schedule_tick sessions order batch_cap target_batch rr_decode_idx rr_prefill_idx in
  filter (λ it, phase it = Phase.DECODE) (items plan)
  = decode_item <$> take (Z.to_nat (Z.min target_batch batch_cap))
      (rotate rr_decode_idx (filter (λ k, ready_in decode_ready sessions k = true) order)).
Proof.
  cbn zeta. destruct (schedule_tick_spec sessions order batch_cap target_batch rr_decode_idx
      rr_prefill_idx Hkeyed) as (-> & _).
  rewrite filter_app, filter_all, filter_none.
  - rewrite app_nil_r. done.
  - apply Forall_forall. intros it Hit Hph.
    assert (Forall (prefill_item_ok sessions)
      (ttft_items sessions order batch_cap target_batch rr_decode_idx rr_prefill_idx ++
       rest_items sessions order batch_cap target_batch rr_decode_idx rr_prefill_idx)) as HF.
    { apply Forall_app. split; apply allocate_sound; [apply ttft_prefill|apply rest_prefill];
        done. }
    rewrite Forall_forall in HF. destruct (HF it Hit) as [H _]. congruence.
  - apply Forall_fmap, Forall_true. done.
Qed.

(** C24. Work conservation: if a plan leaves budget unused then every decode-ready
    session is in it, and every prefill-ready session has its full share (the
    rest of its prompt, or the burst before its first emission). *)
Theorem policy_work_conserving sessions order batch_cap target_batch rr_decode_idx rr_prefill_idx
    (Hkeyed : keyed_by_fd sessions) (Horder : iteration_order sessions order)
    (Hsize : map_Forall (λ _ s, remaining s < 2 ^ 64) sessions)
    (Hleft : tok_total (items (schedule_tick sessions order batch_cap target_batch
                                 rr_decode_idx rr_prefill_idx))
             < Z.min target_batch batch_cap) :
  let plan := schedule_tick sessions order batch_cap target_batch rr_decode_idx rr_prefill_idx in
  ∀ k s, sessions !! k = Some s →
    (decode_ready s = true → decode_item k ∈ items plan) ∧
    (prefill_ready s = true →
       {| item_fd := k; phase := Phase.PREFILL; n_tokens := full_share s |} ∈ items plan).
Proof. by apply plan_complete. Qed.

(** ** Witnesses *)

Local Abbreviation toy_plan := (schedule_tick toy_pool (map_order toy_pool) 32 32 0 0).
Local Definition toy_chunk : BatchItem :=
  {| item_fd := 3; phase := Phase.PREFILL; n_tokens := 16 |}.

Lemma toy_chunk_planned : toy_chunk ∈ items toy_plan.
Proof. apply (list_elem_of_lookup_2 _ 1). vm_compute. reflexivity. Qed.

Lemma policy_within_budget_witness : tok_total (items toy_plan) ≤ Z.max 0 (Z.min 32 32).
Proof.
  exact (proj2 (proj2 (proj2 (policy_within_budget toy_pool (map_order toy_pool) 32 32 0 0
    toy_pool_keyed (map_order_spec _))))).
Defined.

Lemma policy_items_sound_witness : NoDup (item_fd <$> items toy_plan).
Proof.
  exact (proj1 (policy_items_sound toy_pool (map_order toy_pool) 32 32 0 0
    toy_pool_keyed (map_order_spec _))).
Defined.

Lemma policy_decode_first_witness : decode_item 4 ∈ items toy_plan.
Proof.
  exact (policy_decode_first toy_pool (map_order toy_pool) 32 32 0 0 toy_chunk 4
    toy_pool_keyed (map_order_spec _) toy_chunk_planned eq_refl eq_refl).
Defined.

Lemma policy_round_robin_witness :
  filter (λ it, phase it = Phase.DECODE) (items toy_plan) = [decode_item 4].
Proof.
  exact (policy_round_robin toy_pool (map_order toy_pool) 32 32 0 0
    toy_pool_keyed (map_order_spec _)).
Defined.

Lemma policy_work_conserving_witness : toy_chunk ∈ items toy_plan.
Proof.
  refine (proj2 (policy_work_conserving toy_pool (map_order toy_pool) 32 32 0 0
    toy_pool_keyed (map_order_spec _) _ _ 3 (prompt_session 3 20) eq_refl) eq_refl).
  - repeat (apply map_Forall_insert_2; [by vm_compute|]). apply map_Forall_empty.
  - vm_compute. reflexivity.
Defined.
