(* ===== verification/Bmt.v ===== *)
(** * The bandwidth estimator and guard ([src/sched/bmt.cpp], and the guard
    block of [Scheduler::tick])

    [estimate_units] prices a plan in token-attention units with 64-bit
    arithmetic; the guard trims prefill chunks from the end of the plan until
    the price fits the configured budget, updating the price incrementally. *)
From stdpp Require Import prelude gmap list strings.
From S2P Require Import Prelude Floating Session Policy.
Local Open Scope Z_scope.

(** ** Definitions *)

(** Sum of an arithmetic progression, in [uint64_t] arithmetic. *)
Definition sum_arith (a0 d n : Z) : Z :=
  u64 (n * u64 (u64 (2 * a0) + u64 (u64 (n - 1) * d))) / 2.

Definition item_units (s : ClientSession) (it : BatchItem) : Z :=
  match phase it with
  | Phase.DECODE => u64 (i32 (n_past s + 1))
  | Phase.PREFILL =>
      let base := u64 (n_past s) in
      let m := u64 (if 0 <? n_tokens it then n_tokens it else 0) in
      sum_arith (u64 (base + 1)) 1 m
  end.

Definition estimate_step (sessions : SessionPool) (total : Z) (it : BatchItem) : Z :=
  match sessions !! item_fd it with
  | None => total
  | Some s => u64 (total + item_units s it)
  end.

Definition estimate_units (sessions : SessionPool) (plan : Plan) : Z :=
  foldl (estimate_step sessions) 0 (items plan).

(** *** The guard of [Scheduler::tick] *)

(** [base_npast[fd]]: the map built over all sessions, [0] for a missing key. *)
Definition base_npast (sessions : SessionPool) (fd : Z) : Z :=
  match sessions !! fd with Some s => u64 (n_past s) | None => 0 end.

(** The inner loop on one chunk: new token count, new estimate. The chunk
    size bounds the number of iterations. *)
Fixpoint trim_chunk (fuel : nat) (budget base n est : Z) : Z * Z :=
  match fuel with
  | O => (n, est)
  | S fuel' =>
      if (0 <? n) && (budget <? est) then
        let m := u64 n in
        let tok_cost := u64 (base + m) in
        trim_chunk fuel' budget base (n - 1) (u64 (est - tok_cost))
      else (n, est)
  end.

Record GuardState := {
  g_est : Z;
  g_prefill_tok_count : Z;
  g_trimmed : bool;
}.

(** The outer loop over the items, last one first ([rev_items]); returns the
    items in the same reversed order. *)
Fixpoint trim_items (sessions : SessionPool) (budget : Z) (rev_items : list BatchItem)
    (g : GuardState) : list BatchItem * GuardState :=
  match rev_items with
  | [] => ([], g)
  | it :: its =>
      if budget <? g_est g then
        if negb (bool_decide (phase it = Phase.PREFILL)) || (n_tokens it <=? 0) then
          let '(its', g') := trim_items sessions budget its g in (it :: its', g')
        else
          let base := base_npast sessions (item_fd it) in
          let '(n, est) := trim_chunk (Z.to_nat (n_tokens it)) budget base (n_tokens it) (g_est g) in
          let g1 := {| g_est := est;
                       g_prefill_tok_count := g_prefill_tok_count g - (n_tokens it - n);
                       g_trimmed := g_trimmed g || (n <? n_tokens it) |} in
          let '(its', g') := trim_items sessions budget its g1 in
          ({| item_fd := item_fd it; phase := phase it; n_tokens := n |} :: its', g')
      else (rev_items, g)
  end.

(** The whole guard for a positive budget: the trimmed plan, the estimate and
    the [trimmed] flag that the metrics publish. *)
Definition bmt_guard (sessions : SessionPool) (budget : Z) (plan : Plan) : Plan * Z * bool :=
  let est := estimate_units sessions plan in
  if budget <? est then
    let '(rits, g) := trim_items sessions budget (reverse (items plan))
      {| g_est := est; g_prefill_tok_count := prefill_tok_count plan; g_trimmed := false |} in
    (plan <| items := reverse rits |> <| prefill_tok_count := g_prefill_tok_count g |>,
     g_est g, g_trimmed g)
  else (plan, est, false).

(** ** The estimator computes the exact cost *)

(** The price of an item over unbounded integers: [n_past + 1] for a decode
    token, and one more for each further token of a chunk. *)
Definition cost (s : ClientSession) (it : BatchItem) : Z :=
  match phase it with
  | Phase.DECODE => n_past s + 1
  | Phase.PREFILL => sum_Z ((λ j, n_past s + Z.of_nat j + 1) <$> List.seq 0 (Z.to_nat (n_tokens it)))
  end.

Definition plan_cost (sessions : SessionPool) (its : list BatchItem) : Z :=
  sum_Z ((λ it, match sessions !! item_fd it with Some s => cost s it | None => 0 end) <$> its).

Lemma sum_progression a k :
  2 * sum_Z ((λ j, a + Z.of_nat j + 1) <$> List.seq 0 k)
  = Z.of_nat k * (2 * a + Z.of_nat k + 1).
Proof.
  induction k as [|k IH]; [done|].
  rewrite seq_S, fmap_app, sum_Z_app. simpl. lia.
Qed.

Lemma sum_arith_exact a0 n :
  0 ≤ a0 ≤ 2 ^ 31 → 0 ≤ n < 2 ^ 31 →
  sum_arith a0 1 n = sum_Z ((λ j, (a0 - 1) + Z.of_nat j + 1) <$> List.seq 0 (Z.to_nat n)).
Proof.
  intros Ha Hn. pose proof (sum_progression (a0 - 1) (Z.to_nat n)) as HS.
  rewrite Z2Nat.id in HS by lia. unfold sum_arith.
  destruct (decide (n = 0)) as [->|Hnz]; [done|].
  rewrite (u64_id (n - 1)), (u64_id (2 * a0)) by lia.
  rewrite Z.mul_1_r, (u64_id (n - 1)), (u64_id (2 * a0 + (n - 1))) by lia.
  replace (n * (2 * a0 + (n - 1))) with (n * (2 * (a0 - 1) + n + 1)) by lia.
  rewrite u64_id by nia. rewrite <- HS, Z.mul_comm. by rewrite Z.div_mul.
Qed.

(** Bounds under which the machine arithmetic is exact. *)
Definition pasts_ok (sessions : SessionPool) : Prop :=
  map_Forall (λ _ s, 0 ≤ n_past s < INT_MAX) sessions.

Definition tokens_ok (it : BatchItem) : Prop :=
  match phase it with Phase.DECODE => n_tokens it = 1 | Phase.PREFILL => 0 ≤ n_tokens it ≤ INT_MAX end.

Lemma item_units_exact s it :
  0 ≤ n_past s < INT_MAX → tokens_ok it → item_units s it = cost s it.
Proof.
  unfold INT_MAX, tokens_ok, item_units, cost. intros Hp Ht. destruct (phase it).
  - rewrite (u64_id (n_past s)) by lia. rewrite (u64_id (n_past s + 1)) by lia.
    replace (if 0 <? n_tokens it then n_tokens it else 0) with (n_tokens it)
      by (destruct (0 <? n_tokens it) eqn:E; bool_prop; unfold INT_MAX in *; lia).
    unfold INT_MAX in *. rewrite u64_id by lia. rewrite sum_arith_exact by lia.
    f_equal. apply list_fmap_ext. intros i x _. lia.
  - rewrite i32_id by (unfold in_i32, INT_MIN, INT_MAX; lia). apply u64_id. lia.
Qed.

Lemma cost_bound s it :
  0 ≤ n_past s < INT_MAX → tokens_ok it → 0 ≤ cost s it ≤ n_tokens it * 2 ^ 32.
Proof.
  unfold INT_MAX, tokens_ok, cost. intros Hp Ht. destruct (phase it); [|lia].
  pose proof (sum_progression (n_past s) (Z.to_nat (n_tokens it))) as HS.
  unfold INT_MAX in *. rewrite Z2Nat.id in HS by lia. nia.
Qed.

Lemma plan_cost_bound sessions its :
  pasts_ok sessions → Forall tokens_ok its →
  0 ≤ plan_cost sessions its ≤ tok_total its * 2 ^ 32.
Proof.
  intros Hp. induction 1 as [|it its Hit _ IH]; [done|].
  unfold plan_cost in *. rewrite fmap_cons, tok_total_cons.
  cbn [sum_Z foldr]. fold (sum_Z ((λ it, match sessions !! item_fd it with
    Some s => cost s it | None => 0 end) <$> its)).
  destruct (sessions !! item_fd it) as [s|] eqn:Hs.
  - pose proof (cost_bound s it (Hp _ _ Hs) Hit). lia.
  - unfold tokens_ok in Hit. destruct (phase it); lia.
Qed.

Lemma plan_cost_app sessions its1 its2 :
  plan_cost sessions (its1 ++ its2) = plan_cost sessions its1 + plan_cost sessions its2.
Proof. unfold plan_cost. by rewrite fmap_app, sum_Z_app. Qed.

Lemma plan_cost_cons sessions it its :
  plan_cost sessions (it :: its)
  = match sessions !! item_fd it with Some s => cost s it | None => 0 end
    + plan_cost sessions its.
Proof. done. Qed.

Lemma tokens_ok_nonneg its : Forall tokens_ok its → 0 ≤ tok_total its.
Proof.
  induction 1 as [|it its Hit _ IH]; [done|]. rewrite tok_total_cons.
  unfold tokens_ok in Hit. destruct (phase it); lia.
Qed.

Lemma estimate_fold sessions its total :
  pasts_ok sessions → Forall tokens_ok its → 0 ≤ total →
  total + tok_total its * 2 ^ 32 < 2 ^ 64 →
  foldl (estimate_step sessions) total its = total + plan_cost sessions its.
Proof.
  intros Hp Hits. revert total. induction Hits as [|it its Hit Hits IH]; intros total H0 Hb.
  { unfold plan_cost. simpl. lia. }
  rewrite tok_total_cons in Hb. pose proof (tokens_ok_nonneg _ Hits) as Hnn.
  cbn [foldl]. rewrite plan_cost_cons. unfold estimate_step at 2.
  destruct (sessions !! item_fd it) as [s|] eqn:Hs.
  - pose proof (cost_bound s it (Hp _ _ Hs) Hit) as Hc.
    rewrite item_units_exact by (done || by apply (Hp _ _ Hs)).
    rewrite u64_id by lia. rewrite IH by lia. lia.
  - assert (0 ≤ n_tokens it) by (unfold tokens_ok in Hit; destruct (phase it); lia).
    rewrite IH by lia. lia.
Qed.

(** The largest number of tokens for which the price of a plan fits 64 bits. *)
Definition plan_ok (its : list BatchItem) : Prop :=
  Forall tokens_ok its ∧ tok_total its ≤ INT_MAX.

Lemma estimate_exact sessions plan :
  pasts_ok sessions → plan_ok (items plan) →
  estimate_units sessions plan = plan_cost sessions (items plan).
Proof.
  intros Hp [Hits Hn]. unfold estimate_units, INT_MAX in *.
  rewrite estimate_fold by (done || lia). lia.
Qed.

(** ** The guard *)

Definition chunk_cost (base n : Z) : Z :=
  sum_Z ((λ j, base + Z.of_nat j + 1) <$> List.seq 0 (Z.to_nat n)).

Lemma chunk_cost_pred base n :
  0 < n → chunk_cost base n = chunk_cost base (n - 1) + (base + n).
Proof.
  intros Hn. pose proof (sum_progression base (Z.to_nat n)) as H1.
  pose proof (sum_progression base (Z.to_nat (n - 1))) as H2.
  rewrite Z2Nat.id in H1, H2 by lia. unfold chunk_cost. nia.
Qed.

Lemma chunk_cost_nonneg base n : 0 ≤ base → 0 ≤ chunk_cost base n.
Proof.
  intros Hb. apply sum_Z_nonneg, Forall_fmap, Forall_forall. intros j _. simpl. lia.
Qed.

(** What trimming one chunk achieves. *)
Lemma trim_chunk_spec fuel budget base n est :
  0 ≤ base < INT_MAX → 0 ≤ n ≤ INT_MAX → fuel = Z.to_nat n →
  chunk_cost base n ≤ est < 2 ^ 64 →
  ∃ n' est', trim_chunk fuel budget base n est = (n', est') ∧ 0 ≤ n' ≤ n ∧
    est' = est - chunk_cost base n + chunk_cost base n' ∧
    (est' ≤ budget ∨ n' = 0) ∧
    (n' < n → budget < est' + base + n' + 1).
Proof.
  intros Hb. revert n est.
  induction fuel as [|fuel IH]; intros n est Hn Hf He; cbn [trim_chunk].
  { exists n, est. split_and!; try done; lia. }
  destruct ((0 <? n) && (budget <? est)) eqn:E; bool_prop.
  - unfold INT_MAX in *. rewrite (u64_id n), (u64_id (base + n)) by lia.
    pose proof (chunk_cost_pred base n ltac:(lia)) as Hc.
    pose proof (chunk_cost_nonneg base (n - 1) ltac:(lia)).
    rewrite u64_id by lia.
    destruct (IH (n - 1) (est - (base + n))) as (n' & est' & -> & ? & ? & ? & ?); [lia..|].
    exists n', est'. split_and!; try done; try lia.
    intros _. destruct (decide (n' = n - 1)); [subst n'|]; lia.
  - exists n, est. split_and!; try done; lia.
Qed.

(** The items the guard is given: priced exactly, and prefill chunks belong to
    live sessions. *)
Definition guard_item_ok (sessions : SessionPool) (it : BatchItem) : Prop :=
  tokens_ok it ∧ (phase it = Phase.PREFILL → is_Some (sessions !! item_fd it)).

(** An item after the guard: decode items are untouched, chunks only shrink. *)
Definition shrunk (it it' : BatchItem) : Prop :=
  item_fd it' = item_fd it ∧ phase it' = phase it ∧
  (phase it = Phase.DECODE → n_tokens it' = n_tokens it) ∧
  (phase it = Phase.PREFILL → 0 ≤ n_tokens it' ≤ n_tokens it).

Lemma shrunk_refl sessions it : guard_item_ok sessions it → shrunk it it.
Proof.
  intros [Ht _]. unfold tokens_ok in Ht. split_and!; try done.
  intros Hp. rewrite Hp in Ht. lia.
Qed.

Definition drained (it : BatchItem) : Prop := phase it = Phase.PREFILL → n_tokens it = 0.

(** One token more on the chunk of [it] would exceed the budget. *)
Definition tight (sessions : SessionPool) (budget est : Z) (it : BatchItem) : Prop :=
  phase it = Phase.PREFILL ∧
  ∃ s, sessions !! item_fd it = Some s ∧ budget < est + n_past s + n_tokens it + 1.

Definition guard_post (sessions : SessionPool) (budget c0 : Z) (g : GuardState)
    (its : list BatchItem) (r : list BatchItem * GuardState) : Prop :=
  let '(its', g') := r in
  Forall2 shrunk its its' ∧
  g_est g' = c0 + plan_cost sessions its' ∧
  (g_est g' ≤ budget ∨ Forall drained its') ∧
  g_prefill_tok_count g' = g_prefill_tok_count g - (tok_total its - tok_total its') ∧
  tok_total its' ≤ tok_total its ∧
  g_trimmed g' = g_trimmed g || (tok_total its' <? tok_total its) ∧
  (tok_total its' < tok_total its → Exists (tight sessions budget (g_est g')) its').

Lemma guard_post_stop sessions budget c0 g its :
  Forall (guard_item_ok sessions) its → g_est g = c0 + plan_cost sessions its →
  (g_est g ≤ budget ∨ Forall drained its) →
  guard_post sessions budget c0 g its (its, g).
Proof.
  intros Hok He Hd. unfold guard_post. rewrite Z.ltb_irrefl, orb_false_r.
  split_and!; try done; try lia.
  apply Forall_Forall2_diag. eapply Forall_impl; [done|]. apply shrunk_refl.
Qed.

Lemma Exists_tight_mono sessions budget est it its :
  Exists (tight sessions budget est) its → Exists (tight sessions budget est) (it :: its).
Proof. by right. Qed.

(** Keeping the head item as it is. *)
Lemma guard_post_keep sessions budget c0 g it its r :
  guard_item_ok sessions it → drained it →
  guard_post sessions budget
    (c0 + match sessions !! item_fd it with Some s => cost s it | None => 0 end) g its r →
  guard_post sessions budget c0 g (it :: its) (let '(its', g') := r in (it :: its', g')).
Proof.
  destruct r as [its' g']. unfold guard_post.
  intros Hok Hd (H1 & H2 & H3 & H4 & H5 & H6 & H7).
  rewrite !tok_total_cons, plan_cost_cons. split_and!.
  - constructor; [by eapply shrunk_refl|done].
  - lia.
  - destruct H3; [by left|right]. by constructor.
  - lia.
  - lia.
  - rewrite H6. f_equal. destruct (Z.ltb_spec (tok_total its') (tok_total its)),
      (Z.ltb_spec (n_tokens it + tok_total its') (n_tokens it + tok_total its)); lia.
  - intros ?. apply Exists_tight_mono, H7. lia.
Qed.

Lemma cost_prefill s it n :
  phase it = Phase.PREFILL →
  cost s {| item_fd := item_fd it; phase := phase it; n_tokens := n |} = chunk_cost (n_past s) n.
Proof. intros H. unfold cost. simpl. by rewrite H. Qed.

Lemma chunk_cost_mono base n n' :
  0 ≤ base → 0 ≤ n' ≤ n → chunk_cost base n' ≤ chunk_cost base n.
Proof.
  intros Hb Hn. pose proof (sum_progression base (Z.to_nat n)) as H1.
  pose proof (sum_progression base (Z.to_nat n')) as H2.
  rewrite Z2Nat.id in H1, H2 by lia. unfold chunk_cost. nia.
Qed.

Lemma shrunk_cost s it it' :
  0 ≤ n_past s → shrunk it it' →
  cost s it' ≤ cost s it ∧ n_tokens it' ≤ n_tokens it ∧
  (n_tokens it' = n_tokens it → cost s it' = cost s it).
Proof.
  intros Hp (Hf & Hph & Hd & Hpf). unfold cost. rewrite Hph.
  destruct (phase it).
  - specialize (Hpf eq_refl). split_and!; [|lia|by intros ->].
    by apply chunk_cost_mono.
  - rewrite Hd by done. split_and!; [lia|lia|done].
Qed.

Lemma shrunk_costs sessions its its' :
  pasts_ok sessions → Forall2 shrunk its its' →
  plan_cost sessions its' ≤ plan_cost sessions its ∧ tok_total its' ≤ tok_total its ∧
  (tok_total its' = tok_total its → plan_cost sessions its' = plan_cost sessions its).
Proof.
  intros Hp. induction 1 as [|it it' its its' Hit Hits IH]; [done|].
  rewrite !plan_cost_cons, !tok_total_cons. rewrite (proj1 Hit).
  destruct (sessions !! item_fd it) as [s|] eqn:Hs.
  - pose proof (Hp _ _ Hs) as Hps. cbn beta in Hps.
    destruct (shrunk_cost s it it' ltac:(lia) Hit) as (? & ? & ?).
    destruct IH as (? & ? & IH3). split_and!; [lia|lia|]. intros.
    rewrite IH3 by lia. f_equal. auto with lia.
  - destruct (shrunk_cost new_session it it' ltac:(done) Hit) as (_ & ? & _).
    destruct IH as (? & ? & IH3). split_and!; [lia|lia|]. intros. apply IH3. lia.
Qed.

(** Trimming the head item, then the rest. *)
Lemma guard_post_trim sessions budget c0 g it its n est r s :
  pasts_ok sessions → phase it = Phase.PREFILL → sessions !! item_fd it = Some s →
  0 ≤ n ≤ n_tokens it → (est ≤ budget ∨ n = 0) →
  (n < n_tokens it → budget < est + n_past s + n + 1) →
  est = c0 + chunk_cost (n_past s) n + plan_cost sessions its →
  guard_post sessions budget (c0 + chunk_cost (n_past s) n)
    {| g_est := est; g_prefill_tok_count := g_prefill_tok_count g - (n_tokens it - n);
       g_trimmed := g_trimmed g || (n <? n_tokens it) |} its r →
  guard_post sessions budget c0 g (it :: its)
    (let '(its', g') := r in
     ({| item_fd := item_fd it; phase := phase it; n_tokens := n |} :: its', g')).
Proof.
  intros Hp Hph Hs Hn Hz Htight Hest. destruct r as [its' g'].
  unfold guard_post. cbn [g_prefill_tok_count g_trimmed g_est].
  intros (H1 & H2 & H3 & H4 & H5 & H6 & H7).
  destruct (shrunk_costs sessions its its' Hp H1) as (Hle & _ & Hsame).
  rewrite !tok_total_cons, plan_cost_cons. cbn [item_fd n_tokens].
  rewrite Hs, cost_prefill by done. split_and!.
  - constructor; [|done]. by split_and!; simpl; try done; rewrite Hph.
  - lia.
  - destruct H3 as [H3|H3]; [by left|]. destruct Hz as [Hz|Hz]; [left; lia|].
    right. constructor; [|done]. by intros _.
  - lia.
  - lia.
  - rewrite H6. rewrite <- orb_assoc. f_equal.
    destruct (Z.ltb_spec n (n_tokens it)), (Z.ltb_spec (tok_total its') (tok_total its)),
      (Z.ltb_spec (n + tok_total its') (n_tokens it + tok_total its)); lia.
  - intros Hlt. destruct (Z.lt_ge_cases (tok_total its') (tok_total its)) as [Hl|Hl].
    + apply Exists_tight_mono. by apply H7.
    + left. split; [done|]. exists s. split; [done|]. simpl.
      rewrite Hsame in H2 by lia. lia.
Qed.

Lemma trim_items_spec sessions budget its g c0 :
  pasts_ok sessions → Forall (guard_item_ok sessions) its → 0 ≤ c0 →
  g_est g = c0 + plan_cost sessions its → g_est g < 2 ^ 64 →
  guard_post sessions budget c0 g its (trim_items sessions budget its g).
Proof.
  intros Hp Hits. revert g c0. induction Hits as [|it its Hit Hits IH]; intros g c0 Hc0 He Hg.
  { apply guard_post_stop; [constructor|done|by right]. }
  cbn [trim_items]. destruct (budget <? g_est g) eqn:Eb; bool_prop.
  2: { apply guard_post_stop; [by constructor|done|left; lia]. }
  rewrite plan_cost_cons in He.
  assert (Hcost : ∀ s, sessions !! item_fd it = Some s → 0 ≤ cost s it)
    by (intros s Hs; apply (cost_bound s it); [by apply (Hp _ _ Hs)|apply Hit]).
  assert (Hrest : 0 ≤ plan_cost sessions its).
  { apply plan_cost_bound; [done|]. eapply Forall_impl; [done|]. by intros x []. }
  destruct (negb _ || _) eqn:Es.
  - apply guard_post_keep; [done| |].
    + intros Hph. destruct Hit as [Ht _]. unfold tokens_ok in Ht. rewrite Hph in Ht.
      rewrite bool_decide_eq_true_2 in Es by done. simpl in Es. bool_prop. lia.
    + apply IH; [|lia|done]. destruct (sessions !! item_fd it) as [s|] eqn:Hs; [|lia].
      specialize (Hcost s eq_refl). lia.
  - apply orb_false_iff in Es as [Eph En]. apply negb_false_iff in Eph. bool_prop.
    destruct Hit as [Ht Hlive]. destruct (Hlive Eph) as [s Hs].
    unfold tokens_ok in Ht. rewrite Eph in Ht. unfold base_npast. rewrite Hs in *.
    pose proof (Hp _ _ Hs) as Hps. cbn beta in Hps.
    rewrite (u64_id (n_past s)) by (unfold INT_MAX in Hps; lia).
    assert (Hck : cost s it = chunk_cost (n_past s) (n_tokens it))
      by (unfold cost; by rewrite Eph).
    destruct (trim_chunk_spec (Z.to_nat (n_tokens it)) budget (n_past s) (n_tokens it) (g_est g))
      as (n & est & -> & Hn & Hest & Hz & Htight); [lia|lia|done|lia|].
    pose proof (chunk_cost_nonneg (n_past s) n ltac:(lia)).
    pose proof (chunk_cost_mono (n_past s) (n_tokens it) n ltac:(lia) ltac:(lia)).
    cbn zeta. apply (guard_post_trim _ _ _ _ _ _ _ est _ s); try done; [lia|].
    apply IH; simpl; lia.
Qed.

Lemma tok_total_reverse its : tok_total (reverse its) = tok_total its.
Proof. unfold tok_total. by rewrite reverse_Permutation. Qed.

Lemma plan_cost_reverse sessions its : plan_cost sessions (reverse its) = plan_cost sessions its.
Proof. unfold plan_cost. by rewrite reverse_Permutation. Qed.

Lemma shrunk_tokens_ok its its' :
  Forall tokens_ok its → Forall2 shrunk its its' → Forall tokens_ok its'.
Proof.
  intros Ht. induction 1 as [|it it' its its' Hit Hits IH]; [constructor|].
  inv Ht. constructor; [|by apply IH]. destruct Hit as (_ & Hph & Hd & Hpf).
  unfold tokens_ok in *. rewrite Hph. destruct (phase it); [|by rewrite Hd].
  specialize (Hpf eq_refl). lia.
Qed.

(** ** Theorems *)

(** C31. The 64-bit estimate of a plan is the sum of the item costs over unbounded
    integers: no step of [sum_arith] or of the accumulation wraps for any plan
    of at most [INT_MAX] tokens. *)
Theorem estimate_units_exact sessions plan
    (Hpast : pasts_ok sessions) (Hplan : plan_ok (items plan)) :
  estimate_units sessions plan = plan_cost sessions (items plan).
Proof. by apply estimate_exact. Qed.

Lemma bmt_guard_post sessions budget plan :
  pasts_ok sessions → Forall (guard_item_ok sessions) (items plan) →
  tok_total (items plan) ≤ INT_MAX →
  ∃ plan' est trimmed, bmt_guard sessions budget plan = (plan', est, trimmed) ∧
    Forall2 shrunk (items plan) (items plan') ∧
    est = estimate_units sessions plan' ∧
    (est ≤ budget ∨ Forall drained (items plan')) ∧
    prefill_tok_count plan' - prefill_tok_count plan
      = tok_total (items plan') - tok_total (items plan) ∧
    trimmed = (tok_total (items plan') <? tok_total (items plan)) ∧
    (trimmed = true → Exists (tight sessions budget est) (items plan')) ∧
    decode_tok_count plan' = decode_tok_count plan ∧
    next_rr_decode_idx plan' = next_rr_decode_idx plan ∧
    next_rr_prefill_idx plan' = next_rr_prefill_idx plan.
Proof.
  intros Hp Hits Hn. assert (Htok : Forall tokens_ok (items plan))
    by (eapply Forall_impl; [done|]; by intros x []).
  unfold bmt_guard. rewrite estimate_exact by done.
  pose proof (plan_cost_bound sessions _ Hp Htok) as Hb.
  destruct (budget <? _) eqn:E; bool_prop.
  2: { do 3 eexists. split; [done|]. rewrite estimate_exact by done.
       rewrite Z.ltb_irrefl. split_and!; try done; try lia.
       apply Forall_Forall2_diag, (Forall_impl _ _ _ Hits), shrunk_refl. }
  set (g := Build_GuardState _ _ _).
  pose proof (trim_items_spec sessions budget (reverse (items plan)) g 0 Hp) as Hpost.
  unfold guard_post in Hpost.
  destruct (trim_items sessions budget (reverse (items plan)) g) as [rits g'].
  rewrite tok_total_reverse, plan_cost_reverse in Hpost. unfold INT_MAX in Hn.
  destruct Hpost as (H1 & H2 & H3 & H4 & H5 & H6 & H7); [|lia|simpl; lia|simpl; lia|].
  { by apply Forall_reverse. }
  apply Forall2_reverse in H1. rewrite reverse_involutive in H1.
  do 3 eexists. split; [done|]. simpl.
  rewrite estimate_exact; [|done|].
  2: { split; [|simpl; rewrite tok_total_reverse; unfold INT_MAX; lia].
       eapply shrunk_tokens_ok; [|done]. done. }
  simpl. rewrite tok_total_reverse, plan_cost_reverse.
  split_and!; try done; try (simpl in *; lia).
  - destruct H3; [by left|right]. by apply Forall_reverse.
  - rewrite H6. intros Htr. simpl in Htr. bool_prop.
    apply Exists_exists. setoid_rewrite elem_of_reverse. apply Exists_exists, H7. lia.
Qed.

(** C14. The memory-traffic guard: the plan it returns costs at most the budget or
    has no prefill token left; decode items are untouched and chunks only
    shrink; the reported estimate is the one of the returned plan, computed
    from scratch; the prefill counter follows the removed tokens; it reports
    trimming exactly when a token was removed, and then giving one token back
    to the chunk it stopped at would exceed the budget. *)
Theorem bmt_guard_sound sessions budget plan :
  pasts_ok sessions → Forall (guard_item_ok sessions) (items plan) →
  tok_total (items plan) ≤ INT_MAX →
  let '(plan', est, trimmed) := bmt_guard sessions budget plan in
  Forall2 shrunk (items plan) (items plan') ∧
  est = estimate_units sessions plan' ∧
  (est ≤ budget ∨ Forall drained (items plan')) ∧
  prefill_tok_count plan' - prefill_tok_count plan
    = tok_total (items plan') - tok_total (items plan) ∧
  decode_tok_count plan' = decode_tok_count plan ∧
  trimmed = (tok_total (items plan') <? tok_total (items plan)) ∧
  (trimmed = true → Exists (tight sessions budget est) (items plan')).
Proof.
  intros Hp Hits Hn.
  destruct (bmt_guard_post sessions budget plan Hp Hits Hn)
    as (plan' & est & trimmed & -> & ? & ? & ? & ? & ? & ? & ? & _).
  done.
Qed.

(** ** Witnesses *)

Local Abbreviation toy_plan := (schedule_tick toy_pool (map_order toy_pool) 32 32 0 0).

Lemma toy_pasts_ok : pasts_ok toy_pool.
Proof. by repeat (apply map_Forall_insert_2; [by vm_compute|]). Qed.

Lemma toy_plan_items :
  items toy_plan = [ {| item_fd := 4; phase := Phase.DECODE; n_tokens := 1 |};
                     {| item_fd := 3; phase := Phase.PREFILL; n_tokens := 16 |} ].
Proof. vm_compute. reflexivity. Qed.

Lemma toy_plan_guardable : Forall (guard_item_ok toy_pool) (items toy_plan).
Proof. rewrite toy_plan_items. repeat constructor; done. Qed.

Lemma estimate_units_exact_witness : estimate_units toy_pool toy_plan = 139.
Proof.
  refine (eq_trans (estimate_units_exact toy_pool toy_plan toy_pasts_ok _) _);
    [|vm_compute; reflexivity].
  rewrite toy_plan_items. split; [|by vm_compute]. by repeat constructor.
Defined.

Lemma bmt_guard_sound_witness :
  (bmt_guard toy_pool 60 toy_plan).1.2 = 58 ∧ (bmt_guard toy_pool 60 toy_plan).2 = true ∧
  Forall2 shrunk (items toy_plan) (items (bmt_guard toy_pool 60 toy_plan).1.1).
Proof.
  split; [vm_compute; reflexivity|]. split; [vm_compute; reflexivity|].
  pose proof (bmt_guard_sound toy_pool 60 toy_plan toy_pasts_ok toy_plan_guardable
    ltac:(vm_compute; discriminate)) as H.
  revert H. generalize (bmt_guard toy_pool 60 toy_plan).
  intros [[plan' est] trimmed] H. exact (proj1 H).
Defined.
