(* ===== verification/Sampling.v ===== *)
(** * Token sampling ([src/sched/sampling.h], [src/sched/sampling.cpp])

    [TopPSampler::sample]: greedy below temperature zero, otherwise softmax
    over the top-k logits, cut to the nucleus, and one uniform draw. *)
From stdpp Require Import prelude list strings.
From Stdlib Require Import SpecFloat Sorted.
From S2P Require Import Prelude Floating FloatFacts.
Local Open Scope Z_scope.

(** ** Definitions *)

Record SamplingParams := {
  sp_temperature : float;
  sp_top_p : float;
  sp_top_k : Z;
}.

(** The interface [ISampler]; [rng] is the state of the [std::mt19937]. *)
Class ISampler := {
  rng : Type;
  sample : list float → Z → SamplingParams → rng → Z * rng;
}.

(** What the sampler uses of the C++ library: [std::exp] on [float],
    [std::partial_sort] (comparison, number of sorted elements, range) and a
    draw of [std::uniform_real_distribution<float>(0, 1)] from a generator. *)
Class SamplingLib := {
  expf : float → float;
  partial_sort : (Z → Z → bool) → nat → list Z → list Z;
  generator : Type;
  uniform01 : generator → float * generator;
}.

Definition logit (logits : list float) (i : Z) : float :=
  default S754_nan (logits !! Z.to_nat i).

(** The greedy scan from index [i], [left] elements to go. *)
Fixpoint greedy_loop (logits : list float) (i : Z) (left : nat) (best_id : Z) (bestv : float) : Z :=
  match left with
  | O => best_id
  | S left' =>
      if F32.lt bestv (logit logits i)
      then greedy_loop logits (i + 1) left' i (logit logits i)
      else greedy_loop logits (i + 1) left' best_id bestv
  end.

Definition greedy (logits : list float) (n_vocab : Z) : Z :=
  greedy_loop logits 1 (Z.to_nat (n_vocab - 1)) 0 (logit logits 0).

(** [stable_max], which nothing calls: the largest of the first [n] values. *)
Definition std_max (a b : float) : float := if F32.lt a b then b else a.

Fixpoint max_loop (x : list float) (i : Z) (left : nat) (m : float) : float :=
  match left with
  | O => m
  | S left' => max_loop x (i + 1) left' (std_max m (logit x i))
  end.

Definition stable_max (x : list float) (n : Z) : float :=
  max_loop x 1 (Z.to_nat (n - 1)) (logit x 0).

(** The nucleus loop: the number of probabilities taken. *)
Fixpoint nucleus_loop (probs : list float) (top_p c : float) (cut : nat) : nat :=
  match probs with
  | [] => cut
  | p :: probs' =>
      let c' := F32.add c p in
      if F32.le top_p c' then S cut else nucleus_loop probs' top_p c' (S cut)
  end.

(** The draw: walk the kept prefix until the accumulated mass reaches [r]; the
    last position is taken in any case. *)
Fixpoint draw_loop (kept : list (Z * float)) (r acc : float) (fallback : Z) : Z :=
  match kept with
  | [] => fallback
  | (id, p) :: kept' =>
      let acc' := F32.add acc p in
      if F32.le r acc' || bool_decide (kept' = []) then id
      else draw_loop kept' r acc' fallback
  end.

Section TopP.
Context `{SamplingLib}.

Definition use_count (n_vocab : Z) (p : SamplingParams) : Z :=
  if (0 <? sp_top_k p) && (sp_top_k p <? n_vocab) then sp_top_k p else n_vocab.

(** The vocabulary indices with the [use_n] largest logits sorted first. *)
Definition sorted_indices (logits : list float) (n_vocab : Z) (p : SamplingParams) : list Z :=
  partial_sort (λ a b, F32.lt (logit logits b) (logit logits a))
    (Z.to_nat (use_count n_vocab p))
    (Z.of_nat <$> List.seq 0 (Z.to_nat n_vocab)).

(** Softmax weights of the truncated set, and their sum. *)
Definition softmax_weights (logits : list float) (p : SamplingParams) (idx : list Z) : list float :=
  let inv_t := F32.div F32.one (sp_temperature p) in
  let scaled := (λ i, F32.mul (logit logits i) inv_t) <$> idx in
  let max_logit := foldl F32.max F32.neg_infinity scaled in
  (λ x, expf (F32.sub x max_logit)) <$> scaled.

(** [std::min(std::max(p.top_p, 0.0f), 1.0f)] *)
Definition clamped_top_p (p : SamplingParams) : float :=
  F32.min (F32.max (sp_top_p p) F32.zero) F32.one.

Definition nucleus_cut (probs : list float) (p : SamplingParams) : nat :=
  let top_p := clamped_top_p p in
  if F32.lt top_p (literalf 9999 4) then
    let cut := nucleus_loop probs top_p F32.zero 0 in
    if (cut <=? 0)%nat then 1%nat else cut
  else length probs.

(** Division of every entry by the sum of all of them. *)
Definition normalise (vs : list float) : list float :=
  (λ v, F32.div v (foldl F32.add F32.zero vs)) <$> vs.

Definition top_p_sample (logits : list float) (n_vocab : Z) (p : SamplingParams)
    (g : generator) : Z * generator :=
  if n_vocab <=? 0 then (0, g)
  else if F32.le (sp_temperature p) F32.zero then (greedy logits n_vocab, g)
  else
    let idx := sorted_indices logits n_vocab p in
    let used := take (Z.to_nat (use_count n_vocab p)) idx in
    let vs := softmax_weights logits p used in
    let sum := foldl F32.add F32.zero vs in
    if F32.le sum F32.zero || negb (F32.is_finite sum) then (idx !!! 0%nat, g)
    else
      let probs := normalise vs in
      let cut := nucleus_cut probs p in
      let renormed := normalise (take cut probs) in
      let '(r, g') := uniform01 g in
      (draw_loop (zip used renormed) r F32.zero (idx !!! 0%nat), g').

(** The scheduler's sampler. *)
#[global] Instance TopPSampler : ISampler := {| rng := generator; sample := top_p_sample |}.
End TopP.

(** ** Greedy choice *)

(** Every logit that is read exists and is a number. *)
Definition logits_ok (logits : list float) (n_vocab : Z) : Prop :=
  ∀ i, 0 ≤ i < n_vocab → not_nan (logit logits i).

(** [r] is the first index with the largest logit among the first [n]. *)
Definition first_max (logits : list float) (n r : Z) : Prop :=
  0 ≤ r < n ∧
  (∀ j, 0 ≤ j < n → F32.le (logit logits j) (logit logits r)) ∧
  (∀ j, 0 ≤ j < r → F32.lt (logit logits j) (logit logits r)).

Lemma greedy_loop_spec logits left : ∀ i best,
  logits_ok logits (i + Z.of_nat left) → first_max logits i best →
  first_max logits (i + Z.of_nat left) (greedy_loop logits i left best (logit logits best)).
Proof.
  induction left as [|left IH]; intros i best Hok Hb; cbn [greedy_loop].
  { by replace (i + Z.of_nat 0) with i by lia. }
  replace (i + Z.of_nat (S left)) with (i + 1 + Z.of_nat left) in * by lia.
  pose proof Hb as (Hr & Hmax & Hfirst).
  assert (Hnb : not_nan (logit logits best)) by (apply Hok; lia).
  assert (Hni : not_nan (logit logits i)) by (apply Hok; lia).
  destruct (F32.lt (logit logits best) (logit logits i)) eqn:E.
  - apply IH; [done|]. split; [lia|]. split.
    + intros j Hj. destruct (decide (j = i)) as [->|Hne]; [by apply Is_true_true, SFleb_refl|].
      assert (Hnj : not_nan (logit logits j)) by (apply Hok; lia).
      apply Is_true_true, SFltb_leb; [done..|].
      eapply SFleb_ltb_trans; [..|exact E]; [done..|apply Is_true_true, Hmax; lia].
    + intros j Hj. assert (Hnj : not_nan (logit logits j)) by (apply Hok; lia).
      apply Is_true_true. eapply SFleb_ltb_trans; [..|exact E]; [done..|].
      apply Is_true_true, Hmax; lia.
  - apply IH; [done|]. split; [lia|]. split; [|done].
    intros j Hj. destruct (decide (j = i)) as [->|Hne]; [|apply Hmax; lia].
    apply Is_true_true. by apply SFltb_false.
Qed.

Lemma greedy_spec logits n_vocab :
  0 < n_vocab → logits_ok logits n_vocab → first_max logits n_vocab (greedy logits n_vocab).
Proof.
  intros Hn Hok. unfold greedy.
  replace n_vocab with (1 + Z.of_nat (Z.to_nat (n_vocab - 1))) at 1 by lia.
  apply greedy_loop_spec; [by replace (1 + _) with n_vocab by lia|].
  split; [lia|]. split; intros j Hj; [|lia]. replace j with 0 by lia.
  apply Is_true_true, SFleb_refl, Hok. lia.
Qed.

(** ** The nucleus *)

(** Cumulative mass of the first [c] probabilities, added left to right from
    [c0] as the loop does. *)
Definition mass (c0 : float) (probs : list float) : float := foldl F32.add c0 probs.

Lemma nucleus_loop_spec probs top_p : ∀ c cut,
  let n := (nucleus_loop probs top_p c cut - cut)%nat in
  (cut + n = nucleus_loop probs top_p c cut)%nat ∧ (n ≤ length probs)%nat ∧
  (∀ k, (1 ≤ k < n)%nat → F32.le top_p (mass c (take k probs)) = false) ∧
  ((n < length probs)%nat → (1 ≤ n)%nat) ∧
  ((1 ≤ n)%nat → n = length probs ∨ F32.le top_p (mass c (take n probs)) = true).
Proof.
  induction probs as [|p probs IH]; intros c cut; cbn [nucleus_loop].
  { replace (cut - cut)%nat with 0%nat by lia. cbn. split_and!; try lia. }
  destruct (F32.le top_p (F32.add c p)) eqn:E.
  { replace (S cut - cut)%nat with 1%nat by lia. cbn [length]. split_and!; try lia.
    intros _. right. done. }
  destruct (IH (F32.add c p) (S cut)) as (H1 & H2 & H3 & H4 & H5).
  set (m := (nucleus_loop probs top_p (F32.add c p) (S cut) - S cut)%nat) in *.
  replace (_ - cut)%nat with (S m) by lia. cbn [length]. split_and!; try lia.
  - intros [|k] Hk; [lia|]. destruct (decide (k = 0%nat)) as [->|Hne]; [done|].
    cbn [take]. apply H3. lia.
  - intros _. destruct (decide (m = 0%nat)) as [->|Hne]; [left; lia|].
    destruct H5 as [->|H5]; [lia|by left|by right].
Qed.

Lemma nucleus_cut_range probs p :
  (1 ≤ length probs)%nat → (1 ≤ nucleus_cut probs p ≤ length probs)%nat.
Proof.
  intros Hl. unfold nucleus_cut. destruct (F32.lt _ _); [|lia].
  destruct (nucleus_loop_spec probs (clamped_top_p p) F32.zero 0) as (H1 & H2 & _ & H4 & _).
  destruct (Nat.leb_spec (nucleus_loop probs (clamped_top_p p) F32.zero 0) 0); lia.
Qed.

(** The draw returns an identifier of the kept prefix. *)
Lemma draw_loop_in kept r fallback : ∀ acc, kept ≠ [] →
  ∃ i q, (i < length kept)%nat ∧ kept !! i = Some (draw_loop kept r acc fallback, q).
Proof.
  induction kept as [|[id q] kept IH]; intros acc Hne; [done|]. cbn [draw_loop].
  case_goal.
  { exists 0%nat, q. split; [cbn; lia|done]. }
  bool_prop. destruct (IH (F32.add acc q)) as (i & q' & Hi & Hk); [tauto|].
  exists (S i), q'. split; [cbn; lia|done].
Qed.

(** ** What [std::partial_sort] promises

    For a strict weak order on the elements, the result is a permutation whose
    first [n] positions are in order and precede the rest. *)
Definition strict_weak_order (lt : Z → Z → bool) (l : list Z) : Prop :=
  (∀ x, x ∈ l → lt x x = false) ∧
  (∀ x y z, x ∈ l → y ∈ l → z ∈ l → lt x y = true → lt y z = true → lt x z = true) ∧
  (∀ x y z, x ∈ l → y ∈ l → z ∈ l → lt x y = false → lt y z = false → lt x z = false).

Definition partial_sort_correct (psort : (Z → Z → bool) → nat → list Z → list Z) : Prop :=
  ∀ lt n l, strict_weak_order lt l → (n ≤ length l)%nat →
    psort lt n l ≡ₚ l ∧
    ∀ i j x y, (i < n)%nat → (i < j)%nat →
      psort lt n l !! i = Some x → psort lt n l !! j = Some y → lt y x = false.

Section Truncation.
Context `{SamplingLib} (Hsort : partial_sort_correct partial_sort).
Context (logits : list float) (n_vocab : Z) (p : SamplingParams).
Context (Hn : 0 < n_vocab) (Hok : logits_ok logits n_vocab).

Local Abbreviation vocab_ids := (Z.of_nat <$> List.seq 0 (Z.to_nat n_vocab)).
Local Abbreviation idx := (sorted_indices logits n_vocab p).
Local Abbreviation gt := (λ a b, F32.lt (logit logits b) (logit logits a)).

Lemma elem_of_vocab_ids x : x ∈ vocab_ids ↔ 0 ≤ x < n_vocab.
Proof.
  rewrite list_elem_of_fmap. split.
  - intros (k & -> & Hk%elem_of_seq). lia.
  - intros Hx. exists (Z.to_nat x). rewrite elem_of_seq. lia.
Qed.

Lemma gt_strict_weak : strict_weak_order gt vocab_ids.
Proof.
  unfold strict_weak_order. setoid_rewrite elem_of_vocab_ids. split_and!.
  - intros x Hx. apply SFltb_false; auto. apply SFleb_refl; auto.
  - intros x y z Hx Hy Hz H1 H2.
    eapply SFleb_ltb_trans; [..|exact H1]; auto. apply SFltb_leb; auto.
  - intros x y z Hx Hy Hz H1 H2. apply SFltb_false in H1, H2; auto.
    apply SFltb_false; auto. eapply SFleb_trans; [..|exact H1|exact H2]; auto.
Qed.

Lemma use_count_range : 1 ≤ use_count n_vocab p ≤ n_vocab.
Proof. unfold use_count. case_goal; bool_prop; lia. Qed.

Lemma sorted_indices_perm : idx ≡ₚ vocab_ids.
Proof.
  apply Hsort; [apply gt_strict_weak|].
  rewrite length_fmap, length_seq. pose proof use_count_range. lia.
Qed.

Lemma length_sorted_indices : length idx = Z.to_nat n_vocab.
Proof. by rewrite sorted_indices_perm, length_fmap, length_seq. Qed.

Lemma elem_of_sorted_indices x : x ∈ idx ↔ 0 ≤ x < n_vocab.
Proof. rewrite sorted_indices_perm. apply elem_of_vocab_ids. Qed.

(** At most [i] logits are larger than the one at a sorted position [i]. *)
Lemma sorted_rank i x :
  (i < Z.to_nat (use_count n_vocab p))%nat → idx !! i = Some x →
  (length (filter (λ j, F32.lt (logit logits x) (logit logits j)) vocab_ids) ≤ i)%nat.
Proof.
  intros Hi Hx. rewrite <- sorted_indices_perm. rewrite <- (take_drop i idx), filter_app, length_app.
  rewrite (filter_none _ (drop i idx)).
  - cbn. rewrite Nat.add_0_r. etransitivity; [apply length_filter|]. rewrite length_take. lia.
  - apply Forall_forall. intros y (k & Hk)%list_elem_of_lookup. rewrite lookup_drop in Hk.
    assert (Hrange : ∀ z, z ∈ idx → not_nan (logit logits z))
      by (intros z Hz; apply Hok; by apply elem_of_sorted_indices).
    destruct (decide (k = 0%nat)) as [->|Hne].
    + rewrite Nat.add_0_r in Hk. simplify_eq. apply list_elem_of_lookup_2, Hrange in Hx.
      assert (F32.lt (logit logits x) (logit logits x) = false) as ->; [|auto].
      apply SFltb_false; auto. by apply SFleb_refl.
    + destruct (Hsort gt (Z.to_nat (use_count n_vocab p)) vocab_ids) as [_ Hord];
        [apply gt_strict_weak| |].
      * rewrite length_fmap, length_seq. pose proof use_count_range. lia.
      * rewrite (Hord i (i + k)%nat x y Hi); [auto|lia|done|done].
Qed.

Local Abbreviation used := (take (Z.to_nat (use_count n_vocab p)) idx).
Local Abbreviation probs := (normalise (softmax_weights logits p used)).

Lemma length_used : length used = Z.to_nat (use_count n_vocab p).
Proof. rewrite length_take, length_sorted_indices. pose proof use_count_range. lia. Qed.

Lemma length_probs : length probs = Z.to_nat (use_count n_vocab p).
Proof. unfold normalise, softmax_weights. by rewrite !length_fmap, length_used. Qed.

Lemma sampled_position g :
  F32.le (sp_temperature p) F32.zero = false →
  ∃ i, (i < nucleus_cut probs p)%nat ∧ (i < Z.to_nat (use_count n_vocab p))%nat ∧
       idx !! i = Some (top_p_sample logits n_vocab p g).1.
Proof.
  intros Htemp. unfold top_p_sample. rewrite (proj2 (Z.leb_gt _ _)), Htemp by lia.
  pose proof use_count_range as Huse. pose proof length_probs as Hlen.
  pose proof (nucleus_cut_range probs p ltac:(lia)) as Hcut.
  case_goal.
  { exists 0%nat. split; [lia|]. split; [lia|]. apply list_lookup_lookup_total_lt.
    rewrite length_sorted_indices. lia. }
  destruct (uniform01 g) as [r g']. cbn [fst].
  set (kept := zip used (normalise (take (nucleus_cut probs p) probs))).
  assert (Hkept : length kept = nucleus_cut probs p).
  { unfold kept. rewrite length_zip_with, length_used. unfold normalise at 1.
    rewrite length_fmap, length_take. lia. }
  destruct (draw_loop_in kept r (idx !!! 0%nat) F32.zero) as (i & q & Hi & Hd).
  { intros ->. cbn in Hkept. lia. }
  exists i. split; [lia|]. split; [lia|].
  apply lookup_zip_with_Some in Hd as (x & y & [= -> _] & Hx & _).
  by rewrite lookup_take_lt in Hx by lia.
Qed.
End Truncation.

(** ** A concrete library

    Insertion sort (sorting the whole range satisfies [std::partial_sort]'s
    contract for every [n]), a constant [expf] and a generator that replays a
    list of draws: the instance on which the theorems below are exercised. *)
Fixpoint insert_by (lt : Z → Z → bool) (x : Z) (l : list Z) : list Z :=
  match l with
  | [] => [x]
  | y :: l' => if lt x y then x :: l else y :: insert_by lt x l'
  end.
Definition sort_by (lt : Z → Z → bool) (l : list Z) : list Z := foldr (insert_by lt) [] l.

#[local] Instance ReplayLib : SamplingLib := {|
  expf := λ _, F32.one;
  partial_sort := λ lt _ l, sort_by lt l;
  generator := list float;
  uniform01 := λ g, (default F32.zero (head g), tail g);
|}.

Lemma strict_weak_order_subseteq lt (l l' : list Z) :
  l' ⊆ l → strict_weak_order lt l → strict_weak_order lt l'.
Proof.
  intros Hsub (H1 & H2 & H3). split; [|split].
  - intros x Hx. by apply H1, Hsub.
  - intros x y z Hx Hy Hz. apply H2; by apply Hsub.
  - intros x y z Hx Hy Hz. apply H3; by apply Hsub.
Qed.

Lemma insert_by_perm lt x l : insert_by lt x l ≡ₚ x :: l.
Proof.
  induction l as [|y l IH]; [done|]. cbn. destruct (lt x y); [done|].
  rewrite IH. apply Permutation_swap.
Qed.

Lemma sort_by_perm lt l : sort_by lt l ≡ₚ l.
Proof. induction l as [|x l IH]; [done|]. cbn. by rewrite insert_by_perm, IH. Qed.

Lemma insert_by_sorted lt x l :
  strict_weak_order lt (x :: l) → StronglySorted (λ a b, lt b a = false) l →
  StronglySorted (λ a b, lt b a = false) (insert_by lt x l).
Proof.
  intros Hswo. induction 1 as [|y l Hs IH Hy]; cbn; [by repeat constructor|].
  assert (Hsub : strict_weak_order lt (x :: l)).
  { eapply strict_weak_order_subseteq; [|exact Hswo]. intros z.
    rewrite !elem_of_cons. tauto. }
  destruct Hswo as (Hirr & Htr & Hneg). destruct (lt x y) eqn:E.
  - constructor; [by constructor|]. constructor.
    { destruct (lt y x) eqn:E'; [|done].
      rewrite <- (Hirr x), (Htr x y x) by (done || set_solver). done. }
    rewrite Forall_forall in Hy |- *. intros z Hz. destruct (lt z x) eqn:E'; [|done].
    rewrite <- (Hy z Hz). rewrite (Htr z x y) by (done || set_solver). done.
  - constructor; [by apply IH|]. rewrite insert_by_perm. by constructor.
Qed.

Lemma sort_by_sorted lt l :
  strict_weak_order lt l → StronglySorted (λ a b, lt b a = false) (sort_by lt l).
Proof.
  induction l as [|x l IH]; intros Hswo; [constructor|]. cbn.
  apply insert_by_sorted; [|apply IH]; (eapply strict_weak_order_subseteq; [|exact Hswo]).
  - intros y. rewrite !elem_of_cons, (sort_by_perm lt l). tauto.
  - set_solver.
Qed.

Lemma StronglySorted_lookup {A} (R : A → A → Prop) l i j x y :
  StronglySorted R l → (i < j)%nat → l !! i = Some x → l !! j = Some y → R x y.
Proof.
  intros Hs. revert i j. induction Hs as [|z l Hs IH Hz]; intros i j Hij Hi Hj; [done|].
  destruct j as [|j]; [lia|]. destruct i as [|i]; [|apply (IH i j); [lia|done..]].
  cbn in Hi, Hj. simplify_eq. by eapply Forall_lookup_1 in Hz.
Qed.

Lemma replay_partial_sort : partial_sort_correct partial_sort.
Proof.
  intros lt n l Hswo Hn. split; [apply sort_by_perm|]. intros i j x y _ Hij Hx Hy.
  by apply (StronglySorted_lookup _ _ i j x y (sort_by_sorted lt l Hswo)).
Qed.

(** ** Properties of [TopPSampler::sample] *)

(** The maximum [stable_max] computes is the logit greedy sampling chooses, on
    any values, not-a-number included. *)
Lemma stable_max_greedy logits n : stable_max logits n = logit logits (greedy logits n).
Proof.
  unfold stable_max, greedy.
  assert (Hl : ∀ left i b, max_loop logits i left (logit logits b)
                           = logit logits (greedy_loop logits i left b (logit logits b))).
  { induction left as [|left IH]; intros i b; [done|]. cbn [max_loop greedy_loop]. unfold std_max.
    destruct (F32.lt (logit logits b) (logit logits i)); apply IH. }
  apply Hl.
Qed.

(** C33. At temperature zero or below the sampler is greedy: it returns the
    first index whose logit is the largest of the vocabulary (every logit is at
    most the chosen one, every earlier one is strictly below), and it does not
    touch the random generator. *)
Theorem greedy_is_first_max `{SamplingLib} logits n_vocab p g :
  0 < n_vocab → logits_ok logits n_vocab → F32.le (sp_temperature p) F32.zero = true →
  first_max logits n_vocab (top_p_sample logits n_vocab p g).1 ∧
  (top_p_sample logits n_vocab p g).2 = g.
Proof.
  intros Hn Hok Ht. unfold top_p_sample. rewrite (proj2 (Z.leb_gt _ _)), Ht by lia.
  split; [by apply greedy_spec|done].
Qed.

(** C32. Above temperature zero the sampled token is one of the vocabulary, and it
    respects both truncations: fewer logits exceed its own than the nucleus
    cut-off, and fewer than [top_k] when [top_k] is in effect; for every
    [std::exp], every generator and every [std::partial_sort] that meets its
    contract. *)
Theorem sample_in_nucleus `{SamplingLib} logits n_vocab p g :
  partial_sort_correct partial_sort → 0 < n_vocab → logits_ok logits n_vocab →
  F32.le (sp_temperature p) F32.zero = false →
  let r := (top_p_sample logits n_vocab p g).1 in
  let used := take (Z.to_nat (use_count n_vocab p)) (sorted_indices logits n_vocab p) in
  let larger := filter (λ j, F32.lt (logit logits r) (logit logits j))
                  (Z.of_nat <$> List.seq 0 (Z.to_nat n_vocab)) in
  0 ≤ r < n_vocab ∧
  (length larger < nucleus_cut (normalise (softmax_weights logits p used)) p)%nat ∧
  (0 < sp_top_k p < n_vocab → Z.of_nat (length larger) < sp_top_k p).
Proof.
  intros Hsort Hn Hok Ht r used larger.
  destruct (sampled_position Hsort logits n_vocab p Hn Hok g Ht) as (i & Hcut & Huse & Hi).
  pose proof (sorted_rank Hsort logits n_vocab p Hn Hok i r Huse Hi) as Hrank.
  split; [|split; [exact (Nat.le_lt_trans _ _ _ Hrank Hcut)|]].
  - apply (elem_of_sorted_indices Hsort logits n_vocab p Hn Hok).
    by apply list_elem_of_lookup_2 with i.
  - intros Hk. unfold use_count in Huse.
    rewrite (proj2 (Z.ltb_lt _ _)), (proj2 (Z.ltb_lt _ _)) in Huse by lia. cbn in Huse.
    pose proof (Nat.le_lt_trans _ _ _ Hrank Huse : (length larger < _)%nat). lia.
Qed.

(** The nucleus is the smallest prefix that carries [top_p]: the cut-off is
    between one and the number of candidates; no shorter non-empty prefix has a
    cumulative probability (added in order, in [float]) that reaches the
    clamped [top_p] when it is below 0.9999; and a proper prefix is cut only
    where the mass is reached. *)
Theorem nucleus_minimal probs p :
  probs ≠ [] →
  let cut := nucleus_cut probs p in
  (1 ≤ cut ≤ length probs)%nat ∧
  (F32.lt (clamped_top_p p) (literalf 9999 4) = true → ∀ k, (1 ≤ k < cut)%nat →
     F32.le (clamped_top_p p) (mass F32.zero (take k probs)) = false) ∧
  ((cut < length probs)%nat →
     F32.le (clamped_top_p p) (mass F32.zero (take cut probs)) = true).
Proof.
  intros Hne cut.
  assert (Hl : (1 ≤ length probs)%nat) by (destruct probs; [done|cbn; lia]).
  pose proof (nucleus_cut_range probs p Hl) as Hr. split; [exact Hr|].
  unfold cut, nucleus_cut in *. destruct (F32.lt _ _); [|split; [done|lia]].
  destruct (nucleus_loop_spec probs (clamped_top_p p) F32.zero 0) as (H1 & H2 & H3 & H4 & H5).
  rewrite Nat.sub_0_r in *. set (n := nucleus_loop _ _ _ _) in *.
  destruct (Nat.leb_spec n 0); [lia|]. split; [intros _; exact H3|].
  intros Hlt. destruct H5 as [->|]; [lia|lia|done].
Qed.

(** Logits 1, 3, 2, 3 over a vocabulary of four tokens. *)
Local Definition demo_logits : list float := F32.of_Z <$> [1; 3; 2; 3].
Local Definition demo_params (t : float) : SamplingParams :=
  {| sp_temperature := t; sp_top_p := literalf 5 1; sp_top_k := 3 |}.

Lemma demo_logits_ok : logits_ok demo_logits 4.
Proof.
  intros i Hi. assert (i = 0 ∨ i = 1 ∨ i = 2 ∨ i = 3) as [->|[->|[->| ->]]] by lia; exact I.
Qed.

Lemma greedy_is_first_max_witness :
  first_max demo_logits 4 1 ∧
  (top_p_sample demo_logits 4 (demo_params F32.zero) []).2 = [].
Proof.
  exact (greedy_is_first_max demo_logits 4 (demo_params F32.zero) [] eq_refl
           demo_logits_ok eq_refl).
Defined.

Lemma sample_in_nucleus_witness :
  (top_p_sample demo_logits 4 (demo_params F32.one) [literalf 9 1]).1 = 1 ∧ 0 ≤ 1 < 4.
Proof.
  split; [vm_compute; reflexivity|].
  exact (proj1 (sample_in_nucleus demo_logits 4 (demo_params F32.one) [literalf 9 1]
    replay_partial_sort eq_refl demo_logits_ok eq_refl)).
Defined.

Lemma nucleus_minimal_witness :
  let probs := literalf 4 1 :: replicate 3 (literalf 2 1) in
  nucleus_cut probs (demo_params F32.one) = 2%nat ∧
  F32.le (literalf 5 1) (mass F32.zero (take 1 probs)) = false.
Proof.
  split; [vm_compute; reflexivity|].
  refine (proj1 (proj2 (nucleus_minimal (literalf 4 1 :: replicate 3 (literalf 2 1))
    (demo_params F32.one) _)) eq_refl 1%nat _); [done|].
  vm_compute. lia.
Defined.
