(* ===== verification/Scheduler.v ===== *)
(** * The scheduler ([src/sched/scheduler.h], [src/sched/scheduler.cpp])

    [Scheduler::tick]: plan, guard, build the batch, decode, account, sample.
    The policy and the sampler are interfaces ([IBatchPolicy], [ISampler]); the
    llama.cpp calls are the class [Llama]. The clock enters as the arguments
    [now_ns] and [dur_ns], the visiting order of the session map as [order].
    An out-of-range read or a failed [assert] makes the result [None]. *)
From stdpp Require Import prelude gmap list strings.
From S2P Require Import Prelude Floating Protocol Session Config Llama Metrics Policy Bmt Sampling.
Import Protocol.
Local Open Scope Z_scope.

(** The interface [IBatchPolicy]. *)
Class IBatchPolicy :=
  plan_tick : SessionPool → list Z → Z → Z → nat → nat → Plan.

#[global] Instance BaselinePolicy : IBatchPolicy := schedule_tick.

(** ** The batch under construction *)

Record SampleRef := {
  sample_fd : Z;
  batch_index : Z;
  state_before : SessionState;
}.

(** The parallel vectors of [tick]; an entry of [seq_ids] is a pointer into
    [seq_id_vals], represented by the index it points at. *)
Record BatchBuf := {
  tokens : list Z;
  n_seq_id : list Z;
  seq_id_vals : list Z;
  seq_ids : list nat;
  logits : list Z;
  pos : list Z;
  samples : list SampleRef;
}.

Definition empty_buf : BatchBuf := {|
  tokens := []; n_seq_id := []; seq_id_vals := []; seq_ids := []; logits := [];
  pos := []; samples := [];
|}.

(** The five pushes for one row. *)
Definition push_row (b : BatchBuf) (t sq p lg : Z) : BatchBuf := {|
  tokens := tokens b ++ [t];
  n_seq_id := n_seq_id b ++ [1];
  seq_id_vals := seq_id_vals b ++ [sq];
  seq_ids := seq_ids b ++ [length (seq_id_vals b)];
  logits := logits b ++ [lg];
  pos := pos b ++ [p];
  samples := samples b;
|}.

(** [samples.push_back({fd, (int)tokens.size() - 1, st})] *)
Definition push_sample (b : BatchBuf) (fd : Z) (st : SessionState) : BatchBuf := {|
  tokens := tokens b; n_seq_id := n_seq_id b; seq_id_vals := seq_id_vals b;
  seq_ids := seq_ids b; logits := logits b; pos := pos b;
  samples := samples b ++
    [{| sample_fd := fd; batch_index := i32 (Z.of_nat (length (tokens b))) - 1;
        state_before := st |}];
|}.

(** ** Enacting the plan *)

(** The chunk loop from [j], with [left] rows to go; [None] when the prompt is
    read out of range. *)
Fixpoint prefill_loop (base_pos chunk j : Z) (left : nat) (s : ClientSession) (b : BatchBuf)
    : option (ClientSession * BatchBuf) :=
  match left with
  | O => Some (s, b)
  | S left' =>
      t ← prompt_tokens s !! prefill_idx s;
      let s1 := s <| prefill_idx := S (prefill_idx s) |> in
      let lg := if j =? chunk - 1 then 1 else 0 in
      let b1 := push_row b t (seq s1) (i32 (base_pos + j)) lg in
      let b2 := if lg =? 1 then push_sample b1 (fd s1) PREFILL else b1 in
      prefill_loop base_pos chunk (j + 1) left' s1 b2
  end.

Definition enact_item (sb : SessionPool * BatchBuf) (item : BatchItem)
    : option (SessionPool * BatchBuf) :=
  let '(sessions, b) := sb in
  match sessions !! item_fd item with
  | None => Some (sessions, b)
  | Some s =>
      match phase item with
      | Phase.DECODE =>
          let t := pending_tok s in
          let s1 := s <| has_pending_tok := false |> in
          let b1 := push_row b t (seq s1) (n_past s1) 1 in
          let b2 := push_sample b1 (fd s1) DECODE in
          Some (<[item_fd item := s1]> sessions, b2)
      | Phase.PREFILL =>
          let chunk := n_tokens item in
          if chunk <? 0 then None (* assert *)
          else
            let base_pos := n_past s in
            '(s1, b1) ← prefill_loop base_pos chunk 0 (Z.to_nat chunk) s b;
            let s2 := s1 <| n_past := i32 (base_pos + chunk) |> in
            Some (<[item_fd item := s2]> sessions, b1)
      end
  end.

Fixpoint enact (sb : SessionPool * BatchBuf) (its : list BatchItem)
    : option (SessionPool * BatchBuf) :=
  match its with
  | [] => Some sb
  | it :: its' => sb' ← enact_item sb it; enact sb' its'
  end.

(** The assertions checked before decoding. The source compares with the capacity
    as a [size_t]; comparing integers is the same for a capacity that is not
    negative, and fails where it is. *)
Definition batch_asserts (batch_cap : Z) (b : BatchBuf) : bool :=
  let n := length (tokens b) in
  bool_decide (length (n_seq_id b) = n) && bool_decide (length (seq_id_vals b) = n) &&
  bool_decide (length (seq_ids b) = n) && bool_decide (length (logits b) = n) &&
  (Z.of_nat n <=? batch_cap) && (Z.of_nat n <=? INT_MAX) &&
  bool_decide (length (filter (λ l, l = 1) (logits b)) = length (samples b)).

(** The [llama_batch] over the vectors: the row pointers are followed. *)
Definition make_batch (b : BatchBuf) : llama_batch := {|
  b_token := tokens b; b_pos := pos b; b_n_seq_id := n_seq_id b;
  b_seq_id := (λ i, seq_id_vals b !!! i) <$> seq_ids b; b_logits := logits b;
|}.

Section Scheduler.
Context `{Llama, IBatchPolicy, ISampler, Conversions}.

Record Scheduler := {
  batch_cap_ : Z;
  target_batch_ : Z;
  rr_decode_idx_ : nat;
  rr_prefill_idx_ : nat;
  ctx_ : llama_context;
  vocab_ : llama_vocab;
  config_ : RuntimeConfig;
  metrics_ : option Metrics;
  decode_ms_ewma_ : double;
  rng_ : rng;
}.

Definition eta_scheduler (s : Scheduler) : Scheduler := {|
  batch_cap_ := batch_cap_ s; target_batch_ := target_batch_ s;
  rr_decode_idx_ := rr_decode_idx_ s; rr_prefill_idx_ := rr_prefill_idx_ s;
  ctx_ := ctx_ s; vocab_ := vocab_ s; config_ := config_ s; metrics_ := metrics_ s;
  decode_ms_ewma_ := decode_ms_ewma_ s; rng_ := rng_ s;
|}.

#[global] Instance set_target_batch_ : Setter target_batch_ := ltac:(derive_setter eta_scheduler).
#[global] Instance set_rr_decode_idx_ : Setter rr_decode_idx_ := ltac:(derive_setter eta_scheduler).
#[global] Instance set_rr_prefill_idx_ : Setter rr_prefill_idx_ := ltac:(derive_setter eta_scheduler).
#[global] Instance set_ctx_ : Setter ctx_ := ltac:(derive_setter eta_scheduler).
#[global] Instance set_metrics_ : Setter metrics_ := ltac:(derive_setter eta_scheduler).
#[global] Instance set_decode_ms_ewma_ : Setter decode_ms_ewma_ := ltac:(derive_setter eta_scheduler).
#[global] Instance set_rng_ : Setter rng_ := ltac:(derive_setter eta_scheduler).

Definition tick_budget_ms_ : double := F64.of_Z 30.

(** The constructor. *)
Definition new_scheduler (ctx : llama_context) (vocab : llama_vocab)
    (cfg : RuntimeConfig) (m : option Metrics) (seed : rng) : Scheduler :=
  let cap := i32 (llama_n_batch ctx) in
  {| batch_cap_ := cap; target_batch_ := cap; rr_decode_idx_ := 0; rr_prefill_idx_ := 0;
     ctx_ := ctx; vocab_ := vocab; config_ := cfg;
     metrics_ := (λ m, set_decode_ms_ewma m tick_budget_ms_) <$> m;
     decode_ms_ewma_ := tick_budget_ms_; rng_ := seed |}.

(** *** Planning with the bandwidth guard *)

Definition guard_metrics (m : Metrics) (budget est : Z) (trimmed : bool) : Metrics :=
  let m := m <| m_bmt_budget_units := budget |> <| bmt_units_last := est |> in
  if trimmed then
    m <| bmt_guard_active := 1 |>
      <| bmt_guard_activations := fetch_add32 (bmt_guard_activations m) 1 |>
  else m <| bmt_guard_active := 0 |>.

Definition plan_phase (sch : Scheduler) (sessions : SessionPool) (order : list Z)
    : Plan * Scheduler :=
  let plan := plan_tick sessions order (batch_cap_ sch) (target_batch_ sch)
                (rr_decode_idx_ sch) (rr_prefill_idx_ sch) in
  let '(plan, sch) :=
    if 0 <? bmt_budget_units (config_ sch) then
      let '(plan', est, trimmed) := bmt_guard sessions (bmt_budget_units (config_ sch)) plan in
      (plan', sch <| metrics_ :=
         (λ m, guard_metrics m (bmt_budget_units (config_ sch)) est trimmed) <$> metrics_ sch |>)
    else (plan, sch) in
  (plan, sch <| rr_decode_idx_ := next_rr_decode_idx plan |>
             <| rr_prefill_idx_ := next_rr_prefill_idx plan |>).

(** *** Metrics of a decoded batch *)

(** The time attributed to decode tokens: [dur_ns * gen_tok / tot_tok]. *)
Definition gen_ns_of (dur_ns gen_tok tot_tok : Z) : Z :=
  if 0 <? tot_tok then u64 (Z.quot (dur_ns * gen_tok) tot_tok) else 0.
Definition pf_ns_of (dur_ns gen_tok tot_tok : Z) : Z :=
  if 0 <? tot_tok then u64 (u64 dur_ns - gen_ns_of dur_ns gen_tok tot_tok) else 0.

(** Rounded milliseconds: [static_cast<uint32_t>(ns / 1000000.0 + 0.5)]. *)
Definition ms_u32_of_ns (ns : Z) : Z :=
  cast_u32 (F64.add (F64.div (F64.of_Z ns) (F64.of_Z 1000000)) (literal 5 1)).

Definition account_split (m : Metrics) (dur_ns n_tok : Z) (plan : Plan) : Metrics :=
  let tot_tok := u64 n_tok in
  let gen_tok := u64 (decode_tok_count plan) in
  let pf_tok := u64 (prefill_tok_count plan) in
  let m := m <| batch_calls_total := fetch_add64 (batch_calls_total m) 1 |> in
  let m := m <| last_batch_size := u32 n_tok |> in
  let m := m <| decode_phase_tokens_total := fetch_add64 (decode_phase_tokens_total m) gen_tok |> in
  let m := m <| prefill_tokens_total := fetch_add64 (prefill_tokens_total m) pf_tok |> in
  let gen_ns := gen_ns_of dur_ns gen_tok tot_tok in
  let pf_ns := pf_ns_of dur_ns gen_tok tot_tok in
  let m := m <| decode_ns_total_gen := fetch_add64 (decode_ns_total_gen m) gen_ns |> in
  let m := m <| prefill_ns_total := fetch_add64 (prefill_ns_total m) pf_ns |> in
  if 0 <? gen_tok then
    let gen_ms_u32 := ms_u32_of_ns gen_ns in
    let m := m <| decode_ms_last := gen_ms_u32 |> in
    let m := m <| decode_ns_total := fetch_add64 (decode_ns_total m) gen_ns |> in
    let m := m <| decode_calls := fetch_add64 (decode_calls m) 1 |> in
    let m := m <| decode_tokens_total := fetch_add64 (decode_tokens_total m) gen_tok |> in
    let m := if gen_ms_u32 <? decode_ms_min m then m <| decode_ms_min := gen_ms_u32 |> else m in
    if decode_ms_max m <? gen_ms_u32 then m <| decode_ms_max := gen_ms_u32 |> else m
  else m.

Definition account_perf (m : Metrics) (pdata : llama_perf_context_data) : Metrics :=
  let half := literal 5 1 in
  let eval_ms := cast_u32 (F64.add (t_eval_ms pdata) half) in
  let p_eval_ms := cast_u32 (F64.add (t_p_eval_ms pdata) half) in
  let m := m <| eval_ms_last := eval_ms |> <| p_eval_ms_last := p_eval_ms |> in
  let m := m <| eval_ns_total :=
    fetch_add64 (eval_ns_total m) (cast_u64 (F64.mul (t_eval_ms pdata) (F64.of_Z 1000000))) |> in
  let m := m <| p_eval_ns_total :=
    fetch_add64 (p_eval_ns_total m) (cast_u64 (F64.mul (t_p_eval_ms pdata) (F64.of_Z 1000000))) |> in
  let m := if 0 <? n_eval pdata then m <| eval_calls := fetch_add64 (eval_calls m) 1 |> else m in
  if 0 <? n_p_eval pdata then m <| p_eval_calls := fetch_add64 (p_eval_calls m) 1 |> else m.

(** *** Adaptive batch target *)

Definition next_ewma (ewma : double) (dur_ns : Z) : double :=
  let ms := F64.div (F64.of_Z dur_ns) (F64.of_Z 1000000) in
  F64.add (F64.mul (literal 8 1) ewma) (F64.mul (literal 2 1) ms).

Definition tune_target (target batch_cap : Z) (ewma : double) : Z :=
  if F64.lt (F64.mul (literal 13 1) tick_budget_ms_) ewma then
    Z.max 8 (cast_i32 (F64.mul (F64.of_Z target) (literal 7 1)))
  else if F64.lt ewma (F64.mul (literal 8 1) tick_budget_ms_) then
    Z.min batch_cap (i32 (target + Z.max 1 (Z.quot target 8)))
  else target.

(** Everything between [llama_decode] and the handling of its return code. *)
Definition account_phase (sch : Scheduler) (plan : Plan) (n_tok dur_ns : Z) : Scheduler :=
  let sch := sch <| metrics_ :=
    (λ m, let m := account_split m dur_ns n_tok plan in
          if enable_perf (config_ sch) then account_perf m (llama_perf_context (ctx_ sch)) else m)
    <$> metrics_ sch |> in
  let ewma := next_ewma (decode_ms_ewma_ sch) dur_ns in
  let sch := sch <| decode_ms_ewma_ := ewma |> in
  let sch := sch <| metrics_ := (λ m, set_decode_ms_ewma m ewma) <$> metrics_ sch |> in
  sch <| target_batch_ := tune_target (target_batch_ sch) (batch_cap_ sch) ewma |>.

(** *** A failed decode *)

Definition fail_session (s : ClientSession) : ClientSession :=
  let s := s <| last_error := str "decode error" |> in
  let s := s <| state := ERRORED |> in
  let s := s <| tx := append_error_event (tx s) (request_id s)
                        (str "E_RUNTIME_DECODE") (str "decode failed") |> in
  s <| read_closed := true |>.

Definition fail_sample (sessions : SessionPool) (r : SampleRef) : SessionPool :=
  match sessions !! sample_fd r with
  | None => sessions
  | Some s => <[sample_fd r := fail_session s]> sessions
  end.

(** *** A sampled token *)

Definition mark_emit (s : ClientSession) (now_ns : Z) : ClientSession :=
  let s := if first_emit_ns s =? 0 then s <| first_emit_ns := now_ns |> else s in
  s <| last_emit_ns := now_ns |>.

Definition emit_piece (vocab : llama_vocab) (s : ClientSession) (new_id : Z) : ClientSession :=
  let piece := token_to_piece_str (Some vocab) new_id true in
  if bool_decide (piece = []) then s
  else s <| tx := append_token_event (tx s) (request_id s) piece new_id |>.

(** First token after a prefill chunk. *)
Definition after_prefill (vocab : llama_vocab) (now_ns new_id : Z) (s : ClientSession)
    : ClientSession :=
  let s := s <| pending_tok := new_id |> <| has_pending_tok := true |> <| state := DECODE |> in
  mark_emit (emit_piece vocab s new_id) now_ns.

(** End of stream. *)
Definition finish_stream (limit_hit : bool) (now_ns : Z) (s : ClientSession) : ClientSession :=
  let s := s <| tx := append_eos_event (tx s) (request_id s)
                        (if limit_hit then str "length" else str "stop") |> in
  let s := s <| state := STREAM |> <| n_past := 0 |> in
  mark_emit s now_ns.

(** One more generated token. *)
Definition after_decode (vocab : llama_vocab) (now_ns new_id : Z) (s : ClientSession)
    : ClientSession :=
  let s := emit_piece vocab s new_id in
  let s := s <| generated_count := u32 (generated_count s + 1) |> in
  let s := s <| pending_tok := new_id |> <| has_pending_tok := true |> in
  let s := s <| n_past := i32 (n_past s + 1) |> <| state := DECODE |> in
  mark_emit s now_ns.

Definition count_token (m : Metrics) : Metrics :=
  m <| tokens_generated_total := fetch_add64 (tokens_generated_total m) 1 |>.

Definition params_of (s : ClientSession) : SamplingParams := {|
  sp_temperature := F32.of_double (temperature s);
  sp_top_p := F32.of_double (top_p s);
  sp_top_k := top_k s;
|}.

(** One iteration of the sampling loop. *)
Definition apply_sample (now_ns : Z) (st : Scheduler * SessionPool * list Z) (r : SampleRef)
    : Scheduler * SessionPool * list Z :=
  let '(sch, sessions, result_fds) := st in
  match sessions !! sample_fd r with
  | None => st
  | Some s =>
      let need_arm := bool_decide (tx s = []) in
      match llama_get_logits_ith (ctx_ sch) (batch_index r) with
      | None => st
      | Some logits_row =>
          let '(new_id, rng') :=
            sample logits_row (llama_vocab_n_tokens (vocab_ sch)) (params_of s) (rng_ sch) in
          let sch := sch <| rng_ := rng' |> in
          let limit_hit := max_tokens (config_ sch) <=? generated_count s in
          let '(sch, s') :=
            if decide (state_before r = PREFILL) then
              (sch <| metrics_ := count_token <$> metrics_ sch |>,
               after_prefill (vocab_ sch) now_ns new_id s)
            else if llama_vocab_is_eog (vocab_ sch) new_id || limit_hit then
              (sch <| ctx_ := llama_memory_seq_rm (ctx_ sch) (seq s) (-1) (-1) |>,
               finish_stream limit_hit now_ns s)
            else
              (sch <| metrics_ := count_token <$> metrics_ sch |>,
               after_decode (vocab_ sch) now_ns new_id s) in
          (sch, <[sample_fd r := s']> sessions,
           if need_arm then result_fds ++ [fd s'] else result_fds)
      end
  end.

(** *** [Scheduler::tick] *)

Definition decode_phase (sch : Scheduler) (plan : Plan) (sessions : SessionPool) (b : BatchBuf)
    (now_ns dur_ns : Z) : Scheduler * SessionPool * list Z :=
  let sch :=
    if enable_perf (config_ sch)
    then sch <| ctx_ := llama_perf_context_reset (ctx_ sch) |> else sch in
  let '(ctx', dec_rc) := llama_decode (ctx_ sch) (make_batch b) in
  let sch := sch <| ctx_ := llama_synchronize ctx' |> in
  let sch := account_phase sch plan (Z.of_nat (length (tokens b))) dur_ns in
  if dec_rc =? 0
  then foldl (apply_sample now_ns) (sch, sessions, []) (samples b)
  else (sch, foldl fail_sample sessions (samples b), []).

Definition tick (sch : Scheduler) (sessions : SessionPool) (order : list Z)
    (now_ns dur_ns : Z) : option (Scheduler * SessionPool * list Z) :=
  let '(plan, sch) := plan_phase sch sessions order in
  '(sessions, b) ← enact (sessions, empty_buf) (items plan);
  if bool_decide (tokens b = []) then Some (sch, sessions, [])
  else if batch_asserts (batch_cap_ sch) b
  then Some (decode_phase sch plan sessions b now_ns dur_ns)
  else None.

End Scheduler.
