(* ===== verification/Daemon.v ===== *)
(** * The daemon's event loop ([src/umad/main.cpp])

    One iteration of the main loop: the readiness test that chooses the
    timeout, the handling of each event, the idle clean-up and the scheduler
    tick with write arming. What the system calls answer (the descriptor
    accepted, the bytes read, the number of bytes written, the time) is part
    of the event. The metrics object and the model context that [main] shares
    with the scheduler are the ones in the scheduler's record; the daemon's
    configuration is the scheduler's copy of it. *)
From stdpp Require Import prelude gmap list strings.
From S2P Require Import Prelude Floating Protocol Session Config Poller Llama Metrics SessionManager Policy Bmt Sampling Scheduler.
Import Protocol.
Local Open Scope Z_scope.

(** ** Definitions *)

(** What [::write] answered. *)
Inductive WriteResult := Wrote (n : Z) | WouldBlock | WriteFailed.

(** What the system calls made by the handler of an event answer: the time,
    the descriptor accepted (if any), the reads, the one write attempt of the
    read branch, the writes of the write branch with the time read after each. *)
Record Answers := {
  an_now : Z;
  an_accept : option Z;
  an_reads : ReadInput;
  an_write_now : WriteResult;
  an_writes : list (WriteResult * Z);
}.

(** The assignments that make a connection ready for its next request. *)
Definition reset_session (s : ClientSession) : ClientSession :=
  s <| state := RECV_REQ |> <| prompt_tokens := [] |> <| prefill_idx := 0%nat |>
    <| generated_count := 0 |> <| has_pending_tok := false |> <| n_past := 0 |>
    <| req_start_ns := 0 |> <| first_emit_ns := 0 |> <| last_emit_ns := 0 |>.

(** Whether a session has work for the scheduler. *)
Definition ready (s : ClientSession) : bool :=
  (bool_decide (state s = PREFILL) && (prefill_idx s <? length (prompt_tokens s))%nat) ||
  (bool_decide (state s = DECODE) && has_pending_tok s).

Definition has_ready_work (sessions : SessionPool) (order : list Z) : bool :=
  existsb (λ k, match sessions !! k with Some s => ready s | None => false end) order.

Definition wait_timeout_ms (sessions : SessionPool) (order : list Z) : Z :=
  if has_ready_work sessions order then 0 else 200 * 1000 * 1000.

Definition metrics_payload (js : bytes) : bytes :=
  jstr "{'event':'metrics','metrics':" ++ js ++ str "}".

Section Daemon.
Context `{Llama, Kernel, IBatchPolicy, ISampler, Conversions, LongDouble}.

Record Daemon := {
  d_manager : SessionManager;
  d_kq : kq;
  d_sched : Scheduler;
}.

Definition eta_daemon (d : Daemon) : Daemon :=
  {| d_manager := d_manager d; d_kq := d_kq d; d_sched := d_sched d |}.
#[global] Instance set_d_manager : Setter d_manager := ltac:(derive_setter eta_daemon).
#[global] Instance set_d_kq : Setter d_kq := ltac:(derive_setter eta_daemon).
#[global] Instance set_d_sched : Setter d_sched := ltac:(derive_setter eta_daemon).

Definition d_cfg (d : Daemon) : RuntimeConfig := config_ (d_sched d).
Definition d_pool (d : Daemon) : SessionPool := sessions_ (d_manager d).

(** [sessions.close(fd, poller, gctx)] *)
Definition close_client (d : Daemon) (f : Z) : Daemon :=
  let '(m, q, c) := close (d_manager d) f (d_kq d) (Some (ctx_ (d_sched d))) in
  {| d_manager := m; d_kq := q;
     d_sched := (d_sched d) <| ctx_ := default (ctx_ (d_sched d)) c |> |}.

(** Writing a changed session back. *)
Definition put (d : Daemon) (f : Z) (s : ClientSession) : Daemon :=
  d <| d_manager := (d_manager d) <| sessions_ := <[f := s]> (d_pool d) |> |>.

Definition arm (d : Daemon) (f interest : Z) : Daemon :=
  d <| d_kq := (poller_add (d_kq d) f interest).1 |>.
Definition disarm (d : Daemon) (f interest : Z) : Daemon :=
  d <| d_kq := (poller_remove (d_kq d) f interest).1 |>.

(** What happens when everything has been written: an errored session and a
    session whose peer closed are closed, a finished one is made ready for the
    next request ([rearm]: the read branch re-registers for reading). *)
Definition all_written (d : Daemon) (f : Z) (s : ClientSession) (rearm : bool) : Daemon :=
  if decide (state s = ERRORED) then close_client d f
  else if decide (state s = STREAM) then
    if read_closed s then close_client d f
    else
      let d := put d f (reset_session s) in
      if rearm then arm d f PollFlags.Read else d
  else d.

(** The accept branch. *)
Definition on_accept (d : Daemon) (cfd : option Z) (now_ns : Z) : Daemon :=
  match cfd with
  | None => d
  | Some c =>
      let d := d <| d_kq := kq_opened (d_kq d) c |> in
      if max_sessions (d_cfg d) <=? Z.of_nat (size (d_pool d)) then
        d <| d_kq := kq_close (d_kq d) c |>
      else
        let d := d <| d_manager := add_client (d_manager d) c now_ns |> in
        arm d c PollFlags.Read
  end.

(** The metrics answer of the read branch. *)
Definition answer_metrics (dbg : bool) (d : Daemon) (f : Z) (s : ClientSession) : Daemon :=
  let js := match metrics_ (d_sched d) with
            | Some m => to_json m (u32 (Z.of_nat (size (d_pool d)))) dbg
            | None => []
            end in
  let s := s <| tx := write_frame (tx s) (metrics_payload js) |> in
  let s := s <| state := STREAM |> <| read_closed := true |> in
  disarm (put d f s) f PollFlags.Read.

(** The write attempt of the read branch. *)
Definition write_now (s : ClientSession) (w : WriteResult) : ClientSession :=
  if bool_decide (tx s = []) then s
  else match w with
       | Wrote n => if 0 <? n then s <| tx := drop (Z.to_nat n) (tx s) |> else s
       | _ => s
       end.

Definition flush_answer (d : Daemon) (f : Z) (s : ClientSession) (w : WriteResult) : Daemon :=
  let s := write_now s w in
  let d := put d f s in
  if bool_decide (tx s = []) then all_written d f s true
  else arm d f PollFlags.Write.

Definition on_read_event (dbg : bool) (d : Daemon) (f now_ns : Z) (input : ReadInput)
    (w : WriteResult) : Daemon :=
  let '(rr, m) := on_readable (d_manager d) f (d_cfg d) (Some (vocab_ (d_sched d))) now_ns input in
  let d := d <| d_manager := m |> in
  match find m f with
  | None => d
  | Some s =>
      let d := if admin_request rr then answer_metrics dbg d f s else d in
      let wants := wants_write rr || admin_request rr in
      let d := if removed_read rr then disarm d f PollFlags.Read else d in
      if wants then
        match find (d_manager d) f with
        | Some s => flush_answer d f s w
        | None => d
        end
      else d
  end.

(** The write loop: what is left to do with the session, [None] when the
    answers run out before the loop does. *)
Inductive WriteLoop := Drained (s : ClientSession) | Blocked (s : ClientSession) | Broken (s : ClientSession).

Fixpoint write_loop (s : ClientSession) (ws : list (WriteResult * Z)) : option WriteLoop :=
  if bool_decide (tx s = []) then Some (Drained s)
  else match ws with
       | [] => None
       | (WouldBlock, _) :: _ => Some (Blocked s)
       | (WriteFailed, _) :: _ => Some (Broken s)
       | (Wrote n, now_ns) :: ws' =>
           write_loop
             (s <| tx := drop (Z.to_nat n) (tx s) |> <| last_activity_ns := now_ns |>) ws'
       end.

Definition on_write_event (d : Daemon) (f : Z) (ws : list (WriteResult * Z)) : option Daemon :=
  match find (d_manager d) f with
  | None => Some d
  | Some s =>
      r ← write_loop s ws;
      Some (match r with
            | Broken s' => close_client (put d f s') f
            | Blocked s' => put d f s'
            | Drained s' => all_written (disarm (put d f s') f PollFlags.Write) f s' false
            end)
  end.

(** The dispatch: an event that is readable and writable is only read. *)
Definition on_event (dbg : bool) (server_fd : Z) (d : Daemon) (ev : PollEvent) (a : Answers)
    : option Daemon :=
  if bool_decide (ev_fd ev = server_fd) && readable ev then
    Some (on_accept d (an_accept a) (an_now a))
  else if readable ev then
    Some (on_read_event dbg d (ev_fd ev) (an_now a) (an_reads a) (an_write_now a))
  else if writable ev then on_write_event d (ev_fd ev) (an_writes a)
  else Some d.

Fixpoint on_events (dbg : bool) (server_fd : Z) (d : Daemon) (es : list (PollEvent * Answers))
    : option Daemon :=
  match es with
  | [] => Some d
  | (ev, a) :: es' => d' ← on_event dbg server_fd d ev a; on_events dbg server_fd d' es'
  end.

(** The idle clean-up: unsigned arithmetic on nanoseconds. *)
Definition idle_ns (cfg : RuntimeConfig) : Z :=
  u64 (u64 (u64 (u64 (idle_timeout_sec cfg) * 1000) * 1000) * 1000).

Definition is_idle (cfg : RuntimeConfig) (now : Z) (s : ClientSession) : bool :=
  (0 <? idle_ns cfg) && (idle_ns cfg <? u64 (now - last_activity_ns s)).

Definition close_idle (d : Daemon) (order : list Z) (now : Z) : Daemon :=
  let to_close := omap (λ k, match d_pool d !! k with
                             | Some s => if is_idle (d_cfg d) now s then Some (fd s) else None
                             | None => None
                             end) order in
  foldl close_client d to_close.

(** The tick and the arming of the descriptors it hands back. *)
Definition arm_output (d : Daemon) (f : Z) : Daemon :=
  match find (d_manager d) f with
  | Some s => if bool_decide (tx s = []) then d else arm d f PollFlags.Write
  | None => d
  end.

Definition tick_and_arm (d : Daemon) (order : list Z) (now_ns dur_ns : Z) : option Daemon :=
  '(sch, pool, fds) ← tick (d_sched d) (d_pool d) order now_ns dur_ns;
  Some (foldl arm_output
          (d <| d_sched := sch |> <| d_manager := (d_manager d) <| sessions_ := pool |> |>) fds).

(** What one iteration is given besides the state: the events with their
    answers, the times, and the orders in which the loops over the session map
    visit it. *)
Record LoopInput := {
  li_dbg : bool;
  li_server_fd : Z;
  li_events : list (PollEvent * Answers);
  li_now : Z;
  li_close_order : list Z;
  li_tick_order : list Z;
  li_tick_now : Z;
  li_tick_dur : Z;
}.

(** An iteration in which [kevent] did not fail. *)
Definition iteration (d : Daemon) (i : LoopInput) : option Daemon :=
  d1 ← on_events (li_dbg i) (li_server_fd i) d (li_events i);
  let d2 := close_idle d1 (li_close_order i) (li_now i) in
  tick_and_arm d2 (li_tick_order i) (li_tick_now i) (li_tick_dur i).
End Daemon.
