(* ===== verification/JsonGrammar.v ===== *)
(** * The daemon's messages are JSON

    An independent reader of JSON (RFC 8259: a grammar over well-formed UTF-8
    text) without white space, arrays and literals, a printer of which it is the
    inverse, and the payloads of the protocol as printed values. *)
From stdpp Require Import prelude list strings.
From Stdlib Require Import ZifyBool.
From S2P Require Import Prelude Floating CLib Protocol Utf8 Metrics Daemon.
Import Protocol.
Local Open Scope Z_scope.

(** The two escapers of the program agree. *)
Lemma escapers_agree s : metrics_json_escape s = json_escape s.
Proof.
  assert (Hb : ∀ c, metrics_escape_byte c = escape_byte c) by (intros c; destruct c; reflexivity).
  unfold metrics_json_escape, json_escape. induction s as [|c s IH]; [done|]. cbn. by rewrite Hb, IH.
Qed.

(** ** Values and their text *)

(** A number is kept as its text. *)
Inductive JValue :=
| JString (s : bytes)
| JNumber (text : bytes)
| JObject (members : list (bytes * JValue)).

Local Abbreviation quote := Init.Byte.x22.
Local Abbreviation backslash := Init.Byte.x5c.
Local Abbreviation comma := Init.Byte.x2c.
Local Abbreviation colon := Init.Byte.x3a.
Local Abbreviation minus := Init.Byte.x2d.
Local Abbreviation dot := Init.Byte.x2e.
Local Abbreviation zero := Init.Byte.x30.
Local Abbreviation lbrace := Init.Byte.x7b.
Local Abbreviation rbrace := Init.Byte.x7d.

(** *** Reading *)

(** The character behind a backslash. *)
Definition json_unescape (e : byte) : option byte :=
  if decide (e = quote) then Some quote
  else if decide (e = backslash) then Some backslash
  else if decide (e = Init.Byte.x2f) then Some Init.Byte.x2f
  else if decide (e = Init.Byte.x62) then Some Init.Byte.x08
  else if decide (e = Init.Byte.x66) then Some Init.Byte.x0c
  else if decide (e = Init.Byte.x6e) then Some Init.Byte.x0a
  else if decide (e = Init.Byte.x72) then Some Init.Byte.x0d
  else if decide (e = Init.Byte.x74) then Some Init.Byte.x09
  else None.

Definition hex_value (c : byte) : option Z :=
  let v := byte_val c in
  if (0x30 <=? v) && (v <=? 0x39) then Some (v - 0x30)
  else if (0x61 <=? v) && (v <=? 0x66) then Some (v - 0x61 + 10)
  else if (0x41 <=? v) && (v <=? 0x46) then Some (v - 0x41 + 10)
  else None.

(** [\uXXXX] for a character of one byte. *)
Definition json_code (h1 h2 h3 h4 : byte) : option byte :=
  a ← hex_value h1; b ← hex_value h2; c ← hex_value h3; d ← hex_value h4;
  let v := ((a * 16 + b) * 16 + c) * 16 + d in
  if v <? 0x80 then Some (byte_of_Z v) else None.

(** The rest of a string, up to its closing quote. *)
Fixpoint json_body (s : bytes) : option (bytes * bytes) :=
  match s with
  | [] => None
  | c :: s1 =>
      if decide (c = quote) then Some ([], s1)
      else if decide (c = backslash) then
        match s1 with
        | [] => None
        | e :: s2 =>
            if decide (e = Init.Byte.x75) then
              match s2 with
              | h1 :: h2 :: h3 :: h4 :: s3 =>
                  v ← json_code h1 h2 h3 h4; '(out, rest) ← json_body s3; Some (v :: out, rest)
              | _ => None
              end
            else v ← json_unescape e; '(out, rest) ← json_body s2; Some (v :: out, rest)
        end
      else if byte_val c <? 0x20 then None
      else '(out, rest) ← json_body s1; Some (c :: out, rest)
  end.

Definition is_number_byte (c : byte) : bool := is_digit c || bool_decide (c = minus) || bool_decide (c = dot).

Fixpoint span_number (s : bytes) : bytes * bytes :=
  match s with
  | c :: s' => if is_number_byte c then let '(t, rest) := span_number s' in (c :: t, rest) else ([], s)
  | [] => ([], [])
  end.

(** An integer part has no superfluous zero, a fraction has a digit. *)
Definition int_part (ds : bytes) : bool :=
  match ds with
  | [] => false
  | [_] => true
  | c :: _ => negb (bool_decide (c = zero))
  end.

Definition is_number (t : bytes) : bool :=
  let t := match t with c :: t' => if decide (c = minus) then t' else t | [] => [] end in
  let '(ds, rest) := span_digits t in
  int_part ds &&
  match rest with
  | [] => true
  | c :: f => bool_decide (c = dot) && negb (bool_decide (f = [])) && forallb is_digit f
  end.

Fixpoint json_value (fuel : nat) (s : bytes) : option (JValue * bytes) :=
  match fuel, s with
  | O, _ | _, [] => None
  | S fuel', c :: s1 =>
      if decide (c = quote) then '(b, rest) ← json_body s1; Some (JString b, rest)
      else if decide (c = lbrace) then '(ms, rest) ← json_members fuel' s1; Some (JObject ms, rest)
      else let '(t, rest) := span_number s in if is_number t then Some (JNumber t, rest) else None
  end
with json_members (fuel : nat) (s : bytes) : option (list (bytes * JValue) * bytes) :=
  match fuel, s with
  | O, _ | _, [] => None
  | S fuel', q :: s1 =>
      if decide (q = quote) then
        '(k, r) ← json_body s1;
        match r with
        | [] => None
        | c :: r1 =>
            if decide (c = colon) then
              '(v, r2) ← json_value fuel' r1;
              match r2 with
              | [] => None
              | d :: r3 =>
                  if decide (d = comma) then '(ms, r4) ← json_members fuel' r3; Some ((k, v) :: ms, r4)
                  else if decide (d = rbrace) then Some ([(k, v)], r3) else None
              end
            else None
        end
      else None
  end.

(** A text has to be UTF-8 (section 8.1 of the RFC) and one value. *)
Definition json_parse (s : bytes) : option JValue :=
  if is_valid_utf8 s
  then match json_value (length s) s with Some (v, []) => Some v | _ => None end
  else None.

(** *** Printing *)

Definition quoted (s : bytes) : bytes := quote :: json_escape s ++ [quote].

Fixpoint print (v : JValue) : bytes :=
  match v with
  | JString s => quoted s
  | JNumber t => t
  | JObject ms =>
      lbrace ::
      (fix members (ms : list (bytes * JValue)) : bytes :=
         match ms with
         | [] => [rbrace]
         | (k, v) :: ms' =>
             quoted k ++ colon :: print v ++
             match ms' with [] => [rbrace] | _ => comma :: members ms' end
         end) ms
  end.

Fixpoint print_members (ms : list (bytes * JValue)) : bytes :=
  match ms with
  | [] => [rbrace]
  | (k, v) :: ms' =>
      quoted k ++ colon :: print v ++ match ms' with [] => [rbrace] | _ => comma :: print_members ms' end
  end.

(** Values with an RFC text: numbers are numbers, objects are not empty. *)
Inductive printable_value : JValue → Prop :=
| printable_string s : printable_value (JString s)
| printable_number t : is_number t = true → forallb is_number_byte t = true → printable_value (JNumber t)
| printable_object ms : ms ≠ [] → Forall (λ m, printable_value m.2) ms → printable_value (JObject ms).

(** ** The reader inverts the printer *)

Lemma json_body_escape_byte c X :
  json_body (escape_byte c ++ X) = '(out, rest) ← json_body X; Some (c :: out, rest).
Proof. destruct c; reflexivity. Qed.

Lemma json_body_escaped s rest : json_body (json_escape s ++ quote :: rest) = Some (s, rest).
Proof.
  induction s as [|c s IH]; [reflexivity|].
  change (json_escape (c :: s)) with (escape_byte c ++ json_escape s).
  by rewrite <- app_assoc, json_body_escape_byte, IH.
Qed.

Lemma json_body_quoted s rest : json_body ((json_escape s ++ [quote]) ++ rest) = Some (s, rest).
Proof. rewrite <- app_assoc. apply json_body_escaped. Qed.

Lemma quoted_app s rest : quoted s ++ rest = quote :: json_escape s ++ quote :: rest.
Proof. unfold quoted. cbn [app]. by rewrite <- app_assoc. Qed.

Lemma print_object ms : print (JObject ms) = lbrace :: print_members ms.
Proof. reflexivity. Qed.

Lemma span_number_spec t rest :
  forallb is_number_byte t = true →
  match rest with c :: _ => is_number_byte c = false | [] => True end →
  span_number (t ++ rest) = (t, rest).
Proof.
  intros Ht Hr. induction t as [|c t IH]; cbn.
  - destruct rest as [|c rest]; [done|]. cbn. by rewrite Hr.
  - cbn in Ht. apply andb_true_iff in Ht as [-> Ht]. by rewrite (IH Ht).
Qed.

(** What may follow a value inside an object, or at the end. *)
Definition follow (rest : bytes) : Prop :=
  match rest with c :: _ => c = comma ∨ c = rbrace | [] => True end.

Lemma number_head t : is_number t = true → forallb is_number_byte t = true →
  ∃ c t', t = c :: t' ∧ c ≠ quote ∧ c ≠ lbrace.
Proof.
  destruct t as [|c t]; [done|]. intros _ [Hc _]%andb_true_iff. exists c, t.
  split_and!; [done|by intros ->..].
Qed.

(** The depth of calls a value needs. *)
Fixpoint jsize (v : JValue) : nat :=
  match v with
  | JString _ | JNumber _ => 1%nat
  | JObject ms => S ((fix sizes (ms : list (bytes * JValue)) : nat :=
                        match ms with [] => 0%nat | (_, v) :: ms' => S (jsize v + sizes ms') end) ms)
  end.

Fixpoint sizes (ms : list (bytes * JValue)) : nat :=
  match ms with [] => 0%nat | (_, v) :: ms' => S (jsize v + sizes ms') end.

Lemma jsize_object ms : jsize (JObject ms) = S (sizes ms).
Proof. reflexivity. Qed.

Lemma read_print fuel :
  (∀ v rest, printable_value v → follow rest → (jsize v ≤ fuel)%nat →
     json_value fuel (print v ++ rest) = Some (v, rest)) ∧
  (∀ ms rest, ms ≠ [] → Forall (λ m, printable_value m.2) ms → (sizes ms ≤ fuel)%nat →
     json_members fuel (print_members ms ++ rest) = Some (ms, rest)).
Proof.
  induction fuel as [|fuel [IHv IHm]]; split.
  - intros v rest _ _ Hn. destruct v; cbn in Hn; lia.
  - intros [|[k v] ms] rest Hne _ Hn; [done|]. cbn in Hn. lia.
  - intros v rest Hv Hf Hn. destruct Hv as [s|t Ht Hb|ms Hne Hms].
    + cbn [print]. unfold quoted. cbn [app json_value]. rewrite decide_True by done.
      by rewrite json_body_quoted.
    + destruct (number_head t Ht Hb) as (c & t' & -> & Hq & Hl). cbn [print app json_value].
      rewrite !decide_False by done. change (c :: t' ++ rest) with ((c :: t') ++ rest).
      rewrite span_number_spec; [by rewrite Ht|done|].
      destruct rest as [|d rest]; [done|]. by destruct Hf as [-> | ->].
    + rewrite print_object. cbn [app json_value].
      rewrite decide_False, decide_True by done. rewrite IHm; [done|done|done|].
      rewrite jsize_object in Hn. lia.
  - intros [|[k v] ms] rest Hne Hms Hn; [done|]. apply Forall_cons in Hms as [Hv Hms].
    cbn [sizes] in Hn. cbn [snd] in Hv.
    cbn [print_members]. rewrite <- app_assoc. unfold quoted. cbn [app json_members].
    rewrite decide_True by done. rewrite json_body_quoted. cbn [mbind option_bind].
    rewrite decide_True by done. rewrite <- app_assoc. destruct ms as [|m ms].
    + rewrite IHv; [|done|by right|lia]. cbn [mbind option_bind app].
      rewrite decide_False, decide_True by done. done.
    + rewrite IHv; [|done|by left|lia]. cbn [mbind option_bind app].
      rewrite decide_True by done. rewrite IHm; [done|done|done|lia].
Qed.

Lemma jsize_length n :
  (∀ v, printable_value v → (jsize v ≤ n)%nat → (jsize v ≤ length (print v))%nat) ∧
  (∀ ms, Forall (λ m, printable_value m.2) ms → (sizes ms ≤ n)%nat →
     (sizes ms < length (print_members ms))%nat).
Proof.
  induction n as [|n [IHv IHm]]; split.
  - intros v _ Hn. destruct v; cbn in Hn; lia.
  - intros [|[k v] ms] _ Hn; cbn in *; lia.
  - intros v Hv Hn. destruct Hv as [s|t Ht Hb|ms Hne Hms].
    + cbn. lia.
    + destruct (number_head t Ht Hb) as (c & t' & -> & _). cbn. lia.
    + rewrite print_object, jsize_object in *. cbn [length]. pose proof (IHm ms Hms ltac:(lia)). lia.
  - intros [|[k v] ms] Hms Hn; [cbn; lia|]. apply Forall_cons in Hms as [Hv Hms]. cbn [snd] in Hv.
    cbn [sizes print_members] in *. rewrite length_app. cbn [length]. rewrite length_app.
    assert (length (quoted k) ≠ 0)%nat by done. pose proof (IHv v Hv ltac:(lia)).
    destruct ms as [|m ms]; [cbn; lia|]. pose proof (IHm (m :: ms) Hms ltac:(lia)). cbn [length]. lia.
Qed.

(** ** UTF-8 *)

Definition is_ascii (c : byte) : bool := byte_val c <=? 0x7F.

(** Outside a character the validator is in its start state. *)
Definition settled_state (st : Utf8State) : Prop := u_remaining st = 0 → st = utf8_start.

Lemma ascii_step st c :
  is_ascii c = true →
  utf8_step st (byte_val c) = if u_remaining st =? 0 then Some st else None.
Proof.
  unfold is_ascii. intros Hc. unfold utf8_step. rewrite Hc. destruct (u_remaining st =? 0); [done|].
  pose proof (continuation_mask (byte_val c) (byte_val_range c)) as Hm. unfold continuation in Hm.
  destruct (Z.land (byte_val c) 0xC0 =? 0x80); [|done]. destruct (proj1 Hm eq_refl). lia.
Qed.

Lemma step_settles st c st' : utf8_step st c = Some st' → settled_state st → settled_state st'.
Proof.
  unfold utf8_step, settled_state. intros E Hst. repeat case_match; simplify_eq; cbn; try done; lia.
Qed.

(** A character of one byte ends whatever came before it. *)
Lemma loop_ascii q X : is_ascii q = true → ∀ s st,
  settled_state st → utf8_loop st (s ++ q :: X) = utf8_loop st s && is_valid_utf8 X.
Proof.
  intros Hq s. induction s as [|c s IH]; intros st Hst; cbn [app utf8_loop].
  - rewrite ascii_step by done. destruct (Z.eqb_spec (u_remaining st) 0) as [E|E]; [|done].
    by rewrite (Hst E).
  - destruct (utf8_step st (byte_val c)) as [st'|] eqn:E; [|done]. apply IH. by eapply step_settles.
Qed.

Lemma loop_escape s X : ∀ st, utf8_loop st (json_escape s ++ X) = utf8_loop st (s ++ X).
Proof.
  induction s as [|c s IH]; intros st; [done|].
  change (json_escape (c :: s)) with (escape_byte c ++ json_escape s). rewrite <- app_assoc.
  assert (Hc : (∃ a l, escape_byte c = a :: l ∧ is_ascii c = true ∧ is_ascii a = true ∧
                forallb is_ascii l = true) ∨ escape_byte c = [c]).
  { destruct c; first [right; reflexivity | left; eexists _, _; split_and!; reflexivity]. }
  destruct Hc as [(a & l & -> & Hc & Ha & Hl)| ->]; cbn [app utf8_loop].
  - rewrite !ascii_step by done. destruct (u_remaining st =? 0) eqn:E; [|done].
    clear Ha. induction l as [|b l IHl]; cbn [app]; [apply IH|].
    cbn in Hl. apply andb_true_iff in Hl as [Hb Hl]. cbn [utf8_loop].
    rewrite ascii_step, E by done. by apply IHl.
  - destruct (utf8_step st (byte_val c)); [apply IH|done].
Qed.

Lemma valid_ascii_app a X : forallb is_ascii a = true → is_valid_utf8 (a ++ X) = is_valid_utf8 X.
Proof.
  induction a as [|c a IH]; [done|]. cbn [forallb app]. intros [Hc Ha]%andb_true_iff.
  unfold is_valid_utf8. cbn [utf8_loop]. rewrite ascii_step by done. by apply IH.
Qed.

Lemma valid_cons c X : is_ascii c = true → is_valid_utf8 (c :: X) = is_valid_utf8 X.
Proof. intros Hc. apply (valid_ascii_app [c]). cbn. by rewrite Hc. Qed.

Lemma valid_quoted s X : is_valid_utf8 (quoted s ++ X) = is_valid_utf8 s && is_valid_utf8 X.
Proof.
  rewrite quoted_app, valid_cons by done. unfold is_valid_utf8 at 1. rewrite loop_escape.
  by apply loop_ascii.
Qed.

(** Whether the strings of a value are UTF-8. *)
Fixpoint utf8_value (v : JValue) : bool :=
  match v with
  | JString s => is_valid_utf8 s
  | JNumber _ => true
  | JObject ms =>
      (fix members (ms : list (bytes * JValue)) : bool :=
         match ms with [] => true | (k, v) :: ms' => is_valid_utf8 k && utf8_value v && members ms' end) ms
  end.

Fixpoint utf8_members (ms : list (bytes * JValue)) : bool :=
  match ms with [] => true | (k, v) :: ms' => is_valid_utf8 k && utf8_value v && utf8_members ms' end.

Lemma utf8_object ms : utf8_value (JObject ms) = utf8_members ms.
Proof. reflexivity. Qed.

Lemma number_ascii t : forallb is_number_byte t = true → forallb is_ascii t = true.
Proof.
  intros Ht. apply forallb_forall. intros c Hc. rewrite forallb_forall in Ht. specialize (Ht c Hc).
  by destruct c.
Qed.

Lemma valid_print n :
  (∀ v rest, printable_value v → (jsize v ≤ n)%nat →
     is_valid_utf8 (print v ++ rest) = utf8_value v && is_valid_utf8 rest) ∧
  (∀ ms rest, Forall (λ m, printable_value m.2) ms → (sizes ms ≤ n)%nat →
     is_valid_utf8 (print_members ms ++ rest) = utf8_members ms && is_valid_utf8 rest).
Proof.
  induction n as [|n [IHv IHm]]; split.
  - intros v rest _ Hn. destruct v; cbn in Hn; lia.
  - intros [|[k v] ms] rest _ Hn; [|cbn in Hn; lia]. by apply (valid_cons rbrace).
  - intros v rest Hv Hn. destruct Hv as [s|t Ht Hb|ms Hne Hms].
    + apply valid_quoted.
    + by apply valid_ascii_app, number_ascii.
    + rewrite print_object, utf8_object. cbn [app]. rewrite valid_cons by done. apply IHm; [done|].
      rewrite jsize_object in Hn. lia.
  - intros [|[k v] ms] rest Hms Hn; [by apply (valid_cons rbrace)|].
    apply Forall_cons in Hms as [Hv Hms]. cbn [snd] in Hv. cbn [sizes] in Hn.
    cbn [print_members utf8_members]. rewrite <- app_assoc, valid_quoted. cbn [app].
    rewrite valid_cons by done. rewrite <- app_assoc, IHv by (done || lia).
    destruct ms as [|m ms]; cbn [app]; rewrite valid_cons by done.
    + cbn [utf8_members]. by rewrite andb_true_r, andb_assoc.
    + rewrite IHm by (done || lia). by rewrite !andb_assoc.
Qed.

Lemma parse_print v : printable_value v → json_parse (print v) = if utf8_value v then Some v else None.
Proof.
  intros Hv. unfold json_parse. pose proof (proj1 (jsize_length (jsize v)) v Hv ltac:(lia)) as Hl.
  pose proof (proj1 (valid_print (jsize v)) v [] Hv ltac:(lia)) as Hu.
  rewrite app_nil_r, andb_true_r in Hu. rewrite Hu. destruct (utf8_value v); [|done].
  rewrite <- (app_nil_r (print v)) at 2. by rewrite (proj1 (read_print (length (print v)))).
Qed.

Lemma parse_as v s u :
  printable_value v → s = print v → utf8_value v = u → json_parse s = if u then Some v else None.
Proof. intros Hv -> <-. by apply parse_print. Qed.

(** ** Numbers *)

Lemma nzhead_no_zero d d' : Decimal.nzhead d ≠ Decimal.D0 d'.
Proof. induction d; cbn; congruence. Qed.

Lemma unorm_head d : Decimal.unorm d = d → ∃ c ds,
  str (DecimalString.NilZero.string_of_uint d) = c :: ds ∧ (ds = [] ∨ c ≠ zero).
Proof.
  intros Hd. destruct d as [|d|d|d|d|d|d|d|d|d|d]; [by exists zero, []|..];
    try (eexists _, _; split; [reflexivity|by right]).
  unfold Decimal.unorm in Hd. destruct (Decimal.nzhead (Decimal.D0 d)) eqn:E; try discriminate.
  - injection Hd as <-. exists zero, []. split; [reflexivity|by left].
  - by apply nzhead_no_zero in E.
Qed.

Lemma to_int_normal z : match Z.to_int z with Decimal.Pos d | Decimal.Neg d => Decimal.unorm d = d end.
Proof.
  assert (Hp : ∀ p, Decimal.unorm (Pos.to_uint p) = Pos.to_uint p).
  { intros p. pose proof (DecimalPos.Unsigned.to_of (Pos.to_uint p)) as E.
    rewrite DecimalPos.Unsigned.of_to in E. by rewrite <- E. }
  destruct z as [|p|p]; [reflexivity|apply Hp..].
Qed.

(** The text of an integer: a sign and an integer part. *)
Lemma to_string_shape z :
  ∃ ds, to_string z = (if z <? 0 then [minus] else []) ++ ds ∧ int_part ds = true ∧
    Forall (λ c, is_digit c = true) ds.
Proof.
  unfold to_string. pose proof (to_int_normal z) as Hn.
  assert (Hz : (z <? 0) = match Z.to_int z with Decimal.Neg _ => true | _ => false end) by (by destruct z).
  rewrite Hz. clear Hz.
  assert (Hd : ∀ d, Decimal.unorm d = d →
    int_part (str (DecimalString.NilZero.string_of_uint d)) = true ∧
    Forall (λ c, is_digit c = true) (str (DecimalString.NilZero.string_of_uint d))).
  { intros d Hu. split.
    - destruct (unorm_head d Hu) as (c & ds & -> & Hc). destruct ds as [|c' ds]; [done|].
      cbn. destruct Hc as [|Hc]; [done|]. by rewrite bool_decide_eq_false_2.
    - destruct (nilzero_digits d) as (ds & -> & Hall & _). done. }
  destruct (Z.to_int z) as [d|d]; destruct (Hd d Hn) as [H1 H2]; eexists; (split; [|by split]);
    reflexivity.
Qed.

Lemma digits_number_bytes ds : Forall (λ c, is_digit c = true) ds → forallb is_number_byte ds = true.
Proof.
  induction 1 as [|c ds Hc _ IH]; [done|]. cbn. unfold is_number_byte at 1. by rewrite Hc, IH.
Qed.

Lemma digits_forallb ds : Forall (λ c, is_digit c = true) ds → forallb is_digit ds = true.
Proof. induction 1 as [|c ds Hc _ IH]; [done|]. cbn. by rewrite Hc, IH. Qed.

(** A sign, an integer part and, if [f] is not empty, a fraction. *)
Definition fraction (f : bytes) : bytes := match f with [] => [] | _ => dot :: f end.

Lemma number_text (neg : bool) ds f :
  int_part ds = true → Forall (λ c, is_digit c = true) ds → Forall (λ c, is_digit c = true) f →
  printable_value (JNumber ((if neg then [minus] else []) ++ ds ++ fraction f)).
Proof.
  intros Hi Hd Hf. constructor.
  - unfold is_number.
    assert (Hs : span_digits (ds ++ fraction f) = (ds, fraction f)) by (apply span_digits_spec; [done|by destruct f]).
    assert (Ht : match (if neg then [minus] else []) ++ ds ++ fraction f with
                 | c :: t' => if decide (c = minus) then t' else (if neg then [minus] else []) ++ ds ++ fraction f
                 | [] => [] end = ds ++ fraction f).
    { destruct neg; [done|]. destruct ds as [|c ds]; [done|]. cbn. rewrite decide_False; [done|].
      intros ->. by apply Forall_cons in Hd as [? _]. }
    rewrite Ht, Hs, Hi. destruct f as [|c f]; [done|]. cbn [fraction andb].
    rewrite bool_decide_eq_true_2, bool_decide_eq_false_2 by done. cbn [negb andb]. by apply digits_forallb.
  - rewrite !forallb_app, (digits_number_bytes ds) by done. destruct neg, f as [|c f]; try done;
      cbn [fraction forallb andb]; by apply (digits_number_bytes (c :: f)).
Qed.

Lemma to_string_number z : printable_value (JNumber (to_string z)).
Proof.
  destruct (to_string_shape z) as (ds & -> & Hi & Hd). rewrite <- (app_nil_r ds).
  by apply (number_text (z <? 0) ds []).
Qed.

Lemma fixed_decimal_number x :
  match x with SpecFloat.S754_zero _ | SpecFloat.S754_finite _ _ _ => True | _ => False end →
  printable_value (JNumber (fixed_decimal 3 x)).
Proof.
  assert (Hd : ∀ s v, 0 ≤ v → printable_value (JNumber ((if s : bool then [minus] else []) ++ decimal_digits 3 v))).
  { intros s v Hv. unfold decimal_digits.
    destruct (to_string_shape (v / 10 ^ 3)) as (ds & -> & Hi & Hds).
    destruct (to_string_shape (v mod 10 ^ 3)) as (fs & -> & Hfi & Hfs).
    rewrite !(proj2 (Z.ltb_ge _ 0)) by (apply Z.div_pos || apply Z.mod_pos_bound; lia). cbn [app].
    assert (Hpad : Forall (λ c, is_digit c = true) (pad_zeros 3 fs))
      by (apply Forall_app; split; [by apply Forall_replicate|done]).
    destruct (pad_zeros 3 fs) as [|c f] eqn:E.
    { apply app_eq_nil in E as [_ ->]. done. }
    by apply (number_text s ds (c :: f)). }
  destruct x as [s|s| |s m e]; intros Hx; try done; unfold fixed_decimal; apply Hd; [lia|].
  unfold scaled_decimal. destruct (0 <=? e) eqn:He; [nia|]. unfold round_half_even.
  assert (0 ≤ Z.pos m * 10 ^ 3 / 2 ^ (- e)) by (apply Z.div_pos; [lia|apply Z.pow_pos_nonneg; lia]).
  repeat case_match; lia.
Qed.

(** ** The messages of the protocol *)

Section Messages.
Context `{LongDouble}.

(** The members of a metrics snapshot. *)
Definition metric_members (m : Metrics) (active_sessions : Z) (debug : bool) : list (string * bytes) :=
  [("tokens_generated_total", to_string (tokens_generated_total m));
     ("batch_calls_total", to_string (batch_calls_total m));
     ("last_batch_size", to_string (last_batch_size m));
     ("decode_ms_last", to_string (decode_ms_last m));
     ("decode_ms_ewma", fixed_decimal 3 (get_decode_ms_ewma m));
     ("decode_calls", to_string (decode_calls m));
     ("decode_ns_total", to_string (decode_ns_total m));
     ("decode_tokens_total", to_string (decode_tokens_total m));
     ("decode_ms_min", to_string (decode_ms_min m));
     ("decode_ms_max", to_string (decode_ms_max m));
     ("decode_ms_mean", mean_ms (decode_ns_total m) (decode_calls m));
     ("decode_tokens_per_call_mean", mean_tokens (decode_tokens_total m) (decode_calls m));
     ("decode_phase_tokens_total", to_string (decode_phase_tokens_total m));
     ("prefill_tokens_total", to_string (prefill_tokens_total m));
     ("decode_ns_total_gen", to_string (decode_ns_total_gen m));
     ("prefill_ns_total", to_string (prefill_ns_total m));
     ("gen_ms_per_token_mean", mean_ms (decode_ns_total_gen m) (decode_phase_tokens_total m));
     ("prefill_ms_per_token_mean", mean_ms (prefill_ns_total m) (prefill_tokens_total m))] ++
  (if debug then
    [("eval_ms_last", to_string (eval_ms_last m));
     ("p_eval_ms_last", to_string (p_eval_ms_last m));
     ("eval_calls", to_string (eval_calls m));
     ("p_eval_calls", to_string (p_eval_calls m));
     ("eval_ns_total", to_string (eval_ns_total m));
     ("p_eval_ns_total", to_string (p_eval_ns_total m));
     ("eval_ms_mean", mean_ms (eval_ns_total m) (eval_calls m));
     ("p_eval_ms_mean", mean_ms (p_eval_ns_total m) (p_eval_calls m))] else []) ++
  [("active_sessions", to_string active_sessions)] ++
  (if debug then
    [("last_decode_tokens", to_string (last_decode_tokens m));
     ("last_prefill_tokens", to_string (last_prefill_tokens m));
     ("max_batch_size_seen", to_string (max_batch_size_seen m));
     ("prefill_calls", to_string (prefill_calls m));
     ("bmt_units_last", to_string (bmt_units_last m));
     ("bmt_budget_units", to_string (m_bmt_budget_units m));
     ("bmt_guard_active", to_string (bmt_guard_active m));
     ("bmt_guard_activations", to_string (bmt_guard_activations m))] else []).

Definition metric_object (m : Metrics) (active_sessions : Z) (debug : bool) : JValue :=
  JObject ((λ '(k, t), (str k, JNumber t)) <$> metric_members m active_sessions debug).

(** The numbers with a fraction, before they are printed. *)
Definition ms_value (ns calls : Z) : double :=
  if calls =? 0 then F64.of_Z 0
  else ld_to_double (ld_div (ld_div (ld_of_Z ns) (ld_of_Z calls)) (ld_of_Z 1000000)).
Definition tokens_value (toks calls : Z) : double :=
  if calls =? 0 then F64.of_Z 0 else ld_to_double (ld_div (ld_of_Z toks) (ld_of_Z calls)).

Definition finite (x : double) : Prop :=
  match x with SpecFloat.S754_zero _ | SpecFloat.S754_finite _ _ _ => True | _ => False end.

Definition means_finite (m : Metrics) : Prop :=
  Forall finite [
    get_decode_ms_ewma m; ms_value (decode_ns_total m) (decode_calls m);
    tokens_value (decode_tokens_total m) (decode_calls m);
    ms_value (decode_ns_total_gen m) (decode_phase_tokens_total m);
    ms_value (prefill_ns_total m) (prefill_tokens_total m); ms_value (eval_ns_total m) (eval_calls m);
    ms_value (p_eval_ns_total m) (p_eval_calls m)].

Lemma mean_ms_number ns calls : finite (ms_value ns calls) → printable_value (JNumber (mean_ms ns calls)).
Proof. unfold ms_value, mean_ms. destruct (calls =? 0); apply fixed_decimal_number. Qed.

Lemma mean_tokens_number toks calls :
  finite (tokens_value toks calls) → printable_value (JNumber (mean_tokens toks calls)).
Proof. unfold tokens_value, mean_tokens. destruct (calls =? 0); apply fixed_decimal_number. Qed.

Lemma metric_object_printable m n debug : means_finite m → printable_value (metric_object m n debug).
Proof.
  intros Hf. unfold means_finite in Hf. decompose_Forall_hyps.
  constructor; [done|]. apply Forall_fmap. unfold metric_members, compose.
  destruct debug; repeat (apply Forall_cons; split); cbn [snd]; auto using to_string_number, mean_ms_number, mean_tokens_number, fixed_decimal_number.
Qed.

(** The snapshot is the text of its members, in order. *)
Lemma to_json_print m n debug : to_json m n debug = print (metric_object m n debug).
Proof.
  unfold to_json. destruct debug; cbv iota; rewrite <- ?app_assoc; reflexivity.
Qed.

Ltac printable_message :=
  constructor; [discriminate|]; repeat (apply Forall_cons; split); cbn [snd];
  first [apply printable_string | apply to_string_number | by apply Forall_nil].

(** The strings of a message that are not fixed. *)
Ltac utf8_message :=
  rewrite utf8_object; cbn [utf8_members utf8_value];
  repeat match goal with |- context [is_valid_utf8 (str ?s)] => change (is_valid_utf8 (str s)) with true end;
  cbn [andb]; rewrite ?andb_true_r, ?andb_assoc; reflexivity.

(** ** Theorems *)

(** C17. The messages of the daemon as JSON: an independent reader of RFC 8259
    texts, which have to be UTF-8, gets back from a token event the id, the text
    and the number of the token, from an end of stream the id and the reason,
    from an error the id, the code and the message, exactly when these strings
    are UTF-8 themselves, whatever quotes, backslashes or control characters
    they contain, and refuses the message otherwise (a token whose text is only
    a part of a character gives such a message); and from a metrics event it
    gets an object with the counters as numbers, provided the means and the
    moving average are finite. *)
Theorem messages_are_json id text token_id reason code msg m n debug :
  json_parse (token_payload id text token_id)
    = (if is_valid_utf8 id && is_valid_utf8 text
       then Some (JObject [(str "id", JString id); (str "event", JString (str "token"));
                           (str "text", JString text); (str "token_id", JNumber (to_string token_id))])
       else None) ∧
  json_parse (eos_payload id reason)
    = (if is_valid_utf8 id && is_valid_utf8 reason
       then Some (JObject [(str "id", JString id); (str "event", JString (str "eos"));
                           (str "reason", JString reason)])
       else None) ∧
  json_parse (error_payload id code msg)
    = (if is_valid_utf8 id && is_valid_utf8 code && is_valid_utf8 msg
       then Some (JObject [(str "id", JString id); (str "event", JString (str "error"));
                           (str "code", JString code); (str "message", JString msg)])
       else None) ∧
  (means_finite m →
   json_parse (metrics_payload (to_json m n debug))
   = Some (JObject [(str "event", JString (str "metrics")); (str "metrics", metric_object m n debug)])).
Proof.
  split_and!; [| | |intros Hf; change (Some ?v) with (if true then Some v else None)]; apply parse_as.
  - printable_message.
  - rewrite print_object. unfold token_payload. cbn [print_members print].
    rewrite !quoted_app. reflexivity.
  - utf8_message.
  - printable_message.
  - rewrite print_object. unfold eos_payload. cbn [print_members print].
    rewrite !quoted_app. reflexivity.
  - utf8_message.
  - printable_message.
  - rewrite print_object. unfold error_payload. cbn [print_members print].
    rewrite !quoted_app. reflexivity.
  - utf8_message.
  - constructor; [discriminate|]. repeat (apply Forall_cons; split); cbn [snd].
    + apply printable_string.
    + by apply metric_object_printable.
    + by apply Forall_nil.
  - rewrite print_object. unfold metrics_payload. rewrite to_json_print. reflexivity.
  - by destruct debug.
Qed.

(** A token whose text is a part of a character gives an event that is not JSON. *)
Theorem partial_character_not_json id token_id :
  json_parse (token_payload id [Init.Byte.xe2; Init.Byte.x82] token_id) = None.
Proof.
  rewrite (parse_as (JObject [(str "id", JString id); (str "event", JString (str "token"));
    (str "text", JString [Init.Byte.xe2; Init.Byte.x82]); (str "token_id", JNumber (to_string token_id))])
    _ false); [done|printable_message| |].
  - rewrite print_object. unfold token_payload. cbn [print_members print].
    rewrite !quoted_app. reflexivity.
  - rewrite utf8_object. cbn [utf8_members utf8_value]. by rewrite !andb_false_r.
Qed.
End Messages.

(** ** Witnesses *)

Definition double_as_long : LongDouble := {| ld_prec := 53; ld_emax := 1024 |}.
#[local] Existing Instance double_as_long.

Definition busy_metrics : Metrics :=
  new_metrics <| decode_calls := 3 |> <| decode_ns_total := 10 ^ 7 |> <| decode_tokens_total := 7 |>
    <| decode_ms_ewma_x1000 := 3333 |>.

Lemma messages_are_json_witness :
  json_parse (metrics_payload (to_json busy_metrics 2 true))
  = Some (JObject [(str "event", JString (str "metrics")); (str "metrics", metric_object busy_metrics 2 true)]).
Proof.
  apply (messages_are_json [] [] 0 [] [] [] busy_metrics 2 true).
  repeat (apply Forall_cons; split); try (vm_compute; exact I). exact (proj2 (Forall_nil _) I).
Defined.
