(* ===== verification/SchedulerFacts.v ===== *)
(** * Facts about the scheduler's tick

    The batch in closed form, the absence of out-of-range accesses and failed
    assertions, and the effect of a tick on each session. *)
From stdpp Require Import prelude gmap list strings.
From S2P Require Import Prelude Floating Protocol Session Config Llama Metrics Policy Bmt Sampling Scheduler.
Import Protocol.
Local Open Scope Z_scope.

(** ** The batch as a list of rows *)

Record Row := { r_tok : Z; r_seq : Z; r_pos : Z; r_lg : Z }.

Definition buf_of (rows : list Row) (smp : list SampleRef) : BatchBuf := {|
  tokens := r_tok <$> rows; n_seq_id := (λ _, 1) <$> rows;
  seq_id_vals := r_seq <$> rows; seq_ids := List.seq 0 (length rows);
  logits := r_lg <$> rows; pos := r_pos <$> rows; samples := smp;
|}.

Lemma push_row_buf rows smp t sq p lg :
  push_row (buf_of rows smp) t sq p lg
  = buf_of (rows ++ [{| r_tok := t; r_seq := sq; r_pos := p; r_lg := lg |}]) smp.
Proof.
  unfold push_row, buf_of. simpl. rewrite !fmap_app, length_app, length_fmap. simpl.
  by rewrite Nat.add_1_r, seq_S.
Qed.

Lemma push_sample_buf rows smp f st :
  push_sample (buf_of rows smp) f st
  = buf_of rows (smp ++ [{| sample_fd := f; batch_index := i32 (Z.of_nat (length rows)) - 1;
                            state_before := st |}]).
Proof. unfold push_sample, buf_of. simpl. by rewrite length_fmap. Qed.

(** The rows an item contributes for a session in state [s]. *)
Definition prefill_row (s : ClientSession) (chunk : Z) (j : nat) (t : Z) : Row := {|
  r_tok := t; r_seq := seq s; r_pos := i32 (n_past s + Z.of_nat j);
  r_lg := if Z.of_nat j =? chunk - 1 then 1 else 0;
|}.

Definition chunk_tokens (s : ClientSession) (n : Z) : list Z :=
  take (Z.to_nat n) (drop (prefill_idx s) (prompt_tokens s)).

Definition item_rows (s : ClientSession) (it : BatchItem) : list Row :=
  match phase it with
  | Phase.DECODE =>
      [{| r_tok := pending_tok s; r_seq := seq s; r_pos := n_past s; r_lg := 1 |}]
  | Phase.PREFILL => imap (prefill_row s (n_tokens it)) (chunk_tokens s (n_tokens it))
  end.

Definition phase_state (p : Phase.t) : SessionState :=
  match p with Phase.PREFILL => PREFILL | Phase.DECODE => DECODE end.

(** The sample reference of an item whose rows start at index [k]. *)
Definition item_sample (s : ClientSession) (it : BatchItem) (k : nat) : list SampleRef :=
  if bool_decide (item_rows s it = []) then []
  else [{| sample_fd := fd s;
           batch_index := i32 (Z.of_nat (k + length (item_rows s it))) - 1;
           state_before := phase_state (phase it) |}].

(** The session after its item has been put in the batch. *)
Definition enacted (s : ClientSession) (it : BatchItem) : ClientSession :=
  match phase it with
  | Phase.DECODE => s <| has_pending_tok := false |>
  | Phase.PREFILL =>
      s <| prefill_idx := (prefill_idx s + Z.to_nat (n_tokens it))%nat |>
        <| n_past := i32 (n_past s + n_tokens it) |>
  end.

(** What [enact] needs of an item. *)
Definition enactable (sessions : SessionPool) (it : BatchItem) : Prop :=
  ∃ s, sessions !! item_fd it = Some s ∧
    (phase it = Phase.PREFILL → 0 ≤ n_tokens it ≤ remaining s).

Lemma length_chunk_tokens s n :
  0 ≤ n ≤ remaining s → length (chunk_tokens s n) = Z.to_nat n.
Proof. unfold remaining, chunk_tokens. rewrite length_take, length_drop. lia. Qed.

Lemma session_eta s : eta_session s = s.
Proof. by destruct s. Qed.

Lemma prefill_idx_twice (s : ClientSession) a b :
  (s <| prefill_idx := a |>) <| prefill_idx := b |> = s <| prefill_idx := b |>.
Proof. done. Qed.

Lemma prefill_idx_same (s : ClientSession) : s <| prefill_idx := prefill_idx s |> = s.
Proof. by destruct s. Qed.

(** The chunk loop reads the next [left] prompt tokens and flags the last row. *)
Lemma prefill_loop_spec s0 chunk left j s rows smp :
  Z.of_nat j + Z.of_nat left = chunk →
  s = s0 <| prefill_idx := (prefill_idx s0 + j)%nat |> →
  (prefill_idx s0 + j + left ≤ length (prompt_tokens s0))%nat →
  prefill_loop (n_past s0) chunk (Z.of_nat j) left s (buf_of rows smp)
  = Some (s0 <| prefill_idx := (prefill_idx s0 + j + left)%nat |>,
          let rows' := imap (λ i, prefill_row s0 chunk (j + i))
                         (take left (drop (prefill_idx s0 + j) (prompt_tokens s0))) in
          buf_of (rows ++ rows')
            (smp ++ if (left =? 0)%nat then []
                    else [{| sample_fd := fd s0;
                             batch_index := i32 (Z.of_nat (length rows + left)) - 1;
                             state_before := PREFILL |}])).
Proof.
  revert j s rows smp. induction left as [|left IH]; intros j s rows smp Hj Hs Hlen.
  { simpl. subst s. rewrite !app_nil_r, Nat.add_0_r. done. }
  assert (∃ t, prompt_tokens s0 !! (prefill_idx s0 + j)%nat = Some t) as [t Ht].
  { apply lookup_lt_is_Some. lia. }
  rewrite (drop_S _ _ _ Ht). cbn [prefill_loop take imap]. subst s.
  cbn [prompt_tokens prefill_idx set_field set_prefill_idx]. rewrite Ht.
  cbn [mbind option_bind]. rewrite push_row_buf.
  replace (Z.of_nat j + 1) with (Z.of_nat (S j)) by lia.
  set (row := Build_Row _ _ _ _).
  assert (Hrow : row = prefill_row s0 chunk (j + 0) t) by (by rewrite Nat.add_0_r).
  clearbody row. destruct left as [|left].
  - (* last row *)
    rewrite (proj2 (Z.eqb_eq _ (chunk - 1))) by lia.
    rewrite Z.eqb_refl, push_sample_buf, Hrow, length_app. cbn [prefill_loop].
    rewrite take_0. cbn [imap Nat.eqb length].
    replace (prefill_idx s0 + j + 1)%nat with (S (prefill_idx s0 + j)) by lia. done.
  - rewrite (proj2 (Z.eqb_neq _ (chunk - 1))) by lia. change (0 =? 1) with false. cbv iota.
    rewrite (IH (S j)); [|lia|rewrite prefill_idx_twice; f_equal; lia|lia].
    cbn [Nat.eqb]. f_equal. f_equal; [f_equal; lia|].
    cbn zeta. f_equal.
    + rewrite <- app_assoc. f_equal. simpl app. f_equal; [done|].
      rewrite Nat.add_succ_r. apply imap_ext. intros i x _. unfold compose. f_equal. lia.
    + f_equal. f_equal. f_equal. rewrite length_app. simpl. do 3 f_equal. lia.
Qed.

Lemma enact_item_spec sessions rows smp it s :
  sessions !! item_fd it = Some s →
  (phase it = Phase.PREFILL → 0 ≤ n_tokens it ≤ remaining s) →
  enact_item (sessions, buf_of rows smp) it
  = Some (<[item_fd it := enacted s it]> sessions,
          buf_of (rows ++ item_rows s it) (smp ++ item_sample s it (length rows))).
Proof.
  intros Hs Hn. unfold enact_item, item_sample, item_rows, enacted. rewrite Hs.
  destruct (phase it) eqn:Hph.
  - specialize (Hn eq_refl). rewrite (proj2 (Z.ltb_ge _ _)) by lia.
    pose proof (length_chunk_tokens s _ Hn) as Hlen.
    change 0 with (Z.of_nat 0) at 1.
    rewrite (prefill_loop_spec s); [|lia|by rewrite Nat.add_0_r, prefill_idx_same|
      unfold remaining in Hn; lia].
    cbn [mbind option_bind]. rewrite Nat.add_0_r. fold (chunk_tokens s (n_tokens it)).
    rewrite length_imap, Hlen. do 4 f_equal.
    destruct (Z.to_nat (n_tokens it)) eqn:E; simpl.
    + by destruct (chunk_tokens s (n_tokens it)).
    + rewrite bool_decide_eq_false_2; [done|].
      intros Hnil. apply (f_equal length) in Hnil. rewrite length_imap in Hnil.
      simpl in Hnil. lia.
  - rewrite push_row_buf, push_sample_buf, length_app. done.
Qed.

(** The batch of a plan: rows and sample references item by item. *)
Definition rows_of (sessions : SessionPool) (it : BatchItem) : list Row :=
  match sessions !! item_fd it with Some s => item_rows s it | None => [] end.

Definition plan_rows (sessions : SessionPool) (its : list BatchItem) : list Row :=
  its ≫= rows_of sessions.

Fixpoint plan_samples (sessions : SessionPool) (k : nat) (its : list BatchItem)
    : list SampleRef :=
  match its with
  | [] => []
  | it :: its' =>
      match sessions !! item_fd it with
      | Some s => item_sample s it k ++ plan_samples sessions (k + length (item_rows s it)) its'
      | None => plan_samples sessions k its'
      end
  end.

Definition plan_sessions (sessions : SessionPool) (its : list BatchItem) : SessionPool :=
  foldl (λ m it, alter (λ s, enacted s it) (item_fd it) m) sessions its.

(** Planning a fresh session first does not change what later items see. *)
Lemma plan_rows_insert sessions k s its :
  k ∉ item_fd <$> its → plan_rows (<[k := s]> sessions) its = plan_rows sessions its.
Proof.
  unfold plan_rows. induction its as [|it its IH]; [done|].
  rewrite fmap_cons, not_elem_of_cons. intros [Hne Hni]. cbn [mbind list_bind].
  rewrite IH by done. unfold rows_of. by rewrite lookup_insert_ne.
Qed.

Lemma plan_samples_insert sessions k s its n :
  k ∉ item_fd <$> its → plan_samples (<[k := s]> sessions) n its = plan_samples sessions n its.
Proof.
  revert n. induction its as [|it its IH]; intros n; [done|].
  rewrite fmap_cons, not_elem_of_cons. intros [Hne Hni]. cbn [plan_samples].
  rewrite lookup_insert_ne by done. case_match; by rewrite IH.
Qed.

Lemma enactable_insert sessions k s its :
  k ∉ item_fd <$> its → Forall (enactable sessions) its →
  Forall (enactable (<[k := s]> sessions)) its.
Proof.
  intros Hni. rewrite !Forall_forall. intros Hall it Hit.
  destruct (Hall it Hit) as (s' & Hs' & Hn). exists s'. split; [|done].
  rewrite lookup_insert_ne; [done|]. intros ->. apply Hni. by apply list_elem_of_fmap_2.
Qed.

Lemma enact_spec sessions rows smp its :
  NoDup (item_fd <$> its) → Forall (enactable sessions) its →
  enact (sessions, buf_of rows smp) its
  = Some (plan_sessions sessions its,
          buf_of (rows ++ plan_rows sessions its)
                 (smp ++ plan_samples sessions (length rows) its)).
Proof.
  revert sessions rows smp. induction its as [|it its IH]; intros sessions rows smp Hnd Hen.
  { simpl. by rewrite !app_nil_r. }
  rewrite fmap_cons, NoDup_cons in Hnd. destruct Hnd as [Hni Hnd].
  inv Hen. destruct H1 as (s & Hs & Hn). cbn [enact].
  rewrite (enact_item_spec _ _ _ _ s) by done. cbn [mbind option_bind].
  rewrite IH; [|done|by apply enactable_insert].
  rewrite plan_rows_insert, plan_samples_insert by done.
  unfold plan_sessions at 2. cbn [foldl].
  rewrite (alter_lookup_insert _ _ _ _ Hs). fold (plan_sessions (<[item_fd it:=enacted s it]> sessions) its).
  unfold plan_rows at 2. cbn [mbind list_bind plan_samples]. unfold rows_of at 1. rewrite Hs.
  fold (plan_rows sessions its). by rewrite <- !app_assoc, length_app.
Qed.

(** ** Batch sizes and logit flags *)

Lemma length_item_rows s it :
  tokens_ok it → (phase it = Phase.PREFILL → n_tokens it ≤ remaining s) →
  Z.of_nat (length (item_rows s it)) = n_tokens it.
Proof.
  unfold tokens_ok, item_rows. intros Ht Hr. destruct (phase it).
  - specialize (Hr eq_refl). rewrite length_imap, length_chunk_tokens by lia. lia.
  - simpl. lia.
Qed.

(** Only the last row of a chunk is flagged. *)
Lemma flags_chunk s l :
  filter (λ lg, lg = 1) (r_lg <$> imap (prefill_row s (Z.of_nat (length l))) l)
  = if bool_decide (l = []) then [] else [1].
Proof.
  induction l as [|x l _] using rev_ind; [done|].
  rewrite imap_app, fmap_app, filter_app, bool_decide_eq_false_2 by (by destruct l).
  rewrite filter_none.
  - simpl. rewrite (proj2 (Z.eqb_eq _ _)); [done|]. rewrite length_app. simpl. lia.
  - apply Forall_fmap, Forall_lookup. intros i r Hi.
    rewrite list_lookup_imap in Hi. destruct (l !! i) eqn:E; [|done].
    simpl in Hi. injection Hi as <-. simpl. apply lookup_lt_Some in E.
    rewrite (proj2 (Z.eqb_neq _ _)); [done|]. rewrite length_app. simpl. lia.
Qed.

Lemma flags_item s it k :
  tokens_ok it → (phase it = Phase.PREFILL → n_tokens it ≤ remaining s) →
  length (filter (λ lg, lg = 1) (r_lg <$> item_rows s it)) = length (item_sample s it k).
Proof.
  intros Ht Hr. unfold item_sample. pose proof (length_item_rows s it Ht Hr) as Hlen.
  unfold item_rows in *. destruct (phase it); [|done]. rewrite length_imap in Hlen.
  pose proof (flags_chunk s (chunk_tokens s (n_tokens it))) as Hf.
  rewrite Hlen in Hf. rewrite Hf. by destruct (chunk_tokens s (n_tokens it)).
Qed.

(** What the executor relies on for each item of a plan. *)
Definition exec_item_ok (sessions : SessionPool) (it : BatchItem) : Prop :=
  tokens_ok it ∧ enactable sessions it.

Lemma length_plan_rows sessions its :
  Forall (exec_item_ok sessions) its →
  Z.of_nat (length (plan_rows sessions its)) = tok_total its.
Proof.
  induction 1 as [|it its [Ht (s & Hs & Hn)] _ IH]; [done|].
  unfold plan_rows in *. cbn [mbind list_bind]. unfold rows_of at 1. rewrite Hs.
  rewrite length_app, tok_total_cons, Nat2Z.inj_add, IH.
  rewrite length_item_rows; [done|done|]. intros Hp. apply Hn in Hp. lia.
Qed.

Lemma flags_plan sessions its k :
  Forall (exec_item_ok sessions) its →
  length (filter (λ lg, lg = 1) (r_lg <$> plan_rows sessions its))
  = length (plan_samples sessions k its).
Proof.
  intros H. revert k. induction H as [|it its [Ht (s & Hs & Hn)] _ IH]; intros k; [done|].
  unfold plan_rows in *. cbn [mbind list_bind plan_samples]. unfold rows_of at 1. rewrite Hs.
  rewrite fmap_app, filter_app, !length_app. f_equal; [|done].
  apply flags_item; [done|]. intros Hp. apply Hn in Hp. lia.
Qed.

Lemma batch_asserts_hold sessions its cap :
  Forall (exec_item_ok sessions) its → tok_total its ≤ cap → cap ≤ INT_MAX →
  batch_asserts cap (buf_of (plan_rows sessions its) (plan_samples sessions 0 its)) = true.
Proof.
  intros Hok Hcap Hmax. unfold batch_asserts, buf_of. simpl.
  rewrite !length_fmap, length_seq, (flags_plan _ _ 0) by done.
  rewrite !bool_decide_eq_true_2 by done.
  rewrite length_plan_rows by done.
  rewrite !(proj2 (Z.leb_le _ _)) by lia. done.
Qed.

(** Following the row pointers gives the sequence id of each row. *)
Lemma make_batch_rows rows smp :
  make_batch (buf_of rows smp) = {|
    b_token := r_tok <$> rows; b_pos := r_pos <$> rows; b_n_seq_id := (λ _, 1) <$> rows;
    b_seq_id := r_seq <$> rows; b_logits := r_lg <$> rows |}.
Proof.
  unfold make_batch, buf_of. simpl. f_equal.
  apply list_eq_same_length with (length rows); [by rewrite length_fmap|
    by rewrite length_fmap, length_seq|].
  intros i x y Hi. rewrite !list_lookup_fmap, lookup_seq_lt by done. simpl.
  intros [= <-] Hy. apply list_lookup_total_correct. by rewrite list_lookup_fmap.
Qed.

(** ** What the scheduler needs of a policy *)

Class BatchPolicyLaws `{IBatchPolicy} := {
  policy_sound : ∀ sessions order cap target rd rp,
    keyed_by_fd sessions → iteration_order sessions order →
    let plan := plan_tick sessions order cap target rd rp in
    NoDup (item_fd <$> items plan) ∧ Forall (item_ok sessions) (items plan);
  policy_budget : ∀ sessions order cap target rd rp,
    keyed_by_fd sessions → iteration_order sessions order →
    let plan := plan_tick sessions order cap target rd rp in
    tok_total (items plan) = decode_tok_count plan + prefill_tok_count plan ∧
    0 ≤ decode_tok_count plan ∧ 0 ≤ prefill_tok_count plan ∧
    tok_total (items plan) ≤ Z.max 0 (Z.min target cap);
}.

#[global] Instance BaselinePolicy_laws : @BatchPolicyLaws BaselinePolicy.
Proof.
  split; intros; [split; [by apply plan_items_NoDup|by apply plan_items_ok]|by apply plan_totals].
Qed.

(** ** The session invariant of the scheduler *)

Record session_ok (cfg : RuntimeConfig) (s : ClientSession) : Prop := {
  ok_idx : state s = PREFILL ∨ state s = DECODE → (prefill_idx s ≤ length (prompt_tokens s))%nat;
  ok_room : Z.of_nat (prefill_idx s) + max_tokens cfg < INT_MAX;
  ok_gen : 0 ≤ generated_count s ≤ max_tokens cfg;
  ok_fits : Z.of_nat (length (prompt_tokens s)) + max_tokens cfg < INT_MAX;
  ok_past : 0 ≤ n_past s ≤ Z.of_nat (prefill_idx s) + generated_count s;
  ok_prefill : state s = PREFILL →
    n_past s = Z.of_nat (prefill_idx s) ∧ generated_count s = 0 ∧ first_emit_ns s = 0;
  ok_decode : state s = DECODE →
    n_past s = Z.of_nat (prefill_idx s) + generated_count s ∧ (1 ≤ prefill_idx s)%nat;
}.

Definition pool_ok (cfg : RuntimeConfig) (sessions : SessionPool) : Prop :=
  keyed_by_fd sessions ∧ map_Forall (λ _, session_ok cfg) sessions.

Lemma session_ok_past cfg s : session_ok cfg s → 0 ≤ n_past s < INT_MAX.
Proof. intros []. unfold INT_MAX in *. lia. Qed.

Lemma pool_ok_pasts cfg sessions : pool_ok cfg sessions → pasts_ok sessions.
Proof. intros [_ H] k s Hs. eapply session_ok_past, H, Hs. Qed.

Lemma pool_ok_lookup cfg sessions k s :
  pool_ok cfg sessions → sessions !! k = Some s → session_ok cfg s ∧ fd s = k.
Proof. intros [Hk H] Hs. split; [exact (H _ _ Hs)|exact (Hk _ _ Hs)]. Qed.

(** A policy item is executable, and it fits the guard's preconditions. *)
Lemma item_ok_exec cfg sessions it :
  pool_ok cfg sessions → item_ok sessions it →
  exec_item_ok sessions it ∧ guard_item_ok sessions it.
Proof.
  intros Hpool. unfold item_ok, exec_item_ok, guard_item_ok, tokens_ok, enactable.
  destruct (phase it) eqn:Hph.
  - intros [_ (s & Hs & Hr & Hn & _)].
    destruct (pool_ok_lookup _ _ _ _ Hpool Hs) as [Hok _].
    assert (remaining s ≤ INT_MAX).
    { destruct Hok. unfold remaining, INT_MAX in *. lia. }
    split; (split; [lia|]); [|by eauto]. exists s. split; [done|]. intros _. lia.
  - intros [Hn (s & Hs & Hd)%ready_in_Some]. by repeat split; eauto; exists s.
Qed.

Lemma shrunk_exec sessions it it' :
  exec_item_ok sessions it → shrunk it it' → exec_item_ok sessions it'.
Proof.
  intros [Ht (s & Hs & Hn)] (Hf & Hph & Hd & Hp). split.
  - unfold tokens_ok in *. rewrite Hph. destruct (phase it); [|by rewrite Hd].
    specialize (Hp eq_refl). lia.
  - exists s. rewrite Hf, Hph. split; [done|]. intros Hq.
    specialize (Hn Hq). specialize (Hp Hq). lia.
Qed.

Lemma shrunk_fds its its' : Forall2 shrunk its its' → item_fd <$> its' = item_fd <$> its.
Proof.
  induction 1 as [|it it' its its' Hit _ IH]; [done|].
  by rewrite !fmap_cons, IH, (proj1 Hit).
Qed.

(** Where an item of the executed plan comes from: a ready session in the
    state that the item's phase names. *)
Definition from_ready (sessions : SessionPool) (it : BatchItem) : Prop :=
  ∃ s, sessions !! item_fd it = Some s ∧ state s = phase_state (phase it) ∧
       (phase it = Phase.PREFILL → n_tokens it ≤ remaining s).

Lemma item_ok_from_ready sessions it : item_ok sessions it → from_ready sessions it.
Proof.
  unfold item_ok, from_ready. destruct (phase it).
  - intros [_ (s & Hs & Hr & Hn & _)]. exists s. split_and!; [done| |lia].
    unfold prefill_ready in Hr. by bool_prop.
  - intros [_ (s & Hs & Hr)%ready_in_Some]. exists s. split_and!; [done| |done].
    unfold decode_ready in Hr. by bool_prop.
Qed.

Lemma shrunk_from_ready sessions it it' :
  from_ready sessions it → shrunk it it' → from_ready sessions it'.
Proof.
  intros (s & Hs & Hst & Hn) (Hf & Hph & _ & Hp). exists s. rewrite Hf, Hph.
  split_and!; [done|done|]. intros Hq. specialize (Hn Hq). specialize (Hp Hq). lia.
Qed.

(** ** The planning phase *)

Section Tick.
Context `{Llama, IBatchPolicy, !BatchPolicyLaws, ISampler, Conversions}.

(** The facts about the plan that the rest of the tick uses. *)
Record planned (sch : Scheduler) (sessions : SessionPool) (plan : Plan) : Prop := {
  pl_nodup : NoDup (item_fd <$> items plan);
  pl_exec : Forall (exec_item_ok sessions) (items plan);
  pl_ready : Forall (from_ready sessions) (items plan);
  pl_count : tok_total (items plan) = decode_tok_count plan + prefill_tok_count plan;
  pl_cap : tok_total (items plan) ≤ Z.max 0 (batch_cap_ sch);
}.

Lemma plan_planned cfg sch sessions order :
  pool_ok cfg sessions → iteration_order sessions order →
  let plan := plan_tick sessions order (batch_cap_ sch) (target_batch_ sch)
                (rr_decode_idx_ sch) (rr_prefill_idx_ sch) in
  planned sch sessions plan ∧ Forall (guard_item_ok sessions) (items plan).
Proof.
  intros Hpool Hord. cbn zeta.
  destruct (policy_sound sessions order (batch_cap_ sch) (target_batch_ sch)
    (rr_decode_idx_ sch) (rr_prefill_idx_ sch)) as [Hnd Hok]; [apply Hpool|done|].
  destruct (policy_budget sessions order (batch_cap_ sch) (target_batch_ sch)
    (rr_decode_idx_ sch) (rr_prefill_idx_ sch)) as (Hc & _ & _ & Hb); [apply Hpool|done|].
  split; [split; try done; try lia|];
    apply (Forall_impl _ _ _ Hok); intros it Hit; eauto using item_ok_from_ready;
    by eapply item_ok_exec.
Qed.

Lemma guard_planned cfg sch sessions plan budget :
  pool_ok cfg sessions → planned sch sessions plan → batch_cap_ sch ≤ INT_MAX →
  Forall (guard_item_ok sessions) (items plan) →
  planned sch sessions (bmt_guard sessions budget plan).1.1.
Proof.
  intros Hpool [Hnd Hex Hrd Hct Hcp] Hcap Hg.
  destruct (bmt_guard_post sessions budget plan) as
    (plan' & est & tr & -> & Hsh & _ & _ & Hcnt & _ & _ & Hdec & _);
    [exact (pool_ok_pasts _ _ Hpool)|done|unfold INT_MAX in *; lia|].
  destruct (shrunk_costs sessions _ _ (pool_ok_pasts _ _ Hpool) Hsh) as (_ & Hle & _).
  simpl. split.
  - by rewrite (shrunk_fds _ _ Hsh).
  - eapply Forall2_Forall_r; [done|]. apply (Forall_impl _ _ _ Hex).
    intros it ? it' ?. by eapply shrunk_exec.
  - eapply Forall2_Forall_r; [done|]. apply (Forall_impl _ _ _ Hrd).
    intros it ? it' ?. by eapply shrunk_from_ready.
  - lia.
  - lia.
Qed.

Lemma plan_phase_spec cfg sch sessions order :
  pool_ok cfg sessions → iteration_order sessions order → batch_cap_ sch ≤ INT_MAX →
  let '(plan, sch') := plan_phase sch sessions order in
  planned sch sessions plan ∧
  config_ sch' = config_ sch ∧ vocab_ sch' = vocab_ sch ∧ batch_cap_ sch' = batch_cap_ sch ∧
  target_batch_ sch' = target_batch_ sch ∧ ctx_ sch' = ctx_ sch ∧ rng_ sch' = rng_ sch ∧
  decode_ms_ewma_ sch' = decode_ms_ewma_ sch.
Proof.
  intros Hpool Hord Hcap. unfold plan_phase.
  destruct (plan_planned cfg sch sessions order Hpool Hord) as [Hp Hg].
  destruct (0 <? _); [|by split].
  pose proof (guard_planned cfg sch sessions _ (bmt_budget_units (config_ sch)) Hpool Hp Hcap Hg)
    as Hgp.
  destruct (bmt_guard _ _ _) as [[plan' est] tr]. by split.
Qed.

(** ** The tick never reads out of range and never fails an assertion *)

Lemma plan_rows_nil sessions its :
  plan_rows sessions its = [] → plan_samples sessions 0 its = [].
Proof.
  generalize 0%nat as k. unfold plan_rows.
  induction its as [|it its IH]; intros k; [done|]. cbn [mbind list_bind plan_samples].
  unfold rows_of at 1. destruct (sessions !! item_fd it) as [s|]; [|apply IH].
  intros [Hr Hrs]%app_eq_nil. unfold item_sample. rewrite Hr. simpl. by apply IH.
Qed.

Lemma tick_spec cfg sch sessions order now_ns dur_ns :
  pool_ok cfg sessions → iteration_order sessions order → 0 ≤ batch_cap_ sch ≤ INT_MAX →
  let '(plan, sch') := plan_phase sch sessions order in
  let rows := plan_rows sessions (items plan) in
  let smp := plan_samples sessions 0 (items plan) in
  let sessions' := plan_sessions sessions (items plan) in
  tick sch sessions order now_ns dur_ns
  = Some (if bool_decide (rows = []) then (sch', sessions', [])
          else decode_phase sch' plan sessions' (buf_of rows smp) now_ns dur_ns).
Proof.
  intros Hpool Hord Hcap. unfold tick.
  pose proof (plan_phase_spec cfg sch sessions order Hpool Hord ltac:(lia)) as Hplan.
  destruct (plan_phase sch sessions order) as [plan sch'].
  destruct Hplan as ([Hnd Hex _ _ Hcp] & _ & _ & Hbc & _).
  change empty_buf with (buf_of [] []).
  rewrite enact_spec; [|done|apply (Forall_impl _ _ _ Hex); by intros it []].
  cbn [mbind option_bind]. rewrite !app_nil_l. simpl length.
  rewrite Hbc, batch_asserts_hold by (done || lia).
  case_bool_decide as H1'; case_bool_decide as H2'; try done.
  - exfalso. apply H2'. by apply fmap_nil_inv in H1'.
  - exfalso. apply H1'. simpl. by rewrite H2'.
Qed.
End Tick.

(** ** Effect on each session *)

(** After the batch is built: a session with an item is [enacted], any other is
    untouched. *)
Lemma plan_sessions_other sessions its k :
  k ∉ item_fd <$> its → plan_sessions sessions its !! k = sessions !! k.
Proof.
  unfold plan_sessions. revert sessions.
  induction its as [|it its IH]; intros sessions; [done|].
  rewrite fmap_cons, not_elem_of_cons. intros [Hne Hni]. simpl.
  by rewrite IH, lookup_alter_ne.
Qed.

Lemma plan_sessions_item sessions its it s :
  NoDup (item_fd <$> its) → it ∈ its → sessions !! item_fd it = Some s →
  plan_sessions sessions its !! item_fd it = Some (enacted s it).
Proof.
  revert sessions. induction its as [|it' its IH]; intros sessions Hnd Hin Hs;
    [by apply elem_of_nil in Hin|].
  rewrite fmap_cons, NoDup_cons in Hnd. destruct Hnd as [Hni Hnd].
  unfold plan_sessions. cbn [foldl]. apply elem_of_cons in Hin as [->|Hin].
  - fold (plan_sessions (alter (λ s, enacted s it') (item_fd it') sessions) its).
    rewrite plan_sessions_other by done. by rewrite lookup_alter_eq, Hs.
  - apply IH; [done|done|]. rewrite lookup_alter_ne; [done|].
    intros Heq. apply Hni. rewrite Heq. by apply list_elem_of_fmap_2.
Qed.

Lemma enacted_frame s it :
  fd (enacted s it) = fd s ∧ seq (enacted s it) = seq s ∧ state (enacted s it) = state s ∧
  tx (enacted s it) = tx s ∧ rx (enacted s it) = rx s ∧
  prompt_tokens (enacted s it) = prompt_tokens s ∧
  generated_count (enacted s it) = generated_count s ∧
  first_emit_ns (enacted s it) = first_emit_ns s ∧
  read_closed (enacted s it) = read_closed s ∧ request_id (enacted s it) = request_id s.
Proof. unfold enacted. by destruct (phase it). Qed.

Lemma enacted_ok cfg s it :
  session_ok cfg s → state s = phase_state (phase it) → tokens_ok it →
  (phase it = Phase.PREFILL → n_tokens it ≤ remaining s) →
  session_ok cfg (enacted s it).
Proof.
  intros [Hi Hro Hg Hf Hp Hpf Hd] Hst Ht Hn. unfold enacted, tokens_ok in *.
  destruct (phase it); simpl in Hst; [|by split].
  specialize (Hn eq_refl). destruct (Hpf Hst) as (Hp1 & Hp2 & Hp3). specialize (Hi (or_introl Hst)).
  unfold remaining, INT_MAX in *.
  assert (Hi32 : i32 (n_past s + n_tokens it) = n_past s + n_tokens it)
    by (apply i32_id; unfold in_i32, INT_MIN, INT_MAX; lia).
  split; simpl; rewrite ?Hi32, ?Hst; unfold INT_MAX; intros; try discriminate; lia.
Qed.

(** The sample references of a plan. *)
Lemma plan_samples_in sessions k its r :
  keyed_by_fd sessions → r ∈ plan_samples sessions k its →
  ∃ it s, it ∈ its ∧ sessions !! item_fd it = Some s ∧ sample_fd r = item_fd it ∧
    state_before r = phase_state (phase it) ∧ item_rows s it ≠ [].
Proof.
  intros Hk. revert k. induction its as [|it its IH]; intros k; simpl;
    [by intros ?%elem_of_nil|].
  destruct (sessions !! item_fd it) as [s|] eqn:Hs.
  - rewrite elem_of_app. intros [Hr|Hr].
    + exists it, s. unfold item_sample in Hr. case_bool_decide; [by apply elem_of_nil in Hr|].
      apply list_elem_of_singleton in Hr as ->. simpl.
      split_and!; try done; [left|exact (Hk _ _ Hs)].
    + destruct (IH _ Hr) as (it' & s' & ? & ?). exists it', s'. split; [by right|done].
  - intros Hr. destruct (IH _ Hr) as (it' & s' & ? & ?). exists it', s'. split; [by right|done].
Qed.

(** The row of a sample reference is flagged. *)
Lemma item_rows_last s it :
  tokens_ok it → (phase it = Phase.PREFILL → n_tokens it ≤ remaining s) → item_rows s it ≠ [] →
  (r_lg <$> item_rows s it) !! (length (item_rows s it) - 1)%nat = Some 1.
Proof.
  intros Ht Hr Hne. pose proof (length_item_rows s it Ht Hr) as Hlen.
  assert (length (item_rows s it) ≠ 0%nat) by (by destruct (item_rows s it)).
  unfold item_rows in *. destruct (phase it); [|done].
  rewrite length_imap in *. rewrite list_lookup_fmap, list_lookup_imap.
  destruct (lookup_lt_is_Some_2 (chunk_tokens s (n_tokens it))
    (length (chunk_tokens s (n_tokens it)) - 1)%nat ltac:(lia)) as [t ->].
  cbn. rewrite (proj2 (Z.eqb_eq _ _)) by lia. done.
Qed.

Lemma plan_samples_flag sessions k its r :
  Forall (exec_item_ok sessions) its →
  Z.of_nat (k + length (plan_rows sessions its)) ≤ INT_MAX → r ∈ plan_samples sessions k its →
  ∃ i, batch_index r = Z.of_nat (k + i) ∧ (r_lg <$> plan_rows sessions its) !! i = Some 1.
Proof.
  intros Hex. revert k. induction Hex as [|it its [Ht (s & Hs & Hn)] _ IH]; intros k Hk Hr;
    [by apply elem_of_nil in Hr|].
  unfold plan_rows in *. cbn [mbind list_bind plan_samples] in *. unfold rows_of at 1 in Hk.
  unfold rows_of at 1. rewrite Hs in *. rewrite length_app in Hk. rewrite fmap_app.
  apply elem_of_app in Hr as [Hr|Hr].
  - unfold item_sample in Hr. case_bool_decide as Hnil; [by apply elem_of_nil in Hr|].
    apply list_elem_of_singleton in Hr as ->. cbn [batch_index].
    assert (length (item_rows s it) ≠ 0%nat) by (by destruct (item_rows s it)).
    exists (length (item_rows s it) - 1)%nat. split.
    + rewrite i32_id by (unfold in_i32, INT_MIN, INT_MAX in *; lia). lia.
    + apply lookup_app_l_Some, item_rows_last; [done| |done]. intros Hp. apply Hn in Hp. lia.
  - destruct (IH (k + length (item_rows s it))%nat) as (i & Hi & Hl); [lia|done|].
    exists (length (item_rows s it) + i)%nat. split; [lia|].
    rewrite lookup_app_r; rewrite length_fmap; [|lia]. by rewrite Nat.add_sub_swap, Nat.sub_diag by lia.
Qed.

Lemma plan_samples_fds sessions k its :
  keyed_by_fd sessions → sample_fd <$> plan_samples sessions k its `sublist_of` item_fd <$> its.
Proof.
  intros Hk. revert k. induction its as [|it its IH]; intros k; [done|]. simpl.
  destruct (sessions !! item_fd it) as [s|] eqn:Hs; [|by apply sublist_cons].
  unfold item_sample. case_bool_decide; simpl; [by apply sublist_cons|].
  rewrite (Hk _ _ Hs). by apply sublist_skip.
Qed.

Section Samples.
Context `{Llama, ISampler, Conversions}.

(** The possible effects of one sample reference on its session. *)
Inductive sample_step (cfg : RuntimeConfig) (vocab : llama_vocab) (now_ns : Z) (r : SampleRef)
    (s : ClientSession) : ClientSession → Prop :=
| step_no_logits b c :
    decoded b c → flag_set b (batch_index r) → llama_get_logits_ith c (batch_index r) = None →
    sample_step cfg vocab now_ns r s s
| step_first new_id :
    state_before r = PREFILL →
    sample_step cfg vocab now_ns r s (after_prefill vocab now_ns new_id s)
| step_finish new_id :
    state_before r ≠ PREFILL →
    llama_vocab_is_eog vocab new_id = true ∨ max_tokens cfg ≤ generated_count s →
    sample_step cfg vocab now_ns r s
      (finish_stream (max_tokens cfg <=? generated_count s) now_ns s)
| step_next new_id :
    state_before r ≠ PREFILL →
    llama_vocab_is_eog vocab new_id = false → generated_count s < max_tokens cfg →
    sample_step cfg vocab now_ns r s (after_decode vocab now_ns new_id s).

(** What the sampling loop leaves alone in the scheduler. *)
Definition same_setup (sch sch' : Scheduler) : Prop :=
  config_ sch' = config_ sch ∧ vocab_ sch' = vocab_ sch ∧ batch_cap_ sch' = batch_cap_ sch ∧
  target_batch_ sch' = target_batch_ sch ∧ rr_decode_idx_ sch' = rr_decode_idx_ sch ∧
  rr_prefill_idx_ sch' = rr_prefill_idx_ sch ∧ decode_ms_ewma_ sch' = decode_ms_ewma_ sch.

Lemma apply_sample_spec now_ns sch sessions fds r b :
  decoded b (ctx_ sch) → flag_set b (batch_index r) →
  ∃ sch' sessions' fds', apply_sample now_ns (sch, sessions, fds) r = (sch', sessions', fds') ∧
    same_setup sch sch' ∧ decoded b (ctx_ sch') ∧
    (∀ k, k ≠ sample_fd r → sessions' !! k = sessions !! k) ∧
    (sessions !! sample_fd r = None → sessions' = sessions ∧ fds' = fds) ∧
    (∀ s, sessions !! sample_fd r = Some s →
       ∃ s', sessions' !! sample_fd r = Some s' ∧
         sample_step (config_ sch) (vocab_ sch) now_ns r s s' ∧
         (fds' = fds ∨ fds' = fds ++ [fd s'] ∧ tx s = []) ∧
         (tx s = [] → tx s' ≠ [] → fds' = fds ++ [fd s'])).
Proof.
  intros Hdec Hflag. unfold apply_sample, same_setup. destruct (sessions !! sample_fd r) as [s|] eqn:Hs.
  2: { do 3 eexists. split; [done|]. by split_and!. }
  destruct (llama_get_logits_ith _ _) as [row|] eqn:Hlog.
  2: { do 3 eexists. split; [done|]. split_and!; try done. intros s' [= <-].
       exists s. split_and!; [done|by econstructor|by left|done]. }
  destruct (sample _ _ _ _) as [new_id rng'].
  set (lim := max_tokens _ <=? generated_count s).
  assert (Hfds : ∀ s' : ClientSession,
    let fds' := if bool_decide (tx s = []) then fds ++ [fd s'] else fds in
    (fds' = fds ∨ fds' = fds ++ [fd s'] ∧ tx s = []) ∧
    (tx s = [] → tx s' ≠ [] → fds' = fds ++ [fd s'])).
  { intros s'. case_bool_decide; split; auto; done. }
  case_decide as Hst; [|destruct (_ || lim) eqn:Heos];
    (do 3 eexists; split; [done|]; split_and!; try done; try (by apply decoded_seq_rm);
     [by intros k Hk; rewrite lookup_insert_ne|];
     intros s0 [= <-]; eexists; split; [by rewrite lookup_insert_eq|]; split; [|apply Hfds]).
  - by constructor.
  - apply step_finish with new_id; [done|]. apply orb_true_iff in Heos as [?|Hl]; [by left|right].
    subst lim. cbn in Hl. bool_prop. done.
  - apply orb_false_iff in Heos as [? Hl]. subst lim. cbn in Hl. bool_prop. by apply step_next.
Qed.

(** The fields a sampled token never touches. *)
Definition same_request (s s' : ClientSession) : Prop :=
  fd s' = fd s ∧ seq s' = seq s ∧ rx s' = rx s ∧ prompt_tokens s' = prompt_tokens s ∧
  prefill_idx s' = prefill_idx s ∧ request_id s' = request_id s ∧ ctx s' = ctx s ∧
  last_activity_ns s' = last_activity_ns s.

Ltac open_emit :=
  unfold after_prefill, after_decode, finish_stream, mark_emit, emit_piece;
  repeat match goal with
  | |- context [ bool_decide (?l = []) ] => destruct (bool_decide (l = []))
  | |- context [ first_emit_ns ?x =? 0 ] => destruct (first_emit_ns x =? 0)
  end.

Lemma sample_step_frame cfg vocab now_ns r s s' :
  sample_step cfg vocab now_ns r s s' →
  same_request s s' ∧ read_closed s' = read_closed s ∧ last_error s' = last_error s.
Proof. unfold same_request. destruct 1; open_emit; split_and!; reflexivity. Qed.

Lemma sample_step_ok cfg vocab now_ns r s s' :
  sample_step cfg vocab now_ns r s s' → session_ok cfg s → state s = state_before r →
  state s = PREFILL ∨ state s = DECODE → (1 ≤ prefill_idx s)%nat → session_ok cfg s'.
Proof.
  intros Hstep Hok Hst Hcase Hidx.
  destruct Hstep as [|id Hb|id Hb Hor|id Hb He Hlt]; [done|..];
    destruct Hok as [Hi Hro Hg Hf Hp Hpf Hd]; specialize (Hi Hcase); rewrite Hst in *;
    unfold INT_MAX in *.
  - destruct (Hpf Hb) as (? & ? & ?).
    open_emit; split; simpl; unfold INT_MAX; intros; try discriminate; lia.
  - open_emit; split; simpl; unfold INT_MAX; intros; try discriminate; lia.
  - destruct Hcase as [|Hc]; [done|]. destruct (Hd Hc) as [? _].
    assert (Hu : u32 (generated_count s + 1) = generated_count s + 1) by (apply u32_id; lia).
    assert (Hn : i32 (n_past s + 1) = n_past s + 1)
      by (apply i32_id; unfold in_i32, INT_MIN, INT_MAX; lia).
    open_emit; split; simpl; unfold INT_MAX; rewrite ?Hu, ?Hn; intros; try discriminate; lia.
Qed.

Lemma apply_samples_spec now_ns rs sch sessions fds b :
  NoDup (sample_fd <$> rs) → decoded b (ctx_ sch) → Forall (flag_set b ∘ batch_index) rs →
  ∃ sch' sessions' fds',
    foldl (apply_sample now_ns) (sch, sessions, fds) rs = (sch', sessions', fds') ∧
    same_setup sch sch' ∧
    (∀ k, k ∉ sample_fd <$> rs → sessions' !! k = sessions !! k) ∧
    (∀ r s, r ∈ rs → sessions !! sample_fd r = Some s →
       ∃ s', sessions' !! sample_fd r = Some s' ∧
         sample_step (config_ sch) (vocab_ sch) now_ns r s s' ∧
         (tx s = [] → tx s' ≠ [] → fd s' ∈ fds')) ∧
    fds ⊆ fds'.
Proof.
  revert sch sessions fds. induction rs as [|r rs IH]; intros sch sessions fds Hnd Hdec Hfl.
  { do 3 eexists. split; [done|]. split_and!; try done. by intros r s ?%elem_of_nil. }
  rewrite fmap_cons, NoDup_cons in Hnd. destruct Hnd as [Hni Hnd]. apply Forall_cons in Hfl as [Hfr Hfl].
  destruct (apply_sample_spec now_ns sch sessions fds r b Hdec Hfr)
    as (sch1 & sessions1 & fds1 & Hrun & Hsame1 & Hdec1 & Hother1 & Hnone1 & Hsome1).
  cbn [foldl]. rewrite Hrun.
  destruct (IH sch1 sessions1 fds1 Hnd Hdec1 Hfl) as (sch2 & sessions2 & fds2 & -> & Hsame2 & Hother2 &
    Hin2 & Hsub2).
  assert (Hsub1 : fds ⊆ fds1).
  { destruct (sessions !! sample_fd r) as [s|] eqn:Hs.
    - destruct (Hsome1 s eq_refl) as (s' & _ & _ & [->|[-> _]] & _); [done|].
      intros x Hx. apply elem_of_app. by left.
    - by destruct (Hnone1 eq_refl) as [_ ->]. }
  assert (Hcfg : config_ sch1 = config_ sch ∧ vocab_ sch1 = vocab_ sch)
    by (unfold same_setup in Hsame1; tauto).
  do 3 eexists. split; [done|]. split_and!.
  - unfold same_setup in *. intuition congruence.
  - intros k Hk. rewrite fmap_cons, not_elem_of_cons in Hk. destruct Hk as [Hk1 Hk2].
    rewrite Hother2 by done. by apply Hother1.
  - intros r' s Hr' Hs. apply elem_of_cons in Hr' as [->|Hr'].
    + destruct (Hsome1 s Hs) as (s' & Hs' & Hst & _ & Harm). exists s'.
      rewrite Hother2 by done. split_and!; [done|done|]. intros Ht Ht'.
      apply Hsub2. rewrite (Harm Ht Ht'). apply elem_of_app. right. left.
    + destruct Hcfg as [Hc Hv]. rewrite <- Hc, <- Hv. apply Hin2; [done|].
      rewrite Hother1; [done|]. intros Heq. apply Hni. rewrite <- Heq.
      by apply list_elem_of_fmap_2.
  - by transitivity fds1.
Qed.

(** The failure loop marks exactly the sampled sessions. *)
Lemma fail_samples_spec rs sessions :
  NoDup (sample_fd <$> rs) →
  (∀ k, k ∉ sample_fd <$> rs → foldl fail_sample sessions rs !! k = sessions !! k) ∧
  (∀ r, r ∈ rs → foldl fail_sample sessions rs !! sample_fd r
                 = fail_session <$> sessions !! sample_fd r).
Proof.
  revert sessions. induction rs as [|r rs IH]; intros sessions Hnd.
  { split; [done|]. by intros r ?%elem_of_nil. }
  rewrite fmap_cons, NoDup_cons in Hnd. destruct Hnd as [Hni Hnd]. cbn [foldl].
  destruct (IH (fail_sample sessions r) Hnd) as [IH1 IH2].
  assert (Ho : ∀ k, k ≠ sample_fd r → fail_sample sessions r !! k = sessions !! k).
  { intros k Hk. unfold fail_sample. case_match; [by rewrite lookup_insert_ne|done]. }
  split.
  - intros k. rewrite fmap_cons, not_elem_of_cons. intros [Hk1 Hk2].
    by rewrite IH1, Ho.
  - intros r' Hr'. apply elem_of_cons in Hr' as [->|Hr'].
    + rewrite IH1 by done. unfold fail_sample.
      destruct (sessions !! sample_fd r) eqn:Hs; [by rewrite lookup_insert_eq|done].
    + rewrite IH2, Ho; [done| |done]. intros Heq. apply Hni. rewrite <- Heq.
      by apply list_elem_of_fmap_2.
Qed.
End Samples.

(** ** The tick as a transition on each session *)

Section TickStep.
Context `{Llama, IBatchPolicy, !BatchPolicyLaws, ISampler, Conversions}.

(** The rows decoded in a tick, the batch handed to llama.cpp and the return
    code it answers. *)
Definition tick_items (sch : Scheduler) (sessions : SessionPool) (order : list Z)
    : list BatchItem := items (plan_phase sch sessions order).1.

Definition tick_rows (sch : Scheduler) (sessions : SessionPool) (order : list Z) : list Row :=
  plan_rows sessions (tick_items sch sessions order).

Definition batch_of_rows (rows : list Row) : llama_batch := {|
  b_token := r_tok <$> rows; b_pos := r_pos <$> rows; b_n_seq_id := (λ _, 1) <$> rows;
  b_seq_id := r_seq <$> rows; b_logits := r_lg <$> rows |}.

Definition tick_rc (sch : Scheduler) (sessions : SessionPool) (order : list Z) : Z :=
  (llama_decode
     (if enable_perf (config_ sch) then llama_perf_context_reset (ctx_ sch) else ctx_ sch)
     (batch_of_rows (tick_rows sch sessions order))).2.

(** What a tick may do to a session: nothing, an item trimmed to nothing, an
    item decoded and sampled, an item in a batch that failed. *)
Inductive tick_step (cfg : RuntimeConfig) (vocab : llama_vocab) (now_ns : Z)
    (s : ClientSession) : ClientSession → Prop :=
| tick_idle : tick_step cfg vocab now_ns s s
| tick_trimmed it :
    phase it = Phase.PREFILL → n_tokens it = 0 → state s = PREFILL →
    tick_step cfg vocab now_ns s (enacted s it)
| tick_sampled it r s' :
    tokens_ok it → 1 ≤ n_tokens it → state s = phase_state (phase it) →
    (phase it = Phase.PREFILL → n_tokens it ≤ remaining s) →
    state_before r = phase_state (phase it) →
    sample_step cfg vocab now_ns r (enacted s it) s' →
    tick_step cfg vocab now_ns s s'
| tick_failed it :
    tokens_ok it → 1 ≤ n_tokens it → state s = phase_state (phase it) →
    (phase it = Phase.PREFILL → n_tokens it ≤ remaining s) →
    tick_step cfg vocab now_ns s (fail_session (enacted s it)).

Lemma plan_samples_mem sessions k its it s :
  it ∈ its → sessions !! item_fd it = Some s → fd s = item_fd it → item_rows s it ≠ [] →
  ∃ r, r ∈ plan_samples sessions k its ∧ sample_fd r = item_fd it ∧
       state_before r = phase_state (phase it).
Proof.
  intros Hin Hs Hfd Hne. revert k. induction its as [|it' its IH]; intros k;
    [by apply elem_of_nil in Hin|].
  simpl. apply elem_of_cons in Hin as [<-|Hin].
  - rewrite Hs. unfold item_sample. rewrite bool_decide_eq_false_2 by done.
    eexists. split; [left|]. done.
  - specialize (IH Hin). destruct (IH k) as (r & Hr & ?).
    destruct (sessions !! item_fd it') as [s'|]; [|by eauto].
    destruct (IH (k + length (item_rows s' it'))%nat) as (r' & Hr' & ?).
    exists r'. split; [|done]. apply elem_of_app. by right.
Qed.

(** Items of a session-distinct plan are determined by their descriptor. *)
Lemma item_unique its it it' :
  NoDup (item_fd <$> its) → it ∈ its → it' ∈ its → item_fd it = item_fd it' → it = it'.
Proof.
  intros Hnd [i Hi]%list_elem_of_lookup [j Hj]%list_elem_of_lookup Heq.
  assert (i = j) as ->; [|congruence].
  eapply NoDup_lookup; [done| |]; rewrite list_lookup_fmap.
  - by rewrite Hi.
  - rewrite Hj. simpl. by rewrite Heq.
Qed.

Definition step_pool (cfg : RuntimeConfig) (vocab : llama_vocab) (now_ns : Z)
    (sessions sessions' : SessionPool) : Prop :=
  ∀ k, match sessions !! k, sessions' !! k with
       | Some s, Some s' => tick_step cfg vocab now_ns s s'
       | None, None => True
       | _, _ => False
       end.

(** The facts about one session after the batch is built and its samples are
    handled by a loop that treats every sampled session with [R]. *)
Lemma step_pool_of_samples cfg vocab now_ns sch sessions plan sessions' rs
    (R : SampleRef → ClientSession → ClientSession → Prop) :
  pool_ok cfg sessions → planned sch sessions plan →
  rs = plan_samples sessions 0 (items plan) →
  (∀ k, k ∉ sample_fd <$> rs →
        sessions' !! k = plan_sessions sessions (items plan) !! k) →
  (∀ r s, r ∈ rs → plan_sessions sessions (items plan) !! sample_fd r = Some s →
          ∃ s', sessions' !! sample_fd r = Some s' ∧ R r s s') →
  (∀ it s r s', tokens_ok it → 1 ≤ n_tokens it → state s = phase_state (phase it) →
     (phase it = Phase.PREFILL → n_tokens it ≤ remaining s) →
     state_before r = phase_state (phase it) → R r (enacted s it) s' →
     tick_step cfg vocab now_ns s s') →
  step_pool cfg vocab now_ns sessions sessions'.
Proof.
  intros Hpool [Hnd Hex Hrd _ _] -> Hother Hin HR k.
  rewrite Forall_forall in Hex, Hrd.
  destruct (decide (k ∈ item_fd <$> items plan)) as [Hk|Hk].
  2: { rewrite Hother, plan_sessions_other by
         (done || (intros Hr; apply Hk; eapply elem_of_sublist; [done|];
                   apply plan_samples_fds, Hpool)).
       destruct (sessions !! k); [constructor|done]. }
  apply list_elem_of_fmap in Hk as (it & -> & Hit).
  destruct (Hrd it Hit) as (s & Hs & Hst & Hn). destruct (Hex it Hit) as [Ht _].
  destruct (pool_ok_lookup _ _ _ _ Hpool Hs) as [_ Hfd]. rewrite Hs.
  pose proof (length_item_rows s it Ht Hn) as Hlen.
  pose proof (plan_sessions_item _ _ _ _ Hnd Hit Hs) as Hps.
  destruct (decide (item_rows s it = [])) as [Hr|Hr].
  - rewrite Hother, Hps.
    + unfold item_rows in Hr. destruct (phase it) eqn:Hph; [|done].
      apply tick_trimmed; [done| |done]. rewrite <- Hlen. unfold item_rows.
      by rewrite Hph, Hr.
    + intros Hin'. apply list_elem_of_fmap in Hin' as (r & Hrfd & Hr').
      destruct (plan_samples_in _ _ _ _ (proj1 Hpool) Hr')
        as (it' & s' & Hit' & Hs' & Hfd' & _ & Hne).
      assert (it' = it) as -> by (eapply item_unique; [done|done|done|congruence]).
      congruence.
  - destruct (plan_samples_mem sessions 0 _ it s Hit Hs Hfd Hr) as (r & Hrin & Hrfd & Hrst).
    destruct (Hin r (enacted s it) Hrin) as (s' & Hs' & HRs); [by rewrite Hrfd|].
    rewrite <- Hrfd, Hs'. eapply HR; try done.
    destruct (item_rows s it); [done|]. simpl in Hlen. lia.
Qed.

(** *** Session facts along a step *)

Lemma enacted_idx cfg s it :
  session_ok cfg s → state s = phase_state (phase it) → 1 ≤ n_tokens it →
  (1 ≤ prefill_idx (enacted s it))%nat.
Proof.
  intros Hok Hst Hn. unfold enacted. destruct (phase it); simpl in *; [lia|].
  apply (ok_decode _ _ Hok Hst).
Qed.

Lemma tick_step_ok cfg vocab now_ns s s' :
  tick_step cfg vocab now_ns s s' → session_ok cfg s → session_ok cfg s'.
Proof.
  intros Hstep Hok. destruct Hstep as [|it Hph Hn Hst|it r s' Ht Hn Hst Hr Hb Hs|it Ht Hn Hst Hr].
  - done.
  - apply enacted_ok; [done|by rewrite Hph| |].
    + unfold tokens_ok. rewrite Hph, Hn. unfold INT_MAX. lia.
    + intros _. rewrite Hn. pose proof (ok_idx _ _ Hok (or_introl Hst)). unfold remaining. lia.
  - destruct (enacted_frame s it) as (_ & _ & Hes & _).
    eapply sample_step_ok; [done|by apply enacted_ok|congruence| |by eapply enacted_idx].
    rewrite Hes, Hst. destruct (phase it); auto.
  - destruct (enacted_ok cfg s it Hok Hst Ht Hr) as [_ ? ? ? ? _ _]. split; try done.
    by intros [].
Qed.

Lemma tick_step_fd cfg vocab now_ns s s' : tick_step cfg vocab now_ns s s' → fd s' = fd s.
Proof.
  destruct 1 as [|it|it r s' ? ? ? ? ? Hs|it]; [done| | |].
  - apply enacted_frame.
  - destruct (sample_step_frame _ _ _ _ _ _ Hs) as [[-> _] _]. apply enacted_frame.
  - apply enacted_frame.
Qed.

Lemma step_pool_ok cfg vocab now_ns sessions sessions' :
  step_pool cfg vocab now_ns sessions sessions' → pool_ok cfg sessions → pool_ok cfg sessions'.
Proof.
  intros Hstep Hpool. split; intros k s' Hs'; specialize (Hstep k); rewrite Hs' in Hstep;
    destruct (sessions !! k) as [s|] eqn:Hs; try done;
    destruct (pool_ok_lookup _ _ _ _ Hpool Hs) as [Hok Hfd].
  - rewrite (tick_step_fd _ _ _ _ _ Hstep). done.
  - by eapply tick_step_ok.
Qed.

(** *** The whole tick *)

(** What happens to a session whose item has tokens. *)
Definition serve_step (cfg : RuntimeConfig) (vocab : llama_vocab) (now_ns : Z) (it : BatchItem)
    (s s' : ClientSession) : Prop :=
  (∃ r, state_before r = phase_state (phase it) ∧
        sample_step cfg vocab now_ns r (enacted s it) s') ∨
  s' = fail_session (enacted s it).

Record tick_result (sch : Scheduler) (sessions : SessionPool) (order : list Z) (now_ns : Z)
    (sch' : Scheduler) (sessions' : SessionPool) (fds : list Z) : Prop := {
  tr_config : config_ sch' = config_ sch;
  tr_vocab : vocab_ sch' = vocab_ sch;
  tr_cap : batch_cap_ sch' = batch_cap_ sch;
  tr_step : step_pool (config_ sch) (vocab_ sch) now_ns sessions sessions';
  tr_target : target_batch_ sch' = target_batch_ sch ∨
    ∃ ewma, target_batch_ sch' = tune_target (target_batch_ sch) (batch_cap_ sch) ewma;
  tr_fail : tick_rows sch sessions order = [] ∨ tick_rc sch sessions order ≠ 0 → fds = [];
  tr_failed : tick_rows sch sessions order ≠ [] → tick_rc sch sessions order ≠ 0 →
    ∀ it s, it ∈ tick_items sch sessions order → 1 ≤ n_tokens it →
      sessions !! item_fd it = Some s →
      sessions' !! item_fd it = Some (fail_session (enacted s it));
  tr_served : ∀ it s, it ∈ tick_items sch sessions order → 1 ≤ n_tokens it →
    sessions !! item_fd it = Some s →
    ∃ s', sessions' !! item_fd it = Some s' ∧ serve_step (config_ sch) (vocab_ sch) now_ns it s s';
  tr_arm : tick_rc sch sessions order = 0 → ∀ k s s',
    sessions !! k = Some s → sessions' !! k = Some s' → tx s = [] → tx s' ≠ [] → k ∈ fds;
  tr_rest : ∀ k s s',
    sessions !! k = Some s → sessions' !! k = Some s' →
    (∃ it, it ∈ tick_items sch sessions order ∧ item_fd it = k ∧ 1 ≤ n_tokens it) ∨ s' = s ∨
    ∃ it, it ∈ tick_items sch sessions order ∧ item_fd it = k ∧ n_tokens it = 0 ∧ s' = enacted s it;
}.

(** Output only comes from an item with tokens. *)
Lemma tr_quiet sch sessions order now_ns sch' sessions' fds :
  tick_result sch sessions order now_ns sch' sessions' fds → ∀ k s s',
  sessions !! k = Some s → sessions' !! k = Some s' → tx s' ≠ tx s →
  ∃ it, it ∈ tick_items sch sessions order ∧ item_fd it = k ∧ 1 ≤ n_tokens it.
Proof.
  intros Hr k s s' Hs Hs' Hne.
  destruct (tr_rest _ _ _ _ _ _ _ Hr k s s' Hs Hs') as [?|[->|(it & _ & _ & _ & ->)]]; [done|done|].
  destruct Hne. apply enacted_frame.
Qed.

Lemma plan_sessions_tx cfg sessions its k s1 :
  pool_ok cfg sessions → NoDup (item_fd <$> its) → Forall (from_ready sessions) its →
  plan_sessions sessions its !! k = Some s1 →
  ∃ s, sessions !! k = Some s ∧ tx s1 = tx s ∧ fd s1 = fd s.
Proof.
  intros Hpool Hnd Hrd Hs1. rewrite Forall_forall in Hrd.
  destruct (decide (k ∈ item_fd <$> its)) as [Hk|Hk].
  - apply list_elem_of_fmap in Hk as (it & -> & Hit).
    destruct (Hrd it Hit) as (s & Hs & _).
    rewrite (plan_sessions_item _ _ _ _ Hnd Hit Hs) in Hs1. injection Hs1 as <-.
    exists s. destruct (enacted_frame s it) as (? & _ & _ & ? & _). by split_and!.
  - rewrite plan_sessions_other in Hs1 by done. by eauto.
Qed.

(** The decode phase over a batch given by rows. *)
Lemma decode_phase_spec sch plan sessions rows smp now_ns dur_ns :
  NoDup (sample_fd <$> smp) → Forall (flag_set (batch_of_rows rows) ∘ batch_index) smp →
  let ctx0 := if enable_perf (config_ sch) then llama_perf_context_reset (ctx_ sch)
              else ctx_ sch in
  let rc := (llama_decode ctx0 (batch_of_rows rows)).2 in
  ∃ sch' sessions' fds,
    decode_phase sch plan sessions (buf_of rows smp) now_ns dur_ns = (sch', sessions', fds) ∧
    config_ sch' = config_ sch ∧ vocab_ sch' = vocab_ sch ∧ batch_cap_ sch' = batch_cap_ sch ∧
    (∃ ewma, target_batch_ sch' = tune_target (target_batch_ sch) (batch_cap_ sch) ewma) ∧
    (∀ k, k ∉ sample_fd <$> smp → sessions' !! k = sessions !! k) ∧
    (rc = 0 → ∀ r s, r ∈ smp → sessions !! sample_fd r = Some s →
       ∃ s', sessions' !! sample_fd r = Some s' ∧
         sample_step (config_ sch) (vocab_ sch) now_ns r s s' ∧
         (tx s = [] → tx s' ≠ [] → fd s' ∈ fds)) ∧
    (rc ≠ 0 → fds = [] ∧
       ∀ r, r ∈ smp → sessions' !! sample_fd r = fail_session <$> sessions !! sample_fd r).
Proof.
  intros Hnd Hfl. cbn zeta. unfold decode_phase. rewrite make_batch_rows.
  fold (batch_of_rows rows).
  set (sch0 := if enable_perf (config_ sch) then _ else _).
  assert (Hctx : ctx_ sch0 = if enable_perf (config_ sch)
    then llama_perf_context_reset (ctx_ sch) else ctx_ sch)
    by (subst sch0; by destruct (enable_perf (config_ sch))).
  assert (Hsame : config_ sch0 = config_ sch ∧ vocab_ sch0 = vocab_ sch ∧
    batch_cap_ sch0 = batch_cap_ sch ∧ target_batch_ sch0 = target_batch_ sch)
    by (subst sch0; by destruct (enable_perf (config_ sch))).
  clearbody sch0. rewrite <- Hctx.
  pose proof (decoded_now (batch_of_rows rows) (ctx_ sch0)) as Hdec.
  destruct (llama_decode (ctx_ sch0) (batch_of_rows rows)) as [ctx' rc]. cbn [fst snd] in *.
  set (sch1 := account_phase _ _ _ _).
  assert (Hctx1 : ctx_ sch1 = llama_synchronize ctx') by reflexivity.
  assert (Hacc : config_ sch1 = config_ sch ∧ vocab_ sch1 = vocab_ sch ∧
    batch_cap_ sch1 = batch_cap_ sch ∧
    ∃ ewma, target_batch_ sch1 = tune_target (target_batch_ sch) (batch_cap_ sch) ewma).
  { destruct Hsame as (Hc & Hv & Hb & Ht). subst sch1. unfold account_phase. simpl.
    rewrite Ht, Hb. split_and!; eauto. }
  clearbody sch1. destruct Hacc as (Hc & Hv & Hb & Ht).
  destruct (rc =? 0) eqn:Erc; bool_prop.
  - destruct (apply_samples_spec now_ns smp sch1 sessions [] (batch_of_rows rows) Hnd
      ltac:(rewrite Hctx1; by apply Hdec) Hfl)
      as (sch2 & sessions2 & fds2 & Hrun & Hsetup & Hother & Hin & _).
    change (samples (buf_of rows smp)) with smp. rewrite Hrun.
    unfold same_setup in Hsetup. destruct Hsetup as (Hc2 & Hv2 & Hb2 & Ht2 & _).
    do 3 eexists. split; [done|]. rewrite Hc, Hv in Hin. split_and!; try congruence; try done.
    destruct Ht as [ewma Ht]. exists ewma. congruence.
  - destruct (fail_samples_spec smp sessions Hnd) as [Hother Hin].
    do 3 eexists. split; [done|]. split_and!; try congruence; try done.
Qed.

Section Outcome.
Context (sch : Scheduler) (sessions : SessionPool) (plan : Plan).
Context (Hpool : pool_ok (config_ sch) sessions) (Hpl : planned sch sessions plan).
Local Abbreviation smp := (plan_samples sessions 0 (items plan)).
Local Abbreviation built := (plan_sessions sessions (items plan)).

Lemma samples_NoDup : NoDup (sample_fd <$> smp).
Proof.
  eapply sublist_NoDup; [apply (pl_nodup _ _ _ Hpl)|]. apply plan_samples_fds, Hpool.
Qed.

Lemma samples_flagged :
  batch_cap_ sch ≤ INT_MAX →
  Forall (flag_set (batch_of_rows (plan_rows sessions (items plan))) ∘ batch_index) smp.
Proof.
  intros Hcap. apply Forall_forall. intros r Hr.
  pose proof (length_plan_rows _ _ (pl_exec _ _ _ Hpl)) as Hl. pose proof (pl_cap _ _ _ Hpl).
  destruct (plan_samples_flag sessions 0 (items plan) r (pl_exec _ _ _ Hpl)) as (i & Hi & Hlg);
    [unfold INT_MAX in *; lia|done|].
  unfold flag_set, compose. rewrite Hi. cbn [Nat.add]. split; [lia|]. rewrite Nat2Z.id. exact Hlg.
Qed.

Lemma built_tx k s1 :
  built !! k = Some s1 → ∃ s, sessions !! k = Some s ∧ tx s1 = tx s.
Proof.
  intros Hs1. destruct (plan_sessions_tx _ _ _ _ _ Hpool (pl_nodup _ _ _ Hpl)
    (pl_ready _ _ _ Hpl) Hs1) as (s & ? & ? & _). by eauto.
Qed.

(** A non-empty item has a sample, and its session is found enacted. *)
Lemma item_sampled it s :
  it ∈ items plan → 1 ≤ n_tokens it → sessions !! item_fd it = Some s →
  ∃ r, r ∈ smp ∧ sample_fd r = item_fd it ∧ built !! sample_fd r = Some (enacted s it) ∧
       state_before r = phase_state (phase it).
Proof.
  intros Hit Hn Hs. destruct (pool_ok_lookup _ _ _ _ Hpool Hs) as [_ Hfd].
  pose proof (pl_exec _ _ _ Hpl) as Hex. rewrite Forall_forall in Hex.
  destruct (Hex it Hit) as [Htk (s0 & Hs0 & Hr0)]. simplify_eq.
  pose proof (length_item_rows s it Htk (λ Hp, proj2 (Hr0 Hp))) as Hl.
  destruct (plan_samples_mem sessions 0 _ it s Hit Hs Hfd) as (r & Hr & Hrfd & Hrb).
  { intros Hnil. rewrite Hnil in Hl. simpl in Hl. lia. }
  exists r. split_and!; [done|done| |done]. rewrite Hrfd.
  by apply plan_sessions_item; [apply (pl_nodup _ _ _ Hpl)| |].
Qed.

(** A session that starts to have output is handed back for arming. *)
Lemma outcome_arm now_ns (sessions' : SessionPool) (fds : list Z) :
  (∀ k, k ∉ sample_fd <$> smp → sessions' !! k = built !! k) →
  (∀ r s, r ∈ smp → built !! sample_fd r = Some s →
     ∃ s', sessions' !! sample_fd r = Some s' ∧
       sample_step (config_ sch) (vocab_ sch) now_ns r s s' ∧
       (tx s = [] → tx s' ≠ [] → fd s' ∈ fds)) →
  ∀ k s s', sessions !! k = Some s → sessions' !! k = Some s' → tx s = [] → tx s' ≠ [] →
    k ∈ fds.
Proof.
  intros Hother Hin k s s' Hs Hs' Htx Htx'.
  destruct (decide (k ∈ sample_fd <$> smp)) as [Hk|Hk].
  2: { exfalso. rewrite Hother in Hs' by done.
       destruct (built_tx _ _ Hs') as (s0 & Hs0 & Htx0). congruence. }
  apply list_elem_of_fmap in Hk as (r & -> & Hr).
  destruct (plan_samples_in _ _ _ _ (proj1 Hpool) Hr) as (it & s0 & Hit & Hs0 & Hrfd & _).
  rewrite Hrfd, Hs0 in Hs. injection Hs as <-.
  destruct (Hin r (enacted s0 it) Hr) as (s2 & Hs2 & Hst & Harm).
  { rewrite Hrfd. apply plan_sessions_item; [apply (pl_nodup _ _ _ Hpl)|done|done]. }
  rewrite Hs2 in Hs'. injection Hs' as <-.
  destruct (sample_step_frame _ _ _ _ _ _ Hst) as [[Hf2 _] _].
  destruct (enacted_frame s0 it) as (Hf0 & _ & _ & Htx0 & _).
  destruct (pool_ok_lookup _ _ _ _ Hpool Hs0) as [_ Hfd].
  rewrite Hrfd, <- Hfd, <- Hf0, <- Hf2. apply Harm; congruence.
Qed.

(** A session without an item that has tokens is left alone, or its item was
    trimmed to nothing. *)
Lemma outcome_rest (sessions' : SessionPool) :
  (∀ k, k ∉ sample_fd <$> smp → sessions' !! k = built !! k) →
  ∀ k s s', sessions !! k = Some s → sessions' !! k = Some s' →
    (∃ it, it ∈ items plan ∧ item_fd it = k ∧ 1 ≤ n_tokens it) ∨ s' = s ∨
    ∃ it, it ∈ items plan ∧ item_fd it = k ∧ n_tokens it = 0 ∧ s' = enacted s it.
Proof.
  intros Hother k s s' Hs Hs'. pose proof (pl_exec _ _ _ Hpl) as Hex. rewrite Forall_forall in Hex.
  destruct (decide (k ∈ item_fd <$> items plan)) as [(it & -> & Hit)%list_elem_of_fmap|Hk].
  - destruct (decide (1 ≤ n_tokens it)) as [Hn|Hn]; [left; by exists it|right; right].
    exists it. destruct (Hex it Hit) as [Htk (s1 & Hs1 & Hr1)]. simplify_eq.
    pose proof (length_item_rows s it Htk (λ Hp, proj2 (Hr1 Hp))) as Hl.
    assert (Hz : n_tokens it = 0) by lia. split_and!; [done|done|done|].
    rewrite Hother in Hs'; [|].
    + rewrite (plan_sessions_item _ _ _ _ (pl_nodup _ _ _ Hpl) Hit Hs) in Hs'. by injection Hs'.
    + intros (r & Hfd & Hr)%list_elem_of_fmap.
      destruct (plan_samples_in _ _ _ _ (proj1 Hpool) Hr) as (it' & s0 & Hit' & Hs0 & Hrfd & _ & Hrows).
      assert (it' = it) as -> by (eapply item_unique; [apply Hpl|done|done|congruence]).
      simplify_eq. destruct (item_rows s it); [done|cbn in Hl; lia].
  - right. left. rewrite Hother, plan_sessions_other in Hs'; [congruence|done|].
    intros (r & -> & Hr)%list_elem_of_fmap. apply Hk.
    destruct (plan_samples_in _ _ _ _ (proj1 Hpool) Hr) as (it & _ & Hit & _ & -> & _).
    by apply list_elem_of_fmap_2.
Qed.

Lemma outcome_empty now_ns :
  plan_rows sessions (items plan) = [] →
  step_pool (config_ sch) (vocab_ sch) now_ns sessions built.
Proof.
  intros Hnil. eapply step_pool_of_samples with (R := λ _ _ _, False);
    [done|done|done|done| |done].
  rewrite plan_rows_nil by done. by intros ?? ?%elem_of_nil.
Qed.
End Outcome.

Lemma tick_result_exists sch sessions order now_ns dur_ns :
  pool_ok (config_ sch) sessions → iteration_order sessions order →
  0 ≤ batch_cap_ sch ≤ INT_MAX →
  ∃ sch' sessions' fds, tick sch sessions order now_ns dur_ns = Some (sch', sessions', fds) ∧
    tick_result sch sessions order now_ns sch' sessions' fds.
Proof.
  intros Hpool Hord Hcap.
  pose proof (tick_spec _ sch sessions order now_ns dur_ns Hpool Hord Hcap) as Htick.
  pose proof (plan_phase_spec _ sch sessions order Hpool Hord ltac:(lia)) as Hplan.
  assert (Hitems : tick_items sch sessions order = items (plan_phase sch sessions order).1)
    by done.
  destruct (plan_phase sch sessions order) as [plan sch1]. cbn [fst] in Hitems.
  destruct Hplan as (Hpl & Hc & Hv & Hb & Ht & Hctx & _).
  assert (Hrows : tick_rows sch sessions order = plan_rows sessions (items plan))
    by (unfold tick_rows; by rewrite Hitems).
  cbn zeta in Htick. rewrite Htick.
  case_bool_decide as Hnil.
  { do 3 eexists. split; [done|]. split; [done|done|done|by eapply outcome_empty|by left|done| | | |].
    - by rewrite Hrows.
    - intros it s Hit Hn Hs. rewrite Hitems in Hit.
      destruct (item_sampled _ _ _ Hpool Hpl it s Hit Hn Hs) as (r & Hr & _).
      rewrite plan_rows_nil in Hr by done. by apply elem_of_nil in Hr.
    - intros _ k s s' Hs Hs' Htx Htx'. exfalso.
      destruct (built_tx _ _ _ Hpool Hpl _ _ Hs') as (s0 & Hs0 & Htx0). congruence.
    - rewrite Hitems. by eapply outcome_rest. }
  destruct (decode_phase_spec sch1 plan (plan_sessions sessions (items plan))
    (plan_rows sessions (items plan)) (plan_samples sessions 0 (items plan))
    now_ns dur_ns (samples_NoDup _ _ _ Hpool Hpl) (samples_flagged _ _ _ Hpl ltac:(lia)))
    as (sch' & sessions' & fds & Hrun & Hc' & Hv' & Hb' & Ht' & Hother & Hgood & Hbad).
  rewrite Hrun. do 3 eexists. split; [done|].
  assert (Hrc : (llama_decode (if enable_perf (config_ sch1) then
      llama_perf_context_reset (ctx_ sch1) else ctx_ sch1)
      (batch_of_rows (plan_rows sessions (items plan)))).2 = tick_rc sch sessions order)
    by (unfold tick_rc; by rewrite Hrows, Hc, Hctx).
  cbn zeta in Hgood, Hbad. rewrite Hrc in Hgood, Hbad. rewrite Hc, Hv in Hgood.
  rewrite Ht, Hb in Ht'.
  split; [congruence|congruence|congruence| |by right| | | | |].
  - destruct (decide (tick_rc sch sessions order = 0)) as [Hz|Hz].
    + eapply step_pool_of_samples with
        (R := sample_step (config_ sch) (vocab_ sch) now_ns); [done|done|done|done| |].
      * intros r s Hr Hs. destruct (Hgood Hz r s Hr Hs) as (s' & ? & ? & _). by eauto.
      * intros. by eapply tick_sampled.
    + eapply step_pool_of_samples with (R := λ _ s s', s' = fail_session s);
        [done|done|done|done| |].
      * intros r s Hr Hs. destruct (Hbad Hz) as [_ Hf]. rewrite (Hf r Hr), Hs. by eauto.
      * intros. subst. by eapply tick_failed.
  - rewrite Hrows. intros [?|Hz]; [done|]. by apply Hbad.
  - intros _ Hz it s Hit Hn Hs. rewrite Hitems in Hit. destruct (Hbad Hz) as [_ Hf].
    destruct (item_sampled _ _ _ Hpool Hpl it s Hit Hn Hs) as (r & Hr & <- & Hbuilt & _).
    by rewrite (Hf r Hr), Hbuilt.
  - intros it s Hit Hn Hs. rewrite Hitems in Hit.
    destruct (item_sampled _ _ _ Hpool Hpl it s Hit Hn Hs) as (r & Hr & <- & Hbuilt & Hrb).
    destruct (decide (tick_rc sch sessions order = 0)) as [Hz|Hz].
    + destruct (Hgood Hz r _ Hr Hbuilt) as (s' & Hs' & Hst & _). exists s'. split; [done|].
      left. by exists r.
    + destruct (Hbad Hz) as [_ Hf]. rewrite (Hf r Hr), Hbuilt. eexists. split; [done|]. by right.
  - intros Hz. eapply outcome_arm; [done|done|done|]. by apply Hgood.
  - rewrite Hitems. by eapply outcome_rest.
Qed.
End TickStep.
