(* ===== verification/ToyLlama.v ===== *)
(** * A concrete language model

    A small computable instance of the class [Llama] on which the theorems are
    exercised: one token per byte, a batch capacity of 32, logits that always
    favour token 1, token 2 as end of generation. The context keeps every
    batch it was given, and [toy_rc] is the code its [llama_decode] answers. *)
From stdpp Require Import prelude gmap list strings.
From Stdlib Require Import SpecFloat.
From S2P Require Import Prelude Floating Session Config Llama Metrics Sampling Scheduler.
Local Open Scope Z_scope.

Record toy_context := { toy_batches : list llama_batch; toy_rc : Z }.

Definition toy_perf : llama_perf_context_data :=
  {| t_eval_ms := F64.of_Z 3; t_p_eval_ms := F64.of_Z 4; n_eval := 1; n_p_eval := 0 |}.

#[export] Instance ToyLlama : Llama := {|
  llama_context := toy_context;
  llama_vocab := unit;
  llama_n_batch := λ _, 32;
  llama_decode := λ c b,
    ({| toy_batches := toy_batches c ++ [b]; toy_rc := toy_rc c |}, toy_rc c);
  llama_synchronize := λ c, c;
  llama_get_logits_ith := λ _ _, Some (F32.of_Z <$> [0; 5; 1]);
  llama_memory_seq_rm := λ c _ _ _, c;
  llama_perf_context_reset := λ c, c;
  llama_perf_context := λ _, toy_perf;
  llama_vocab_n_tokens := λ _, 3;
  llama_vocab_is_eog := λ _ t, t =? 2;
  llama_token_to_piece := λ _ t _ _ _, (1, [byte_of_Z (0x61 + t)]);
  llama_tokenize := λ _ text n _ _,
    if n <? Z.of_nat (length text) then (- Z.of_nat (length text), [])
    else (Z.of_nat (length text), byte_val <$> text);
|}.

#[export] Instance ToySampler : ISampler := @TopPSampler ReplayLib.
#[export] Instance ToyConversions : Conversions := λ _, 0.

Definition toy_ctx (rc : Z) : toy_context := {| toy_batches := []; toy_rc := rc |}.

Definition toy_config : RuntimeConfig := default_config.

(** A scheduler over the toy model whose decode answers [rc]. *)
Definition toy_scheduler (rc : Z) : Scheduler :=
  new_scheduler (toy_ctx rc) tt toy_config (Some new_metrics) ([] : list float).

Definition toy_vocab : option llama_vocab := Some tt.
