(* ===== verification/SchedulerCorrect.v ===== *)
(** * Correctness of the scheduler

    The properties of [Scheduler::tick] and of runs of it, for every model,
    every sampler and every policy that keeps [BatchPolicyLaws]. *)
From stdpp Require Import prelude gmap list strings.
From Stdlib Require Import SpecFloat.
From S2P Require Import Prelude Floating FloatFacts Protocol Session Config Llama Metrics Policy Bmt Sampling Scheduler SchedulerFacts ToyLlama.
Import Protocol.
Local Open Scope Z_scope.

(** ** The adaptive batch target *)

(** The range the target keeps to. *)
Definition target_ok (cap target : Z) : Prop := 1 ≤ target ≤ Z.max 8 cap.

Lemma tune_target_ok `{Conversions} cap target ewma :
  1 ≤ cap ≤ 2 ^ 30 → target_ok cap target → target_ok cap (tune_target target cap ewma).
Proof.
  intros Hcap Ht. unfold target_ok, tune_target in *. rewrite literal_0_7.
  destruct (F64.lt _ ewma).
  - destruct (scale_down target 6305039478318694) as (z & Hz & Hr);
      [unfold INT_MAX; lia|reflexivity|].
    unfold cast_i32. rewrite Hz. cbn [from_option]. unfold id. lia.
  - destruct (F64.lt ewma _); [|done].
    assert (0 ≤ 8 * Z.quot target 8 ≤ target) by (rewrite Z.quot_div_nonneg by lia; zlia).
    rewrite i32_id by (unfold in_i32, INT_MAX, INT_MIN; lia). lia.
Qed.

(** ** What a tick does to the output buffer *)

Section Output.
Context `{Llama, IBatchPolicy, ISampler, Conversions}.

(** The frames appended to [tx]: none or one. *)
Definition extends_output (s s' : ClientSession) : Prop :=
  tx s' = tx s ∨ ∃ payload, tx s' = write_frame (tx s) payload.

Lemma emit_piece_output vocab s t : extends_output s (emit_piece vocab s t).
Proof. unfold emit_piece. case_goal; [by left|right; by eexists]. Qed.

Lemma mark_emit_tx s now_ns : tx (mark_emit s now_ns) = tx s.
Proof. unfold mark_emit. by destruct (first_emit_ns s =? 0). Qed.

Lemma sample_step_output cfg vocab now_ns r s s' :
  sample_step cfg vocab now_ns r s s' → extends_output s s'.
Proof.
  intros [|t|t|t]; unfold extends_output.
  - by left.
  - unfold after_prefill. rewrite mark_emit_tx. exact (emit_piece_output vocab _ t).
  - unfold finish_stream. rewrite mark_emit_tx. right. by eexists.
  - unfold after_decode. rewrite mark_emit_tx. exact (emit_piece_output vocab s t).
Qed.

Lemma tick_step_output cfg vocab now_ns s s' :
  tick_step cfg vocab now_ns s s' → extends_output s s'.
Proof.
  intros [|it|it r s2 _ _ _ _ _ Hst|it].
  - by left.
  - left. apply enacted_frame.
  - apply sample_step_output in Hst. unfold extends_output in *.
    by rewrite (proj1 (proj2 (proj2 (proj2 (enacted_frame s it))))) in Hst.
  - right. rewrite <- (proj1 (proj2 (proj2 (proj2 (enacted_frame s it))))).
    exists (error_payload (request_id (enacted s it)) (str "E_RUNTIME_DECODE")
              (str "decode failed")). reflexivity.
Qed.

(** ** State transitions *)

(** The edges of the session state machine a tick may take. *)
Definition tick_edge (a b : SessionState) : Prop :=
  a = b ∨ (a = PREFILL ∧ (b = DECODE ∨ b = ERRORED)) ∨
  (a = DECODE ∧ (b = STREAM ∨ b = ERRORED)).

Lemma mark_emit_state s now_ns : state (mark_emit s now_ns) = state s.
Proof. unfold mark_emit. by destruct (first_emit_ns s =? 0). Qed.

Lemma sample_step_state cfg vocab now_ns r s s' :
  sample_step cfg vocab now_ns r s s' → state s = state_before r →
  state s = PREFILL ∨ state s = DECODE → tick_edge (state s) (state s').
Proof.
  unfold tick_edge.
  intros [|t Hr|t Hr Hend|t Hr] Hs Hor; [by left|..].
  - unfold after_prefill. rewrite mark_emit_state.
    assert (state (emit_piece vocab (s <| pending_tok := t |> <| has_pending_tok := true |>
              <| state := DECODE |>) t) = DECODE) as -> by (unfold emit_piece; by case_goal).
    rewrite Hs, Hr. tauto.
  - unfold finish_stream. rewrite mark_emit_state. cbn.
    destruct Hor as [Ho|Ho]; [congruence|]. tauto.
  - unfold after_decode. rewrite mark_emit_state. cbn.
    destruct Hor as [Ho|Ho]; [congruence|]. tauto.
Qed.

Lemma tick_step_edge cfg vocab now_ns s s' :
  tick_step cfg vocab now_ns s s' → tick_edge (state s) (state s').
Proof.
  intros [|it Hp _ Hs|it r s2 _ _ Hs _ Hr Hst|it _ _ Hs].
  - by left.
  - left. symmetry. apply enacted_frame.
  - assert (Hst' : state (enacted s it) = state s) by apply enacted_frame.
    rewrite <- Hst'. eapply sample_step_state; [done|congruence|].
    rewrite Hst', Hs. destruct (phase it); [by left|by right].
  - unfold tick_edge. cbn. rewrite Hs. destruct (phase it); cbn; tauto.
Qed.

(** A session outside [PREFILL] never has more of its prompt read. *)
Lemma tick_step_prompt cfg vocab now_ns s s' :
  tick_step cfg vocab now_ns s s' → state s ≠ PREFILL →
  prefill_idx s' = prefill_idx s ∧ prompt_tokens s' = prompt_tokens s.
Proof.
  intros [|it Hp _ Hs|it r s2 _ _ Hs _ Hr Hst|it _ _ Hs] Hne; [done|done|..];
    (destruct (phase it) eqn:Ep; [done|]); cbn in Hs.
  - apply sample_step_frame in Hst as [(_ & _ & _ & -> & -> & _) _].
    unfold enacted. by rewrite Ep.
  - unfold fail_session, enacted. by rewrite Ep.
Qed.
End Output.

(** ** Tokens land at their own positions *)

Section Rows.
Context `{Llama, IBatchPolicy, !BatchPolicyLaws, ISampler, Conversions}.

(** What a batch row carries for the session it belongs to: the prompt token
    of its position, or the pending token right behind everything decoded. *)
Definition row_of (s : ClientSession) (r : Row) : Prop :=
  r_seq r = seq s ∧
  (state s = PREFILL ∧ 0 ≤ r_pos r ∧
   prompt_tokens s !! Z.to_nat (r_pos r) = Some (r_tok r) ∧ (prefill_idx s ≤ Z.to_nat (r_pos r))%nat
   ∨ state s = DECODE ∧ r_tok r = pending_tok s ∧ r_lg r = 1 ∧
     r_pos r = Z.of_nat (prefill_idx s) + generated_count s).

Lemma item_rows_placed cfg s it r :
  session_ok cfg s → state s = phase_state (phase it) → r ∈ item_rows s it → row_of s r.
Proof.
  intros Hok Hst Hr. unfold item_rows in Hr. destruct (phase it) eqn:Ep; cbn in Hst.
  - apply list_elem_of_lookup in Hr as (j & Hj). rewrite list_lookup_imap in Hj.
    apply fmap_Some in Hj as (t & Ht & ->). unfold chunk_tokens in Ht.
    apply lookup_take_Some in Ht as [Ht Hlt]. rewrite lookup_drop in Ht.
    destruct (ok_prefill _ _ Hok Hst) as (Hp & _).
    pose proof (ok_fits _ _ Hok). pose proof (ok_gen _ _ Hok).
    pose proof (lookup_lt_Some _ _ _ Ht) as Hlen.
    split; [done|]. left. split; [done|]. cbn [r_pos prefill_row r_tok].
    rewrite i32_id by (unfold in_i32, INT_MAX, INT_MIN in *; lia).
    rewrite Hp. replace (Z.to_nat _) with (prefill_idx s + j)%nat by lia. split_and!; [lia|done|lia].
  - apply list_elem_of_singleton in Hr as ->. split; [done|]. right.
    destruct (ok_decode _ _ Hok Hst) as [Hp _]. by rewrite <- Hp.
Qed.

Lemma tick_rows_placed sch sessions order r :
  pool_ok (config_ sch) sessions → iteration_order sessions order → batch_cap_ sch ≤ INT_MAX →
  r ∈ tick_rows sch sessions order →
  ∃ k s, sessions !! k = Some s ∧ row_of s r.
Proof.
  intros Hpool Hord Hcap Hr.
  pose proof (plan_phase_spec (config_ sch) sch sessions order Hpool Hord Hcap) as Hpl.
  unfold tick_rows, tick_items, plan_rows in Hr.
  destruct (plan_phase sch sessions order) as [plan sch']. destruct Hpl as [Hpl _].
  apply list_elem_of_bind in Hr as (it & Hr & Hit).
  pose proof (pl_ready _ _ _ Hpl) as HF. rewrite Forall_forall in HF.
  destruct (HF it Hit) as (s & Hs & Hst & _). unfold rows_of in Hr. rewrite Hs in Hr.
  exists (item_fd it), s. split; [done|]. eapply item_rows_placed; [|done|done].
  by apply (pool_ok_lookup (config_ sch) sessions (item_fd it)).
Qed.

Lemma tick_batch sch sessions order :
  pool_ok (config_ sch) sessions → iteration_order sessions order →
  0 ≤ batch_cap_ sch ≤ INT_MAX →
  ∃ sessions' b, enact (sessions, empty_buf) (tick_items sch sessions order) = Some (sessions', b) ∧
    batch_asserts (batch_cap_ sch) b = true ∧
    make_batch b = batch_of_rows (tick_rows sch sessions order) ∧
    Z.of_nat (length (tick_rows sch sessions order)) ≤ batch_cap_ sch.
Proof.
  intros Hpool Hord Hcap.
  pose proof (plan_phase_spec (config_ sch) sch sessions order Hpool Hord ltac:(lia)) as Hpl.
  unfold tick_rows, tick_items.
  destruct (plan_phase sch sessions order) as [plan sch']. destruct Hpl as [Hpl _].
  pose proof (pl_exec _ _ _ Hpl) as Hex. pose proof (pl_cap _ _ _ Hpl) as Htot.
  change empty_buf with (buf_of [] []). cbn [fst]. rewrite enact_spec.
  - eexists _, _. split; [done|]. cbn [app length].
    split; [apply batch_asserts_hold; [done|lia|lia]|].
    split; [apply make_batch_rows|]. rewrite length_plan_rows by done. lia.
  - apply Hpl.
  - apply (Forall_impl _ _ _ Hex). by intros it [_ ?].
Qed.
End Rows.

(** ** Runs of ticks *)

Section Run.
Context `{Llama, IBatchPolicy, !BatchPolicyLaws, ISampler, Conversions}.

(** What one tick is given: the order in which the session map is visited, the
    time and the measured duration. *)
Record TickInput := { ti_order : list Z; ti_now : Z; ti_dur : Z }.

Fixpoint run_ticks (sch : Scheduler) (sessions : SessionPool) (ts : list TickInput)
    : option (Scheduler * SessionPool) :=
  match ts with
  | [] => Some (sch, sessions)
  | t :: ts' =>
      '(sch', sessions', _) ← tick sch sessions (ti_order t) (ti_now t) (ti_dur t);
      run_ticks sch' sessions' ts'
  end.

(** The invariant of a scheduler with its pool. *)
Record sched_ok (sch : Scheduler) (sessions : SessionPool) : Prop := {
  so_cap : 1 ≤ batch_cap_ sch ≤ 2 ^ 30;
  so_target : target_ok (batch_cap_ sch) (target_batch_ sch);
  so_pool : pool_ok (config_ sch) sessions;
}.

Lemma step_pool_dom cfg vocab now_ns sessions sessions' k :
  step_pool cfg vocab now_ns sessions sessions' →
  is_Some (sessions !! k) ↔ is_Some (sessions' !! k).
Proof.
  intros Hst. specialize (Hst k).
  destruct (sessions !! k), (sessions' !! k); try done; rewrite <- ?not_eq_None_Some; naive_solver.
Qed.

Lemma step_pool_order cfg vocab now_ns sessions sessions' order :
  step_pool cfg vocab now_ns sessions sessions' →
  iteration_order sessions order → iteration_order sessions' order.
Proof.
  intros Hst [Hnd Hin]. split; [done|]. intros k.
  by rewrite Hin, (step_pool_dom _ _ _ _ _ k Hst).
Qed.

Lemma tick_sched_ok sch sessions order now_ns dur_ns :
  sched_ok sch sessions → iteration_order sessions order →
  ∃ sch' sessions' fds, tick sch sessions order now_ns dur_ns = Some (sch', sessions', fds) ∧
    sched_ok sch' sessions' ∧ tick_result sch sessions order now_ns sch' sessions' fds.
Proof.
  intros [Hcap Htgt Hpool] Hord.
  destruct (tick_result_exists sch sessions order now_ns dur_ns Hpool Hord)
    as (sch' & sessions' & fds & Ht & Hr); [unfold INT_MAX; lia|].
  exists sch', sessions', fds. split; [done|]. split; [|done].
  destruct Hr as [Hcfg _ Hc Hst Htg _ _ _ _]. split; [by rewrite Hc| |].
  - rewrite Hc. destruct Htg as [->|[ewma ->]]; [done|]. by apply tune_target_ok.
  - rewrite Hcfg. by eapply step_pool_ok.
Qed.

Lemma run_ticks_ok ts : ∀ sch sessions,
  sched_ok sch sessions → Forall (iteration_order sessions ∘ ti_order) ts →
  ∃ sch' sessions', run_ticks sch sessions ts = Some (sch', sessions') ∧ sched_ok sch' sessions'.
Proof.
  induction ts as [|t ts IH]; intros sch sessions Hok Hts; [by eexists _, _|].
  apply Forall_cons in Hts as [Ht Hts].
  destruct (tick_sched_ok sch sessions (ti_order t) (ti_now t) (ti_dur t) Hok Ht)
    as (sch1 & s1 & fds & Hk & Hok1 & Hr).
  destruct (IH sch1 s1 Hok1) as (sch' & s' & Hrun & Hok').
  { apply (Forall_impl _ _ _ Hts). intros x Hx. by eapply step_pool_order, Hx; apply Hr. }
  exists sch', s'. cbn. by rewrite Hk.
Qed.
End Run.

(** ** The toy pool satisfies the invariant *)

Lemma prompt_session_ok f n :
  (n ≤ 1000)%nat → session_ok toy_config (prompt_session f n).
Proof. intros Hn. split; cbn; rewrite ?length_replicate; unfold INT_MAX; lia || done. Qed.

Lemma decode_session_ok f n :
  (1 ≤ n ≤ 1000)%nat → session_ok toy_config (decode_session f n).
Proof. intros Hn. split; cbn; rewrite ?length_replicate; unfold INT_MAX; lia || done. Qed.

Lemma toy_pool_ok : pool_ok toy_config toy_pool.
Proof.
  unfold toy_pool. split.
  - apply map_Forall_insert_2; [done|]. apply map_Forall_insert_2; [done|]. apply map_Forall_empty.
  - apply map_Forall_insert_2; [apply prompt_session_ok; lia|].
    apply map_Forall_insert_2; [apply decode_session_ok; lia|]. apply map_Forall_empty.
Qed.

Lemma toy_sched_ok rc : sched_ok (toy_scheduler rc) toy_pool.
Proof.
  split; [change (1 ≤ 32 ≤ 2 ^ 30); lia|change (1 ≤ 32 ≤ Z.max 8 32); lia|exact toy_pool_ok].
Qed.

(** The result of one tick of the toy scheduler. *)
Definition toy_tick (rc : Z) : option (Scheduler * SessionPool * list Z) :=
  tick (toy_scheduler rc) toy_pool (map_order toy_pool) 100 5000000.

(** ** Theorems *)

Section Theorems.
Context `{Llama, IBatchPolicy, !BatchPolicyLaws, ISampler, Conversions}.

(** C6. A tick never goes wrong: for sessions that satisfy the scheduler's
    invariant the batch is built without reading a prompt out of range, every
    assertion before [llama_decode] holds (parallel arrays of one length, at
    most [batch_cap_] rows, as many requested logits as sample references), the
    row pointers designate each row's own sequence id, and the tick returns. *)
Theorem tick_safe sch sessions order now_ns dur_ns :
  pool_ok (config_ sch) sessions → iteration_order sessions order →
  0 ≤ batch_cap_ sch ≤ INT_MAX →
  (∃ sessions' b,
     enact (sessions, empty_buf) (tick_items sch sessions order) = Some (sessions', b) ∧
     batch_asserts (batch_cap_ sch) b = true ∧
     make_batch b = batch_of_rows (tick_rows sch sessions order) ∧
     Z.of_nat (length (tick_rows sch sessions order)) ≤ batch_cap_ sch) ∧
  is_Some (tick sch sessions order now_ns dur_ns).
Proof.
  intros Hpool Hord Hcap. split; [by apply tick_batch|].
  destruct (tick_result_exists sch sessions order now_ns dur_ns Hpool Hord Hcap)
    as (sch' & s' & fds & -> & _). done.
Qed.

(** C7. Tokens land where they belong: every row of the batch belongs to a
    session of the pool and carries that session's sequence id; a prefill row
    at position [p] is the prompt's token number [p], not read before; a decode
    row is the session's pending token, placed right behind the prompt tokens
    read and the tokens generated so far, with its logits requested. *)
Theorem batch_rows_placed sch sessions order r :
  pool_ok (config_ sch) sessions → iteration_order sessions order →
  batch_cap_ sch ≤ INT_MAX → r ∈ tick_rows sch sessions order →
  ∃ k s, sessions !! k = Some s ∧ row_of s r.
Proof. apply tick_rows_placed. Qed.

(** Any number of ticks, from any scheduler with a sane batch capacity and
    any valid pool, whatever the model, the sampler, the clock and the visiting
    orders do: no tick fails, the pool invariant is kept (every session filed
    under its descriptor, prefill index within the prompt, [n_past] equal to
    tokens consumed, at most [max_tokens] counted) and the adaptive target
    stays between 1 and [max 8 batch_cap_]. *)
Theorem ticks_never_fail sch sessions ts :
  sched_ok sch sessions → Forall (iteration_order sessions ∘ ti_order) ts →
  ∃ sch' sessions', run_ticks sch sessions ts = Some (sch', sessions') ∧ sched_ok sch' sessions'.
Proof. intros. by apply run_ticks_ok. Qed.

(** C8. What a tick may do to a session: it follows an edge of the state
    machine (a prefilling session starts decoding or fails, a decoding session
    goes on, ends its stream or fails, every other state is left alone), it
    appends at most one whole frame to the output buffer, and once a session
    has left the prefill state no more of its prompt is read. *)
Theorem tick_session_step sch sessions order now_ns dur_ns sch' sessions' fds k s s' :
  pool_ok (config_ sch) sessions → iteration_order sessions order →
  0 ≤ batch_cap_ sch ≤ INT_MAX →
  tick sch sessions order now_ns dur_ns = Some (sch', sessions', fds) →
  sessions !! k = Some s → sessions' !! k = Some s' →
  tick_edge (state s) (state s') ∧ extends_output s s' ∧
  (state s ≠ PREFILL → prefill_idx s' = prefill_idx s) ∧
  generated_count s' ≤ max_tokens (config_ sch).
Proof.
  intros Hpool Hord Hcap Ht Hs Hs'.
  destruct (tick_result_exists sch sessions order now_ns dur_ns Hpool Hord Hcap)
    as (? & ? & ? & Ht' & Hr). rewrite Ht in Ht'. injection Ht' as <- <- <-.
  pose proof (tr_step _ _ _ _ _ _ _ Hr) as Hst.
  pose proof (step_pool_ok _ _ _ _ _ Hst Hpool) as Hpool'.
  specialize (Hst k). rewrite Hs, Hs' in Hst. split_and!.
  - by eapply tick_step_edge.
  - by eapply tick_step_output.
  - intros Hne. by eapply tick_step_prompt.
  - by apply (pool_ok_lookup _ _ _ _ Hpool' Hs').
Qed.

(** C38. No lost wake-up: when the decode succeeds, every session whose output
    buffer was empty and is not any more is in the list of descriptors handed
    back for write arming. *)
Theorem tick_arms_output sch sessions order now_ns dur_ns sch' sessions' fds k s s' :
  pool_ok (config_ sch) sessions → iteration_order sessions order →
  0 ≤ batch_cap_ sch ≤ INT_MAX → tick_rc sch sessions order = 0 →
  tick sch sessions order now_ns dur_ns = Some (sch', sessions', fds) →
  sessions !! k = Some s → sessions' !! k = Some s' → tx s = [] → tx s' ≠ [] → k ∈ fds.
Proof.
  intros Hpool Hord Hcap Hrc Ht Hs Hs' Htx Htx'.
  destruct (tick_result_exists sch sessions order now_ns dur_ns Hpool Hord Hcap)
    as (? & ? & ? & Ht' & Hr). rewrite Ht in Ht'. injection Ht' as <- <- <-.
  by eapply tr_arm.
Qed.

(** C39. A failed decode: every session with a row in the batch becomes errored,
    stops reading and has exactly one error frame appended, but no descriptor
    is handed back, so a buffer that was empty is not armed for writing. *)
Theorem failed_decode_not_armed sch sessions order now_ns dur_ns sch' sessions' fds it s :
  pool_ok (config_ sch) sessions → iteration_order sessions order →
  0 ≤ batch_cap_ sch ≤ INT_MAX →
  tick_rows sch sessions order ≠ [] → tick_rc sch sessions order ≠ 0 →
  tick sch sessions order now_ns dur_ns = Some (sch', sessions', fds) →
  it ∈ tick_items sch sessions order → 1 ≤ n_tokens it → sessions !! item_fd it = Some s →
  fds = [] ∧
  ∃ s', sessions' !! item_fd it = Some s' ∧ state s' = ERRORED ∧ read_closed s' = true ∧
    tx s' = append_error_event (tx s) (request_id s) (str "E_RUNTIME_DECODE")
              (str "decode failed").
Proof.
  intros Hpool Hord Hcap Hrows Hrc Ht Hit Hn Hs.
  destruct (tick_result_exists sch sessions order now_ns dur_ns Hpool Hord Hcap)
    as (? & ? & ? & Ht' & Hr). rewrite Ht in Ht'. injection Ht' as <- <- <-.
  split; [apply (tr_fail _ _ _ _ _ _ _ Hr); by right|].
  exists (fail_session (enacted s it)). split; [by eapply tr_failed|]. split; [done|].
  split; [done|]. pose proof (enacted_frame s it) as (_ & _ & _ & <- & _ & _ & _ & _ & _ & <-).
  done.
Qed.
End Theorems.

(** The adaptive batch target is always usable: whatever the moving average
    is (the conversion of [target * 0.7] never leaves [int32_t]), retuning
    keeps the target between 1 and the larger of 8 and the batch capacity. *)
Theorem tune_target_in_range `{Conversions} cap target ewma :
  1 ≤ cap ≤ 2 ^ 30 → 1 ≤ target ≤ Z.max 8 cap →
  1 ≤ tune_target target cap ewma ≤ Z.max 8 cap.
Proof. apply tune_target_ok. Qed.

(** Time accounting: the nanoseconds of a batch are split between decode and
    prefill without loss, the decode share is the floor of its proportion of
    the tokens, and neither share exceeds the duration. *)
Theorem time_split_exact dur_ns gen_tok pf_tok :
  0 ≤ dur_ns < 2 ^ 63 → 0 ≤ gen_tok → 0 ≤ pf_tok → 0 < gen_tok + pf_tok →
  let tot := gen_tok + pf_tok in
  gen_ns_of dur_ns gen_tok tot + pf_ns_of dur_ns gen_tok tot = dur_ns ∧
  gen_ns_of dur_ns gen_tok tot = dur_ns * gen_tok / tot ∧
  0 ≤ pf_ns_of dur_ns gen_tok tot ≤ dur_ns.
Proof.
  intros Hd Hg Hp Ht tot.
  assert (Hq : 0 ≤ dur_ns * gen_tok / tot ≤ dur_ns).
  { split; [apply Z.div_pos; nia|]. apply Z.div_le_upper_bound; nia. }
  assert (Hgen : gen_ns_of dur_ns gen_tok tot = dur_ns * gen_tok / tot).
  { unfold gen_ns_of. rewrite (proj2 (Z.ltb_lt _ _)) by lia.
    rewrite Z.quot_div_nonneg by nia. apply u64_id. lia. }
  assert (Hpf : pf_ns_of dur_ns gen_tok tot = dur_ns - dur_ns * gen_tok / tot).
  { unfold pf_ns_of. rewrite (proj2 (Z.ltb_lt _ _)), Hgen by lia.
    rewrite (u64_id dur_ns) by lia. apply u64_id. lia. }
  rewrite Hgen, Hpf. lia.
Qed.

(** ** Two behaviours worth knowing *)

Section Prompt.
Context `{Llama, IBatchPolicy, !BatchPolicyLaws, ISampler, Conversions}.

Lemma run_ticks_prompt ts k : ∀ sch sessions s sch' sessions',
  sched_ok sch sessions → Forall (iteration_order sessions ∘ ti_order) ts →
  sessions !! k = Some s → state s ≠ PREFILL →
  run_ticks sch sessions ts = Some (sch', sessions') →
  ∃ s', sessions' !! k = Some s' ∧ prefill_idx s' = prefill_idx s ∧
        prompt_tokens s' = prompt_tokens s.
Proof.
  induction ts as [|t ts IH]; intros sch sessions s sch' sessions' Hok Hts Hs Hne Hrun.
  { injection Hrun as <- <-. by exists s. }
  apply Forall_cons in Hts as [Ht Hts].
  destruct (tick_sched_ok sch sessions (ti_order t) (ti_now t) (ti_dur t) Hok Ht)
    as (sch1 & p1 & fds & Hk & Hok1 & Hr).
  pose proof (tr_step _ _ _ _ _ _ _ Hr) as Hst. pose proof (Hst k) as Hstk.
  rewrite Hs in Hstk. destruct (p1 !! k) as [s1|] eqn:Hs1; [|done].
  destruct (tick_step_prompt _ _ _ _ _ Hstk Hne) as [Hi Hp].
  assert (Hne1 : state s1 ≠ PREFILL).
  { pose proof (tick_step_edge _ _ _ _ _ Hstk) as Hedge. unfold tick_edge in Hedge.
    destruct Hedge as [<-|[[? _]|[_ [-> | ->]]]]; done. }
  cbn in Hrun. rewrite Hk in Hrun. cbn in Hrun.
  destruct (IH sch1 p1 s1 sch' sessions' Hok1) as (s' & Hs' & Hi' & Hp'); [|done..|].
  { apply (Forall_impl _ _ _ Hts). intros x Hx. by eapply step_pool_order, Hx. }
  exists s'. split; [done|]. by rewrite Hi', Hp'.
Qed.
End Prompt.

(** The session on descriptor [k] after the toy tick. *)
Definition after_toy (rc k : Z) : option ClientSession :=
  r ← toy_tick rc; r.1.2 !! k.

Lemma after_toy_lookup rc k sch1 pool1 fds :
  toy_tick rc = Some (sch1, pool1, fds) → pool1 !! k = after_toy rc k.
Proof. unfold after_toy. by intros ->. Qed.

Lemma toy_tick_some rc : ∃ sch1 pool1 fds, toy_tick rc = Some (sch1, pool1, fds).
Proof.
  destruct (tick_sched_ok (toy_scheduler rc) toy_pool (map_order toy_pool) 100 5000000
    (toy_sched_ok rc) (map_order_spec _)) as (sch1 & pool1 & fds & Hk & _).
  exists sch1, pool1, fds. exact Hk.
Qed.

Lemma after_toy_some k : k = 3 ∨ k = 4 → ∃ s, after_toy 0 k = Some s ∧ tx s ≠ [].
Proof.
  intros Hk.
  assert (E : (λ s, bool_decide (tx s = [])) <$> after_toy 0 k = Some false)
    by (destruct Hk as [-> | ->]; vm_compute; reflexivity).
  destruct (after_toy 0 k) as [s|]; [|discriminate E]. exists s. split; [reflexivity|].
  injection E as E. by apply bool_decide_eq_false in E.
Qed.

(** A scheduler and a session with a limit of two tokens. *)
Definition short_config : RuntimeConfig := {|
  model_path := []; n_ctx := 4096; n_threads := 0; n_batch := 0; n_ubatch := 0;
  socket_path := []; socket_mode := 384; max_sessions := 16;
  max_prompt_bytes := 8192; Config.max_tokens := 2; idle_timeout_sec := 300; max_merge := 4;
  n_seq_max := 4; slo_ttft_ms := 150; slo_tbt_ms := 80; bmt_budget_units := 0;
  use_mmap := true; use_mlock := false; offload_kqv := true; kv_unified := true;
  swa_full := true; enable_perf := false;
|}.
Definition short_scheduler : Scheduler :=
  new_scheduler (toy_ctx 0) tt short_config None ([] : list float).
Definition four_ticks : list TickInput :=
  replicate 4 {| ti_order := [3]; ti_now := 7; ti_dur := 1000 |}.

(** The limit counts decode steps, not tokens: with [max_tokens = 2] a
    request is answered with three token events and then an end of stream
    whose reason is ["length"], because the token sampled from the prefill is
    emitted without being counted. *)
Theorem token_limit_is_off_by_one :
  (run_ticks short_scheduler {[3 := prompt_session 3 4]} four_ticks ≫= λ r,
     (λ s, (state s, generated_count s, tx s)) <$> r.2 !! 3)
  = Some (STREAM, 2,
      encode_frames (replicate 3 (token_payload (str "r") (str "b") 1)
                     ++ [eos_payload (str "r") (str "length")])).
Proof. vm_compute. reflexivity. Qed.

(** ** Witnesses *)

Lemma tick_safe_witness : is_Some (toy_tick 0).
Proof.
  exact (proj2 (tick_safe (toy_scheduler 0) toy_pool (map_order toy_pool) 100 5000000
    toy_pool_ok (map_order_spec _) ltac:(vm_compute; split; discriminate))).
Defined.

Lemma batch_rows_placed_witness :
  ∃ k s, toy_pool !! k = Some s ∧
         row_of s {| r_tok := 7; r_seq := 3; r_pos := 5; r_lg := 0 |}.
Proof.
  apply (batch_rows_placed (toy_scheduler 0) toy_pool (map_order toy_pool));
    [exact toy_pool_ok|apply map_order_spec|vm_compute; discriminate|].
  apply (list_elem_of_lookup_2 _ 6). vm_compute. reflexivity.
Defined.

Lemma ticks_never_fail_witness :
  ∃ sch' sessions', run_ticks (toy_scheduler 0) toy_pool
    [{| ti_order := map_order toy_pool; ti_now := 1; ti_dur := 9 |}] = Some (sch', sessions') ∧
    sched_ok sch' sessions'.
Proof.
  apply (ticks_never_fail (toy_scheduler 0) toy_pool); [apply toy_sched_ok|].
  constructor; [apply map_order_spec|constructor].
Defined.

Lemma tick_session_step_witness :
  ∃ s', after_toy 0 4 = Some s' ∧ tick_edge (state (decode_session 4 2)) (state s') ∧
        extends_output (decode_session 4 2) s'.
Proof.
  destruct (toy_tick_some 0) as (sch1 & pool1 & fds & E).
  pose proof (after_toy_lookup 0 4 _ _ _ E) as Hl.
  destruct (after_toy_some 4 (or_intror eq_refl)) as (s' & Hs' & _). rewrite Hs' in Hl.
  exists s'. split; [exact Hs'|].
  destruct (tick_session_step (toy_scheduler 0) toy_pool (map_order toy_pool) 100 5000000
    sch1 pool1 fds 4 (decode_session 4 2) s' toy_pool_ok (map_order_spec _)
    ltac:(vm_compute; split; discriminate) E eq_refl Hl) as (H1 & H2 & _).
  exact (conj H1 H2).
Defined.

Lemma tick_arms_output_witness :
  ∃ sch' sessions' fds, toy_tick 0 = Some (sch', sessions', fds) ∧ 3 ∈ fds.
Proof.
  destruct (toy_tick_some 0) as (sch1 & pool1 & fds & E).
  exists sch1, pool1, fds. split; [exact E|].
  destruct (after_toy_some 3 (or_introl eq_refl)) as (s' & Hs' & Htx).
  pose proof (eq_trans (after_toy_lookup 0 3 _ _ _ E) Hs') as Hl.
  exact (tick_arms_output (toy_scheduler 0) toy_pool (map_order toy_pool) 100 5000000
    sch1 pool1 fds 3 (prompt_session 3 20) s' toy_pool_ok (map_order_spec _)
    ltac:(vm_compute; split; discriminate) eq_refl E eq_refl Hl eq_refl Htx).
Defined.

Lemma failed_decode_not_armed_witness :
  ∃ sch' sessions' fds, toy_tick 1 = Some (sch', sessions', fds) ∧ fds = [].
Proof.
  destruct (toy_tick_some 1) as (sch1 & pool1 & fds & E).
  exists sch1, pool1, fds. split; [exact E|].
  refine (proj1 (failed_decode_not_armed (toy_scheduler 1) toy_pool (map_order toy_pool)
    100 5000000 sch1 pool1 fds {| item_fd := 4; phase := Phase.DECODE; n_tokens := 1 |}
    (decode_session 4 2) toy_pool_ok (map_order_spec _)
    ltac:(vm_compute; split; discriminate) _ _ E _ _ eq_refl)).
  - vm_compute. discriminate.
  - vm_compute. discriminate.
  - apply (list_elem_of_lookup_2 _ 0). vm_compute. reflexivity.
  - vm_compute. discriminate.
Defined.

Lemma tune_target_in_range_witness :
  tune_target 20 32 (F64.of_Z 100) = 14 ∧ 1 ≤ tune_target 20 32 (F64.of_Z 100) ≤ Z.max 8 32.
Proof.
  split; [vm_compute; reflexivity|]. apply (tune_target_in_range 32 20 (F64.of_Z 100)); lia.
Defined.

Lemma time_split_exact_witness : gen_ns_of 1000 1 3 + pf_ns_of 1000 1 3 = 1000.
Proof. exact (proj1 (time_split_exact 1000 1 2 ltac:(lia) ltac:(lia) ltac:(lia) ltac:(lia))). Defined.
