(* ===== verification/Requests.v ===== *)
(** * Requests are answered completely

    An abstract machine for the answer to a request (waiting, streaming with a
    number of tokens left, closed by an end of stream, broken by an error), the
    refinement of every tick of the scheduler to it, and a ranking function that
    shows that the scheduler ends every request. *)
From stdpp Require Import prelude gmap list strings.
From Stdlib Require Import ZifyBool.
From S2P Require Import Prelude Floating Protocol Session Config Llama Metrics Policy Bmt Sampling Scheduler SchedulerFacts ToyLlama SchedulerCorrect.
Import Protocol.
Local Open Scope Z_scope.

(** ** The abstract machine *)

Inductive Event :=
| TokenEvent (text : bytes) (id : Z)
| EosEvent (reason : bytes)
| ErrorEvent (code msg : bytes).

Definition event_payload (rid : bytes) (e : Event) : bytes :=
  match e with
  | TokenEvent t k => token_payload rid t k
  | EosEvent r => eos_payload rid r
  | ErrorEvent c m => error_payload rid c m
  end.

(** [Open n]: [n] more tokens may be counted. *)
Inductive Answer := Waiting | Open (left : Z) | Closed | Broken | Silent.

(** The token event of a sampled token, with the text [piece] gives for it; a
    token without text has none. *)
Definition at_most_one_token (piece : Z → bytes) (evs : list Event) : Prop :=
  evs = [] ∨ ∃ id, piece id ≠ [] ∧ evs = [TokenEvent (piece id) id].

Definition decode_error : Event := ErrorEvent (str "E_RUNTIME_DECODE") (str "decode failed").

Inductive answer_step (limit : Z) (piece : Z → bytes) : Answer → list Event → Answer → Prop :=
| answer_same a : answer_step limit piece a [] a
| answer_first evs : at_most_one_token piece evs → answer_step limit piece Waiting evs (Open limit)
| answer_next n evs :
    0 < n → at_most_one_token piece evs → answer_step limit piece (Open n) evs (Open (n - 1))
| answer_stop n : 0 < n → answer_step limit piece (Open n) [EosEvent (str "stop")] Closed
| answer_length : answer_step limit piece (Open 0) [EosEvent (str "length")] Closed
| answer_broken a :
    a = Waiting ∨ (∃ n, a = Open n) → answer_step limit piece a [decode_error] Broken.

Inductive answers (limit : Z) (piece : Z → bytes) : Answer → list Event → Answer → Prop :=
| answers_done a : answers limit piece a [] a
| answers_step a b c evs evs' :
    answer_step limit piece a evs b → answers limit piece b evs' c → answers limit piece a (evs ++ evs') c.

(** How many token events may still follow, and how many more times the session
    can be served. *)
Definition room (limit : Z) (a : Answer) : Z :=
  match a with Waiting => limit + 1 | Open n => n | _ => 0 end.

Definition rank (limit : Z) (a : Answer) : Z :=
  match a with Waiting => limit + 2 | Open n => n + 1 | _ => 0 end.

Definition is_token (piece : Z → bytes) (e : Event) : Prop :=
  match e with TokenEvent t k => t = piece k ∧ t ≠ [] | _ => False end.

(** What closes an answer. *)
Definition final (a : Answer) (fin : list Event) : Prop :=
  match a with
  | Closed => fin = [EosEvent (str "stop")] ∨ fin = [EosEvent (str "length")]
  | Broken => fin = [decode_error]
  | _ => fin = []
  end.

Definition answer_ok (a : Answer) : Prop := match a with Open n => 0 ≤ n | _ => True end.
Definition running (a : Answer) : Prop := match a with Waiting | Open _ => True | _ => False end.

Lemma at_most_one_tokens piece evs : at_most_one_token piece evs → Forall (is_token piece) evs ∧ (length evs ≤ 1)%nat.
Proof. intros [->|(k & Ht & ->)]; split; auto. repeat constructor. done. Qed.

Lemma answer_step_stopped limit piece a evs b : answer_step limit piece a evs b → ¬ running a → evs = [] ∧ b = a.
Proof. destruct 1 as [|evs|n evs|n| |a [->|[n ->]]]; cbn; tauto. Qed.

Lemma answers_stopped limit piece a evs b : answers limit piece a evs b → ¬ running a → evs = [] ∧ b = a.
Proof.
  induction 1 as [|a b c evs evs' Hs _ IH]; intros Hr; [done|].
  destruct (answer_step_stopped _ _ _ _ _ Hs Hr) as [-> ->]. by apply IH.
Qed.

(** Every run of the machine: token events, at most as many as there was room
    for, and then the event that closes the answer, if it is closed. *)
Lemma answers_shape limit piece a evs b :
  answers limit piece a evs b → 0 ≤ limit → answer_ok a → running a →
  answer_ok b ∧ ∃ toks fin, evs = toks ++ fin ∧ Forall (is_token piece) toks ∧ final b fin ∧
    Z.of_nat (length toks) + room limit b ≤ room limit a.
Proof.
  intros Hst Hl. induction Hst as [a|a b c evs evs' Hs Hst IH]; intros Ha Hr.
  { split; [done|]. exists [], []. split_and!; [done|done|by destruct a|cbn; lia]. }
  assert (Hrec : running b → answer_ok b → Forall (is_token piece) evs →
    Z.of_nat (length evs) + room limit b ≤ room limit a →
    answer_ok c ∧ ∃ toks fin, evs ++ evs' = toks ++ fin ∧ Forall (is_token piece) toks ∧ final c fin ∧
      Z.of_nat (length toks) + room limit c ≤ room limit a).
  { intros Hrb Hb Hev Hle. destruct (IH Hb Hrb) as (Hc & toks & fin & -> & Ht & Hf & Hn).
    split; [done|]. exists (evs ++ toks), fin. rewrite <- app_assoc, length_app, Nat2Z.inj_add.
    split_and!; try done; [by apply Forall_app|lia]. }
  assert (Hend : ¬ running b → final b evs → room limit b = 0 → 0 ≤ room limit a → answer_ok b →
    answer_ok c ∧ ∃ toks fin, evs ++ evs' = toks ++ fin ∧ Forall (is_token piece) toks ∧ final c fin ∧
      Z.of_nat (length toks) + room limit c ≤ room limit a).
  { intros Hnr Hf Hz Hp Hb. destruct (answers_stopped _ _ _ _ _ Hst Hnr) as [-> ->].
    split; [done|]. exists [], evs. rewrite app_nil_r, Hz. split_and!; done. }
  destruct Hs as [a|evs He|n evs Hn He|n Hn| |a Hor]; cbn in Ha, Hr.
  - apply Hrec; [done|done|done|cbn; lia].
  - destruct (at_most_one_tokens _ _ He). apply Hrec; cbn; auto; lia.
  - destruct (at_most_one_tokens _ _ He). apply Hrec; cbn; auto; lia.
  - apply Hend; cbn; auto; lia.
  - apply Hend; cbn; auto; lia.
  - apply Hend; cbn; auto. destruct Hor as [->|[n ->]]; cbn in *; lia.
Qed.

(** ** Sessions and the machine *)

Definition answer_of (cfg : RuntimeConfig) (s : ClientSession) : Answer :=
  match state s with
  | PREFILL => Waiting
  | DECODE => Open (max_tokens cfg - generated_count s)
  | STREAM => Closed
  | ERRORED => Broken
  | RECV_REQ | DONE => Silent
  end.

Section Refinement.
Context `{Llama, IBatchPolicy, !BatchPolicyLaws, ISampler, Conversions}.

(** The text of a token. *)
Definition piece_of (vocab : llama_vocab) (id : Z) : bytes := token_to_piece_str (Some vocab) id true.

(** The bytes of a list of events behind those already in the buffer. *)
Definition emits (s s' : ClientSession) (evs : list Event) : Prop :=
  tx s' = tx s ++ encode_frames (event_payload (request_id s) <$> evs) ∧
  request_id s' = request_id s.

Lemma emits_one s s' e :
  tx s' = write_frame (tx s) (event_payload (request_id s) e) → request_id s' = request_id s →
  emits s s' [e].
Proof. intros Ht Hr. split; [|done]. rewrite Ht, write_frame_app. done. Qed.

Lemma emits_none s s' : tx s' = tx s → request_id s' = request_id s → emits s s' [].
Proof. intros Ht Hr. split; [|done]. rewrite Ht. cbn. by rewrite app_nil_r. Qed.

Lemma emits_trans s1 s2 s3 evs evs' :
  emits s1 s2 evs → emits s2 s3 evs' → emits s1 s3 (evs ++ evs').
Proof.
  intros [T1 R1] [T2 R2]. split; [|congruence].
  rewrite T2, T1, R1, fmap_app, <- app_assoc. f_equal. unfold encode_frames at 3.
  by rewrite foldl_app, foldl_write_frame.
Qed.

Lemma emit_piece_emits vocab s t :
  ∃ evs, at_most_one_token (piece_of vocab) evs ∧ emits s (emit_piece vocab s t) evs.
Proof.
  unfold emit_piece. case_bool_decide as Hp.
  - exists []. split; [by left|]. by apply emits_none.
  - exists [TokenEvent (piece_of vocab t) t]. split; [right; eauto|].
    by apply emits_one.
Qed.

Lemma mark_emit_fields s now_ns :
  tx (mark_emit s now_ns) = tx s ∧ request_id (mark_emit s now_ns) = request_id s ∧
  state (mark_emit s now_ns) = state s ∧ generated_count (mark_emit s now_ns) = generated_count s ∧
  has_pending_tok (mark_emit s now_ns) = has_pending_tok s ∧
  prefill_idx (mark_emit s now_ns) = prefill_idx s.
Proof. unfold mark_emit. by destruct (first_emit_ns s =? 0). Qed.

Lemma emit_piece_fields vocab s t :
  state (emit_piece vocab s t) = state s ∧ generated_count (emit_piece vocab s t) = generated_count s ∧
  has_pending_tok (emit_piece vocab s t) = has_pending_tok s ∧
  prefill_idx (emit_piece vocab s t) = prefill_idx s ∧ request_id (emit_piece vocab s t) = request_id s.
Proof. unfold emit_piece. by case_bool_decide. Qed.

(** Sampling a token is a step of the machine. *)
Lemma sample_refines cfg vocab now_ns r s s' :
  sample_step cfg vocab now_ns r s s' → session_ok cfg s → state s = state_before r →
  state s = PREFILL ∨ state s = DECODE →
  ∃ evs, answer_step (max_tokens cfg) (piece_of vocab) (answer_of cfg s) evs (answer_of cfg s') ∧ emits s s' evs.
Proof.
  intros Hst Hok Hb Hor. unfold answer_of.
  destruct Hst as [b c|t Hr|t Hr Hend|t Hr He Hlt].
  - exists []. split; [constructor|by apply emits_none].
  - destruct (ok_prefill _ _ Hok ltac:(congruence)) as (_ & Hg & _).
    unfold after_prefill. set (s1 := s <| pending_tok := t |> <| has_pending_tok := true |> <| state := DECODE |>).
    destruct (mark_emit_fields (emit_piece vocab s1 t) now_ns) as (Ht & Hq & -> & -> & _).
    destruct (emit_piece_fields vocab s1 t) as (-> & -> & _).
    destruct (emit_piece_emits vocab s1 t) as (evs & Hone & [Htx Hid]).
    exists evs. split; [|split; [by rewrite Ht|by rewrite Hq]].
    rewrite Hb, Hr. cbn. rewrite Hg, Z.sub_0_r. by constructor.
  - destruct Hor as [?|Hs]; [congruence|]. unfold finish_stream.
    match goal with |- context [mark_emit ?x _] => set (s1 := x) end.
    destruct (mark_emit_fields s1 now_ns) as (Ht & Hq & -> & _). rewrite Hs. cbn [state s1].
    exists [EosEvent (if max_tokens cfg <=? generated_count s then str "length" else str "stop")].
    split; [|by apply emits_one; [rewrite Ht|rewrite Hq]].
    pose proof (ok_gen _ _ Hok). destruct (Z.leb_spec (max_tokens cfg) (generated_count s)).
    + replace (max_tokens cfg - generated_count s) with 0 by lia. constructor.
    + constructor. lia.
  - destruct Hor as [?|Hs]; [congruence|]. unfold after_decode.
    match goal with |- context [mark_emit ?x _] => set (s1 := x) end.
    destruct (mark_emit_fields s1 now_ns) as (Ht & Hq & -> & -> & _). rewrite Hs.
    cbn [state generated_count s1 set_field].
    destruct (emit_piece_emits vocab s t) as (evs & Hone & [Htx Hid]).
    destruct (emit_piece_fields vocab s t) as (_ & Hg & _).
    exists evs. split; [|split; [by rewrite Ht|by rewrite Hq]].
    pose proof (ok_gen _ _ Hok). pose proof (ok_room _ _ Hok). unfold s1. cbn. rewrite Hg.
    rewrite u32_id by (unfold in_u32, INT_MAX in *; lia).
    replace (_ - (_ + 1)) with (max_tokens cfg - generated_count s - 1) by lia.
    constructor; [lia|done].
Qed.

Lemma enacted_answer cfg s it : answer_of cfg (enacted s it) = answer_of cfg s.
Proof.
  destruct (enacted_frame s it) as (_ & _ & Hs & _ & _ & _ & Hg & _). unfold answer_of. by rewrite Hs, Hg.
Qed.

(** So is a tick, seen from one session. *)
Lemma tick_refines cfg vocab now_ns s s' :
  tick_step cfg vocab now_ns s s' → session_ok cfg s →
  ∃ evs, answer_step (max_tokens cfg) (piece_of vocab) (answer_of cfg s) evs (answer_of cfg s') ∧ emits s s' evs.
Proof.
  intros Hst Hok. destruct Hst as [|it Hp Hn Hs|it r s' Ht Hn Hs Hr Hb Hst|it Ht Hn Hs Hr].
  - exists []. split; [constructor|by apply emits_none].
  - exists []. rewrite enacted_answer. split; [constructor|]. apply emits_none; apply enacted_frame.
  - destruct (enacted_frame s it) as (_ & _ & Hes & Het & _ & _ & _ & _ & _ & Hei).
    destruct (sample_refines cfg vocab now_ns r (enacted s it) s' Hst) as (evs & Hev & [E1 E2]).
    + by apply enacted_ok.
    + congruence.
    + rewrite Hes, Hs. destruct (phase it); auto.
    + rewrite enacted_answer in Hev. exists evs. split; [done|]. rewrite Het, Hei in E1. by split; [|congruence].
  - exists [decode_error]. destruct (enacted_frame s it) as (_ & _ & _ & Het & _ & _ & _ & _ & _ & Hei).
    split; [|apply emits_one; [cbn; by rewrite Het, Hei|exact Hei]].
    apply answer_broken. unfold answer_of. rewrite Hs. destruct (phase it); eauto.
Qed.

(** One tick of a run. *)
Lemma run_ticks_cons sch sessions t ts sch' sessions' :
  sched_ok sch sessions → Forall (iteration_order sessions ∘ ti_order) (t :: ts) →
  run_ticks sch sessions (t :: ts) = Some (sch', sessions') →
  ∃ sch1 sessions1 fds, tick_result sch sessions (ti_order t) (ti_now t) sch1 sessions1 fds ∧
    sched_ok sch1 sessions1 ∧ Forall (iteration_order sessions1 ∘ ti_order) ts ∧
    run_ticks sch1 sessions1 ts = Some (sch', sessions').
Proof.
  intros Hok [Ht Hts]%Forall_cons Hrun.
  destruct (tick_sched_ok sch sessions (ti_order t) (ti_now t) (ti_dur t) Hok Ht)
    as (sch1 & s1 & fds & Hk & Hok1 & Hr). cbn in Hrun. rewrite Hk in Hrun. cbn in Hrun.
  exists sch1, s1, fds. split_and!; try done.
  apply (Forall_impl _ _ _ Hts). intros x Hx. by eapply step_pool_order, Hx; apply Hr.
Qed.

Lemma run_config ts : ∀ sch sessions sch' sessions',
  sched_ok sch sessions → Forall (iteration_order sessions ∘ ti_order) ts →
  run_ticks sch sessions ts = Some (sch', sessions') → config_ sch' = config_ sch.
Proof.
  induction ts as [|t ts IH]; intros sch sessions sch' sessions' Hok Hts Hrun.
  { by injection Hrun as -> ->. }
  destruct (run_ticks_cons _ _ _ _ _ _ Hok Hts Hrun) as (sch1 & pool1 & fds & Hr & Hok1 & Hts1 & Hrun1).
  rewrite (IH _ _ _ _ Hok1 Hts1 Hrun1). by apply (tr_config _ _ _ _ _ _ _ Hr).
Qed.

(** Every run of ticks is, for every session, a run of the machine. *)
Lemma run_refines ts : ∀ sch sessions sch' sessions' k s,
  sched_ok sch sessions → Forall (iteration_order sessions ∘ ti_order) ts →
  run_ticks sch sessions ts = Some (sch', sessions') → sessions !! k = Some s →
  ∃ s' evs, sessions' !! k = Some s' ∧
    answers (max_tokens (config_ sch)) (piece_of (vocab_ sch)) (answer_of (config_ sch) s) evs (answer_of (config_ sch) s') ∧
    emits s s' evs.
Proof.
  induction ts as [|t ts IH]; intros sch sessions sch' sessions' k s Hok Hts Hrun Hs.
  { injection Hrun as -> ->. exists s, []. split_and!; [done|constructor|by apply emits_none]. }
  destruct (run_ticks_cons _ _ _ _ _ _ Hok Hts Hrun) as (sch1 & pool1 & fds & Hr & Hok1 & Hts1 & Hrun1).
  pose proof (tr_step _ _ _ _ _ _ _ Hr k) as Hst. rewrite Hs in Hst.
  destruct (pool1 !! k) as [s1|] eqn:Hs1; [|done].
  destruct (pool_ok_lookup _ _ _ _ (so_pool _ _ Hok) Hs) as [Hsok _].
  destruct (tick_refines _ _ _ _ _ Hst Hsok) as (evs & Hev & Hem).
  destruct (IH _ _ _ _ _ _ Hok1 Hts1 Hrun1 Hs1) as (s' & evs' & Hs' & Hev' & Hem').
  rewrite (tr_config _ _ _ _ _ _ _ Hr), (tr_vocab _ _ _ _ _ _ _ Hr) in Hev'.
  exists s', (evs ++ evs'). split_and!; [done|by econstructor|by eapply emits_trans].
Qed.
End Refinement.

(** ** Progress *)

(** A policy makes progress when a ready session and budget for a token give a
    plan that is not empty. *)
Class PolicyProgress `{IBatchPolicy} :=
  policy_progress : ∀ sessions order cap target rd rp k s,
    keyed_by_fd sessions → iteration_order sessions order → 0 < Z.min target cap →
    map_Forall (λ _ s, remaining s < 2 ^ 64) sessions →
    sessions !! k = Some s → prefill_ready s = true ∨ decode_ready s = true →
    items (plan_tick sessions order cap target rd rp) ≠ [].

#[global] Instance BaselinePolicy_progress : @PolicyProgress BaselinePolicy.
Proof. intros sessions order cap target rd rp k s. apply plan_of_ready. Qed.

Section Progress.
Context `{Llama, !LlamaLogits, IBatchPolicy, !BatchPolicyLaws, !PolicyProgress, ISampler, Conversions}.

(** A request that is to be served: its prompt has not been touched, or a token
    of it is to be decoded. *)
Definition due (s : ClientSession) : Prop :=
  state s = PREFILL ∧ prefill_idx s = 0%nat ∧ prompt_tokens s ≠ [] ∨
  state s = DECODE ∧ has_pending_tok s = true.

Definition fresh_prompt (s : ClientSession) : Prop := state s = PREFILL → prefill_idx s = 0%nat.

Lemma due_ready s : due s → prefill_ready s = true ∨ decode_ready s = true.
Proof.
  unfold prefill_ready, decode_ready. intros [(Hs & Hi & Hp)|[Hs Hp]]; rewrite Hs.
  - left. rewrite Hi. by destruct (prompt_tokens s).
  - right. by rewrite Hp.
Qed.

Lemma after_prefill_fields vocab now_ns t s :
  state (after_prefill vocab now_ns t s) = DECODE ∧
  has_pending_tok (after_prefill vocab now_ns t s) = true ∧
  generated_count (after_prefill vocab now_ns t s) = generated_count s.
Proof.
  unfold after_prefill. match goal with |- context [emit_piece _ ?x _] => set (s1 := x) end.
  destruct (mark_emit_fields (emit_piece vocab s1 t) now_ns) as (_ & _ & -> & -> & -> & _).
  by destruct (emit_piece_fields vocab s1 t) as (-> & -> & -> & _).
Qed.

Lemma after_decode_fields vocab now_ns t s :
  state (after_decode vocab now_ns t s) = DECODE ∧
  has_pending_tok (after_decode vocab now_ns t s) = true ∧
  generated_count (after_decode vocab now_ns t s) = u32 (generated_count s + 1).
Proof.
  unfold after_decode. match goal with |- context [mark_emit ?x _] => set (s1 := x) end.
  destruct (mark_emit_fields s1 now_ns) as (_ & _ & -> & -> & -> & _).
  rewrite <- (proj1 (proj2 (emit_piece_fields vocab s t))). done.
Qed.

Lemma finish_stream_state limit now_ns s : state (finish_stream limit now_ns s) = STREAM.
Proof. unfold finish_stream. by rewrite (proj1 (proj2 (proj2 (mark_emit_fields _ _)))). Qed.

(** With logits, sampling moves a session on. *)
Lemma sample_moves cfg vocab now_ns r s s' :
  sample_step cfg vocab now_ns r s s' → session_ok cfg s → state s = state_before r →
  state s = PREFILL ∨ state s = DECODE →
  rank (max_tokens cfg) (answer_of cfg s') < rank (max_tokens cfg) (answer_of cfg s) ∧
  fresh_prompt s' ∧ (due s' ∨ state s' = STREAM).
Proof.
  intros Hst Hok Hb Hor. pose proof (ok_gen _ _ Hok) as Hg. pose proof (ok_room _ _ Hok) as Hr.
  unfold answer_of.
  destruct Hst as [b c Hdec Hfl Hnone|t Hpre|t Hpre Hend|t Hpre He Hlt].
  - destruct (logits_available b c _ Hdec Hfl) as [row Hrow]. congruence.
  - destruct (ok_prefill _ _ Hok ltac:(congruence)) as (_ & Hz & _).
    destruct (after_prefill_fields vocab now_ns t s) as (Hs' & Hp' & Hg').
    rewrite Hs', Hg', Hb, Hpre. cbn [rank]. split; [lia|].
    split; [intros ?; congruence|left; right; by split].
  - destruct Hor as [?|Hs]; [congruence|].
    pose proof (finish_stream_state (max_tokens cfg <=? generated_count s) now_ns s) as Hs'.
    rewrite Hs', Hs. cbn [rank]. split; [lia|]. split; [intros ?; congruence|by right].
  - destruct Hor as [?|Hs]; [congruence|].
    destruct (after_decode_fields vocab now_ns t s) as (Hs' & Hp' & Hg').
    rewrite Hs', Hg', Hs, u32_id by (unfold in_u32, INT_MAX in *; lia). cbn [rank]. split; [lia|].
    split; [intros ?; congruence|left; right; by split].
Qed.

Lemma serve_moves cfg vocab now_ns it s s' :
  serve_step cfg vocab now_ns it s s' → session_ok cfg s → tokens_ok it → 1 ≤ n_tokens it →
  (phase it = Phase.PREFILL → n_tokens it ≤ remaining s) → state s = phase_state (phase it) →
  rank (max_tokens cfg) (answer_of cfg s') < rank (max_tokens cfg) (answer_of cfg s).
Proof.
  intros [(r & Hb & Hst)| ->] Hok Ht Hn Hr Hs; rewrite <- (enacted_answer cfg s it).
  - destruct (enacted_frame s it) as (_ & _ & Hes & _).
    eapply sample_moves; [done|by apply enacted_ok|congruence|].
    rewrite Hes, Hs. destruct (phase it); auto.
  - pose proof (ok_gen _ _ Hok). destruct (enacted_frame s it) as (_ & _ & Hes & _ & _ & _ & Hg & _).
    unfold answer_of at 2. rewrite Hes, Hs, Hg. unfold answer_of. cbn. destruct (phase it); cbn; lia.
Qed.

(** A tick keeps due sessions due until they are answered, and no rank grows. *)
Lemma tick_keeps cfg vocab now_ns s s' :
  tick_step cfg vocab now_ns s s' → session_ok cfg s →
  rank (max_tokens cfg) (answer_of cfg s') ≤ rank (max_tokens cfg) (answer_of cfg s) ∧
  (fresh_prompt s → fresh_prompt s') ∧
  (due s → due s' ∨ state s' = STREAM ∨ state s' = ERRORED).
Proof.
  intros Hst Hok. destruct Hst as [|it Hp Hn Hs|it r s' Ht Hn Hs Hr Hb Hst|it Ht Hn Hs Hr].
  - split; [lia|]. auto.
  - rewrite enacted_answer. split; [lia|]. unfold fresh_prompt, due, enacted. rewrite Hp, Hn. cbn.
    rewrite Nat.add_0_r. auto.
  - destruct (enacted_frame s it) as (_ & _ & Hes & _).
    rewrite <- (enacted_answer cfg s it).
    destruct (sample_moves cfg vocab now_ns r (enacted s it) s' Hst) as (Hlt & Hf & Hd).
    + by apply enacted_ok.
    + congruence.
    + rewrite Hes, Hs. destruct (phase it); auto.
    + split; [lia|]. tauto.
  - pose proof (ok_gen _ _ Hok). rewrite <- (enacted_answer cfg s it). split.
    + destruct (enacted_frame s it) as (_ & _ & Hes & _ & _ & _ & Hg & _).
      unfold answer_of at 2. rewrite Hes, Hs, Hg. unfold answer_of. cbn. destruct (phase it); cbn; lia.
    + split; [by intros _ [=]|]. auto.
Qed.

Lemma plan_cost_zero sessions its :
  Forall (λ it, phase it = Phase.PREFILL ∧ n_tokens it = 0) its → plan_cost sessions its = 0.
Proof.
  induction 1 as [|it its [Hp Hn] _ IH]; [done|].
  rewrite plan_cost_cons, IH. unfold cost. rewrite Hp, Hn. by destruct (sessions !! item_fd it).
Qed.

Lemma tok_total_pos its : its ≠ [] → Forall (λ it, 1 ≤ n_tokens it) its → 0 < tok_total its.
Proof.
  intros Hne. induction 1 as [|it its Hn _ IH]; [done|]. rewrite tok_total_cons.
  destruct its as [|it' its]; [rewrite tok_total_nil; lia|]. specialize (IH ltac:(done)). lia.
Qed.

Lemma tok_total_zero its : Forall (λ it, n_tokens it = 0) its → tok_total its = 0.
Proof. induction 1 as [|it its Hn _ IH]; [done|]. rewrite tok_total_cons. lia. Qed.

(** The guard leaves something of a plan whose prompts are untouched: the first
    token of a prompt costs one unit, and the budget is at least that. *)
Lemma guard_leaves cfg sessions plan budget :
  pool_ok cfg sessions → map_Forall (λ _, fresh_prompt) sessions →
  Forall (guard_item_ok sessions) (items plan) → Forall (from_ready sessions) (items plan) →
  Forall (λ it, 1 ≤ n_tokens it) (items plan) → tok_total (items plan) ≤ INT_MAX →
  items plan ≠ [] → 0 < budget →
  ∃ it, it ∈ items (bmt_guard sessions budget plan).1.1 ∧ 1 ≤ n_tokens it.
Proof.
  intros Hpool Hfresh Hg Hrd Hpos Htot Hne Hb.
  destruct (bmt_guard_post sessions budget plan) as
    (plan' & est & tr & -> & Hsh & Hest & _ & _ & Htr & Htight & _);
    [exact (pool_ok_pasts _ _ Hpool)|done|done|]. cbn [fst].
  destruct (decide (Exists (λ it, 1 ≤ n_tokens it) (items plan'))) as [He|He].
  { by apply Exists_exists in He as (it & ? & ?); exists it. }
  exfalso. apply not_Exists_Forall in He; [|apply _].
  assert (Hall : Forall (λ it, phase it = Phase.PREFILL ∧ n_tokens it = 0) (items plan')).
  { apply Forall_forall. intros it' Hit'. rewrite Forall_forall in He. specialize (He it' Hit').
    unfold compose in He. cbn beta in He. apply list_elem_of_lookup in Hit' as [i Hi'].
    destruct (Forall2_lookup_r _ _ _ _ _ Hsh Hi') as (it & Hi & Hf & Hph & Hd & Hp).
    pose proof (Forall_lookup_1 _ _ _ _ Hpos Hi) as Hn. cbn beta in Hn. rewrite Hph.
    destruct (phase it); [|specialize (Hd eq_refl); lia]. specialize (Hp eq_refl). split; [done|lia]. }
  assert (Hz : tok_total (items plan') = 0)
    by (apply tok_total_zero, (Forall_impl _ _ _ Hall); by intros it [_ ?]).
  assert (Htrue : tr = true) by (rewrite Htr, Hz; by apply Z.ltb_lt, tok_total_pos).
  specialize (Htight Htrue). apply Exists_exists in Htight as (it & Hit & Hph & s & Hs & Hlt).
  rewrite Forall_forall in Hall. destruct (Hall it Hit) as [_ Hn].
  rewrite estimate_exact in Hest; [|exact (pool_ok_pasts _ _ Hpool)|].
  2: { split; [|rewrite Hz; unfold INT_MAX; lia]. apply Forall_forall. intros x Hx.
       destruct (Hall x Hx) as [Hxp Hxn]. unfold tokens_ok. rewrite Hxp, Hxn. unfold INT_MAX. lia. }
  rewrite plan_cost_zero in Hest by (by apply Forall_forall).
  apply list_elem_of_lookup in Hit as [i Hi].
  destruct (Forall2_lookup_r _ _ _ _ _ Hsh Hi) as (it0 & Hi0 & Hf & Hph0 & _).
  destruct (Forall_lookup_1 _ _ _ _ Hrd Hi0) as (s0 & Hs0 & Hst & _).
  rewrite Hf in Hs. rewrite Hs0 in Hs. injection Hs as ->. rewrite <- Hph0, Hph in Hst. cbn in Hst.
  destruct (pool_ok_lookup _ _ _ _ Hpool Hs0) as [Hok _].
  destruct (ok_prefill _ _ Hok Hst) as (Hpast & _). rewrite (Hfresh _ _ Hs0 Hst) in Hpast. lia.
Qed.

Lemma pool_remaining cfg sessions :
  pool_ok cfg sessions → map_Forall (λ _ s, remaining s < 2 ^ 64) sessions.
Proof.
  intros Hpool k s Hs. destruct (pool_ok_lookup _ _ _ _ Hpool Hs) as [Hok _].
  pose proof (ok_fits _ _ Hok). pose proof (ok_gen _ _ Hok). unfold remaining, INT_MAX in *. lia.
Qed.

(** A tick serves somebody whenever somebody is due. *)
Lemma tick_serves sch sessions order k s :
  sched_ok sch sessions → iteration_order sessions order →
  map_Forall (λ _, fresh_prompt) sessions → sessions !! k = Some s → due s →
  ∃ it, it ∈ tick_items sch sessions order ∧ 1 ≤ n_tokens it.
Proof.
  intros [Hcap Htgt Hpool] Hord Hfresh Hs Hdue. unfold tick_items, plan_phase.
  destruct (plan_planned (config_ sch) sch sessions order Hpool Hord) as [Hp Hg].
  pose proof (policy_progress sessions order (batch_cap_ sch) (target_batch_ sch) (rr_decode_idx_ sch)
    (rr_prefill_idx_ sch) k s (proj1 Hpool) Hord ltac:(unfold target_ok in Htgt; lia)
    (pool_remaining _ _ Hpool) Hs (due_ready s Hdue)) as Hne.
  destruct (policy_sound sessions order (batch_cap_ sch) (target_batch_ sch) (rr_decode_idx_ sch)
    (rr_prefill_idx_ sch) (proj1 Hpool) Hord) as [_ Hok].
  revert Hp Hg Hne Hok.
  generalize (plan_tick sessions order (batch_cap_ sch) (target_batch_ sch) (rr_decode_idx_ sch)
    (rr_prefill_idx_ sch)). intros plan Hp Hg Hne Hok.
  assert (Hpos : Forall (λ it, 1 ≤ n_tokens it) (items plan)).
  { apply (Forall_impl _ _ _ Hok). intros it. unfold item_ok.
    destruct (phase it); [intros (_ & s0 & _ & _ & ? & _); lia|intros [-> _]; lia]. }
  destruct (0 <? bmt_budget_units (config_ sch)) eqn:Eb.
  - bool_prop. destruct (guard_leaves (config_ sch) sessions plan (bmt_budget_units (config_ sch))
      Hpool Hfresh Hg (pl_ready _ _ _ Hp) Hpos) as (it & Hit & Hn);
      [pose proof (pl_cap _ _ _ Hp); unfold INT_MAX; lia|done|done|].
    destruct (bmt_guard _ _ _) as [[plan' est] tr]. by exists it.
  - cbn. destruct (items plan) as [|it its]; [done|]. exists it. split; [left|].
    by apply Forall_cons in Hpos as [? _].
Qed.

(** ** Runs *)

(** The ranks of a pool together. *)
Definition session_work (cfg : RuntimeConfig) (sessions : SessionPool) (k : Z) : Z :=
  match sessions !! k with Some s => rank (max_tokens cfg) (answer_of cfg s) | None => 0 end.

Definition work (cfg : RuntimeConfig) (sessions : SessionPool) (ks : list Z) : Z :=
  sum_Z (session_work cfg sessions <$> ks).

Lemma rank_nonneg cfg s : session_ok cfg s → 0 ≤ rank (max_tokens cfg) (answer_of cfg s).
Proof. intros Hok. pose proof (ok_gen _ _ Hok). unfold answer_of. destruct (state s); cbn; lia. Qed.

Lemma work_nonneg cfg sessions ks : pool_ok cfg sessions → 0 ≤ work cfg sessions ks.
Proof.
  intros Hpool. apply sum_Z_nonneg, Forall_fmap, Forall_forall. intros k _. unfold compose, session_work.
  destruct (sessions !! k) as [s|] eqn:Hs; [|done]. apply rank_nonneg.
  by apply (pool_ok_lookup _ _ _ _ Hpool Hs).
Qed.

Lemma work_bound cfg sessions ks :
  pool_ok cfg sessions → 0 ≤ max_tokens cfg →
  work cfg sessions ks ≤ Z.of_nat (length ks) * (max_tokens cfg + 2).
Proof.
  intros Hpool Hm. induction ks as [|k ks IH]; [done|].
  assert (session_work cfg sessions k ≤ max_tokens cfg + 2).
  { unfold session_work. destruct (sessions !! k) as [s|] eqn:Hs; [|lia].
    destruct (pool_ok_lookup _ _ _ _ Hpool Hs) as [Hok _]. pose proof (ok_gen _ _ Hok).
    unfold answer_of. destruct (state s); cbn; lia. }
  change (work cfg sessions (k :: ks)) with (session_work cfg sessions k + work cfg sessions ks).
  cbn [length]. lia.
Qed.

Lemma due_rank cfg s : session_ok cfg s → due s → 0 < rank (max_tokens cfg) (answer_of cfg s).
Proof.
  intros Hok Hd. pose proof (ok_gen _ _ Hok). unfold answer_of.
  destruct Hd as [[-> _]|[-> _]]; cbn; lia.
Qed.

(** A pool with a due session has work left. *)
Lemma work_due cfg sessions ks k s :
  pool_ok cfg sessions → k ∈ ks → sessions !! k = Some s → due s → 0 < work cfg sessions ks.
Proof.
  intros Hpool Hk Hs Hd. destruct (pool_ok_lookup _ _ _ _ Hpool Hs) as [Hok _].
  pose proof (due_rank cfg s Hok Hd) as Hr. apply list_elem_of_split in Hk as (ks1 & ks2 & ->).
  pose proof (work_nonneg cfg sessions ks1 Hpool). pose proof (work_nonneg cfg sessions ks2 Hpool).
  unfold work in *. rewrite fmap_app, fmap_cons, sum_Z_app.
  change (sum_Z (session_work cfg sessions k :: (session_work cfg sessions <$> ks2)))
    with (session_work cfg sessions k + sum_Z (session_work cfg sessions <$> ks2)).
  assert (session_work cfg sessions k = rank (max_tokens cfg) (answer_of cfg s)) as E
    by (unfold session_work; by rewrite Hs).
  rewrite E. lia.
Qed.

Definition settled (s : ClientSession) : Prop := state s = STREAM ∨ state s = ERRORED.

Lemma settled_not_due s : settled s → ¬ due s.
Proof. intros [Hs|Hs] [[Hd _]|[Hd _]]; congruence. Qed.

Lemma tick_settled cfg vocab now_ns s s' : tick_step cfg vocab now_ns s s' → settled s → settled s'.
Proof.
  intros Hst%tick_step_edge Hs. unfold settled, tick_edge in *.
  destruct Hst as [<-|[[? _]|[? _]]]; [done|destruct Hs; congruence..].
Qed.

(** A tick seen as a whole: the invariants are kept, and when somebody is due
    the work shrinks. *)
Lemma tick_work sch sessions order now_ns sch' sessions' fds ks :
  sched_ok sch sessions → iteration_order sessions order → map_Forall (λ _, fresh_prompt) sessions →
  tick_result sch sessions order now_ns sch' sessions' fds →
  map_Forall (λ _, fresh_prompt) sessions' ∧
  ((∃ k s, sessions !! k = Some s ∧ due s) → (∀ k, is_Some (sessions !! k) → k ∈ ks) →
   work (config_ sch) sessions' ks < work (config_ sch) sessions ks).
Proof.
  intros Hok Hord Hfresh Hr. pose proof (so_pool _ _ Hok) as Hpool.
  pose proof (tr_step _ _ _ _ _ _ _ Hr) as Hst. split.
  - intros k s' Hs'. specialize (Hst k). rewrite Hs' in Hst.
    destruct (sessions !! k) as [s|] eqn:Hs; [|done].
    destruct (pool_ok_lookup _ _ _ _ Hpool Hs) as [Hsok _].
    by apply (tick_keeps _ _ _ _ _ Hst Hsok), (Hfresh k).
  - intros (k & s & Hs & Hdue) Hks.
    destruct (tick_serves sch sessions order k s Hok Hord Hfresh Hs Hdue) as (it & Hit & Hn).
    pose proof (plan_phase_spec (config_ sch) sch sessions order Hpool Hord
      ltac:(pose proof (so_cap _ _ Hok); unfold INT_MAX; lia)) as Hpl.
    unfold tick_items in Hit. destruct (plan_phase sch sessions order) as [plan sch1] eqn:Epl.
    destruct Hpl as [Hpl _]. cbn [fst] in Hit.
    destruct (proj1 (Forall_forall _ _) (pl_ready _ _ _ Hpl) it Hit) as (s0 & Hs0 & Hst0 & Hr0).
    destruct (proj1 (Forall_forall _ _) (pl_exec _ _ _ Hpl) it Hit) as [Htk _].
    destruct (tr_served _ _ _ _ _ _ _ Hr it s0) as (s1 & Hs1 & Hserve);
      [by unfold tick_items; rewrite Epl|done|done|].
    destruct (pool_ok_lookup _ _ _ _ Hpool Hs0) as [Hok0 _].
    apply (sum_Z_mono_strict _ _ _ (item_fd it)).
    + intros x _. unfold session_work. specialize (Hst x).
      destruct (sessions !! x) as [sx|] eqn:Hx, (sessions' !! x) as [sx'|]; try done.
      destruct (pool_ok_lookup _ _ _ _ Hpool Hx) as [Hokx _]. by apply (tick_keeps _ _ _ _ _ Hst).
    + apply Hks. by eexists.
    + unfold session_work. rewrite Hs0, Hs1. by eapply serve_moves.
Qed.

(** A due session stays due until it is answered. *)
Lemma run_due ts : ∀ sch sessions sch' sessions' k s s',
  sched_ok sch sessions → Forall (iteration_order sessions ∘ ti_order) ts →
  run_ticks sch sessions ts = Some (sch', sessions') → sessions !! k = Some s →
  sessions' !! k = Some s' → due s ∨ settled s → due s' ∨ settled s'.
Proof.
  induction ts as [|t ts IH]; intros sch sessions sch' sessions' k s s' Hok Hts Hrun Hs Hs' Hd.
  { injection Hrun as -> ->. congruence. }
  destruct (run_ticks_cons _ _ _ _ _ _ Hok Hts Hrun) as (sch1 & pool1 & fds & Hr & Hok1 & Hts1 & Hrun1).
  pose proof (tr_step _ _ _ _ _ _ _ Hr k) as Hst. rewrite Hs in Hst.
  destruct (pool1 !! k) as [s1|] eqn:Hs1; [|done].
  destruct (pool_ok_lookup _ _ _ _ (so_pool _ _ Hok) Hs) as [Hsok _].
  eapply (IH _ _ _ _ _ s1); [done..|]. destruct (tick_keeps _ _ _ _ _ Hst Hsok) as (_ & _ & Hk).
  destruct Hd as [Hd|Hd]; [|right; by eapply tick_settled]. unfold settled. tauto.
Qed.

(** While a session is due, every tick does work. *)
Lemma run_works ks ts : ∀ sch sessions sch' sessions' k s s',
  sched_ok sch sessions → Forall (iteration_order sessions ∘ ti_order) ts →
  map_Forall (λ _, fresh_prompt) sessions → (∀ k, is_Some (sessions !! k) → k ∈ ks) →
  run_ticks sch sessions ts = Some (sch', sessions') →
  sessions !! k = Some s → due s → sessions' !! k = Some s' → due s' →
  work (config_ sch) sessions' ks + Z.of_nat (length ts) ≤ work (config_ sch) sessions ks.
Proof.
  induction ts as [|t ts IH]; intros sch sessions sch' sessions' k s s' Hok Hts Hf Hks Hrun Hs Hd Hs' Hd'.
  { injection Hrun as -> ->. cbn. lia. }
  destruct (run_ticks_cons _ _ _ _ _ _ Hok Hts Hrun) as (sch1 & pool1 & fds & Hr & Hok1 & Hts1 & Hrun1).
  destruct (tick_work _ _ _ _ _ _ _ ks Hok (Forall_inv Hts) Hf Hr) as [Hf1 Hlt].
  specialize (Hlt ltac:(eauto) Hks).
  pose proof (tr_step _ _ _ _ _ _ _ Hr) as Hst.
  assert (Hks1 : ∀ k, is_Some (pool1 !! k) → k ∈ ks)
    by (intros x Hx; apply Hks; by apply (step_pool_dom _ _ _ _ _ x Hst)).
  pose proof (Hst k) as Hstk. rewrite Hs in Hstk. destruct (pool1 !! k) as [s1|] eqn:Hs1; [|done].
  destruct (pool_ok_lookup _ _ _ _ (so_pool _ _ Hok) Hs) as [Hsok _].
  destruct (tick_keeps _ _ _ _ _ Hstk Hsok) as (_ & _ & Hk). destruct (Hk Hd) as [Hd1|Hset].
  - pose proof (IH _ _ _ _ _ _ _ Hok1 Hts1 Hf1 Hks1 Hrun1 Hs1 Hd1 Hs' Hd') as Hle.
    rewrite (tr_config _ _ _ _ _ _ _ Hr) in Hle. cbn [length]. lia.
  - exfalso. destruct (run_refines ts _ _ _ _ _ _ Hok1 Hts1 Hrun1 Hs1) as (s2 & evs & Hs2 & Hev & _).
    rewrite Hs' in Hs2. injection Hs2 as <-.
    assert (Hnr : ¬ running (answer_of (config_ sch1) s1))
      by (unfold answer_of; destruct Hset as [-> | ->]; auto).
    destruct (answers_stopped _ _ _ _ _ Hev Hnr) as [_ He].
    apply Hnr. rewrite <- He. unfold answer_of. destruct Hd' as [[-> _]|[-> _]]; done.
Qed.
(** Enough ticks end every due request. *)
Lemma requests_done sch sessions ts :
  sched_ok sch sessions → map_Forall (λ _, fresh_prompt) sessions →
  Forall (iteration_order sessions ∘ ti_order) ts →
  Z.of_nat (size sessions) * (max_tokens (config_ sch) + 2) ≤ Z.of_nat (length ts) →
  ∃ sch' sessions', run_ticks sch sessions ts = Some (sch', sessions') ∧
    ∀ k s, sessions !! k = Some s → due s →
      ∃ s' toks fin, sessions' !! k = Some s' ∧ settled s' ∧
        tx s' = tx s ++ encode_frames (event_payload (request_id s) <$> toks ++ [fin]) ∧
        Forall (is_token (piece_of (vocab_ sch))) toks ∧ Z.of_nat (length toks) ≤ max_tokens (config_ sch) + 1 ∧
        final (answer_of (config_ sch) s') [fin].
Proof.
  intros Hok Hf Hts Hlen. destruct (run_ticks_ok ts sch sessions Hok Hts) as (sch' & sessions' & Hrun & Hok').
  exists sch', sessions'. split; [done|]. intros k s Hs Hd.
  destruct (run_refines ts _ _ _ _ _ _ Hok Hts Hrun Hs) as (s' & evs & Hs' & Hev & [Htx _]).
  destruct (pool_ok_lookup _ _ _ _ (so_pool _ _ Hok) Hs) as [Hsok _]. pose proof (ok_gen _ _ Hsok) as Hg.
  assert (Hset : settled s').
  { destruct (run_due ts _ _ _ _ _ _ s' Hok Hts Hrun Hs Hs' (or_introl Hd)) as [Hd'|?]; [exfalso|done].
    set (ks := (map_to_list sessions).*1).
    assert (Hks : ∀ j, is_Some (sessions !! j) → j ∈ ks).
    { intros j [x Hx]. apply list_elem_of_fmap. exists (j, x). split; [done|]. by apply elem_of_map_to_list. }
    pose proof (run_works ks ts _ _ _ _ _ _ _ Hok Hts Hf Hks Hrun Hs Hd Hs' Hd') as Hw.
    pose proof (work_bound (config_ sch) sessions ks (so_pool _ _ Hok) ltac:(lia)) as Hb.
    assert (Hpool' : pool_ok (config_ sch) sessions')
      by (rewrite <- (run_config ts _ _ _ _ Hok Hts Hrun); apply Hok').
    pose proof (work_due (config_ sch) sessions' ks k s' Hpool' (Hks k ltac:(eauto)) Hs' Hd').
    assert (length ks = size sessions) as Hl by (unfold ks; by rewrite length_fmap, length_map_to_list).
    rewrite Hl in Hb. lia. }
  assert (Hrun_s : running (answer_of (config_ sch) s))
    by (unfold answer_of; destruct Hd as [[-> _]|[-> _]]; done).
  destruct (answers_shape _ _ _ _ _ Hev ltac:(lia)) as (_ & toks & fin & -> & Htok & Hfin & Hroom).
  { unfold answer_of. destruct (state s); cbn; lia || done. }
  { done. }
  assert (Hbound : Z.of_nat (length toks) ≤ max_tokens (config_ sch) + 1).
  { revert Hroom. unfold answer_of. destruct Hset as [-> | ->]; cbn [room];
      destruct (state s); cbn; lia. }
  assert (Hone : ∃ e, fin = [e]).
  { revert Hfin. unfold answer_of. destruct Hset as [-> | ->]; cbn; [intros [-> | ->]|intros ->]; eauto. }
  destruct Hone as [e ->]. by exists s', toks, e.
Qed.

End Progress.

(** ** Theorems *)

Section Theorems.
Context `{Llama, IBatchPolicy, !BatchPolicyLaws, ISampler, Conversions}.

(** C4. The scheduler implements the abstract answer: whatever the model, the
    sampler, the clock and the visiting orders do, for every session of a pool
    any number of ticks is a run of the machine, and the bytes added to its
    output are exactly the frames of the events of that run. For a request that
    is being answered this means token events, at most as many as the limit
    leaves room for (one for the prompt and one per counted token), followed by
    an end of stream exactly when the session has ended its stream, by the
    decode error exactly when it has failed, and by nothing while it goes on. *)
Theorem ticks_refine_answer sch sessions ts sch' sessions' k s :
  sched_ok sch sessions → Forall (iteration_order sessions ∘ ti_order) ts →
  run_ticks sch sessions ts = Some (sch', sessions') → sessions !! k = Some s →
  let cfg := config_ sch in let piece := piece_of (vocab_ sch) in
  ∃ s' evs, sessions' !! k = Some s' ∧
    answers (max_tokens cfg) piece (answer_of cfg s) evs (answer_of cfg s') ∧
    tx s' = tx s ++ encode_frames (event_payload (request_id s) <$> evs) ∧
    (running (answer_of cfg s) →
     ∃ toks fin, evs = toks ++ fin ∧ Forall (is_token piece) toks ∧ final (answer_of cfg s') fin ∧
       Z.of_nat (length toks) + room (max_tokens cfg) (answer_of cfg s')
       ≤ room (max_tokens cfg) (answer_of cfg s)).
Proof.
  intros Hok Hts Hrun Hs cfg piece.
  destruct (run_refines ts _ _ _ _ _ _ Hok Hts Hrun Hs) as (s' & evs & Hs' & Hev & [Htx _]).
  exists s', evs. split_and!; try done. intros Hr.
  destruct (pool_ok_lookup _ _ _ _ (so_pool _ _ Hok) Hs) as [Hsok _]. pose proof (ok_gen _ _ Hsok).
  apply (answers_shape _ _ _ _ _ Hev); [lia| |done].
  unfold answer_of. destruct (state s); cbn; lia || done.
Qed.

(** C3. Every request is answered: with a model that gives the logits it is asked
    for and a policy that makes progress, any [n * (max_tokens + 2)] ticks over
    [n] sessions, with or without a budget for the memory traffic, end every
    request that is due. Its output has grown by at most [max_tokens + 1] token
    events and one final event: an end of stream, or the decode error if the
    decode failed. *)
Theorem requests_answered `{!LlamaLogits, !PolicyProgress} sch sessions ts :
  sched_ok sch sessions → map_Forall (λ _, fresh_prompt) sessions →
  Forall (iteration_order sessions ∘ ti_order) ts →
  Z.of_nat (size sessions) * (max_tokens (config_ sch) + 2) ≤ Z.of_nat (length ts) →
  ∃ sch' sessions', run_ticks sch sessions ts = Some (sch', sessions') ∧
    ∀ k s, sessions !! k = Some s → due s →
      ∃ s' toks fin, sessions' !! k = Some s' ∧ settled s' ∧
        tx s' = tx s ++ encode_frames (event_payload (request_id s) <$> toks ++ [fin]) ∧
        Forall (is_token (piece_of (vocab_ sch))) toks ∧ Z.of_nat (length toks) ≤ max_tokens (config_ sch) + 1 ∧
        final (answer_of (config_ sch) s') [fin].
Proof. apply requests_done. Qed.
End Theorems.

(** ** Witnesses *)

#[export] Instance ToyLogits : @LlamaLogits ToyLlama.
Proof. intros b c i _ _. by eexists. Qed.

Definition toy_ticks (n : nat) : list TickInput :=
  replicate n {| ti_order := map_order toy_pool; ti_now := 7; ti_dur := 1000 |}.

Lemma toy_ticks_order n : Forall (iteration_order toy_pool ∘ ti_order) (toy_ticks n).
Proof. apply Forall_replicate. apply map_order_spec. Qed.

Lemma toy_pool_fresh : map_Forall (λ _, fresh_prompt) toy_pool.
Proof. apply map_Forall_insert_2; [done|]. apply map_Forall_insert_2; [done|]. apply map_Forall_empty. Qed.

Lemma ticks_refine_answer_witness :
  ∃ sch' sessions' s evs, run_ticks (toy_scheduler 0) toy_pool (toy_ticks 3) = Some (sch', sessions') ∧
    toy_pool !! 3 = Some s ∧ answers 64 (piece_of tt) (answer_of toy_config s) evs
      (match sessions' !! 3 with Some s' => answer_of toy_config s' | None => Silent end).
Proof.
  destruct (run_ticks_ok (toy_ticks 3) (toy_scheduler 0) toy_pool (toy_sched_ok 0) (toy_ticks_order 3))
    as (sch' & pool' & Hrun & _).
  destruct (toy_pool !! 3) as [s|] eqn:Hs; [|vm_compute in Hs; discriminate Hs].
  destruct (ticks_refine_answer (toy_scheduler 0) toy_pool (toy_ticks 3) sch' pool' 3 s
    (toy_sched_ok 0) (toy_ticks_order 3) Hrun Hs) as (s' & evs & Hs' & Hev & _).
  exists sch', pool', s, evs. rewrite Hs'. split; [exact Hrun|]. split; [reflexivity|exact Hev].
Defined.

Lemma requests_answered_witness :
  ∃ sch' sessions' s', run_ticks (toy_scheduler 0) toy_pool (toy_ticks 132) = Some (sch', sessions') ∧
    sessions' !! 3 = Some s' ∧ settled s'.
Proof.
  destruct (requests_answered (toy_scheduler 0) toy_pool (toy_ticks 132) (toy_sched_ok 0) toy_pool_fresh
    (toy_ticks_order 132)) as (sch' & pool' & Hrun & Hall).
  { vm_compute. discriminate. }
  destruct (Hall 3 (prompt_session 3 20)) as (s' & _ & _ & Hs' & Hset & _).
  { apply lookup_insert_eq. }
  { left. split; [reflexivity|]. split; [reflexivity|discriminate]. }
  exists sch', pool', s'. exact (conj Hrun (conj Hs' Hset)).
Defined.
