(* ===== verification/Service.v ===== *)
(** * Which sessions a run of ticks serves

    Two properties of [Scheduler::tick] with the baseline policy over many
    ticks, with the pool, the batch target and the cursors as the ticks leave
    them: the round robin reaches every decoding session, and a prompt longer
    than the burst is cut. *)
From stdpp Require Import prelude gmap list strings.
From Stdlib Require Import ZifyBool.
From S2P Require Import Prelude Floating Protocol Session Config Llama Metrics Policy Bmt Sampling Scheduler SchedulerFacts ToyLlama SchedulerCorrect Requests.
Import Protocol.
Local Open Scope Z_scope.

Section Service.
Context `{Llama, ISampler, Conversions}.

(** ** The items of a tick and the plan of the policy *)

Local Abbreviation plan_of sch sessions order :=
  (schedule_tick sessions order (batch_cap_ sch) (target_batch_ sch)
     (rr_decode_idx_ sch) (rr_prefill_idx_ sch)).

(** The guard only shortens prefill chunks. *)
Lemma plan_phase_shrinks sch sessions order :
  sched_ok sch sessions → iteration_order sessions order →
  Forall2 shrunk (items (plan_of sch sessions order)) (tick_items sch sessions order) ∧
  next_rr_decode_idx (plan_phase sch sessions order).1
    = next_rr_decode_idx (plan_of sch sessions order).
Proof.
  intros [Hcap _ Hpool] Hord. unfold tick_items, plan_phase, plan_tick, BaselinePolicy.
  destruct (plan_planned (config_ sch) sch sessions order Hpool Hord) as [Hp Hg].
  unfold plan_tick, BaselinePolicy in Hp, Hg.
  assert (Hrefl : Forall2 shrunk (items (plan_of sch sessions order)) (items (plan_of sch sessions order)))
    by (apply Forall_Forall2_diag, (Forall_impl _ _ _ Hg), shrunk_refl).
  destruct (0 <? _); [|by split].
  destruct (bmt_guard_post sessions (bmt_budget_units (config_ sch)) (plan_of sch sessions order))
    as (plan' & est & tr & -> & Hsh & _ & _ & _ & _ & _ & _ & Hn & _).
  - by eapply pool_ok_pasts.
  - done.
  - pose proof (pl_cap _ _ _ Hp). unfold INT_MAX. lia.
  - by split.
Qed.

Lemma decode_item_kept sch sessions order k :
  sched_ok sch sessions → iteration_order sessions order →
  decode_item k ∈ items (plan_of sch sessions order) → decode_item k ∈ tick_items sch sessions order.
Proof.
  intros Hok Hord Hin. destruct (plan_phase_shrinks sch sessions order Hok Hord) as [Hsh _].
  apply list_elem_of_lookup in Hin as [i Hi].
  destruct (Forall2_lookup_l _ _ _ _ _ Hsh Hi) as (it & Hit & Hfd & Hph & Hd & _).
  apply list_elem_of_lookup. exists i. rewrite Hit. destruct it. cbn in *. f_equal.
  unfold decode_item. rewrite Hfd, Hph, (Hd eq_refl). done.
Qed.

(** The burst bounds the chunk of a session that has not emitted. *)
Lemma first_chunk_burst sch sessions order it s :
  sched_ok sch sessions → iteration_order sessions order →
  it ∈ tick_items sch sessions order → phase it = Phase.PREFILL →
  sessions !! item_fd it = Some s → first_emit_ns s = 0 → n_tokens it ≤ kBurst.
Proof.
  intros Hok Hord Hin Hph Hs He. destruct (plan_phase_shrinks sch sessions order Hok Hord) as [Hsh _].
  apply list_elem_of_lookup in Hin as [i Hi].
  destruct (Forall2_lookup_r _ _ _ _ _ Hsh Hi) as (it0 & Hit0 & Hfd & Hph0 & _ & Hpf).
  pose proof (plan_items_ok sessions order (batch_cap_ sch) (target_batch_ sch) (rr_decode_idx_ sch)
    (rr_prefill_idx_ sch) (proj1 (so_pool _ _ Hok)) Hord) as HF.
  rewrite Forall_forall in HF. specialize (HF it0 ltac:(by eapply list_elem_of_lookup_2)).
  unfold item_ok in HF. rewrite <- Hph0, Hph in HF. destruct HF as [_ (s0 & Hs0 & _ & _ & Hb)].
  rewrite <- Hfd, Hs in Hs0. injection Hs0 as <-. specialize (Hb He). specialize (Hpf ltac:(congruence)). lia.
Qed.

(** ** The cursor *)

Lemma apply_samples_cursor now_ns rs : ∀ st,
  rr_decode_idx_ (foldl (apply_sample now_ns) st rs).1.1 = rr_decode_idx_ st.1.1.
Proof.
  induction rs as [|r rs IH]; intros st; [done|]. cbn [foldl]. rewrite IH. clear IH.
  destruct st as [[sch pool] fds]. cbn [fst]. unfold apply_sample.
  destruct (pool !! sample_fd r) as [s|]; [|done].
  destruct (llama_get_logits_ith _ _) as [row|]; [|done].
  destruct (sample _ _ _ _) as [new_id rng']. cbn zeta.
  destruct (decide _); [done|]. by destruct (_ || _).
Qed.

(** A tick stores the cursor of its plan. *)
Lemma tick_cursor sch sessions order now_ns dur_ns sch' sessions' fds :
  tick sch sessions order now_ns dur_ns = Some (sch', sessions', fds) →
  rr_decode_idx_ sch' = next_rr_decode_idx (plan_phase sch sessions order).1.
Proof.
  unfold tick. intros Ht.
  assert (Hsch : rr_decode_idx_ (plan_phase sch sessions order).2
                 = next_rr_decode_idx (plan_phase sch sessions order).1).
  { unfold plan_phase. destruct (0 <? _); [|done]. by destruct (bmt_guard _ _ _) as [[??]?]. }
  destruct (plan_phase sch sessions order) as [plan sch1]. cbn [fst snd] in *.
  destruct (enact _ _) as [[pool b]|]; [|done]. cbn [mbind option_bind] in Ht.
  destruct (bool_decide _); [by simplify_eq|]. destruct (batch_asserts _ _); [|done].
  injection Ht as Ht. rewrite <- Hsch. unfold decode_phase in Ht.
  set (sch2 := if enable_perf _ then _ else _) in Ht.
  assert (H2 : rr_decode_idx_ sch2 = rr_decode_idx_ sch1) by (unfold sch2; by destruct (enable_perf _)).
  destruct (llama_decode _ _) as [ctx' rc]. destruct (rc =? 0); [|by simplify_eq].
  match type of Ht with foldl ?f ?st ?l = _ => pose proof (apply_samples_cursor now_ns l st) as Hc end.
  rewrite Ht in Hc. cbn [fst] in Hc. rewrite Hc. exact H2.
Qed.

(** ** Turns *)

(** Every tick of a run finds the decoding sessions [ds] ready, in this order. *)
Fixpoint decoders_stay (ds : list Z) (sch : Scheduler) (sessions : SessionPool) (ts : list TickInput)
    : Prop :=
  match ts with
  | [] => True
  | t :: ts' =>
      decoders sessions (ti_order t) = ds ∧
      ∀ sch' sessions' fds,
        tick sch sessions (ti_order t) (ti_now t) (ti_dur t) = Some (sch', sessions', fds) →
        decoders_stay ds sch' sessions' ts'
  end.

(** Some tick of a run decodes a token of the session [k]. *)
Fixpoint given_turn (k : Z) (sch : Scheduler) (sessions : SessionPool) (ts : list TickInput) : Prop :=
  match ts with
  | [] => False
  | t :: ts' =>
      decode_item k ∈ tick_items sch sessions (ti_order t) ∨
      ∃ sch' sessions' fds,
        tick sch sessions (ti_order t) (ti_now t) (ti_dur t) = Some (sch', sessions', fds) ∧
        given_turn k sch' sessions' ts'
  end.

Lemma turn_comes k ds ts : ∀ d sch sessions,
  sched_ok sch sessions → Forall (iteration_order sessions ∘ ti_order) ts →
  decoders_stay ds sch sessions ts → rotate (rr_decode_idx_ sch) ds !! d = Some k →
  (d < length ts)%nat → given_turn k sch sessions ts.
Proof.
  induction ts as [|t ts IH]; intros d sch sessions Hok Hts Hds Hd Hlen; [cbn in Hlen; lia|].
  destruct Hds as [Hnow Hnext]. pose proof (Forall_inv Hts) as Hord. cbn [compose] in Hord.
  pose proof (proj1 (so_pool _ _ Hok)) as Hkey.
  assert (Hb : 0 < Z.min (target_batch_ sch) (batch_cap_ sch)).
  { destruct Hok as [Hc Ht _]. unfold target_ok in Ht. lia. }
  cbn [given_turn]. destruct d as [|d].
  { left. apply decode_item_kept; [done|done|]. apply plan_serves_head; [done|done|by rewrite Hnow]. }
  right. destruct (tick_sched_ok sch sessions (ti_order t) (ti_now t) (ti_dur t) Hok Hord)
    as (sch' & sessions' & fds & Ht & Hok' & Hr).
  exists sch', sessions', fds. split; [done|]. apply (IH d); [done| |by eapply Hnext| |cbn in Hlen; lia].
  - apply Forall_cons in Hts as [_ Hts]. apply (Forall_impl _ _ _ Hts). intros x Hx.
    by eapply step_pool_order, Hx; apply Hr.
  - rewrite (tick_cursor _ _ _ _ _ _ _ _ Ht).
    destruct (plan_phase_shrinks sch sessions (ti_order t) Hok Hord) as [_ ->].
    rewrite plan_moves_cursor, Hnow; [|done|done|].
    + by apply rotate_step.
    + rewrite Hnow. intros ->. by apply lookup_rotate_r_Some in Hd as [_ ?%Nat.nlt_0_r].
Qed.

(** ** Prompts *)

(** A request as it was accepted: none of its prompt has been read. *)
Definition untouched (s : ClientSession) : Prop :=
  state s = PREFILL ∧ prefill_idx s = 0%nat ∧ first_emit_ns s = 0.

(** At most the burst has been read, and no more will be. *)
Definition cut (s : ClientSession) : Prop :=
  state s ≠ PREFILL ∧ Z.of_nat (prefill_idx s) ≤ kBurst.

Lemma after_prefill_prompt vocab now_ns t s :
  state (after_prefill vocab now_ns t s) = DECODE ∧
  prefill_idx (after_prefill vocab now_ns t s) = prefill_idx s ∧
  prompt_tokens (after_prefill vocab now_ns t s) = prompt_tokens s.
Proof. unfold after_prefill, mark_emit, emit_piece. repeat case_match; done. Qed.

(** Serving an untouched request cuts it. *)
Lemma serve_cuts `{!LlamaLogits} cfg vocab now_ns it s s' :
  serve_step cfg vocab now_ns it s s' → untouched s → state s = phase_state (phase it) →
  (phase it = Phase.PREFILL → 1 ≤ n_tokens it ≤ kBurst) →
  cut s' ∧ prompt_tokens s' = prompt_tokens s.
Proof.
  intros Hst (Hs & Hi & _) Hph Hn. unfold cut. rewrite Hs in Hph.
  destruct (phase it) eqn:Ep; [|discriminate Hph]. specialize (Hn eq_refl).
  assert (He : prefill_idx (enacted s it) = Z.to_nat (n_tokens it) ∧
               prompt_tokens (enacted s it) = prompt_tokens s).
  { unfold enacted. rewrite Ep. cbn. by rewrite Hi. }
  destruct Hst as [(r & Hb & Hst)| ->].
  - destruct Hst as [b c Hd Hf Hl|t _|t Hne|t Hne]; [|..|congruence|congruence].
    + destruct (logits_available b c _ Hd Hf) as [x Hx]. congruence.
    + destruct (after_prefill_prompt vocab now_ns t (enacted s it)) as (-> & -> & ->).
      rewrite (proj1 He), (proj2 He). split; [split; [done|lia]|done].
  - cbn. rewrite (proj1 He), (proj2 He). split; [split; [done|lia]|done].
Qed.

Lemma tick_cuts `{!LlamaLogits} sch sessions order now_ns sch' sessions' fds k s s' :
  sched_ok sch sessions → iteration_order sessions order →
  tick_result sch sessions order now_ns sch' sessions' fds →
  sessions !! k = Some s → sessions' !! k = Some s' → untouched s ∨ cut s →
  (untouched s' ∨ cut s') ∧ prompt_tokens s' = prompt_tokens s.
Proof.
  intros Hok Hord Hr Hs Hs' Hc.
  pose proof (tr_step _ _ _ _ _ _ _ Hr k) as Hst. rewrite Hs, Hs' in Hst.
  destruct Hc as [Hu|[Hne Hle]].
  2: { destruct (tick_step_prompt _ _ _ _ _ Hst Hne) as [Hi Hp]. split; [right|done].
       split; [|by rewrite Hi]. destruct (tick_step_edge _ _ _ _ _ Hst) as [<-|[[? _]|[_ [-> | ->]]]]; done. }
  destruct (tr_rest _ _ _ _ _ _ _ Hr k s s' Hs Hs') as [(it & Hit & <- & Hn)|[->|(it & Hit & <- & Hn & ->)]].
  - destruct (tr_served _ _ _ _ _ _ _ Hr it s Hit Hn Hs) as (s2 & Hs2 & Hserve). simplify_eq.
    pose proof (plan_phase_spec (config_ sch) sch sessions order (so_pool _ _ Hok) Hord
      ltac:(pose proof (so_cap _ _ Hok); unfold INT_MAX; lia)) as Hpl.
    assert (Hph : state s = phase_state (phase it)).
    { unfold tick_items in Hit. destruct (plan_phase sch sessions order) as [plan sch1].
      destruct (proj1 (Forall_forall _ _) (pl_ready _ _ _ (proj1 Hpl)) it Hit) as (s0 & Hs0 & Hp0 & _).
      congruence. }
    destruct (serve_cuts _ _ _ _ _ _ Hserve Hu Hph) as [Hcut Hp]; [|auto].
    intros Hp. split; [done|]. eapply first_chunk_burst; [done..|]. apply Hu.
  - auto.
  - split; [left|]; unfold untouched, enacted in *; destruct (phase it); cbn; try done.
    rewrite Hn. destruct Hu as (? & -> & ?). done.
Qed.

Lemma run_cuts `{!LlamaLogits} ts : ∀ sch sessions sch' sessions' k s,
  sched_ok sch sessions → Forall (iteration_order sessions ∘ ti_order) ts →
  run_ticks sch sessions ts = Some (sch', sessions') → sessions !! k = Some s →
  untouched s ∨ cut s →
  ∃ s', sessions' !! k = Some s' ∧ (untouched s' ∨ cut s') ∧ prompt_tokens s' = prompt_tokens s.
Proof.
  induction ts as [|t ts IH]; intros sch sessions sch' sessions' k s Hok Hts Hrun Hs Hc.
  { injection Hrun as -> ->. eauto. }
  destruct (run_ticks_cons _ _ _ _ _ _ Hok Hts Hrun) as (sch1 & pool1 & fds & Hr & Hok1 & Hts1 & Hrun1).
  pose proof (tr_step _ _ _ _ _ _ _ Hr k) as Hst. rewrite Hs in Hst.
  destruct (pool1 !! k) as [s1|] eqn:Hs1; [|done].
  destruct (tick_cuts _ _ _ _ _ _ _ _ _ _ Hok (Forall_inv Hts) Hr Hs Hs1 Hc) as [Hc1 Hp1].
  destruct (IH _ _ _ _ _ _ Hok1 Hts1 Hrun1 Hs1 Hc1) as (s' & Hs' & Hc' & Hp').
  exists s'. by rewrite Hp'.
Qed.

(** ** Theorems *)

(** C13. No session starves: over real ticks, whose pools, batch targets and
    cursors are those the ticks before them left, as long as the same [N]
    sessions are ready to decode and the map visits them in the same order,
    every one of them gets a token into the batch within [N] ticks, wherever the
    cursor is, whatever prefilling sessions do and whether or not the guard
    trims. *)
Theorem decoders_not_starved ds sch sessions ts k :
  sched_ok sch sessions → Forall (iteration_order sessions ∘ ti_order) ts →
  decoders_stay ds sch sessions ts → (length ds ≤ length ts)%nat → k ∈ ds →
  given_turn k sch sessions (take (length ds) ts).
Proof.
  intros Hok Hts Hds Hlen Hk. destruct (rotate_lookup ds (rr_decode_idx_ sch) k Hk) as (d & Hd & Hx).
  apply (turn_comes k ds _ d); [done|by apply Forall_take| |done|rewrite length_take; lia].
  clear -Hds. revert sch sessions Hds. generalize (length ds). induction ts as [|t ts IH]; intros n sch sessions Hds.
  - by rewrite take_nil.
  - destruct n as [|n]; [done|]. destruct Hds as [Hnow Hnext]. split; [done|]. intros. by eapply IH, Hnext.
Qed.

End Service.

(** ** Witnesses *)

(** Two decoding sessions and a batch target of one token. *)
Definition pair_pool : SessionPool := <[4 := decode_session 4 2]> (<[6 := decode_session 6 3]> ∅).
Definition narrow_scheduler : Scheduler := (toy_scheduler 0) <| target_batch_ := 1 |>.
Definition pair_tick : TickInput := {| ti_order := [6; 4]; ti_now := 7; ti_dur := 1000 |}.

Lemma pair_order : iteration_order pair_pool [6; 4].
Proof.
  split; [by apply (bool_decide_unpack _)|]. intros k. unfold pair_pool.
  rewrite !elem_of_cons, elem_of_nil. split.
  - intros [-> |[-> |[]]]; vm_compute; eauto.
  - intros [s Hs]. rewrite !lookup_insert_Some, lookup_empty in Hs. naive_solver.
Qed.

Lemma pair_sched_ok : sched_ok narrow_scheduler pair_pool.
Proof.
  split; [change (1 ≤ 32 ≤ 2 ^ 30); lia|change (1 ≤ 1 ≤ Z.max 8 32); lia|]. split.
  - by repeat (apply map_Forall_insert_2; [done|]).
  - repeat (apply map_Forall_insert_2; [apply decode_session_ok; lia|]). apply map_Forall_empty.
Qed.

Lemma pair_stays : decoders_stay [6; 4] narrow_scheduler pair_pool [pair_tick; pair_tick].
Proof.
  split; [vm_compute; reflexivity|]. intros sch' pool' fds Ht. split; [|done].
  assert (E : match tick narrow_scheduler pair_pool [6; 4] 7 1000 with
              | Some (_, pool, _) => bool_decide (decoders pool [6; 4] = [6; 4])
              | None => false end = true) by (vm_compute; reflexivity).
  change (tick narrow_scheduler pair_pool [6; 4] 7 1000 = Some (sch', pool', fds)) in Ht.
  rewrite Ht in E. by apply bool_decide_eq_true in E.
Qed.

(** Session 4 is not in the first batch, but in the second. *)
Lemma decoders_not_starved_witness :
  item_fd <$> tick_items narrow_scheduler pair_pool [6; 4] = [6] ∧
  given_turn 4 narrow_scheduler pair_pool [pair_tick; pair_tick].
Proof.
  split; [vm_compute; reflexivity|].
  refine (decoders_not_starved [6; 4] narrow_scheduler pair_pool [pair_tick; pair_tick] 4
    pair_sched_ok _ pair_stays (le_n 2) _).
  - repeat (apply Forall_cons; split; [exact pair_order|]). constructor.
  - right. left.
Defined.

