(* ===== verification/SessionManagerCorrect.v ===== *)
(** * Correctness of the session manager

    What adding, closing and reading do to the pool: the scheduler's session
    invariant, distinct sequence ids, framing of the answers, independence of
    how the bytes arrive, and the life of a well-formed request. *)
From stdpp Require Import prelude gmap list strings.
From S2P Require Import Prelude Floating Protocol Json Cli Session Config Poller Llama Metrics SessionManager Policy Bmt Sampling Scheduler SchedulerFacts ToyLlama SchedulerCorrect.
Import Protocol.
Local Open Scope Z_scope.

(** ** The invariant *)

(** Sequence ids: a session that has one holds it alone, and it is below the
    next one to be given out. *)
Definition seqs_ok (sessions : SessionPool) (next : Z) : Prop :=
  map_Forall (λ _ s, -1 ≤ seq s < next) sessions ∧
  ∀ k1 k2 s1 s2, sessions !! k1 = Some s1 → sessions !! k2 = Some s2 →
    0 ≤ seq s1 → seq s1 = seq s2 → k1 = k2.

(** The bound the tokenizer has to respect for positions to stay [int32_t]. *)
Definition tokens_fit `{Llama} (cfg : RuntimeConfig) (vocab : option llama_vocab) : Prop :=
  0 ≤ max_tokens cfg < INT_MAX ∧
  ∀ text, Z.of_nat (length text) ≤ max_prompt_bytes cfg →
    Z.of_nat (length (tokenize vocab text true true)) + max_tokens cfg < INT_MAX.

Lemma new_session_ok cfg f now_ns :
  0 ≤ max_tokens cfg < INT_MAX →
  session_ok cfg (new_session <| fd := f |> <| ctx := false |> <| last_activity_ns := now_ns |>).
Proof. intros H. split; cbn; unfold INT_MAX in *; first [lia|done|by intros []]. Qed.

(** Replacing one session by another that is filed under the same descriptor. *)
Lemma pool_ok_insert cfg sessions f s :
  pool_ok cfg sessions → session_ok cfg s → fd s = f → pool_ok cfg (<[f := s]> sessions).
Proof. intros [Hk Ho] Hs Hf. split; by apply map_Forall_insert_2. Qed.

Lemma pool_ok_delete cfg sessions f : pool_ok cfg sessions → pool_ok cfg (delete f sessions).
Proof. intros [Hk Ho]. split; by apply map_Forall_delete. Qed.

Lemma seqs_ok_mono sessions next next' :
  seqs_ok sessions next → next ≤ next' → seqs_ok sessions next'.
Proof.
  intros [Hr Hu] Hn. split; [|done]. apply (map_Forall_impl _ _ _ Hr). intros k s. lia.
Qed.

Lemma seqs_ok_delete sessions f next : seqs_ok sessions next → seqs_ok (delete f sessions) next.
Proof.
  intros [Hr Hu]. split; [by apply map_Forall_delete|].
  intros k1 k2 s1 s2 [_ H1]%lookup_delete_Some [_ H2]%lookup_delete_Some. by apply Hu.
Qed.

(** A session keeps its id, has none, or takes the next one. *)
Lemma seqs_ok_insert sessions f s s' next :
  seqs_ok sessions next → sessions !! f = Some s → seq s' = seq s →
  seqs_ok (<[f := s']> sessions) next.
Proof.
  intros [Hr Hu] Hs Hseq. split.
  - apply map_Forall_insert_2; [rewrite Hseq; by eapply Hr|done].
  - intros k1 k2 s1 s2 H1 H2. rewrite lookup_insert_Some in H1, H2.
    destruct H1 as [[-> <-]|[Hn1 H1]], H2 as [[-> <-]|[Hn2 H2]]; intros H0 He; try done.
    + by apply (Hu k1 k2 s s2); [| |lia|lia].
    + by apply (Hu k1 k2 s1 s); [| |lia|lia].
    + by apply (Hu k1 k2 s1 s2).
Qed.

Lemma seqs_ok_fresh sessions f s next :
  seqs_ok sessions next → seq s = -1 → -1 < next → seqs_ok (<[f := s]> sessions) next.
Proof.
  intros [Hr Hu] Hseq Hn. split; [apply map_Forall_insert_2; [lia|done]|].
  intros k1 k2 s1 s2 H1 H2. rewrite lookup_insert_Some in H1, H2.
  destruct H1 as [[-> <-]|[Hn1 H1]], H2 as [[-> <-]|[Hn2 H2]]; intros H0 He; try done; try lia.
  by apply (Hu k1 k2 s1 s2).
Qed.

Lemma seqs_ok_assign sessions f s' next :
  seqs_ok sessions next → -1 ≤ next → seq s' = next →
  seqs_ok (<[f := s']> sessions) (next + 1).
Proof.
  intros [Hr Hu] Hn Hseq. split.
  - apply map_Forall_insert_2; [lia|]. apply (map_Forall_impl _ _ _ Hr). intros k x. lia.
  - intros k1 k2 s1 s2 H1 H2. rewrite lookup_insert_Some in H1, H2.
    destruct H1 as [[-> <-]|[Hn1 H1]], H2 as [[-> <-]|[Hn2 H2]]; intros H0 He; try done.
    + pose proof (Hr _ _ H2). cbn in *. lia.
    + pose proof (Hr _ _ H1). cbn in *. lia.
    + by apply (Hu k1 k2 s1 s2).
Qed.

(** ** What reading may do to a session *)

Section Reading.
Context `{Llama, Kernel, Conversions}.

(** The outcomes of [on_readable] for a session: bytes buffered, an answer
    enqueued with the session set to stream, or a request started. *)
Inductive read_step (cfg : RuntimeConfig) (vocab : option llama_vocab) (now_ns next : Z)
    (s : ClientSession) : ReadResult → ClientSession → Z → Prop :=
| read_waits rr s' :
    state s' = state s → tx s' = tx s → prompt_tokens s' = prompt_tokens s →
    seq s' = seq s → fd s' = fd s → prefill_idx s' = prefill_idx s → n_past s' = n_past s →
    generated_count s' = generated_count s → first_emit_ns s' = first_emit_ns s →
    wants_write rr = false → admin_request rr = false →
    read_step cfg vocab now_ns next s rr s' next
| read_answers rr s' payload :
    state s' = STREAM → tx s' = write_frame (tx s) payload →
    (prompt_tokens s' = prompt_tokens s ∨ prompt_tokens s' = []) →
    seq s' = seq s → fd s' = fd s → prefill_idx s' = prefill_idx s → n_past s' = n_past s →
    generated_count s' = generated_count s →
    wants_write rr = true → admin_request rr = false →
    (removed_read rr = true → read_closed s' = true) →
    read_step cfg vocab now_ns next s rr s' next
| read_admin rr s' :
    state s' = STREAM → tx s' = tx s → read_closed s' = true → prompt_tokens s' = prompt_tokens s →
    seq s' = seq s → fd s' = fd s → prefill_idx s' = prefill_idx s → n_past s' = n_past s →
    generated_count s' = generated_count s →
    wants_write rr = true → admin_request rr = true → removed_read rr = true →
    read_step cfg vocab now_ns next s rr s' next
| read_starts rr s0 s' text next' :
    fd s0 = fd s → seq s0 = seq s → tx s0 = tx s →
    Z.of_nat (length text) ≤ max_prompt_bytes cfg → tokenize vocab text true true ≠ [] →
    start_request s0 cfg (tokenize vocab text true true) now_ns next = (s', next') →
    wants_write rr = false → admin_request rr = false →
    read_step cfg vocab now_ns next s rr s' next'.

Lemma set_sampling_frame s js :
  let s' := set_sampling s js in
  fd s' = fd s ∧ seq s' = seq s ∧ tx s' = tx s ∧ state s' = state s ∧
  prompt_tokens s' = prompt_tokens s ∧ prefill_idx s' = prefill_idx s ∧ n_past s' = n_past s ∧
  generated_count s' = generated_count s ∧ request_id s' = request_id s ∧
  read_closed s' = read_closed s ∧ rx s' = rx s.
Proof.
  unfold set_sampling. destruct (extract_json_number js (str "temperature")),
    (extract_json_number js (str "top_p")), (extract_json_number js (str "top_k"));
    split_and!; reflexivity.
Qed.

(** Rejecting keeps everything but the output, the state and the read side. *)
Lemma reject_step cfg vocab now_ns next s0 s rr id code message :
  fd s = fd s0 → seq s = seq s0 → tx s = tx s0 → prompt_tokens s = prompt_tokens s0 →
  prefill_idx s = prefill_idx s0 → n_past s = n_past s0 →
  generated_count s = generated_count s0 → admin_request rr = false →
  read_step cfg vocab now_ns next s0 (answer_and_stop rr) (reject s id code message) next.
Proof.
  intros Hf Hq Ht Hp Hi Hn Hg Ha. apply (read_answers _ _ _ _ _ _ _ (error_payload id code message));
    try reflexivity; try assumption.
  - change (append_error_event (tx s) id code message
            = write_frame (tx s0) (error_payload id code message)). by rewrite Ht.
  - left. exact Hp.
Qed.

(** The fields of [s] that the reads and the framing leave alone. *)
Definition same_work (s0 s : ClientSession) : Prop :=
  fd s = fd s0 ∧ seq s = seq s0 ∧ tx s = tx s0 ∧ state s = state s0 ∧
  prompt_tokens s = prompt_tokens s0 ∧ prefill_idx s = prefill_idx s0 ∧ n_past s = n_past s0 ∧
  generated_count s = generated_count s0 ∧ first_emit_ns s = first_emit_ns s0.

Lemma read_blocks_frame now_ns blks s : same_work s (foldl (read_block now_ns) s blks).
Proof.
  revert s. induction blks as [|b blks IH]; intros s; [by split_and!|]. cbn.
  destruct (IH (read_block now_ns s b)) as (?&?&?&?&?&?&?&?&?).
  by split_and!; etransitivity.
Qed.

Lemma handle_frame_step cfg vocab now_ns js rr s0 s next :
  same_work s0 s → admin_request rr = false → wants_write rr = false →
  (removed_read rr = true → read_closed s = true) →
  let '(rr', s', next') := handle_frame cfg vocab now_ns js rr s next in
  read_step cfg vocab now_ns next s0 rr' s' next'.
Proof.
  intros (Hf & Hq & Ht & Hst & Hp & Hi & Hn & Hg & He) Ha Hw Hrc. unfold handle_frame.
  destruct (is_admin js). { by apply read_admin. }
  destruct (extract_json_string js (str "id")) as [req_id id_bad].
  destruct (extract_json_string js (str "prompt")) as [prompt prompt_bad].
  destruct (id_bad || prompt_bad); [by apply reject_step|].
  destruct (bool_decide (prompt = [])); [by apply reject_step|].
  pose proof (set_sampling_frame (s <| request_id := req_id |>) js)
    as (Ef & Eq & Et & Es & Ep & Ei & En & Eg & _ & Er & _).
  set (s1 := set_sampling (s <| request_id := req_id |>) js) in *. clearbody s1.
  cbn in Ef, Eq, Et, Es, Ep, Ei, En, Eg, Er.
  destruct (max_prompt_bytes cfg <? Z.of_nat (length prompt)) eqn:Elen; bool_prop.
  { apply reject_step; congruence. }
  destruct (bool_decide_reflect (tokenize vocab prompt true true = [])) as [_|Htok].
  - apply (read_answers _ _ _ _ _ _ _ (eos_payload (request_id s1) (str "stop")));
      cbn; try congruence; try reflexivity.
    + unfold append_eos_event. by rewrite Et, Ht.
    + by right.
    + intros Hrr. rewrite Er. by apply Hrc.
  - destruct (start_request _ cfg _ now_ns next) as [s2 next'] eqn:E.
    eapply read_starts; [| | |exact Elen|exact Htok|exact E|done|done]; cbn; congruence.
Qed.

Lemma after_read_step cfg vocab now_ns eof s0 s next :
  same_work s0 s →
  let '(rr, s', next') := after_read cfg vocab now_ns eof s next in
  read_step cfg vocab now_ns next s0 rr s' next'.
Proof.
  intros Hs. unfold after_read.
  set (p := if eof then _ else _).
  assert (Hp : same_work s0 p.2 ∧ admin_request p.1 = false ∧ wants_write p.1 = false ∧
               (removed_read p.1 = true → read_closed p.2 = true)).
  { unfold p. by destruct eof. }
  clearbody p. destruct p as [rr s1]. cbn [fst snd] in Hp.
  destruct Hp as (Hs1 & Ha & Hw & Hr). destruct Hs1 as (?&?&?&?&?&?&?&?&?) eqn:Hwork. clear Hwork.
  destruct (try_read_frame (rx s1) kDefaultMaxFrameBytes) as [|err|js rx'].
  - by apply read_waits.
  - by apply reject_step.
  - by apply handle_frame_step.
Qed.

Lemma on_readable_step m f cfg vocab now_ns input s :
  sessions_ m !! f = Some s →
  let '(rr, m') := on_readable m f cfg vocab now_ns input in
  ∃ s', sessions_ m' = <[f := s']> (sessions_ m) ∧
        read_step cfg vocab now_ns (next_seq_id_ m) s rr s' (next_seq_id_ m').
Proof.
  intros Hs. unfold on_readable. rewrite Hs.
  pose proof (read_blocks_frame now_ns (read_blocks input) s) as Hw.
  set (s1 := foldl _ _ _) in *. clearbody s1.
  destruct (read_end input).
  - pose proof (after_read_step cfg vocab now_ns true s s1 (next_seq_id_ m) Hw) as Hst.
    destruct (after_read _ _ _ _ _ _) as [[rr s'] next']. by exists s'.
  - pose proof (after_read_step cfg vocab now_ns false s s1 (next_seq_id_ m) Hw) as Hst.
    destruct (after_read _ _ _ _ _ _) as [[rr s'] next']. by exists s'.
  - exists s1. split; [done|]. destruct Hw as (?&?&?&?&?&?&?&?&?). by apply read_waits.
Qed.
End Reading.

(** ** Preservation *)

Record manager_ok (cfg : RuntimeConfig) (m : SessionManager) : Prop := {
  mo_pool : pool_ok cfg (sessions_ m);
  mo_seqs : seqs_ok (sessions_ m) (next_seq_id_ m);
  mo_next : 1 ≤ next_seq_id_ m;
}.

Lemma new_manager_ok cfg : manager_ok cfg new_manager.
Proof. split; [split; apply map_Forall_empty|split; [apply map_Forall_empty|done]|cbn; lia]. Qed.

Section Preservation.
Context `{Llama, Kernel, Conversions}.

Lemma start_request_spec s cfg toks now_ns next s' next' :
  start_request s cfg toks now_ns next = (s', next') →
  fd s' = fd s ∧ tx s' = tx s ∧ request_id s' = request_id s ∧ state s' = PREFILL ∧ rx s' = rx s ∧
  prompt_tokens s' = toks ∧ prefill_idx s' = 0%nat ∧ n_past s' = 0 ∧ generated_count s' = 0 ∧
  first_emit_ns s' = 0 ∧ has_pending_tok s' = false ∧ read_closed s' = read_closed s ∧
  (0 ≤ seq s ∧ seq s' = seq s ∧ next' = next ∨
   seq s < 0 ∧ seq s' = next ∧ next' = i32 (next + 1)).
Proof.
  unfold start_request. cbn [seq].
  match goal with |- context [ if ?b then _ else _ ] => destruct b eqn:E end;
    bool_prop; cbn in E; intros [= <- <-]; split_and!; try reflexivity; [right|left];
    split_and!; reflexivity || lia.
Qed.

Lemma session_ok_same cfg s s' :
  session_ok cfg s → state s' = state s → prompt_tokens s' = prompt_tokens s →
  prefill_idx s' = prefill_idx s → n_past s' = n_past s →
  generated_count s' = generated_count s → first_emit_ns s' = first_emit_ns s →
  session_ok cfg s'.
Proof.
  intros [Hi Hro Hg Hf Hp Hpf Hd] E1 E2 E3 E4 E5 E6.
  split; rewrite ?E1, ?E2, ?E3, ?E4, ?E5, ?E6; assumption.
Qed.

(** A session that is not being served only has to keep its bounds. *)
Lemma session_ok_inactive cfg s s' :
  session_ok cfg s → state s' ≠ PREFILL → state s' ≠ DECODE →
  (length (prompt_tokens s') ≤ length (prompt_tokens s))%nat →
  prefill_idx s' = prefill_idx s → n_past s' = n_past s →
  generated_count s' = generated_count s → session_ok cfg s'.
Proof.
  intros [Hi Hro Hg Hf Hp Hpf Hd] N1 N2 E2 E3 E4 E5.
  split; rewrite ?E3, ?E4, ?E5; try assumption; try (intros [|]; done); try done. lia.
Qed.

Lemma read_step_ok cfg vocab now_ns next s rr s' next' :
  tokens_fit cfg vocab → read_step cfg vocab now_ns next s rr s' next' →
  session_ok cfg s → session_ok cfg s' ∧ fd s' = fd s.
Proof.
  intros [Hmax Hfit] Hst Hok.
  destruct Hst as [rr s' Hst Ht Hp Hq Hf Hi Hn Hg He _ _|rr s' pl Hst Ht Hp Hq Hf Hi Hn Hg _ _ _
    |rr s' Hst Ht _ Hp Hq Hf Hi Hn Hg _ _ _|rr s0 s' text next' Hf Hq Ht Hlen Htok E _ _].
  - split; [|done]. by apply (session_ok_same cfg s).
  - split; [|done]. apply (session_ok_inactive cfg s); try done; rewrite ?Hst; try done.
    destruct Hp as [-> | ->]; cbn; lia.
  - split; [|done]. apply (session_ok_inactive cfg s); try done; rewrite ?Hst, ?Hp; done.
  - apply start_request_spec in E as (Hf' & _ & _ & Hst & _ & Hp & Hi & Hn & Hg & He & _).
    split; [|congruence]. specialize (Hfit text Hlen).
    split; rewrite ?Hst, ?Hp, ?Hi, ?Hn, ?Hg, ?He; unfold INT_MAX in *; try lia; done.
Qed.

Lemma read_step_seqs cfg vocab now_ns sessions f s rr s' next next' :
  read_step cfg vocab now_ns next s rr s' next' → sessions !! f = Some s →
  seqs_ok sessions next → 1 ≤ next < INT_MAX →
  seqs_ok (<[f := s']> sessions) next' ∧ next ≤ next' ≤ next + 1.
Proof.
  intros Hst Hs Hok Hn.
  destruct Hst as [rr s' ? ? ? Hq|rr s' pl ? ? ? Hq|rr s' ? ? ? ? Hq|rr s0 s' text next' Hf Hq _ _ _ E _ _].
  1-3: split; [by eapply seqs_ok_insert|lia].
  apply start_request_spec in E as (_ & _ & _ & _ & _ & _ & _ & _ & _ & _ & _ & _ & Hcase).
  destruct Hcase as [(_ & Hq' & ->)|(_ & Hq' & ->)].
  - split; [|lia]. eapply seqs_ok_insert; [done|done|congruence].
  - rewrite i32_id by (unfold in_i32, INT_MIN, INT_MAX in *; lia).
    split; [|lia]. apply seqs_ok_assign; [done|lia|done].
Qed.

Lemma on_readable_missing m f cfg vocab now_ns input :
  sessions_ m !! f = None → on_readable m f cfg vocab now_ns input = (no_result, m).
Proof. unfold on_readable. by intros ->. Qed.

Lemma on_readable_ok cfg vocab m f now_ns input :
  tokens_fit cfg vocab → manager_ok cfg m → next_seq_id_ m < INT_MAX →
  let '(_, m') := on_readable m f cfg vocab now_ns input in
  manager_ok cfg m' ∧ next_seq_id_ m ≤ next_seq_id_ m' ≤ next_seq_id_ m + 1 ∧
  ∀ k, k ≠ f → sessions_ m' !! k = sessions_ m !! k.
Proof.
  intros Hfit [Hpool Hseq Hnext] Hmax. destruct (sessions_ m !! f) as [s|] eqn:Hs.
  - pose proof (on_readable_step m f cfg vocab now_ns input s Hs) as Hst.
    destruct (on_readable m f cfg vocab now_ns input) as [rr m'].
    destruct Hst as (s' & Em & Hst). destruct (pool_ok_lookup _ _ _ _ Hpool Hs) as [Hso Hfd].
    destruct (read_step_ok _ _ _ _ _ _ _ _ Hfit Hst Hso) as [Hso' Hfd'].
    destruct (read_step_seqs _ _ _ _ _ _ _ _ _ _ Hst Hs Hseq) as [Hseq' Hle]; [lia|].
    split; [split; rewrite ?Em; [apply pool_ok_insert; congruence|done|lia]|].
    split; [lia|]. intros k Hk. rewrite Em. by apply lookup_insert_ne.
  - rewrite on_readable_missing by done. split; [done|]. split; [lia|done].
Qed.

Lemma add_client_ok cfg m f now_ns :
  0 ≤ max_tokens cfg < INT_MAX → manager_ok cfg m → manager_ok cfg (add_client m f now_ns).
Proof.
  intros Hmax [Hpool Hseq Hnext]. split; cbn.
  - apply pool_ok_insert; [done|by apply new_session_ok|done].
  - apply seqs_ok_fresh; [done|done|lia].
  - done.
Qed.

Lemma close_sessions m f q c :
  let '(m', q', c') := close m f q c in
  sessions_ m' = delete f (sessions_ m) ∧ next_seq_id_ m' = next_seq_id_ m ∧
  q' = kq_close (poller_remove q f (flags_or PollFlags.Read PollFlags.Write)).1 f ∧
  (is_Some c → is_Some c').
Proof.
  unfold close. destruct (sessions_ m !! f) as [s|] eqn:Hs.
  - split_and!; try done. destruct c as [c|]; [|by intros []]. intros _. by case_match.
  - split_and!; try done. by rewrite delete_id.
Qed.

Lemma close_ok cfg m f q c :
  manager_ok cfg m → manager_ok cfg (close m f q c).1.1.
Proof.
  intros [Hpool Hseq Hnext]. pose proof (close_sessions m f q c) as Hc.
  destruct (close m f q c) as [[m' q'] c']. destruct Hc as (Hs & Hn & _). cbn.
  split; rewrite ?Hs, ?Hn; [by apply pool_ok_delete|by apply seqs_ok_delete|done].
Qed.
End Preservation.

(** ** How the bytes arrive *)

Section Arrival.
Context `{Llama, Kernel, Conversions}.

Lemma session_setter_rx (s : ClientSession) a t1 b t2 :
  ((s <| rx := a |> <| last_activity_ns := t1 |>) <| rx := b |>) <| last_activity_ns := t2 |>
  = s <| rx := b |> <| last_activity_ns := t2 |>.
Proof. by destruct s. Qed.

Lemma read_block_app now1 now2 s b1 b2 :
  read_block now2 (read_block now1 s b1) b2 = read_block now2 s (b1 ++ b2).
Proof.
  unfold read_block. rewrite session_setter_rx. cbn. by rewrite app_assoc.
Qed.

Lemma read_blocks_concat now_ns s blks b :
  foldl (read_block now_ns) s (b :: blks) = read_block now_ns s (b ++ concat blks).
Proof.
  revert b s. induction blks as [|b' blks IH]; intros b s; [cbn; by rewrite app_nil_r|].
  change (foldl (read_block now_ns) (read_block now_ns s b) (b' :: blks)
          = read_block now_ns s (b ++ concat (b' :: blks))).
  rewrite IH, read_block_app. reflexivity.
Qed.

Lemma read_partial m f cfg vocab now_ns b s :
  sessions_ m !! f = Some s → try_read_frame (rx s ++ b) kDefaultMaxFrameBytes = NeedMore →
  on_readable m f cfg vocab now_ns {| read_blocks := [b]; read_end := ReadAgain |}
  = (no_result, {| sessions_ := <[f := read_block now_ns s b]> (sessions_ m);
                   next_seq_id_ := next_seq_id_ m |}).
Proof. intros Hs Hrx. unfold on_readable, after_read. rewrite Hs. cbn. by rewrite Hrx. Qed.
End Arrival.

(** ** Theorems *)

Section Theorems.
Context `{Llama, Kernel, Conversions}.

(** C9. Sessions are kept apart. Accepting, reading from and closing clients
    preserves the manager's invariant: every session is filed under its own
    descriptor and satisfies the scheduler's invariant, no two sessions share a
    sequence id, and ids given out are below the next one; reading and closing
    change no other session. *)
Theorem manager_invariant cfg vocab m f now_ns input q c :
  tokens_fit cfg vocab → manager_ok cfg m → next_seq_id_ m < INT_MAX →
  manager_ok cfg (add_client m f now_ns) ∧
  (manager_ok cfg (on_readable m f cfg vocab now_ns input).2 ∧
   ∀ k, k ≠ f → sessions_ (on_readable m f cfg vocab now_ns input).2 !! k = sessions_ m !! k) ∧
  manager_ok cfg (close m f q c).1.1 ∧
  sessions_ (close m f q c).1.1 = delete f (sessions_ m).
Proof.
  intros Hfit Hok Hn. split; [apply add_client_ok; [apply Hfit|done]|].
  pose proof (on_readable_ok cfg vocab m f now_ns input Hfit Hok Hn) as Hr.
  destruct (on_readable m f cfg vocab now_ns input) as [rr m'].
  destruct Hr as (? & _ & ?). split; [done|]. split; [by apply close_ok|].
  pose proof (close_sessions m f q c) as Hc. destruct (close m f q c) as [[? ?] ?].
  apply Hc.
Qed.


(** C29. What reading does to the answer side. When writing is not asked for, the
    output is untouched. When it is asked for, the session streams, and either
    the request was for metrics: the output is untouched, since the caller
    appends the answer, and the session stops reading; or the output is extended
    by one whole frame, and the session has stopped reading if the caller is
    told to stop. *)
Theorem read_output_framed m f cfg vocab now_ns input s s' :
  sessions_ m !! f = Some s →
  sessions_ (on_readable m f cfg vocab now_ns input).2 !! f = Some s' →
  let rr := (on_readable m f cfg vocab now_ns input).1 in
  (wants_write rr = false ∧ admin_request rr = false ∧ tx s' = tx s) ∨
  (wants_write rr = true ∧ state s' = STREAM ∧
   (if admin_request rr then tx s' = tx s ∧ read_closed s' = true
    else (∃ payload, tx s' = write_frame (tx s) payload) ∧
         (removed_read rr = true → read_closed s' = true))).
Proof.
  intros Hs Hs'. pose proof (on_readable_step m f cfg vocab now_ns input s Hs) as Hst.
  destruct (on_readable m f cfg vocab now_ns input) as [rr m']. cbn [fst snd] in *.
  destruct Hst as (s1 & Em & Hst). rewrite Em, lookup_insert_eq in Hs'. injection Hs' as ->.
  destruct Hst as [rr s1 ? Ht ? ? ? ? ? ? ? Hw Ha|rr s1 pl Hst Ht ? ? ? ? ? ? Hw Ha Hr
    |rr s1 Hst Ht Hrc ? ? ? ? ? ? Hw Ha ?|rr s0 s1 text next' _ _ Ht _ _ E Hw Ha].
  - by left.
  - right. rewrite Ha. split; [done|]. split; [done|]. split; [by eexists|done].
  - right. by rewrite Ha.
  - left. apply start_request_spec in E as (_ & Ht' & _). split_and!; [done|done|congruence].
Qed.
End Theorems.

(** ** A request from the client *)

Section Request.
Context `{Llama, Kernel, Conversions}.

Lemma not_admin opt :
  cli_metrics opt = false → readback <$> cli_prompt opt ≠ str "metrics" →
  is_admin (request_payload opt) = false.
Proof.
  intros Hm Hp. unfold is_admin.
  pose proof (request_string opt (str "type") Hm (or_introl eq_refl)) as Hty.
  pose proof (request_string opt (str "event") Hm (or_intror eq_refl)) as Hev.
  destruct (extract_json_string (request_payload opt) (str "type")) as [typ tb].
  destruct (extract_json_string (request_payload opt) (str "event")) as [evt eb]. cbn [fst] in *.
  rewrite !bool_decide_eq_false_2 by tauto. by rewrite !andb_false_r.
Qed.

(** A request frame is read out of the buffer whole. *)
Lemma request_frame s opt :
  cli_metrics opt = false → rx s = [] →
  Z.of_nat (length (request_payload opt)) ≤ kDefaultMaxFrameBytes →
  try_read_frame (rx s ++ write_frame [] (request_payload opt)) kDefaultMaxFrameBytes
  = Frame (request_payload opt) [].
Proof.
  intros Hm Hrx Hlen. rewrite Hrx, app_nil_l, <- (app_nil_r (write_frame _ _)).
  apply read_written_frame; [reflexivity|]. split; [|exact Hlen].
  rewrite request_shape, length_app by done.
  change (length (jstr "{'id':")) with 6%nat. lia.
Qed.

(** The whole path through [handle_frame] for a request of the client. *)
Lemma handle_request cfg vocab now_ns opt rr s next :
  cli_metrics opt = false →
  readback <$> cli_prompt opt ≠ [] → readback <$> cli_prompt opt ≠ str "metrics" →
  Z.of_nat (length (cli_prompt opt)) ≤ max_prompt_bytes cfg →
  tokenize vocab (readback <$> cli_prompt opt) true true ≠ [] →
  ∃ s0, handle_frame cfg vocab now_ns (request_payload opt) rr s next
    = (let '(s', next') := start_request s0 cfg
         (tokenize vocab (readback <$> cli_prompt opt) true true) now_ns next in (rr, s', next')) ∧
    request_id s0 = (readback <$> cli_id opt) ∧ tx s0 = tx s ∧ rx s0 = rx s ∧ seq s0 = seq s.
Proof.
  intros Hm Hne Hnm Hmax Htok. unfold handle_frame. rewrite not_admin by done.
  rewrite (extract_here _ _ _ _ (find_key_id opt Hm)),
    (extract_here _ _ _ _ (find_key_prompt opt Hm)). cbn [orb].
  rewrite (bool_decide_eq_false_2 (readback <$> cli_prompt opt = [])) by done.
  rewrite length_fmap, (proj2 (Z.ltb_ge _ _)) by lia.
  rewrite bool_decide_eq_false_2 by done.
  pose proof (set_sampling_frame (s <| request_id := readback <$> cli_id opt |>)
    (request_payload opt)) as (_ & Hq & Ht & _ & _ & _ & _ & _ & Hid & _ & Hrx).
  set (s1 := set_sampling _ _) in *. clearbody s1.
  eexists. split; [reflexivity|]. split; [exact Hid|]. split; [exact Ht|]. split; [exact Hrx|exact Hq].
Qed.

(** The session a request of the client leads to. *)
Lemma request_started m f cfg vocab now_ns opt b blks s :
  cli_metrics opt = false → sessions_ m !! f = Some s → rx s = [] → 1 ≤ next_seq_id_ m →
  b ++ concat blks = write_frame [] (request_payload opt) →
  Z.of_nat (length (request_payload opt)) ≤ kDefaultMaxFrameBytes →
  readback <$> cli_prompt opt ≠ [] → readback <$> cli_prompt opt ≠ str "metrics" →
  Z.of_nat (length (cli_prompt opt)) ≤ max_prompt_bytes cfg →
  tokenize vocab (readback <$> cli_prompt opt) true true ≠ [] →
  let '(rr, m') := on_readable m f cfg vocab now_ns
                     {| read_blocks := b :: blks; read_end := ReadAgain |} in
  rr = no_result ∧ ∃ s', sessions_ m' !! f = Some s' ∧ state s' = PREFILL ∧
    request_id s' = (readback <$> cli_id opt) ∧
    prompt_tokens s' = tokenize vocab (readback <$> cli_prompt opt) true true ∧
    prefill_idx s' = 0%nat ∧ n_past s' = 0 ∧ generated_count s' = 0 ∧ 0 ≤ seq s' ∧
    rx s' = [] ∧ tx s' = tx s.
Proof.
  intros Hm Hs Hrx Hnext Hbytes Hlen Hne Hnm Hmax Htok. unfold on_readable. rewrite Hs.
  cbn [read_blocks read_end]. rewrite read_blocks_concat, Hbytes.
  pose proof (request_frame s opt Hm Hrx Hlen) as Hframe. clear Hbytes.
  set (s1 := read_block now_ns s (write_frame [] (request_payload opt))).
  assert (Hrx1 : rx s1 = rx s ++ write_frame [] (request_payload opt)) by reflexivity.
  assert (Htx1 : tx s1 = tx s) by reflexivity. clearbody s1.
  unfold after_read. rewrite Hrx1, Hframe.
  destruct (handle_request cfg vocab now_ns opt no_result (s1 <| rx := [] |>) (next_seq_id_ m)
    Hm Hne Hnm Hmax Htok) as (s0 & -> & Hid & Ht & Hr & Hq).
  destruct (start_request s0 cfg _ now_ns (next_seq_id_ m)) as [s2 next'] eqn:E.
  split; [reflexivity|]. exists s2. split; [apply lookup_insert_eq|].
  apply start_request_spec in E as (_ & Ht' & Hid' & Hst & Hr' & Hp & Hi & Hn & Hg & _ & _ & _ & Hseq).
  split_and!; [exact Hst|by rewrite Hid'|exact Hp|exact Hi|exact Hn|exact Hg|lia|by rewrite Hr'|].
  rewrite Ht', Ht. exact Htx1.
Qed.

(** C10. From the client's options to a prefilling session: a request frame built by
    the client for a prompt that is not empty, not the word [metrics], within
    the size limits and has tokens, arriving in any number of blocks when the
    receive buffer is empty, starts a request: the session gets the client's id,
    the tokens of the client's prompt (both as the daemon reads them back, with
    control characters other than tab, newline and carriage return turned into
    question marks) and a sequence id, its counters are reset, its receive
    buffer is empty and nothing is answered. The state of the session does not
    matter: one that is still generating is restarted too
    ([busy_request_restarts]), where docs/PROTOCOL.md has it rejected. *)
Theorem request_accepted m f cfg vocab now_ns opt b blks s :
  cli_metrics opt = false → sessions_ m !! f = Some s → rx s = [] → 1 ≤ next_seq_id_ m →
  b ++ concat blks = write_frame [] (request_payload opt) →
  Z.of_nat (length (request_payload opt)) ≤ kDefaultMaxFrameBytes →
  readback <$> cli_prompt opt ≠ [] → readback <$> cli_prompt opt ≠ str "metrics" →
  Z.of_nat (length (cli_prompt opt)) ≤ max_prompt_bytes cfg →
  tokenize vocab (readback <$> cli_prompt opt) true true ≠ [] →
  let '(rr, m') := on_readable m f cfg vocab now_ns
                     {| read_blocks := b :: blks; read_end := ReadAgain |} in
  rr = no_result ∧ ∃ s', sessions_ m' !! f = Some s' ∧ state s' = PREFILL ∧
    request_id s' = (readback <$> cli_id opt) ∧
    prompt_tokens s' = tokenize vocab (readback <$> cli_prompt opt) true true ∧
    prefill_idx s' = 0%nat ∧ n_past s' = 0 ∧ generated_count s' = 0 ∧ 0 ≤ seq s' ∧
    rx s' = [] ∧ tx s' = tx s.
Proof. apply request_started. Qed.
End Request.

(** ** Sequence ids are never given back *)

(** One connection after the other: a client connects on descriptor [f], sends
    a request and is closed again. *)
Definition serve_once (m : SessionManager) (f : Z) : SessionManager :=
  let m := add_client m f 1 in
  let m := (on_readable m f default_config toy_vocab 2
              {| read_blocks := [write_frame [] (request_payload demo_options)];
                 read_end := ReadAgain |}).2 in
  (close m f empty_kq (Some (toy_ctx 0))).1.1.

(** The number of requests is not bounded by the number of sequences the context
    is created with: with the default configuration ([n_seq_max = 4], so ids 0
    to 3) the fourth connection in a row is given sequence id 4, although all
    earlier connections are closed. *)
Theorem sequence_ids_outgrow_context :
  n_seq_max default_config = 4 ∧
  let m3 := foldl serve_once new_manager [5; 5; 5] in
  sessions_ m3 = ∅ ∧
  seq <$> sessions_ (on_readable (add_client m3 5 1) 5 default_config toy_vocab 2
            {| read_blocks := [write_frame [] (request_payload demo_options)];
               read_end := ReadAgain |}).2 !! 5 = Some 4.
Proof. split; [reflexivity|]. split; vm_compute; reflexivity. Qed.

(** ** Witnesses *)

Lemma toy_tokenize_length text :
  Z.of_nat (length (tokenize toy_vocab text true true)) ≤ Z.of_nat (length text).
Proof.
  destruct (@length_tokenize ToyLlama toy_vocab text true true) as [E|(v & _ & E)]; rewrite E; [cbn; lia|].
  cbn [llama_tokenize ToyLlama]. destruct (0 <? Z.of_nat (length text)); cbn [fst]; lia.
Qed.

Lemma toy_tokens_fit : tokens_fit default_config toy_vocab.
Proof.
  split; [vm_compute; done|]. intros text Ht. pose proof (toy_tokenize_length text).
  change (max_prompt_bytes default_config) with 8192 in Ht.
  change (max_tokens default_config) with 64. unfold INT_MAX. lia.
Qed.

Definition toy_manager : SessionManager :=
  {| sessions_ := toy_pool; next_seq_id_ := 5 |}.

Lemma toy_manager_ok : manager_ok default_config toy_manager.
Proof.
  split; [exact toy_pool_ok| |cbn; lia]. unfold toy_manager, toy_pool. cbn [sessions_ next_seq_id_].
  split.
  - apply map_Forall_insert_2; [cbn; lia|]. apply map_Forall_insert_2; [cbn; lia|].
    apply map_Forall_empty.
  - intros k1 k2 s1 s2 E1 E2. rewrite !lookup_insert_Some, lookup_empty in E1, E2.
    destruct E1 as [[<- <-]|[_ [[<- <-]|[_ E1]]]], E2 as [[<- <-]|[_ [[<- <-]|[_ E2]]]];
      try discriminate; try reflexivity; intros _ Hq; discriminate Hq.
Qed.

Lemma manager_invariant_witness :
  manager_ok default_config (on_readable toy_manager 3 default_config toy_vocab 9
    {| read_blocks := [str "x"]; read_end := ReadEof |}).2.
Proof.
  exact (proj1 (proj1 (proj2 (manager_invariant default_config toy_vocab toy_manager 3 9
    {| read_blocks := [str "x"]; read_end := ReadEof |} empty_kq (Some (toy_ctx 0))
    toy_tokens_fit toy_manager_ok eq_refl)))).
Defined.

Definition request_bytes : bytes := write_frame [] (request_payload demo_options).
Definition fresh_manager : SessionManager := add_client new_manager 5 1.


Lemma request_accepted_witness :
  let '(rr, m') := on_readable fresh_manager 5 default_config toy_vocab 3
                     {| read_blocks := [take 9 request_bytes; drop 9 request_bytes];
                        read_end := ReadAgain |} in
  rr = no_result ∧ ∃ s', sessions_ m' !! 5 = Some s' ∧ state s' = PREFILL ∧
    request_id s' = str "req-1" ∧
    prompt_tokens s' = @tokenize ToyLlama toy_vocab (jstr "say 'hi'") true true ∧
    prefill_idx s' = 0%nat ∧ n_past s' = 0 ∧ generated_count s' = 0 ∧ 0 ≤ seq s' ∧
    rx s' = [] ∧ tx s' = [].
Proof.
  exact (request_accepted fresh_manager 5 default_config toy_vocab 3 demo_options
    (take 9 request_bytes) [drop 9 request_bytes]
    (new_session <| fd := 5 |> <| ctx := false |> <| last_activity_ns := 1 |>)
    eq_refl eq_refl eq_refl ltac:(vm_compute; discriminate)
    ltac:(cbn [concat]; rewrite app_nil_r; apply take_drop)
    ltac:(vm_compute; discriminate) ltac:(discriminate) ltac:(discriminate)
    ltac:(vm_compute; discriminate) ltac:(vm_compute; discriminate)).
Defined.

(** A second request on a connection that is still generating is not rejected:
    the running generation is dropped and the session starts over at position
    zero under the same sequence id (whose cached positions are not removed:
    reading has no access to the context), with nothing sent to the client. *)
Theorem busy_request_restarts :
  let m' := (on_readable toy_manager 4 default_config toy_vocab 9
               {| read_blocks := [request_bytes]; read_end := ReadAgain |}).2 in
  (λ s, (state s, seq s, n_past s, prefill_idx s)) <$> sessions_ toy_manager !! 4
  = Some (DECODE, 4, 2, 2%nat) ∧
  (λ s, (state s, seq s, n_past s, prefill_idx s, tx s)) <$> sessions_ m' !! 4
  = Some (PREFILL, 4, 0, 0%nat, []).
Proof. split; vm_compute; reflexivity. Qed.

(** Of two frames that arrive together only the first is handled: the second
    stays in the receive buffer, complete, until the next read event. *)
Theorem second_frame_waits :
  let m' := (on_readable fresh_manager 5 default_config toy_vocab 3
               {| read_blocks := [request_bytes ++ request_bytes]; read_end := ReadAgain |}).2 in
  (λ s, (state s, rx s)) <$> sessions_ m' !! 5 = Some (PREFILL, request_bytes) ∧
  ∃ js, try_read_frame request_bytes kDefaultMaxFrameBytes = Frame js [].
Proof. split; [vm_compute; reflexivity|eexists; vm_compute; reflexivity]. Qed.

(** A frame header that announces an empty frame. *)
Lemma read_output_framed_witness :
  ∃ s', sessions_ (on_readable fresh_manager 5 default_config toy_vocab 3
          {| read_blocks := [frame_header 0]; read_end := ReadAgain |}).2 !! 5 = Some s' ∧
    state s' = STREAM ∧
    wants_write (on_readable fresh_manager 5 default_config toy_vocab 3
          {| read_blocks := [frame_header 0]; read_end := ReadAgain |}).1 = true.
Proof.
  eexists. split; [vm_compute; reflexivity|].
  destruct (read_output_framed fresh_manager 5 default_config toy_vocab 3
    {| read_blocks := [frame_header 0]; read_end := ReadAgain |}
    (new_session <| fd := 5 |> <| ctx := false |> <| last_activity_ns := 1 |>) _ eq_refl
    ltac:(vm_compute; reflexivity)) as [(E & _)|(E & Hst & _)].
  - discriminate E.
  - split; [exact Hst|exact E].
Defined.
