(* ===== verification/EndToEnd.v ===== *)
(** * From the client's command line to its terminal

    The client program, the session manager, the scheduler and the client again,
    composed: a request sent by [uma-cli] is read, decoded to its end and
    printed. Between the programs only bytes pass: the request frame one way,
    the contents of the session's output buffer the other. *)
From stdpp Require Import prelude gmap list strings.
From Stdlib Require Import ZifyBool.
From S2P Require Import Prelude Floating Sys Protocol Json Cli CliMain Session Config Poller Llama Metrics SessionManager Policy Bmt Sampling Scheduler SchedulerFacts ToyLlama SchedulerCorrect Requests SessionManagerCorrect.
Import Protocol.
Local Open Scope Z_scope.

Section EndToEnd.
Context `{Platform, Llama, !LlamaLogits, Kernel, IBatchPolicy, !BatchPolicyLaws, !PolicyProgress, ISampler, Conversions}.

(** The id the daemon answers with. *)
Definition answer_id (o : CliOptions) : bytes := readback <$> cli_id o.

(** A request the daemon takes and whose answer the client can read. *)
Record request_ok (cfg : RuntimeConfig) (vocab : llama_vocab) (o : CliOptions) : Prop := {
  ro_kind : cli_metrics o = false;
  ro_prompt : readback <$> cli_prompt o ≠ [];
  ro_admin : readback <$> cli_prompt o ≠ str "metrics";
  ro_size : Z.of_nat (length (cli_prompt o)) ≤ max_prompt_bytes cfg;
  ro_frame : Z.of_nat (length (request_payload o)) ≤ kDefaultMaxFrameBytes;
  ro_tokens : tokenize (Some vocab) (readback <$> cli_prompt o) true true ≠ [];
  ro_quote : Forall (λ c, c ≠ Init.Byte.x22) (answer_id o);
  ro_text : json_escape (answer_id o) ≠ str "text";
}.

(** A daemon that satisfies its invariant, with a connection on [f] that has
    nothing pending in its buffers; the other sessions are in any state the
    manager and the ticks leave them in ([fresh_prompt]: a session that waits for
    its prefill is at the start of its prompt). *)
Record server_ready (sch : Scheduler) (m : SessionManager) (f : Z) (s : ClientSession) : Prop := {
  sr_cap : 1 ≤ batch_cap_ sch ≤ 2 ^ 30;
  sr_target : target_ok (batch_cap_ sch) (target_batch_ sch);
  sr_manager : manager_ok (config_ sch) m;
  sr_fit : tokens_fit (config_ sch) (Some (vocab_ sch));
  sr_ids : next_seq_id_ m < INT_MAX;
  sr_fresh : map_Forall (λ _, fresh_prompt) (sessions_ m);
  sr_session : sessions_ m !! f = Some s;
  sr_idle : rx s = [] ∧ tx s = [];
}.

(** Tokens whose texts the client can print (no control characters other than
    tab, newline and carriage return), in frames whose length fits the header. *)
Definition printable (rid : bytes) (piece : Z → bytes) (ks : list Z) : Prop :=
  Forall (λ k, forallb cli_plain (piece k) = true ∧
               Z.of_nat (length (token_payload rid (piece k) k)) < 2 ^ 32) ks ∧
  Z.of_nat (length (json_escape rid)) < 2 ^ 31.

Lemma eos_payload_fits rid reason :
  Z.of_nat (length (json_escape rid)) < 2 ^ 31 → reason = str "stop" ∨ reason = str "length" →
  Z.of_nat (length (eos_payload rid reason)) < 2 ^ 32.
Proof.
  intros Hl Hr. unfold eos_payload. rewrite !length_app.
  assert (length (json_escape reason) ≤ 6)%nat by (by destruct Hr as [-> | ->]; vm_compute; lia).
  change (length (jstr "{'id':'")) with 7%nat. change (length (jstr "'}")) with 2%nat.
  change (length (jstr "','event':'eos','reason':'")) with 26%nat. lia.
Qed.

Lemma tokens_of_ids piece toks :
  Forall (is_token piece) toks → ∃ ks, toks = (λ k, TokenEvent (piece k) k) <$> ks.
Proof.
  induction 1 as [|e toks He _ [ks ->]]; [by exists []|].
  destruct e as [t k|r|c msg]; [|done..]. destruct He as [-> _]. by exists (k :: ks).
Qed.

(** The daemon's side: the request is accepted and answered. *)
Lemma daemon_answers sch m f s o now_ns b blks ts :
  let m1 := (on_readable m f (config_ sch) (Some (vocab_ sch)) now_ns
               {| read_blocks := b :: blks; read_end := ReadAgain |}).2 in
  let piece := piece_of (vocab_ sch) in
  request_ok (config_ sch) (vocab_ sch) o → server_ready sch m f s →
  b ++ concat blks = write_frame [] (request_payload o) →
  Forall (iteration_order (sessions_ m1) ∘ ti_order) ts →
  Z.of_nat (size (sessions_ m1)) * (max_tokens (config_ sch) + 2) ≤ Z.of_nat (length ts) →
  ∃ sch' pool' s' ks fin,
    run_ticks sch (sessions_ m1) ts = Some (sch', pool') ∧ pool' !! f = Some s' ∧ settled s' ∧
    tx s' = encode_frames (((λ k, token_payload (answer_id o) (piece k) k) <$> ks)
                           ++ [event_payload (answer_id o) fin]) ∧
    Z.of_nat (length ks) ≤ max_tokens (config_ sch) + 1 ∧ final (answer_of (config_ sch) s') [fin].
Proof.
  intros m1 piece [Rk Rp Ra Rs Rf Rt _ _] [Sc St Sm Sf Si Sp Ss [Srx Stx]] Hb Hord Hlen.
  pose proof (on_readable_ok (config_ sch) (Some (vocab_ sch)) m f now_ns
    {| read_blocks := b :: blks; read_end := ReadAgain |} Sf Sm Si) as Hm1.
  pose proof (request_started m f (config_ sch) (Some (vocab_ sch)) now_ns o b blks s Rk Ss Srx
    (mo_next _ _ Sm) Hb Rf Rp Ra Rs Rt) as Hreq.
  subst m1. destruct (on_readable _ _ _ _ _ _) as [rr m1]. cbn [snd] in *.
  destruct Hm1 as (Hm1 & _ & Hother).
  destruct Hreq as (_ & s1 & Hs1 & Hst1 & Hid & Htok & Hidx & _ & _ & _ & _ & Htx).
  assert (Hfresh : map_Forall (λ _, fresh_prompt) (sessions_ m1)).
  { intros k x Hx. destruct (decide (k = f)) as [->|Hne]; [rewrite Hs1 in Hx; injection Hx as <-; by intros _|].
    rewrite Hother in Hx by done. by apply (Sp k). }
  destruct (requests_done sch (sessions_ m1) ts) as (sch' & pool' & Hrun & Hall);
    [split; [done|done|apply Hm1]|done|done|done|].
  destruct (Hall f s1 Hs1) as (s' & toks & fin & Hs' & Hset & Htx' & Htoks & Hn & Hfin).
  { left. split_and!; [done|done|]. by rewrite Htok. }
  destruct (tokens_of_ids _ _ Htoks) as [ks ->].
  exists sch', pool', s', ks, fin. rewrite length_fmap in Hn. split_and!; try done.
  rewrite Htx', Htx, Stx, Hid, fmap_app, <- list_fmap_compose. done.
Qed.

(** The client's side: an answer that ends its stream is printed. *)
Lemma client_prints_answer cfg vocab argv0 args pid time opt rid ks fin s' sk c ws anss cl rest :
  let o := named opt pid time in
  let piece := piece_of vocab in
  let events := ((λ k, token_payload rid (piece k) k) <$> ks) ++ [event_payload rid fin] in
  cli_args args default_options = ArgsOk opt → request_ok cfg vocab o → rid = answer_id o →
  printable rid piece ks → final (answer_of cfg s') [fin] → state s' = STREAM →
  0 ≤ a_ret sk → Z.of_nat (length (cli_socket_path opt)) < sun_path_size → a_ret c = 0 →
  accepts (write_frame [] (request_payload o)) ws → Forall2 delivers_frame events anss →
  ∃ l, Sys.run (main argv0 args pid time) (sk :: c :: ws ++ concat anss ++ cl :: rest) = Some (0, rest, l) ∧
    stdout l = concat (piece <$> ks) ++ newline ∧ stderr l = [] ∧
    sent (a_ret sk) l = write_frame [] (request_payload o) ∧ open_fds [] l = [].
Proof.
  intros o piece events Ha Hro -> [Hpr Hfe] Hfin Hst Hsk Hpath Hc Hw Hd.
  unfold answer_of in Hfin. rewrite Hst in Hfin. cbn in Hfin.
  assert (Hr : ∃ reason, fin = EosEvent reason ∧ (reason = str "stop" ∨ reason = str "length")).
  { destruct Hfin as [[= ->]|[= ->]]; eauto. }
  destruct Hr as (reason & -> & Hreason).
  assert (Hopt : cli_metrics opt = false ∧ cli_prompt o = cli_prompt opt).
  { pose proof (ro_kind _ _ _ Hro) as Hk. revert Hk. unfold o, named. by case_bool_decide. }
  set (toks := (λ k, (piece k, k)) <$> ks).
  assert (Hev : events = ((λ '(t, k), token_payload (answer_id o) t k) <$> toks)
                         ++ [eos_payload (answer_id o) reason]).
  { unfold toks. rewrite <- list_fmap_compose. done. }
  assert (Htx : concat (fst <$> toks) = concat (piece <$> ks))
    by (unfold toks; by rewrite <- list_fmap_compose).
  rewrite Hev in Hd. rewrite <- Htx.
  apply (main_streams argv0 args pid time opt sk c ws (answer_id o) toks reason anss cl rest); try done.
  - apply Hopt.
  - rewrite <- (proj2 Hopt). intros Hn. apply (ro_prompt _ _ _ Hro). by rewrite Hn.
  - apply Hro.
  - apply Hro.
  - unfold toks. apply Forall_fmap, (Forall_impl _ _ _ Hpr). by intros k [? _].
  - apply Forall_app. split; [|repeat constructor; by apply eos_payload_fits].
    unfold toks. rewrite <- list_fmap_compose. apply Forall_fmap, (Forall_impl _ _ _ Hpr). by intros k [_ ?].
Qed.

(** ** Theorems *)

(** C2. The whole system, for one request among any others. The request
    ([request_ok]) is one for a prompt that is not empty and not the word
    [metrics], within the size limits and with tokens, under an id that, as the
    daemon reads it back, has no quotes and is not the word [text]. When the
    bytes the client sends for it arrive, in any number of blocks, on a
    connection with nothing pending, at a daemon that satisfies its invariant
    and whose model gives the logits it is asked for ([server_ready]), then after
    [n * (max_tokens + 2)] ticks over its [n] sessions the request has been
    answered, under that id, with the texts of at most [max_tokens + 1] tokens
    and one final event. If moreover no decode failed (the session streams), the
    texts are free of control characters other than tab, newline and carriage
    return and every event fits its frame ([printable]), then the client on a
    connection that works, receiving exactly the bytes of the session's output
    buffer with every header in one read, however the payloads are split,
    prints the texts of these tokens and a newline, nothing on standard error,
    and exits with code 0. *)
Theorem prompt_to_terminal argv0 args pid time opt sch m f s now_ns b blks ts :
  let o := named opt pid time in
  let piece := piece_of (vocab_ sch) in
  let m1 := (on_readable m f (config_ sch) (Some (vocab_ sch)) now_ns
               {| read_blocks := b :: blks; read_end := ReadAgain |}).2 in
  cli_args args default_options = ArgsOk opt →
  request_ok (config_ sch) (vocab_ sch) o → server_ready sch m f s →
  b ++ concat blks = write_frame [] (request_payload o) →
  Forall (iteration_order (sessions_ m1) ∘ ti_order) ts →
  Z.of_nat (size (sessions_ m1)) * (max_tokens (config_ sch) + 2) ≤ Z.of_nat (length ts) →
  ∃ sch' pool' s' ks fin,
    let events := ((λ k, token_payload (answer_id o) (piece k) k) <$> ks)
                  ++ [event_payload (answer_id o) fin] in
    run_ticks sch (sessions_ m1) ts = Some (sch', pool') ∧ pool' !! f = Some s' ∧
    settled s' ∧ tx s' = encode_frames events ∧
    Z.of_nat (length ks) ≤ max_tokens (config_ sch) + 1 ∧
    (state s' = STREAM → printable (answer_id o) piece ks → ∀ sk c ws anss cl rest,
       0 ≤ a_ret sk → Z.of_nat (length (cli_socket_path opt)) < sun_path_size → a_ret c = 0 →
       accepts (write_frame [] (request_payload o)) ws → Forall2 delivers_frame events anss →
       ∃ l, Sys.run (main argv0 args pid time) (sk :: c :: ws ++ concat anss ++ cl :: rest)
            = Some (0, rest, l) ∧
         stdout l = concat (piece <$> ks) ++ newline ∧ stderr l = [] ∧
         sent (a_ret sk) l = b ++ concat blks ∧ open_fds [] l = []).
Proof.
  intros o piece m1 Ha Hro Hsr Hb Hord Hlen.
  destruct (daemon_answers sch m f s o now_ns b blks ts Hro Hsr Hb Hord Hlen)
    as (sch' & pool' & s' & ks & fin & Hrun & Hs' & Hset & Htx & Hn & Hfin).
  exists sch', pool', s', ks, fin. cbn zeta. split_and!; try done. rewrite Hb.
  intros Hst Hpr sk c ws anss cl rest Hsk Hpath Hc Hw Hd.
  by apply (client_prints_answer (config_ sch) (vocab_ sch) argv0 args pid time opt (answer_id o) ks fin s').
Qed.
End EndToEnd.

(** ** Witnesses *)

#[local] Existing Instance Darwin.

Definition demo_bytes : bytes := write_frame [] (request_payload demo_opt).

Lemma demo_request_ok : request_ok toy_config tt demo_opt.
Proof.
  split; try (vm_compute; (reflexivity || discriminate)). repeat constructor; discriminate.
Qed.

Definition idle_session : ClientSession := new_session <| fd := 5 |> <| ctx := false |> <| last_activity_ns := 1 |>.

Lemma demo_server_ready : server_ready (toy_scheduler 0) fresh_manager 5 idle_session.
Proof.
  split.
  - change (1 ≤ 32 ≤ 2 ^ 30). lia.
  - change (1 ≤ 32 ≤ Z.max 8 32). lia.
  - apply add_client_ok; [vm_compute; split; (discriminate || reflexivity)|]. apply new_manager_ok.
  - exact toy_tokens_fit.
  - reflexivity.
  - apply map_Forall_insert_2; [intros [=]|]. apply map_Forall_empty.
  - apply lookup_insert_eq.
  - by split.
Qed.

Definition demo_read : SessionManager :=
  (on_readable fresh_manager 5 toy_config (Some tt) 3
     {| read_blocks := [take 9 demo_bytes; drop 9 demo_bytes]; read_end := ReadAgain |}).2.

Lemma demo_order : iteration_order (sessions_ demo_read) [5].
Proof.
  assert (Hd : dom (sessions_ demo_read) = ({[5]} : gset Z)) by (vm_compute; reflexivity).
  split; [apply NoDup_singleton|]. intros j. rewrite <- elem_of_dom, Hd. by rewrite elem_of_singleton, list_elem_of_singleton.
Qed.

(** What the toy model answers: its first token until the limit. *)
Definition demo_answer : list bytes :=
  replicate 65 (token_payload (str "req-1") (str "b") 1) ++ [eos_payload (str "req-1") (str "length")].

Definition demo_ticks : list TickInput := replicate 66 {| ti_order := [5]; ti_now := 7; ti_dur := 1000 |}.

Lemma demo_settles :
  (match run_ticks (toy_scheduler 0) (sessions_ demo_read) demo_ticks with
   | Some (_, pool) =>
       match pool !! 5 with
       | Some s => bool_decide (state s = STREAM) && bool_decide (tx s = encode_frames demo_answer)
       | None => false
       end
   | None => false
   end) = true.
Proof. vm_compute. reflexivity. Qed.

Lemma demo_piece k :
  token_payload (str "req-1") (piece_of (vocab_ (toy_scheduler 0)) k) k
  = token_payload (str "req-1") (str "b") 1 → piece_of (vocab_ (toy_scheduler 0)) k = str "b".
Proof.
  assert (Hp : piece_of (vocab_ (toy_scheduler 0)) k = [byte_of_Z (0x61 + k)]) by reflexivity.
  rewrite Hp. generalize (byte_of_Z (0x61 + k)). intros c. unfold token_payload.
  intros H%app_inv_head%app_inv_head%app_inv_head%app_inv_head%app_inv_head.
  revert H. by destruct c.
Qed.

Lemma demo_ids ks (x : bytes) :
  ((λ k, token_payload (str "req-1") (piece_of (vocab_ (toy_scheduler 0)) k) k) <$> ks) ++ [x]
  = demo_answer →
  piece_of (vocab_ (toy_scheduler 0)) <$> ks = replicate 65 (str "b").
Proof.
  intros [E _]%app_inj_tail.
  assert (Hl : length ks = 65%nat) by (apply (f_equal length) in E; by rewrite length_fmap in E).
  rewrite <- Hl. rewrite <- Hl in E. clear Hl. induction ks as [|k ks IH]; [done|].
  cbn [fmap list_fmap length replicate] in E |- *. apply (inj2 cons) in E as [Ek E].
  rewrite (demo_piece k Ek). f_equal. by apply IH.
Qed.

Lemma payloads_not_nil rid (piece : Z → bytes) ks e :
  Forall (λ p, p ≠ []) (((λ k, token_payload rid (piece k) k) <$> ks) ++ [event_payload rid e]).
Proof.
  apply Forall_app. split; [apply Forall_fmap, Forall_true; by intros k|].
  repeat constructor. by destruct e.
Qed.

(** The request ["hi"] typed, answered by the toy model, and printed. *)
Lemma prompt_to_terminal_witness :
  ∃ s' l, tx s' = encode_frames demo_answer ∧ settled s' ∧
    Sys.run (main (str "uma-cli") demo_args 1 2)
      (ok_answer 5 :: ok_answer 0 :: demo_writes ++ concat (demo_frame <$> demo_answer) ++ [ok_answer 0])
    = Some (0, [], l) ∧ stdout l = replicate 65 Init.Byte.x62 ++ newline ∧ sent 5 l = demo_bytes.
Proof.
  destruct (prompt_to_terminal (str "uma-cli") demo_args 1 2 demo_opt (toy_scheduler 0) fresh_manager 5
    idle_session 3 (take 9 demo_bytes) [drop 9 demo_bytes] demo_ticks)
    as (sch' & pool' & s' & ks & fin & Hrun & Hs' & Hset & Htx & _ & Hclient).
  - vm_compute. reflexivity.
  - exact demo_request_ok.
  - exact demo_server_ready.
  - cbn [concat]. rewrite app_nil_r. apply take_drop.
  - apply Forall_replicate. change (iteration_order (sessions_ demo_read) [5]).
    exact demo_order.
  - vm_compute. discriminate.
  - pose proof demo_settles as Hd.
    change (run_ticks (toy_scheduler 0) (sessions_ demo_read) demo_ticks = Some (sch', pool')) in Hrun.
    rewrite Hrun, Hs' in Hd. apply andb_true_iff in Hd as [Hst%bool_decide_eq_true Hd%bool_decide_eq_true].
    change (answer_id (named demo_opt 1 2)) with (str "req-1") in *.
    assert (Hev : ((λ k, token_payload (str "req-1") (piece_of (vocab_ (toy_scheduler 0)) k) k) <$> ks)
                  ++ [event_payload (str "req-1") fin] = demo_answer).
    { apply encode_frames_inj; [apply payloads_not_nil| | |congruence].
      - apply Forall_app. split; [by apply Forall_replicate|by repeat constructor].
      - rewrite <- Htx, Hd. vm_compute. reflexivity. }
    pose proof (demo_ids ks _ Hev) as Hks. rewrite Hev in Hclient.
    destruct (Hclient Hst) with (sk := ok_answer 5) (c := ok_answer 0) (ws := demo_writes)
      (anss := demo_frame <$> demo_answer) (cl := ok_answer 0) (rest := @nil answer)
      as (l & Hr & Ho & _ & Hse & _).
    + split; [|vm_compute; reflexivity]. apply Forall_forall. intros k Hk.
      assert (Hb : piece_of (vocab_ (toy_scheduler 0)) k = str "b").
      { apply (elem_of_replicate 65). rewrite <- Hks. by apply list_elem_of_fmap_2. }
      rewrite Hb. split; [reflexivity|].
      assert (Hin : token_payload (str "req-1") (str "b") k ∈ demo_answer).
      { rewrite <- Hev. apply elem_of_app. left. apply list_elem_of_fmap. exists k.
        rewrite Hb. split; [reflexivity|exact Hk]. }
      apply encode_frames_length in Hin. assert (length (encode_frames demo_answer) = 3820%nat) by (vm_compute; reflexivity).
      lia.
    + vm_compute. discriminate.
    + vm_compute. reflexivity.
    + reflexivity.
    + exact demo_accepts.
    + apply Forall2_fmap_r, Forall_Forall2_diag, Forall_app. split.
      * apply Forall_replicate, demo_delivers. vm_compute. lia.
      * apply Forall_singleton, demo_delivers. vm_compute. lia.
    + exists s', l. split; [exact Hd|]. split; [exact Hset|]. split; [exact Hr|].
      split; [rewrite Ho, Hks; reflexivity|].
      etransitivity; [exact Hse|]. cbn [concat]. rewrite app_nil_r. apply take_drop.
Defined.
