(* ===== verification/DaemonCorrect.v ===== *)
(** * Correctness of the event loop

    The invariant of the whole daemon across events, idle clean-up and ticks:
    valid sessions, open descriptors, the session limit, and no stalled output
    (a session with bytes to send is registered for write notifications). *)
From stdpp Require Import prelude gmap list strings.
From S2P Require Import Prelude Floating Protocol Json Cli Session Config Poller Llama Metrics SessionManager Policy Bmt Sampling Scheduler Daemon SchedulerFacts ToyLlama SchedulerCorrect SessionManagerCorrect.
Import Protocol.
Local Open Scope Z_scope.

Section Invariant.
Context `{Llama, KernelLaws, IBatchPolicy, !BatchPolicyLaws, ISampler, Conversions, LongDouble}.

(** ** The invariant *)

(** The descriptors that were open before the loop started. *)
Context (base : Z → Prop).

(** Everything, but write arming may be missing for the descriptors in [e]: the
    one whose event is being handled, and those for which a decode has failed. *)
Record daemon_ok_but (e : gset Z) (d : Daemon) : Prop := {
  do_manager : manager_ok (d_cfg d) (d_manager d);
  do_cap : 1 ≤ batch_cap_ (d_sched d) ≤ 2 ^ 30;
  do_target : target_ok (batch_cap_ (d_sched d)) (target_batch_ (d_sched d));
  do_fit : tokens_fit (d_cfg d) (Some (vocab_ (d_sched d)));
  do_open : ∀ f, is_Some (d_pool d !! f) → is_open (d_kq d) f;
  do_size : Z.of_nat (size (d_pool d)) ≤ Z.max 0 (max_sessions (d_cfg d));
  do_armed : ∀ f s, d_pool d !! f = Some s → f ∉ e → tx s ≠ [] →
    armed (d_kq d) f EVFILT_WRITE = true;
  do_owned : ∀ f, is_open (d_kq d) f → base f ∨ is_Some (d_pool d !! f);
}.

(** What the environment answers at an event: an accepted descriptor was not
    open before, a sequence of writes ends by blocking or failing (if the
    output is not drained before), and there are sequence ids left. *)
Record event_ok (d : Daemon) (a : Answers) : Prop := {
  eo_accept : ∀ c, an_accept a = Some c → ¬ is_open (d_kq d) c;
  eo_writes : Exists (λ w, ∀ n, w.1 ≠ Wrote n) (an_writes a);
  eo_ids : next_seq_id_ (d_manager d) < INT_MAX;
}.

Lemma ok_but_weaken e e' d : e ⊆ e' → daemon_ok_but e d → daemon_ok_but e' d.
Proof. intros He [D1 D2 D3 D4 D5 D6 D7 D8]. split; try done. intros f s Hs Hf. apply (D7 f s Hs). set_solver. Qed.

Lemma ok_but_settle f e d :
  daemon_ok_but ({[f]} ∪ e) d →
  (∀ s, d_pool d !! f = Some s → f ∉ e → tx s ≠ [] → armed (d_kq d) f EVFILT_WRITE = true) →
  daemon_ok_but e d.
Proof.
  intros [D1 D2 D3 D4 D5 D6 D7 D8] Hf. split; try done. intros k s Hs He Ht.
  destruct (decide (k = f)) as [->|Hne]; [by apply (Hf s)|]. apply (D7 k s); [done|set_solver|done].
Qed.

(** ** Registrations *)

Lemma disarm_read_ok e d f : daemon_ok_but e d → daemon_ok_but e (disarm d f PollFlags.Read).
Proof.
  intros [D1 D2 D3 D4 D5 D6 D7 D8]. unfold disarm.
  pose proof (remove_read_spec (d_kq d) f) as Hk.
  destruct (poller_remove (d_kq d) f PollFlags.Read) as [q ok]. destruct Hk as (_ & Ho & Ha).
  split; try done; cbn.
  - intros k Hs. rewrite Ho. by apply D5.
  - intros k s Hs He Ht. rewrite Ha, (D7 k s Hs He Ht).
    rewrite bool_decide_eq_false_2 by (by intros []). done.
  - intros k. rewrite Ho. apply D8.
Qed.

Lemma disarm_write_ok e d f s :
  daemon_ok_but e d → d_pool d !! f = Some s → tx s = [] →
  daemon_ok_but e (disarm d f PollFlags.Write).
Proof.
  intros [D1 D2 D3 D4 D5 D6 D7 D8] Hs Ht. unfold disarm.
  pose proof (remove_write_spec (d_kq d) f) as Hk.
  destruct (poller_remove (d_kq d) f PollFlags.Write) as [q ok]. destruct Hk as (_ & Ho & Ha).
  split; try done; cbn.
  - intros k Hk. rewrite Ho. by apply D5.
  - intros k s' Hs' He Ht'. rewrite Ha, (D7 k s' Hs' He Ht').
    rewrite bool_decide_eq_false_2; [done|]. intros [-> _].
    change (d_pool d !! f = Some s') in Hs'. congruence.
  - intros k. rewrite Ho. apply D8.
Qed.

Lemma arm_read_ok e d f :
  daemon_ok_but e d → is_open (d_kq d) f → daemon_ok_but e (arm d f PollFlags.Read).
Proof.
  intros [D1 D2 D3 D4 D5 D6 D7 D8] Hopen. unfold arm.
  pose proof (add_read_spec (d_kq d) f Hopen) as Hk.
  destruct (poller_add (d_kq d) f PollFlags.Read) as [q ok]. destruct Hk as (_ & Ho & Ha).
  split; try done; cbn.
  - intros k Hs. rewrite Ho. by apply D5.
  - intros k s Hs He Ht. rewrite Ha, (D7 k s Hs He Ht). apply orb_true_r.
  - intros k. rewrite Ho. apply D8.
Qed.

(** Registering for writing settles a descriptor. *)
Lemma arm_write_ok e d f :
  daemon_ok_but e d → is_open (d_kq d) f →
  daemon_ok_but (e ∖ {[f]}) (arm d f PollFlags.Write).
Proof.
  intros [D1 D2 D3 D4 D5 D6 D7 D8] Hopen. unfold arm.
  pose proof (add_write_spec (d_kq d) f Hopen) as Hk.
  destruct (poller_add (d_kq d) f PollFlags.Write) as [q ok]. destruct Hk as (_ & Ho & Ha).
  split; try done; cbn.
  - intros k Hs. rewrite Ho. by apply D5.
  - intros k s Hs He Ht. rewrite Ha. destruct (decide (k = f)) as [->|Hne].
    + by rewrite bool_decide_eq_true_2.
    + rewrite (D7 k s Hs); [apply orb_true_r|set_solver|done].
  - intros k. rewrite Ho. apply D8.
Qed.

(** ** Sessions *)

Lemma manager_put_ok cfg m f s s' :
  manager_ok cfg m → sessions_ m !! f = Some s → session_ok cfg s' → fd s' = fd s → seq s' = seq s →
  manager_ok cfg (m <| sessions_ := <[f := s']> (sessions_ m) |>).
Proof.
  intros [Hp Hq Hn] Hs Hok Hf Hseq. split; cbn; [|by eapply seqs_ok_insert|done].
  apply pool_ok_insert; [done|done|]. rewrite Hf. by eapply pool_ok_lookup.
Qed.

Lemma put_ok e d f s s' :
  daemon_ok_but ({[f]} ∪ e) d → d_pool d !! f = Some s → session_ok (d_cfg d) s' → fd s' = fd s →
  seq s' = seq s → daemon_ok_but ({[f]} ∪ e) (put d f s').
Proof.
  intros [D1 D2 D3 D4 D5 D6 D7 D8] Hs Hok Hf Hseq.
  assert (Hdom : ∀ k, is_Some (<[f := s']> (d_pool d) !! k) → is_Some (d_pool d !! k)).
  { intros k. destruct (decide (k = f)) as [->|Hne]; [by rewrite Hs|by rewrite lookup_insert_ne]. }
  split; try done; cbn.
  - by eapply manager_put_ok.
  - intros k Hk. apply D5, Hdom, Hk.
  - unfold d_pool at 1. cbn. rewrite map_size_insert_Some by (by eexists). done.
  - intros k s1 Hk He Ht. unfold d_pool in Hk. cbn in Hk.
    rewrite lookup_insert_ne in Hk by set_solver. by apply (D7 k s1).
  - intros k Hk. destruct (D8 k Hk) as [?|Hx]; [by left|right]. unfold d_pool. cbn.
    destruct (decide (k = f)) as [->|Hne]; [rewrite lookup_insert_eq; by eexists|].
    by rewrite lookup_insert_ne.
Qed.

Lemma put_lookup d f s : d_pool (put d f s) !! f = Some s.
Proof. unfold d_pool. cbn. apply lookup_insert_eq. Qed.

Lemma close_client_pool d f : d_pool (close_client d f) = delete f (d_pool d).
Proof.
  unfold close_client. pose proof (close_sessions (d_manager d) f (d_kq d) (Some (ctx_ (d_sched d)))) as Hc.
  destruct (close _ _ _ _) as [[m q] c]. apply Hc.
Qed.

Lemma close_client_ok e d f :
  daemon_ok_but e d → daemon_ok_but (e ∖ {[f]}) (close_client d f).
Proof.
  intros [D1 D2 D3 D4 D5 D6 D7 D8]. unfold close_client.
  pose proof (close_ok (d_cfg d) (d_manager d) f (d_kq d) (Some (ctx_ (d_sched d))) D1) as Hm.
  pose proof (close_sessions (d_manager d) f (d_kq d) (Some (ctx_ (d_sched d)))) as Hc.
  destruct (close _ _ _ _) as [[m q] c]. destruct Hc as (Hs & _ & -> & _).
  destruct (remove_close_spec (d_kq d) f) as [Ho Ha]. cbn [fst] in Hm.
  split; try done; unfold d_pool; cbn; rewrite ?Hs.
  - intros k [s Hk]. apply lookup_delete_Some in Hk as [Hne Hk]. rewrite Ho.
    split; [done|]. apply D5. by eexists.
  - pose proof (map_subseteq_size _ _ (delete_subseteq (sessions_ (d_manager d)) f)).
    unfold d_pool in D6.
    change (Z.of_nat (size (delete f (sessions_ (d_manager d))))
            ≤ Z.max 0 (max_sessions (d_cfg d))). lia.
  - intros k s Hk He Ht. apply lookup_delete_Some in Hk as [Hne Hk]. rewrite Ha.
    rewrite bool_decide_eq_false_2 by done. cbn. apply (D7 k s Hk); [set_solver|done].
  - intros k [Hne Hk]%Ho. destruct (D8 k Hk) as [?|Hx]; [by left|right].
    rewrite lookup_delete_ne by done. exact Hx.
Qed.

Lemma close_client_keeps e d f : daemon_ok_but e d → daemon_ok_but e (close_client d f).
Proof.
  intros Hok. apply (ok_but_weaken (e ∖ {[f]})); [set_solver|]. by apply close_client_ok.
Qed.

Lemma reset_session_ok cfg s : session_ok cfg s → session_ok cfg (reset_session s).
Proof.
  intros [Hi Hro Hg Hf Hp Hpf Hd]. split; cbn; unfold INT_MAX in *; first [lia|done|by intros []].
Qed.

Lemma all_written_ok e d f s rearm :
  daemon_ok_but ({[f]} ∪ e) d → d_pool d !! f = Some s → tx s = [] →
  daemon_ok_but e (all_written d f s rearm).
Proof.
  intros Hok Hs Ht.
  assert (Hok0 : daemon_ok_but e d).
  { apply (ok_but_settle f); [done|]. intros s' Hs' _ Ht'. congruence. }
  assert (Hclose : daemon_ok_but e (close_client d f)) by (by apply close_client_keeps).
  unfold all_written. destruct (decide (state s = ERRORED)); [done|].
  destruct (decide (state s = STREAM)); [|done]. destruct (read_closed s); [done|].
  assert (Hput : daemon_ok_but e (put d f (reset_session s))).
  { apply (ok_but_settle f).
    - eapply put_ok; [done|done| |done|done]. apply reset_session_ok.
      by eapply pool_ok_lookup, Hs; apply Hok.
    - intros s' Hs' _ Ht'. rewrite put_lookup in Hs'. injection Hs' as <-. done. }
  destruct rearm; [|done]. apply arm_read_ok; [done|]. apply Hok. by eexists.
Qed.

(** ** Handlers *)

Lemma on_accept_ok e d cfd now_ns :
  daemon_ok_but e d → (∀ c, cfd = Some c → ¬ is_open (d_kq d) c) →
  daemon_ok_but e (on_accept d cfd now_ns).
Proof.
  intros [D1 D2 D3 D4 D5 D6 D7 D8] Hnew. destruct cfd as [c|]; [|by split]. cbn.
  specialize (Hnew c eq_refl).
  assert (Hfresh : d_pool d !! c = None).
  { destruct (d_pool d !! c) eqn:E; [|done]. exfalso. apply Hnew, D5. by eexists. }
  destruct (opened_fresh (d_kq d) c) as [Ho Ha].
  change (d_cfg (d <| d_kq := kq_opened (d_kq d) c |>)) with (d_cfg d).
  change (d_pool (d <| d_kq := kq_opened (d_kq d) c |>)) with (d_pool d).
  destruct (Z.leb_spec (max_sessions (d_cfg d)) (Z.of_nat (size (d_pool d)))) as [Hfull|Hroom].
  - destruct (close_drops (kq_opened (d_kq d) c) c) as [Hc Hd]. split; try done; cbn.
    + intros k Hk. rewrite Hc, Ho. split; [|right; by apply D5]. intros ->.
      destruct Hk as [x Hk]. change (d_pool d !! c = Some x) in Hk. congruence.
    + intros k s Hk He Ht. assert (k ≠ c) by (intros ->; change (d_pool d !! c = Some s) in Hk; congruence).
      rewrite Hd, Ha, bool_decide_eq_false_2 by done. cbn. by apply (D7 k s).
    + intros k [Hne [?|Hk]%Ho]%Hc; [done|]. by apply D8.
  - apply arm_read_ok; [|cbn; rewrite Ho; by left]. split; try done; cbn.
    + apply add_client_ok; [apply D4|done].
    + intros k [s Hk]. unfold d_pool in Hk. cbn in Hk. rewrite Ho.
      apply lookup_insert_Some in Hk as [[-> _]|[_ Hk]]; [by left|right]. apply D5. by eexists.
    + change (Z.of_nat (size (<[c := new_session <| fd := c |> <| ctx := false |>
        <| last_activity_ns := now_ns |>]> (d_pool d))) ≤ Z.max 0 (max_sessions (d_cfg d))).
      rewrite map_size_insert_None by done. lia.
    + intros k s Hk He Ht. unfold d_pool in Hk. cbn in Hk.
      apply lookup_insert_Some in Hk as [[-> <-]|[Hne Hk]]; [done|].
      rewrite Ha, bool_decide_eq_false_2 by done. cbn. by apply (D7 k s).
    + intros k Hk%Ho. unfold d_pool. cbn. destruct (decide (k = c)) as [->|Hne].
      * right. rewrite lookup_insert_eq. by eexists.
      * rewrite lookup_insert_ne by done. apply D8. by destruct Hk.
Qed.

Lemma write_now_frame s w :
  let s' := write_now s w in
  fd s' = fd s ∧ seq s' = seq s ∧ state s' = state s ∧ prompt_tokens s' = prompt_tokens s ∧
  prefill_idx s' = prefill_idx s ∧ n_past s' = n_past s ∧
  generated_count s' = generated_count s ∧ first_emit_ns s' = first_emit_ns s.
Proof.
  unfold write_now. destruct (bool_decide (tx s = [])); [done|].
  destruct w as [n| |]; [destruct (0 <? n)|..]; done.
Qed.

Lemma flush_answer_ok e d f s w :
  daemon_ok_but ({[f]} ∪ e) d → d_pool d !! f = Some s → daemon_ok_but e (flush_answer d f s w).
Proof.
  intros Hok Hs. unfold flush_answer.
  pose proof (write_now_frame s w) as (Hf & Hq & E1 & E2 & E3 & E4 & E5 & E6).
  set (s1 := write_now s w) in *. clearbody s1.
  assert (Hput : daemon_ok_but ({[f]} ∪ e) (put d f s1)).
  { eapply put_ok; [done|done| |done|done]. eapply session_ok_same; [|done..].
    by eapply pool_ok_lookup, Hs; apply Hok. }
  destruct (bool_decide_reflect (tx s1 = [])) as [Ht|Ht].
  - apply all_written_ok; [done|apply put_lookup|done].
  - assert (Hopen : is_open (d_kq (put d f s1)) f) by (apply Hok; by eexists).
    eapply ok_but_weaken, arm_write_ok; [|exact Hput|exact Hopen]. set_solver.
Qed.

(** A read that neither answers nor asks for metrics leaves the output alone. *)
Lemma read_step_quiet cfg vocab now_ns next s rr s' next' :
  read_step cfg vocab now_ns next s rr s' next' →
  wants_write rr = false → admin_request rr = false → tx s' = tx s.
Proof.
  intros Hst Hw Ha. destruct Hst as [rr s' ? Ht|rr s' ? ? ? ? ? ? ? ? ? Hw'|rr s' ? Ht|rr s0 s' text next' ? ? Ht ? ? E];
    try done; [congruence|].
  apply start_request_spec in E as (_ & Ht' & _). congruence.
Qed.

Lemma answer_metrics_ok e dbg d f s :
  daemon_ok_but ({[f]} ∪ e) d → d_pool d !! f = Some s →
  daemon_ok_but ({[f]} ∪ e) (answer_metrics dbg d f s).
Proof.
  intros Hok Hs. unfold answer_metrics. apply disarm_read_ok.
  eapply put_ok; [done|done| |done|done].
  assert (Hso : session_ok (d_cfg d) s) by (by eapply pool_ok_lookup, Hs; apply Hok).
  by apply (session_ok_inactive (d_cfg d) s).
Qed.

Lemma on_read_event_ok e dbg d f now_ns input w :
  daemon_ok_but e d → next_seq_id_ (d_manager d) < INT_MAX →
  daemon_ok_but e (on_read_event dbg d f now_ns input w).
Proof.
  intros Hok Hids. unfold on_read_event.
  pose proof (on_readable_ok (d_cfg d) (Some (vocab_ (d_sched d))) (d_manager d) f now_ns input
    (do_fit _ _ Hok) (do_manager _ _ Hok) Hids) as Hm.
  destruct (sessions_ (d_manager d) !! f) as [s|] eqn:Hs.
  2: { rewrite on_readable_missing by done. unfold find. rewrite Hs. by destruct Hok; split. }
  pose proof (on_readable_step (d_manager d) f (d_cfg d) (Some (vocab_ (d_sched d))) now_ns input
    s Hs) as Hst.
  destruct (on_readable (d_manager d) f (d_cfg d) (Some (vocab_ (d_sched d))) now_ns input)
    as [rr m]. destruct Hm as (Hm & _ & Hother). destruct Hst as (s' & Em & Hst).
  assert (Hs' : sessions_ m !! f = Some s') by (rewrite Em; apply lookup_insert_eq).
  unfold find. rewrite Hs'.
  set (d1 := d <| d_manager := m |>).
  assert (Hd1 : daemon_ok_but ({[f]} ∪ e) d1).
  { destruct Hok as [D1 D2 D3 D4 D5 D6 D7 D8]. split; try done; unfold d_pool; cbn; rewrite ?Em.
    - intros k Hk. apply D5. destruct (decide (k = f)) as [->|Hne]; [by eexists|].
      by rewrite lookup_insert_ne in Hk.
    - change (Z.of_nat (size (<[f := s']> (sessions_ (d_manager d))))
              ≤ Z.max 0 (max_sessions (d_cfg d))).
      rewrite map_size_insert_Some by (by eexists). exact D6.
    - intros k x Hk He Ht. rewrite lookup_insert_ne in Hk by set_solver. apply (D7 k x); [done|set_solver|done].
    - intros k Hk. destruct (D8 k Hk) as [?|Hx]; [by left|right].
      destruct (decide (k = f)) as [->|Hne]; [rewrite lookup_insert_eq; by eexists|].
      by rewrite lookup_insert_ne. }
  assert (Hp1 : d_pool d1 !! f = Some s') by exact Hs'.
  assert (Hkq : d_kq d1 = d_kq d) by reflexivity. clearbody d1.
  assert (Hquiet : wants_write rr = false → admin_request rr = false → daemon_ok_but e d1).
  { intros Hw Ha. apply (ok_but_settle f); [done|]. intros x Hx He Hx'. rewrite Hkq.
    apply (do_armed _ _ Hok f s Hs); [done|].
    rewrite <- (read_step_quiet _ _ _ _ _ _ _ _ Hst Hw Ha). congruence. }
  set (d2 := if admin_request rr then answer_metrics dbg d1 f s' else d1).
  assert (Hd2 : daemon_ok_but ({[f]} ∪ e) d2 ∧ is_Some (d_pool d2 !! f)).
  { unfold d2. destruct (admin_request rr); [|split; [done|by eexists]].
    split; [by apply answer_metrics_ok|]. eexists. apply put_lookup. }
  set (d3 := if removed_read rr then disarm d2 f PollFlags.Read else d2).
  assert (Hd3 : daemon_ok_but ({[f]} ∪ e) d3 ∧ is_Some (d_pool d3 !! f)).
  { unfold d3. destruct Hd2 as [Hd2 Hx]. destruct (removed_read rr); [|done].
    split; [by apply disarm_read_ok|done]. }
  destruct (wants_write rr || admin_request rr) eqn:Ew.
  - destruct Hd3 as [Hd3 [s3 Hs3]]. unfold d_pool in Hs3. rewrite Hs3. by apply flush_answer_ok.
  - apply orb_false_iff in Ew as [Ew Ea]. unfold d3, d2. rewrite Ea.
    destruct (removed_read rr); [apply disarm_read_ok|]; by apply Hquiet.
Qed.

(** *** Writing *)

Lemma write_loop_spec ws s :
  Exists (λ w, ∀ n, w.1 ≠ Wrote n) ws →
  ∃ r s', write_loop s ws = Some r ∧
    (r = Drained s' ∧ tx s' = [] ∨ (r = Blocked s' ∨ r = Broken s') ∧ tx s ≠ []) ∧
    fd s' = fd s ∧ seq s' = seq s ∧ state s' = state s ∧ prompt_tokens s' = prompt_tokens s ∧
    prefill_idx s' = prefill_idx s ∧ n_past s' = n_past s ∧
    generated_count s' = generated_count s ∧ first_emit_ns s' = first_emit_ns s.
Proof.
  intros Hex. revert s. induction Hex as [w ws Hw|w ws Hex IH]; intros s; cbn [write_loop];
    (destruct (bool_decide_reflect (tx s = [])) as [Ht|Ht];
       [exists (Drained s), s; split_and!; try done; by left|]).
  - destruct w as [[n| |] t]; [by destruct (Hw n)|exists (Blocked s), s|exists (Broken s), s];
      split_and!; try done; right; auto.
  - destruct w as [[n| |] t]; [|exists (Blocked s), s|exists (Broken s), s];
      [|split_and!; try done; right; auto..].
    destruct (IH (s <| tx := drop (Z.to_nat n) (tx s) |> <| last_activity_ns := t |>))
      as (r & s' & Hr & Hcase & Hrest).
    exists r, s'. split; [done|]. split; [|exact Hrest].
    destruct Hcase as [?|[? _]]; [by left|by right].
Qed.

Lemma on_write_event_ok e d f ws :
  daemon_ok_but e d → Exists (λ w, ∀ n, w.1 ≠ Wrote n) ws →
  ∃ d', on_write_event d f ws = Some d' ∧ daemon_ok_but e d'.
Proof.
  intros Hok Hex. unfold on_write_event, find.
  destruct (sessions_ (d_manager d) !! f) as [s|] eqn:Hs; [|by exists d].
  destruct (write_loop_spec ws s Hex) as (r & s' & -> & Hcase & Hf & Hq & E1 & E2 & E3 & E4 & E5 & E6).
  assert (Hput : daemon_ok_but ({[f]} ∪ e) (put d f s')).
  { eapply put_ok; [eapply ok_but_weaken, Hok; set_solver|exact Hs| |done|done]. eapply session_ok_same; [|done..].
    by eapply pool_ok_lookup, Hs; apply Hok. }
  cbn [mbind option_bind]. eexists. split; [reflexivity|].
  destruct Hcase as [[-> Ht]|[[-> | ->] Ht]].
  - apply all_written_ok; [|apply put_lookup|done].
    eapply disarm_write_ok; [done|apply put_lookup|done].
  - apply (ok_but_settle f); [done|]. intros _ _ He _. by apply (do_armed _ _ Hok f s).
  - eapply ok_but_weaken, close_client_ok, Hput. set_solver.
Qed.

Lemma on_event_ok e dbg sfd d ev a :
  daemon_ok_but e d → event_ok d a → ∃ d', on_event dbg sfd d ev a = Some d' ∧ daemon_ok_but e d'.
Proof.
  intros Hok [Ha Hw Hi]. unfold on_event.
  destruct (bool_decide (ev_fd ev = sfd) && readable ev); [eexists; split; [done|by apply on_accept_ok]|].
  destruct (readable ev); [eexists; split; [done|by apply on_read_event_ok]|].
  destruct (writable ev); [by apply on_write_event_ok|by exists d].
Qed.

(** *** Idle clean-up *)

Lemma close_clients_ok e fs d : daemon_ok_but e d → daemon_ok_but e (foldl close_client d fs).
Proof.
  revert d. induction fs as [|f fs IH]; intros d Hok; [done|]. by apply IH, close_client_keeps.
Qed.

(** *** The tick *)

Lemma d_pool_sched d sch pool :
  d_pool (d <| d_sched := sch |> <| d_manager := (d_manager d) <| sessions_ := pool |> |>) = pool.
Proof. reflexivity. Qed.

(** Arming keeps the sessions and every registration, and settles the
    descriptors it is given. *)
Lemma arm_outputs_spec fds : ∀ d,
  (∀ f, is_Some (d_pool d !! f) → is_open (d_kq d) f) →
  let d' := foldl arm_output d fds in
  d_manager d' = d_manager d ∧ d_sched d' = d_sched d ∧
  (∀ k, is_open (d_kq d') k ↔ is_open (d_kq d) k) ∧
  (∀ k g, armed (d_kq d) k g = true → armed (d_kq d') k g = true) ∧
  (∀ k s, k ∈ fds → d_pool d !! k = Some s → tx s ≠ [] → armed (d_kq d') k EVFILT_WRITE = true).
Proof.
  induction fds as [|f fds IH]; intros d Hopen; cbn [foldl].
  { split_and!; try done. by intros k s ?%elem_of_nil. }
  set (d1 := arm_output d f).
  assert (Hd1 : d_manager d1 = d_manager d ∧ d_sched d1 = d_sched d ∧
    (∀ k, is_open (d_kq d1) k ↔ is_open (d_kq d) k) ∧
    (∀ k g, armed (d_kq d) k g = true → armed (d_kq d1) k g = true) ∧
    (∀ s, d_pool d !! f = Some s → tx s ≠ [] → armed (d_kq d1) f EVFILT_WRITE = true)).
  { unfold d1, arm_output, find. fold (d_pool d). destruct (d_pool d !! f) as [s|] eqn:Hs;
      [|by split_and!].
    destruct (bool_decide_reflect (tx s = [])) as [Ht|Ht]; [by split_and!; try done; congruence|].
    pose proof (add_write_spec (d_kq d) f (Hopen f ltac:(by eexists))) as Hk. unfold arm.
    destruct (poller_add (d_kq d) f PollFlags.Write) as [q ok]. destruct Hk as (_ & Ho & Ha).
    split_and!; try done; cbn.
    - intros k g Hk. rewrite Ha, Hk. apply orb_true_r.
    - intros s' _ _. rewrite Ha. by rewrite bool_decide_eq_true_2. }
  clearbody d1. destruct Hd1 as (Hm & Hsch & Ho & Ha & Hf).
  assert (Hpool : d_pool d1 = d_pool d) by (unfold d_pool; by rewrite Hm).
  destruct (IH d1) as (IHm & IHs & IHo & IHa & IHf).
  { intros k. rewrite Hpool, Ho. apply Hopen. }
  split_and!.
  - by rewrite IHm.
  - by rewrite IHs.
  - intros k. by rewrite IHo.
  - intros k g Hk. by apply IHa, Ha.
  - intros k s [->|Hk]%elem_of_cons Hs Ht; [by apply IHa, (Hf s)|].
    rewrite <- Hpool in Hs. by apply (IHf k s).
Qed.

Lemma tick_step_seq cfg vocab now_ns s s' : tick_step cfg vocab now_ns s s' → seq s' = seq s.
Proof.
  destruct 1 as [|it|it r s' ? ? ? ? ? Hs|it]; [done| | |].
  - apply enacted_frame.
  - destruct (sample_step_frame _ _ _ _ _ _ Hs) as [(_ & -> & _) _]. apply enacted_frame.
  - apply enacted_frame.
Qed.

Lemma step_pool_seqs cfg vocab now_ns pool pool' next :
  step_pool cfg vocab now_ns pool pool' → seqs_ok pool next → seqs_ok pool' next.
Proof.
  intros Hst [Hr Hu].
  assert (Hback : ∀ k s', pool' !! k = Some s' → ∃ s, pool !! k = Some s ∧ seq s' = seq s).
  { intros k s' Hs'. specialize (Hst k). rewrite Hs' in Hst.
    destruct (pool !! k) as [s|]; [|done]. exists s. split; [done|]. by eapply tick_step_seq. }
  split.
  - intros k s' Hs'. destruct (Hback k s' Hs') as (s & Hs & ->). exact (Hr k s Hs).
  - intros k1 k2 s1 s2 E1 E2 Hnn Heq.
    destruct (Hback _ _ E1) as (t1 & T1 & Q1), (Hback _ _ E2) as (t2 & T2 & Q2).
    apply (Hu k1 k2 t1 t2); [done|done|lia|lia].
Qed.

Lemma step_pool_size cfg vocab now_ns pool pool' :
  step_pool cfg vocab now_ns pool pool' → size pool' = size pool.
Proof.
  intros Hst. rewrite <- !size_dom. f_equal. apply set_eq. intros k.
  rewrite !elem_of_dom. symmetry. by eapply step_pool_dom.
Qed.

(** The descriptors of the sessions in a batch whose decode fails. *)
Definition failed_fds (d : Daemon) (order : list Z) : gset Z :=
  if decide (tick_rc (d_sched d) (d_pool d) order = 0) then ∅
  else list_to_set (item_fd <$> filter (λ it, 1 ≤ n_tokens it) (tick_items (d_sched d) (d_pool d) order)).

Lemma tick_and_arm_ok e d order now_ns dur_ns :
  daemon_ok_but e d → iteration_order (d_pool d) order →
  ∃ d', tick_and_arm d order now_ns dur_ns = Some d' ∧ daemon_ok_but (e ∪ failed_fds d order) d'.
Proof.
  intros [D1 D2 D3 D4 D5 D6 D7 D8] Hord.
  assert (Hso : sched_ok (d_sched d) (d_pool d)) by (split; [done|done|apply D1]).
  destruct (tick_sched_ok (d_sched d) (d_pool d) order now_ns dur_ns Hso Hord)
    as (sch & pool & fds & Ht & [S1 S2 S3] & Hr).
  pose proof (tr_step _ _ _ _ _ _ _ Hr) as Hst.
  unfold tick_and_arm. rewrite Ht. cbn [mbind option_bind]. eexists. split; [reflexivity|].
  set (d0 := d <| d_sched := sch |> <| d_manager := (d_manager d) <| sessions_ := pool |> |>).
  assert (Hdom : ∀ k, is_Some (pool !! k) → is_Some (d_pool d !! k))
    by (intros k; by rewrite (step_pool_dom _ _ _ _ _ k Hst)).
  destruct (arm_outputs_spec fds d0) as (Am & As & Ao & Aa & Af).
  { intros k Hk. apply D5, Hdom, Hk. }
  set (d' := foldl arm_output d0 fds) in *. clearbody d'.
  assert (Hcfg : d_cfg d' = d_cfg d) by (unfold d_cfg; rewrite As; exact (tr_config _ _ _ _ _ _ _ Hr)).
  assert (Hpool : d_pool d' = pool) by (unfold d_pool; by rewrite Am).
  split; rewrite ?Hcfg, ?Hpool, ?As; try done.
  - rewrite Am. split; cbn; [by eapply step_pool_ok, D1| |apply D1].
    eapply step_pool_seqs, D1. exact Hst.
  - cbn. rewrite (tr_vocab _ _ _ _ _ _ _ Hr). exact D4.
  - intros k Hk. rewrite Ao. apply D5, Hdom, Hk.
  - rewrite (step_pool_size _ _ _ _ _ Hst). exact D6.
  - intros k s' Hs' [Hke Hkf]%not_elem_of_union Htx.
    destruct (Hdom k ltac:(by eexists)) as [s Hs].
    destruct (decide (tx s = [])) as [Hnil|Hnil]; [|apply Aa; by apply (D7 k s)].
    apply (Af k s'); [|done|done]. unfold failed_fds in Hkf. case_decide as Hrc.
    + by apply (tr_arm _ _ _ _ _ _ _ Hr Hrc k s s').
    + exfalso. destruct (tr_quiet _ _ _ _ _ _ _ Hr k s s') as (it & Hit & <- & Hn); [done|done|congruence|].
      apply Hkf, elem_of_list_to_set, list_elem_of_fmap. exists it. split; [done|].
      by apply list_elem_of_filter.
  - intros k Hk%Ao. destruct (D8 k Hk) as [?|Hx]; [by left|right].
    by apply (step_pool_dom _ _ _ _ _ k Hst).
Qed.

(** ** Whole runs *)

(** The environment of a sequence of events, and of an iteration: every event
    is answered sensibly, and the loops over the session map visit every session
    once. *)
Fixpoint events_ok (dbg : bool) (sfd : Z) (d : Daemon) (es : list (PollEvent * Answers)) : Prop :=
  match es with
  | [] => True
  | (ev, a) :: es' =>
      event_ok d a ∧ ∀ d', on_event dbg sfd d ev a = Some d' → events_ok dbg sfd d' es'
  end.

(** The state in which an iteration calls the scheduler. *)
Definition at_tick (d : Daemon) (i : LoopInput) : option Daemon :=
  d1 ← on_events (li_dbg i) (li_server_fd i) d (li_events i);
  Some (close_idle d1 (li_close_order i) (li_now i)).

Definition input_ok (d : Daemon) (i : LoopInput) : Prop :=
  events_ok (li_dbg i) (li_server_fd i) d (li_events i) ∧
  ∀ d2, at_tick d i = Some d2 → iteration_order (d_pool d2) (li_tick_order i).

(** The descriptors for which the decode of an iteration fails. *)
Definition failures (d : Daemon) (i : LoopInput) : gset Z :=
  match at_tick d i with Some d2 => failed_fds d2 (li_tick_order i) | None => ∅ end.

Lemma on_events_ok e dbg sfd es : ∀ d,
  daemon_ok_but e d → events_ok dbg sfd d es →
  ∃ d', on_events dbg sfd d es = Some d' ∧ daemon_ok_but e d'.
Proof.
  induction es as [|[ev a] es IH]; intros d Hok Hes; [by exists d|].
  destruct Hes as [Hev Hes]. destruct (on_event_ok e dbg sfd d ev a Hok Hev) as (d1 & Hd1 & Hok1).
  cbn. rewrite Hd1. cbn. apply IH; [done|]. by apply Hes.
Qed.

Lemma iteration_ok e d i :
  daemon_ok_but e d → input_ok d i →
  ∃ d', iteration d i = Some d' ∧ daemon_ok_but (e ∪ failures d i) d'.
Proof.
  intros Hok [Hev Htick]. unfold iteration, failures, at_tick in *.
  destruct (on_events_ok e _ _ _ d Hok Hev) as (d1 & Hd1 & Hok1). rewrite Hd1 in Htick |- *.
  cbn [mbind option_bind] in Htick |- *. apply tick_and_arm_ok; [by apply close_clients_ok|].
  by apply Htick.
Qed.

(** A run of the main loop, with the descriptors for which a decode failed. *)
Inductive run : Daemon → list LoopInput → gset Z → Daemon → Prop :=
| run_stop d : run d [] ∅ d
| run_step d i ins d1 d2 fs :
    input_ok d i → iteration d i = Some d1 → run d1 ins fs d2 → run d (i :: ins) (failures d i ∪ fs) d2.

Lemma run_ok d ins fs d' : run d ins fs d' → ∀ e, daemon_ok_but e d → daemon_ok_but (e ∪ fs) d'.
Proof.
  induction 1 as [|d i ins d1 d2 fs Hin Hit _ IH]; intros e Hok; [by rewrite (right_id_L ∅ (∪))|].
  destruct (iteration_ok e d i Hok Hin) as (d1' & Hit' & Hok'). simplify_eq.
  rewrite (assoc_L (∪)). by apply IH.
Qed.
End Invariant.

(** Between events no registration is missing. *)
Abbreviation daemon_ok base := (daemon_ok_but base ∅).

(** ** Idle clean-up and the readiness test *)

Section Idle.
Context `{Llama, KernelLaws, IBatchPolicy, ISampler, Conversions, LongDouble}.

Lemma close_clients_pool fs d k :
  d_pool (foldl close_client d fs) !! k = if bool_decide (k ∈ fs) then None else d_pool d !! k.
Proof.
  revert d. induction fs as [|f fs IH]; intros d; cbn [foldl].
  { by rewrite bool_decide_eq_false_2 by apply not_elem_of_nil. }
  rewrite IH, close_client_pool. destruct (decide (k = f)) as [->|Hne].
  - rewrite lookup_delete_eq, (bool_decide_eq_true_2 (f ∈ f :: fs)) by left. by case_bool_decide.
  - rewrite lookup_delete_ne by done. rewrite (bool_decide_ext (k ∈ f :: fs) (k ∈ fs)); [done|].
    rewrite elem_of_cons. naive_solver.
Qed.

Lemma ready_policy s : ready s = prefill_ready s || decode_ready s.
Proof.
  unfold ready, prefill_ready, decode_ready. destruct (state s); cbn; by destruct (has_pending_tok s).
Qed.
End Idle.

(** *** Bytes written *)

(** The number of bytes the socket took before the loop ended. *)
Fixpoint accepted (left : nat) (ws : list (WriteResult * Z)) : nat :=
  match left, ws with
  | O, _ => 0%nat
  | S _, (Wrote n, _) :: ws' => (Z.to_nat n + accepted (left - Z.to_nat n) ws')%nat
  | S _, _ => 0%nat
  end.

Definition loop_session (r : WriteLoop) : ClientSession :=
  match r with Drained s | Blocked s | Broken s => s end.

Lemma write_loop_bytes ws : ∀ s r,
  write_loop s ws = Some r →
  tx (loop_session r) = drop (accepted (length (tx s)) ws) (tx s).
Proof.
  induction ws as [|w ws IH]; intros s r; cbn [write_loop];
    (destruct (bool_decide_reflect (tx s = [])) as [Ht|Ht]; [intros [= <-]; by rewrite Ht|]);
    [done|].
  assert (Hl : ∃ k, length (tx s) = S k) by (destruct (tx s); [done|by eexists]).
  destruct Hl as [k Hk]. destruct w as [[n| |] t]; [|intros [= <-]; by rewrite Hk..].
  intros Hr%IH. rewrite Hr, Hk. cbn [accepted]. cbn [tx].
  change (tx (s <| tx := drop (Z.to_nat n) (tx s) |> <| last_activity_ns := t |>))
    with (drop (Z.to_nat n) (tx s)).
  by rewrite drop_drop, length_drop, Hk.
Qed.

(** ** Theorems *)

Section Theorems.
Context `{Llama, KernelLaws, IBatchPolicy, !BatchPolicyLaws, ISampler, Conversions, LongDouble}.

(** The daemon at the start of its loop: no client, a fresh scheduler. *)
Definition initial_daemon (q : kq) (ctx : llama_context) (vocab : llama_vocab) (cfg : RuntimeConfig)
    (m : option Metrics) (seed : rng) : Daemon :=
  {| d_manager := new_manager; d_kq := q; d_sched := new_scheduler ctx vocab cfg m seed |}.

Lemma initial_daemon_ok q ctx vocab cfg m seed :
  1 ≤ llama_n_batch ctx ≤ 2 ^ 30 → tokens_fit cfg (Some vocab) →
  daemon_ok (is_open q) (initial_daemon q ctx vocab cfg m seed).
Proof.
  intros Hb Hfit.
  assert (Hcap : batch_cap_ (new_scheduler ctx vocab cfg m seed) = llama_n_batch ctx)
    by (apply i32_id; unfold in_i32, INT_MIN, INT_MAX; lia).
  assert (Hempty : ∀ f, d_pool (initial_daemon q ctx vocab cfg m seed) !! f = None)
    by (intros f; apply lookup_empty).
  split.
  - apply new_manager_ok.
  - unfold d_sched, initial_daemon. by rewrite Hcap.
  - unfold d_sched, initial_daemon. change (target_batch_ (new_scheduler ctx vocab cfg m seed))
      with (batch_cap_ (new_scheduler ctx vocab cfg m seed)). rewrite Hcap. unfold target_ok. lia.
  - exact Hfit.
  - intros f [s Hs]. by rewrite Hempty in Hs.
  - unfold d_pool. cbn. rewrite map_size_empty. lia.
  - intros f s Hs. by rewrite Hempty in Hs.
  - intros f Hf. by left.
Qed.

(** C1. The whole daemon, from start-up, for any number of loop iterations and
    any outcome of the decodes: no iteration fails, and in every state reached
    the session limit holds, every session's descriptor is open, no two
    sessions share a sequence id, the scheduler's invariant holds, and a
    session that has output pending is registered for write notifications, so
    its bytes are sent as soon as the socket takes them, unless a decode has
    failed for its descriptor. Nor does the loop leak descriptors: those that
    are open were open at start-up or belong to a session. *)
Theorem daemon_runs_safely q ctx vocab cfg m seed ins fs d :
  1 ≤ llama_n_batch ctx ≤ 2 ^ 30 → tokens_fit cfg (Some vocab) →
  run (initial_daemon q ctx vocab cfg m seed) ins fs d →
  (∀ i, input_ok d i → is_Some (iteration d i)) ∧
  Z.of_nat (size (d_pool d)) ≤ Z.max 0 (max_sessions (d_cfg d)) ∧
  manager_ok (d_cfg d) (d_manager d) ∧
  (∀ f s, d_pool d !! f = Some s →
    is_open (d_kq d) f ∧ (tx s ≠ [] → f ∉ fs → armed (d_kq d) f EVFILT_WRITE = true)) ∧
  ∀ f, is_open (d_kq d) f → is_open q f ∨ is_Some (d_pool d !! f).
Proof.
  intros Hb Hfit Hrun.
  pose proof (run_ok _ _ _ _ _ Hrun ∅ (initial_daemon_ok q ctx vocab cfg m seed Hb Hfit)) as Hok.
  split.
  { intros i Hi. destruct (iteration_ok _ _ d i Hok Hi) as (d' & -> & _). done. }
  split; [apply Hok|]. split; [apply Hok|]. split; [|apply Hok]. intros f s Hs. split.
  - apply (do_open _ _ _ Hok). by eexists.
  - intros Htx Hf. apply (do_armed _ _ _ Hok f s Hs); [set_solver|done].
Qed.

Lemma close_idle_lookup d order now k :
  keyed_by_fd (d_pool d) → iteration_order (d_pool d) order →
  d_pool (close_idle d order now) !! k
  = (s ← d_pool d !! k; if is_idle (d_cfg d) now s then None else Some s).
Proof.
  intros Hk [_ Hord]. unfold close_idle. rewrite close_clients_pool.
  destruct (d_pool d !! k) as [s|] eqn:Hs; cbn [mbind option_bind]; [|by case_bool_decide].
  destruct (is_idle (d_cfg d) now s) eqn:Ei.
  - rewrite bool_decide_eq_true_2; [done|]. apply list_elem_of_omap. exists k.
    rewrite Hs, Ei, (Hk k s Hs). split; [apply Hord; by eexists|done].
  - rewrite bool_decide_eq_false_2; [done|]. intros (k' & _ & Hk')%list_elem_of_omap.
    destruct (d_pool d !! k') as [s'|] eqn:Hs'; [|done].
    destruct (is_idle (d_cfg d) now s') eqn:Ei'; [|done]. injection Hk' as Hk'.
    rewrite (Hk k' s' Hs') in Hk'. congruence.
Qed.

(** The unsigned arithmetic of the test is exact: the timeout in nanoseconds
    fits 64 bits, and the clock does not run backwards. *)
Lemma is_idle_iff cfg now s :
  in_u32 (idle_timeout_sec cfg) → 0 ≤ last_activity_ns s ≤ now → now < 2 ^ 64 →
  is_idle cfg now s = true ↔
  0 < idle_timeout_sec cfg ∧ idle_timeout_sec cfg * 10 ^ 9 < now - last_activity_ns s.
Proof.
  unfold in_u32, is_idle, idle_ns. intros Ht Hl Hn.
  rewrite (u64_id (idle_timeout_sec cfg)) by lia.
  rewrite (u64_id (idle_timeout_sec cfg * 1000)) by lia.
  rewrite (u64_id (idle_timeout_sec cfg * 1000 * 1000)) by lia. rewrite !u64_id by lia.
  rewrite andb_true_iff, !Z.ltb_lt. lia.
Qed.

(** C27. The idle clean-up closes exactly the sessions whose last activity is more
    than the configured number of seconds ago (none when the timeout is zero),
    without overflow for any 32-bit timeout, and leaves the others unchanged. *)
Theorem close_idle_exact d order now k s :
  keyed_by_fd (d_pool d) → iteration_order (d_pool d) order →
  in_u32 (idle_timeout_sec (d_cfg d)) → now < 2 ^ 64 →
  d_pool d !! k = Some s → 0 ≤ last_activity_ns s ≤ now →
  d_pool (close_idle d order now) !! k
  = if decide (0 < idle_timeout_sec (d_cfg d) ∧
               idle_timeout_sec (d_cfg d) * 10 ^ 9 < now - last_activity_ns s)
    then None else Some s.
Proof.
  intros Hk Hord Ht Hn Hs Hl. rewrite close_idle_lookup, Hs by done. cbn [mbind option_bind].
  pose proof (is_idle_iff (d_cfg d) now s Ht Hl Hn) as Hi.
  destruct (is_idle (d_cfg d) now s); case_decide as Hd; try done.
  - by destruct Hd; apply Hi.
  - by apply Hi in Hd.
Qed.
End Theorems.

(** C25. The loop polls without waiting exactly when the scheduler has something to
    do: a session is ready for the loop iff it is in one of the policy's pools,
    and with budget for a token the plan is empty iff no session is ready. *)
Theorem sleeps_only_without_work sessions order batch_cap target_batch rd rp :
  keyed_by_fd sessions → iteration_order sessions order → 0 < Z.min target_batch batch_cap →
  map_Forall (λ _ s, remaining s < 2 ^ 64) sessions →
  wait_timeout_ms sessions order = 0 ↔
  items (schedule_tick sessions order batch_cap target_batch rd rp) ≠ [].
Proof.
  intros Hk Hord Hb Hsz.
  assert (Hhas : has_ready_work sessions order = true ↔
    ∃ k s, sessions !! k = Some s ∧ (prefill_ready s = true ∨ decode_ready s = true)).
  { unfold has_ready_work. rewrite existsb_exists. split.
    - intros (k & _ & Hr). destruct (sessions !! k) as [s|] eqn:Hs; [|done]. exists k, s.
      rewrite ready_policy in Hr. by apply orb_true_iff in Hr.
    - intros (k & s & Hs & Hr). exists k. split; [apply list_elem_of_In, Hord; by eexists|].
      rewrite Hs, ready_policy. by apply orb_true_iff. }
  unfold wait_timeout_ms. destruct (has_ready_work sessions order) eqn:E.
  - split; [|done]. intros _ Hnil. destruct (proj1 Hhas eq_refl) as (k & s & Hs & Hr).
    by apply (plan_of_ready sessions order batch_cap target_batch rd rp k s).
  - split; [done|]. intros Hne. exfalso.
    destruct (items (schedule_tick sessions order batch_cap target_batch rd rp)) as [|it its] eqn:Ei;
      [done|].
    destruct (ready_of_plan sessions order batch_cap target_batch rd rp it Hk Hord) as (s & Hs & Hr);
      [rewrite Ei; left|].
    assert (Habs : false = true) by (apply Hhas; eauto). done.
Qed.

(** C26. Writing loses nothing and ends: if the socket eventually stops taking bytes
    (or the buffer runs empty first), the write loop returns; what is left in
    the output buffer is the buffer without exactly the bytes the socket
    accepted, the loop reports a drained buffer only when nothing is left, and
    apart from the buffer and the activity time the session is unchanged. *)
Theorem write_loop_keeps_rest s ws :
  Exists (λ w, ∀ n, w.1 ≠ Wrote n) ws →
  ∃ r, write_loop s ws = Some r ∧
    tx (loop_session r) = drop (accepted (length (tx s)) ws) (tx s) ∧
    (r = Drained (loop_session r) → tx (loop_session r) = []) ∧
    (state (loop_session r), seq (loop_session r), fd (loop_session r), n_past (loop_session r))
    = (state s, seq s, fd s, n_past s).
Proof.
  intros Hex. destruct (write_loop_spec ws s Hex) as (r & s' & Hr & Hcase & Hf & Hq & Hst & _ & _ & Hn & _).
  exists r. split; [done|]. split; [by apply write_loop_bytes|].
  destruct Hcase as [[-> Ht]|[[->| ->] _]]; cbn [loop_session]; rewrite Hf, Hq, Hst, Hn; done.
Qed.

(** An idle daemon does not wake up every 200 milliseconds: the timeout it
    hands to the poller, read as the milliseconds the poller expects, is
    200000 seconds. *)
Theorem idle_wait_is_200000_seconds :
  timeout_spec (wait_timeout_ms ∅ []) = Some (200000, 0).
Proof. reflexivity. Qed.

(** ** A concrete daemon *)

#[export] Instance ToyLongDouble : LongDouble := {| ld_prec := 53; ld_emax := 1024 |}.

(** Two clients on descriptors 3 and 4, the listening socket on 9, everything
    registered for reading. *)
Definition toy_kernel : toy_kq :=
  {| tk_open := {[3; 4; 9]};
     tk_armed := {[(3, EVFILT_READ); (4, EVFILT_READ); (9, EVFILT_READ)]} |}.

Definition toy_daemon (rc : Z) : Daemon :=
  {| d_manager := toy_manager; d_kq := toy_kernel; d_sched := toy_scheduler rc |}.

(** After a failed decode the client waits for ever: the error frame is in the
    output buffer, the session is errored, but its descriptor is not registered
    for write notifications. *)
Theorem failed_decode_stalls_client :
  ((λ d, (state <$> d_pool d !! 4, bool_decide (tx <$> d_pool d !! 4 = Some []),
          armed (d_kq d) 4 EVFILT_WRITE))
     <$> tick_and_arm (toy_daemon 1) (map_order toy_pool) 7 1000)
  = Some (Some ERRORED, false, false).
Proof. vm_compute. reflexivity. Qed.

(** ** Witnesses *)

(** A client connects on descriptor 5. *)
Definition connect_answers : Answers := {|
  an_now := 100; an_accept := Some 5; an_reads := {| read_blocks := []; read_end := ReadAgain |};
  an_write_now := WouldBlock; an_writes := [(WouldBlock, 0)];
|}.
Definition connect_input : LoopInput := {|
  li_dbg := false; li_server_fd := 9;
  li_events := [({| ev_fd := 9; ev_f := PollFlags.Read |}, connect_answers)];
  li_now := 200; li_close_order := [5]; li_tick_order := [5]; li_tick_now := 300; li_tick_dur := 10;
|}.
Definition start_daemon : Daemon :=
  initial_daemon toy_kernel (toy_ctx 0) tt toy_config (Some new_metrics) ([] : list float).

Lemma singleton_order (s : ClientSession) k : iteration_order {[k := s]} [k].
Proof.
  split; [apply NoDup_singleton|]. intros j. rewrite list_elem_of_singleton. split.
  - intros ->. rewrite lookup_singleton_eq. by eexists.
  - intros [x Hx]. by apply lookup_singleton_Some in Hx as [-> _].
Qed.

Lemma connect_event_ok d :
  ¬ is_open (d_kq d) 5 → next_seq_id_ (d_manager d) < INT_MAX → event_ok d connect_answers.
Proof.
  intros Ho Hi. split; [by intros c [= <-]| |done]. apply Exists_cons_hd. intros n. discriminate.
Qed.

Lemma connect_input_ok : input_ok start_daemon connect_input.
Proof.
  split.
  - split; [|done]. apply connect_event_ok; [|reflexivity].
    change (5 ∉ ({[3; 4; 9]} : gset Z)). by apply (bool_decide_unpack _).
  - intros d2 Hd2.
    change (Some (close_idle (on_accept start_daemon (Some 5) 100) [5] 200) = Some d2) in Hd2.
    injection Hd2 as <-.
    assert (E : d_pool (close_idle (on_accept start_daemon (Some 5) 100) [5] 200)
              = {[5 := new_session <| fd := 5 |> <| ctx := false |> <| last_activity_ns := 100 |>]})
      by (vm_compute; reflexivity).
    change (iteration_order
      (d_pool (close_idle (on_accept start_daemon (Some 5) 100) [5] 200)) [5]).
    rewrite E. apply singleton_order.
Qed.

Lemma daemon_runs_safely_witness :
  ∃ fs d, run start_daemon [connect_input] fs d ∧
    Z.of_nat (size (d_pool d)) ≤ Z.max 0 (max_sessions (d_cfg d)).
Proof.
  destruct (iteration_ok (is_open (d_kq start_daemon)) ∅ start_daemon connect_input) as (d & Hd & _).
  { apply initial_daemon_ok; [cbn; lia|exact toy_tokens_fit]. }
  { exact connect_input_ok. }
  assert (Hrun : run start_daemon [connect_input] (failures start_daemon connect_input ∪ ∅) d)
    by (econstructor; [exact connect_input_ok|exact Hd|constructor]).
  eexists _, d. split; [exact Hrun|].
  exact (proj1 (proj2 (daemon_runs_safely toy_kernel (toy_ctx 0) tt toy_config (Some new_metrics)
    ([] : list float) [connect_input] _ d ltac:(cbn; lia) toy_tokens_fit Hrun))).
Defined.

Lemma close_idle_exact_witness :
  d_pool (close_idle (toy_daemon 0) (map_order toy_pool) (2 ^ 40)) !! 3 = None.
Proof.
  refine (close_idle_exact (toy_daemon 0) (map_order toy_pool) (2 ^ 40) 3 _ toy_pool_keyed
    (map_order_spec _) _ eq_refl eq_refl _); vm_compute; split; (discriminate || reflexivity).
Defined.

Lemma sleeps_only_without_work_witness :
  wait_timeout_ms toy_pool (map_order toy_pool) = 0 ↔
  items (schedule_tick toy_pool (map_order toy_pool) 32 32 0 0) ≠ [].
Proof.
  apply (sleeps_only_without_work toy_pool (map_order toy_pool) 32 32 0 0);
    [exact toy_pool_keyed|apply map_order_spec|reflexivity|].
  repeat (apply map_Forall_insert_2; [by vm_compute|]). apply map_Forall_empty.
Defined.

Lemma write_loop_keeps_rest_witness :
  ∃ r, write_loop (new_session <| tx := str "abcdef" |>) [(Wrote 2, 5); (Wrote 1, 6); (WouldBlock, 0)] = Some r ∧
    tx (loop_session r) = str "def".
Proof.
  destruct (write_loop_keeps_rest (new_session <| tx := str "abcdef" |>)
    [(Wrote 2, 5); (Wrote 1, 6); (WouldBlock, 0)]) as (r & Hr & Htx & _).
  { right. right. left. by intros n. }
  exists r. split; [exact Hr|]. rewrite Htx. reflexivity.
Defined.
