(* ===== verification/UmadMain.v ===== *)
(** * The daemon program ([src/umad/main.cpp])

    [main] of the daemon from its arguments to its exit code: the start-up
    sequence with its error exits, the event loop with interrupted and failing
    waits and the shutdown flag, and the destructors that run on the way out.
    Informational log lines are left out. *)
From stdpp Require Import prelude gmap list strings.
From Stdlib Require Import ZifyBool.
From S2P Require Import Prelude Floating CLib Sys UdsServer Protocol Json Cli Session Config ConfigParse Logging Poller Llama Model Metrics SessionManager Policy Bmt Sampling Scheduler Daemon SchedulerFacts ToyLlama SchedulerCorrect SessionManagerCorrect DaemonCorrect.
Local Open Scope Z_scope.

(** ** Definitions *)

(** What [kevent] answers a wait: the number of entries, [errno] when it is
    negative, the entries. *)
Record WaitAnswer := { wa_nev : Z; wa_errno : sys_errno; wa_kevs : list kev }.

(** What one turn of the loop meets: the shutdown flag, the answer to the wait
    (which may depend on the timeout), the answers to the system calls of each
    event's handler (a descriptor has at most one event), the clock, and the
    orders in which the loops over maps visit them. *)
Record LoopStep := {
  ls_shutdown : bool;
  ls_ready_order : list Z;
  ls_wait : option (Z * Z) → WaitAnswer;
  ls_event_order : list Z;
  ls_answers : Z → Answers;
  ls_now : Z;
  ls_close_order : list Z;
  ls_tick_order : list Z;
  ls_tick_now : Z;
  ls_tick_dur : Z;
}.

Definition step_input (dbg : bool) (sfd : Z) (st : LoopStep) (evs : list PollEvent) : LoopInput := {|
  li_dbg := dbg; li_server_fd := sfd;
  li_events := (λ e, (e, ls_answers st (ev_fd e))) <$> evs;
  li_now := ls_now st; li_close_order := ls_close_order st; li_tick_order := ls_tick_order st;
  li_tick_now := ls_tick_now st; li_tick_dur := ls_tick_dur st |}.

Definition usage_text : bytes :=
  str "umad - UMA Serve runtime daemon (M1 foundations)" ++ [Init.Byte.x0a] ++
  str "Usage: umad --model /path/model.gguf [--n-ctx 4096] [--threads N] [--mlock] [--{no-}mmap] [--socket /tmp/uma.sock] [--max-sessions N] [--max-tokens N]"
  ++ [Init.Byte.x0a; Init.Byte.x0a] ++
  str "Env: UMA_MODEL, UMA_N_CTX, UMA_THREADS, UMA_USE_MMAP, UMA_USE_MLOCK, UMA_SOCK" ++ [Init.Byte.x0a].

Section Main.
Context `{Platform, LL : Llama, !LlamaLoader, Kernel, IBatchPolicy, ISampler, Conversions, LongDouble}.

(** One turn of the loop: go on with a new state, or leave the loop, at a
    shutdown request or with the [errno] of a failed wait. *)
Inductive LoopOutcome := Continue (d : Daemon) | Break (d : Daemon) (failed : option sys_errno).

(** The events a turn works on: what the poller makes of the wait's answer. *)
Definition wait_events (d : Daemon) (st : LoopStep) : sys_errno * (Z * list PollEvent) :=
  let w := ls_wait st (timeout_spec (wait_timeout_ms (d_pool d) (ls_ready_order st))) in
  (wa_errno w, poller_wait (wa_nev w) (wa_kevs w) (ls_event_order st)).

Definition loop_step (dbg : bool) (sfd : Z) (d : Daemon) (st : LoopStep) : option LoopOutcome :=
  if ls_shutdown st then Some (Break d None)
  else
    let '(errno, (nev, evs)) := wait_events d st in
    if nev <? 0 then Some (if decide (errno = EINTR) then Continue d else Break d (Some errno))
    else d' ← iteration d (step_input dbg sfd st evs); Some (Continue d').

(** The loop; [None] when a turn fails or the list of turns ends first. *)
Fixpoint event_loop (dbg : bool) (sfd : Z) (d : Daemon) (sts : list LoopStep) :
    option (Daemon * option sys_errno) :=
  match sts with
  | [] => None
  | st :: sts' =>
      r ← loop_step dbg sfd d st;
      match r with
      | Continue d' => event_loop dbg sfd d' sts'
      | Break d' failed => Some (d', failed)
      end
  end.

(** What the program is given besides the answers of its system calls. *)
Record MainInput := {
  mi_env : Environment;
  mi_args : list bytes;
  mi_file_exists : bytes → bool;
  mi_clock : bytes;
  mi_kq : kq;
  mi_seed : rng;
  mi_steps : list LoopStep;
}.

(** The destructor of the poller. *)
Definition poller_destroy (handle : Z) : Sys () :=
  if 0 <? handle then invoke (SysClose handle);; mret () else mret ().

(** The handler at the end of [main] for every other exception. *)
Definition fatal (g : Logger) (clock : bytes) (e : exn) : Sys (Z * option Daemon) :=
  let what := match e with InvalidArgument w | RuntimeError w => w end in
  log (Stderr (log_line g clock LogLevel.Error [str "Fatal error: "; what]));;
  mret (1, None).

(** The destructors of the context, the model and the backend guard. *)
Definition release : Sys () :=
  destroy_context;; destroy_model_handle;; destroy_backend_guard.

(** From the loaded context on: the socket, the poller, the loop. *)
Definition serve_daemon (g : Logger) (inp : MainInput) (cfg : RuntimeConfig) (h : ModelHandle)
    (ctx : llama_context) : Sys (Z * option Daemon) :=
  '(ok, server) ← open_listen (new_server (socket_path cfg) (socket_mode cfg));
  if (ok : bool) then
    k ← invoke SysKqueue;
    if a_ret k <? 0 then
      destroy server;;
      release;;
      fatal g (mi_clock inp) (RuntimeError (str "failed to create kqueue"))
    else
      let sfd := listen_fd_ server in
      let q := (poller_add (kq_opened (mi_kq inp) sfd) sfd PollFlags.Read).1 in
      let d := initial_daemon q ctx (llama_model_get_vocab (mh_model h)) cfg (Some new_metrics)
                 (mi_seed inp) in
      match event_loop (should g LogLevel.Debug) sfd d (mi_steps inp) with
      | None => MkSys (λ _, None)
      | Some (d', failed) =>
          (match failed with
           | Some e => perror "kevent(wait)" (fail_answer e)
           | None => mret ()
           end);;
          poller_destroy (a_ret k);;
          destroy server;;
          release;;
          mret (0, Some d')
      end
  else
    log (Stderr (log_line g (mi_clock inp) LogLevel.Error [str "Failed to open UDS listen socket"]));;
    destroy server;;
    release;;
    mret (2, None).

Definition umad_main (inp : MainInput) : Sys (Z * option Daemon) :=
  let g := configure_from_env new_logger (mi_env inp) in
  match from_args (mi_env inp) (mi_args inp) with
  | inl what =>
      if bool_decide (what = str "help") then log (Stdout usage_text);; mret (0, None)
      else
        log (Stderr (str "Argument error: " ++ what ++ [Init.Byte.x0a]));;
        log (Stdout usage_text);;
        mret (2, None)
  | inr cfg =>
      if bool_decide (model_path cfg = []) then
        log (Stderr (str "Error: --model or UMA_MODEL is required." ++ [Init.Byte.x0a]));;
        log (Stdout usage_text);;
        mret (2, None)
      else if negb (mi_file_exists inp (model_path cfg)) then
        log (Stderr (str "Error: model file not found: " ++ model_path cfg ++ [Init.Byte.x0a]));;
        mret (2, None)
      else
        new_backend_guard;;
        match new_model_handle cfg with
        | inl e => destroy_backend_guard;; fatal g (mi_clock inp) e
        | inr h =>
            match new_context h with
            | inl e => destroy_model_handle;; destroy_backend_guard;; fatal g (mi_clock inp) e
            | inr ctx => serve_daemon g inp cfg h ctx
            end
        end
  end.
End Main.

(** ** The loop *)

Section LoopFacts.
Context `{LL : Llama, KernelLaws, IBatchPolicy, !BatchPolicyLaws, ISampler, Conversions, LongDouble}.

(** The environment of a run of the loop: it is eventually told to stop, and
    every turn in between satisfies what an iteration asks of its input. *)
Fixpoint steps_ok (dbg : bool) (sfd : Z) (d : Daemon) (sts : list LoopStep) : Prop :=
  match sts with
  | [] => False
  | st :: sts' =>
      ls_shutdown st = true ∨
      let '(errno, (nev, evs)) := wait_events d st in
      if nev <? 0 then errno ≠ EINTR ∨ steps_ok dbg sfd d sts'
      else input_ok d (step_input dbg sfd st evs) ∧
           ∀ d', iteration d (step_input dbg sfd st evs) = Some d' → steps_ok dbg sfd d' sts'
  end.

(** The descriptors for which a decode fails while the loop runs. *)
Fixpoint loop_failures (dbg : bool) (sfd : Z) (d : Daemon) (sts : list LoopStep) : gset Z :=
  match sts with
  | [] => ∅
  | st :: sts' =>
      let i := step_input dbg sfd st (wait_events d st).2.2 in
      match loop_step dbg sfd d st with
      | Some (Continue d') =>
          (if (wait_events d st).2.1 <? 0 then ∅ else failures d i) ∪ loop_failures dbg sfd d' sts'
      | _ => ∅
      end
  end.

Lemma event_loop_ok base dbg sfd sts : ∀ e d,
  daemon_ok_but base e d → steps_ok dbg sfd d sts →
  ∃ d' failed, event_loop dbg sfd d sts = Some (d', failed) ∧
    daemon_ok_but base (e ∪ loop_failures dbg sfd d sts) d'.
Proof.
  induction sts as [|st sts IH]; intros e d Hok Hst; [done|]. cbn [event_loop loop_failures].
  unfold loop_step. cbn [steps_ok] in Hst.
  assert (Hstop : daemon_ok_but base (e ∪ ∅) d) by (by rewrite (right_id_L ∅ (∪))).
  destruct (ls_shutdown st); [by exists d, None|].
  destruct Hst as [[=]|Hst]. destruct (wait_events d st) as [errno [nev evs]]. cbn [fst snd].
  destruct (nev <? 0).
  - destruct (decide (errno = EINTR)); cbn; [|by exists d, (Some errno)].
    rewrite (left_id_L ∅ (∪)). apply IH; [done|]. by destruct Hst.
  - destruct Hst as [Hin Hst]. destruct (iteration_ok base e d _ Hok Hin) as (d' & Hd' & Hok').
    rewrite Hd'. cbn. rewrite (assoc_L (∪)). by apply IH, Hst.
Qed.
End LoopFacts.

(** ** The program *)

Section MainFacts.
Context `{Platform, LL : Llama, !LlamaLoader, KernelLaws, IBatchPolicy, !BatchPolicyLaws, ISampler, Conversions, LongDouble}.

(** How the program ends once the context is there: the socket cannot be opened,
    the event queue cannot be created, or the loop was left. *)
Definition serve_reason (cfg : RuntimeConfig) (ans : list answer) (code : Z) (d : option Daemon) : Prop :=
  match Sys.run (open_listen (new_server (socket_path cfg) (socket_mode cfg))) ans with
  | Some ((false, _), _, _) => code = 2 ∧ d = None
  | Some ((true, _), k :: _, _) => if a_ret k <? 0 then code = 1 ∧ d = None else code = 0 ∧ is_Some d
  | _ => False
  end.

(** What each exit code means, and what of the library was acquired and
    released on the way. *)
Definition exit_reason (inp : MainInput) (ans : list answer) (code : Z) (d : option Daemon)
    (lib : list library_call) : Prop :=
  match from_args (mi_env inp) (mi_args inp) with
  | inl what => d = None ∧ lib = [] ∧ (code = 0 ∧ what = str "help" ∨ code = 2 ∧ what ≠ str "help")
  | inr cfg =>
      if bool_decide (model_path cfg = []) || negb (mi_file_exists inp (model_path cfg))
      then d = None ∧ lib = [] ∧ code = 2
      else
        match llama_model_load_from_file (model_path cfg) (make_model_params cfg) with
        | None => d = None ∧ lib = [llama_backend_init; llama_backend_free] ∧ code = 1
        | Some m =>
            match llama_init_from_model m (make_context_params cfg) with
            | None => d = None ∧ lib = [llama_backend_init; llama_model_free; llama_backend_free] ∧ code = 1
            | Some _ =>
                lib = [llama_backend_init; llama_free; llama_model_free; llama_backend_free] ∧
                serve_reason cfg ans code d
            end
        end
  end.

(** The listening socket and the event queue are closed, except for an event
    queue whose descriptor is 0. *)
Definition all_closed (l : list logged) : Prop :=
  open_fds [] l = [] ∨ open_fds [] l = [0] ∧ ∃ k, Called SysKqueue k ∈ l ∧ a_ret k = 0.

Lemma fatal_log g clock e ans code d ans' l :
  Sys.run (fatal g clock e) ans = Some ((code, d), ans', l) →
  code = 1 ∧ d = None ∧ library_calls l = [] ∧ ∀ o, open_fds o l = o.
Proof. intros Hr. unfold fatal in Hr. inv_run Hr. done. Qed.

(** What [release] adds to the log. *)
Definition released : list logged :=
  [Library llama_free; Library llama_model_free; Library llama_backend_free].

Lemma run_release {A} (k : Sys A) ans :
  Sys.run (release;; k) ans
  = (λ '(x, ans', l), (x, ans', released ++ l)) <$> Sys.run k ans.
Proof. unfold release, mbind, sys_bind. cbn. by destruct (Sys.run k ans) as [[[??]?]|]. Qed.

Lemma run_release_Some {A} (k : Sys A) ans x ans' l :
  Sys.run (release;; k) ans = Some (x, ans', l) →
  ∃ l', Sys.run k ans = Some (x, ans', l') ∧ l = released ++ l'.
Proof.
  rewrite run_release. destruct (Sys.run k ans) as [[[y ans2] l']|]; [|done].
  intros [= -> -> <-]. by exists l'.
Qed.

Lemma open_fds_released o l : open_fds o (released ++ l) = open_fds o l.
Proof. reflexivity. Qed.

Lemma serve_daemon_log g inp cfg h ctx ans code d ans' l :
  Sys.run (serve_daemon g inp cfg h ctx) ans = Some ((code, d), ans', l) →
  serve_reason cfg ans code d ∧
  library_calls l = [llama_free; llama_model_free; llama_backend_free] ∧ all_closed l.
Proof.
  intros Hr. unfold serve_daemon in Hr. unfold serve_reason, all_closed.
  apply run_bind_Some in Hr as ([ok s1] & ans1 & l1 & l2 & E & Hr & ->). rewrite E.
  rewrite library_calls_app, (open_listen_library _ _ _ _ _ E).
  apply open_listen_log in E as [_ E]. rewrite open_fds_app. destruct ok.
  - destruct E as (Hfd & -> & _). apply run_bind_Some in Hr as (k & ans2 & l3 & l4 & Ek & Hr & ->).
    inv_run Ek. rewrite library_calls_app, open_fds_app. unfold open_fds at 2 4. cbn [foldl fd_effect].
    destruct (a_ret k <? 0) eqn:Hk.
    + rewrite (proj2 (Z.leb_gt _ _)) by lia.
      apply run_bind_Some in Hr as (u & ans3 & l5 & l6 & Ed & Hr & ->).
      rewrite library_calls_app, (destroy_library _ _ _ _ _ Ed).
      apply (destroy_log _ _ _ _ _ [listen_fd_ s1]) in Ed as [Ho _].
      apply run_release_Some in Hr as (l7 & Hr & ->).
      apply fatal_log in Hr as (-> & -> & Hc7 & Hl7).
      rewrite open_fds_app, Ho, open_fds_released, Hl7, library_calls_app, Hc7.
      split; [done|]. split; [done|]. left.
      rewrite without_only_listen; [done| |done]. by intros f ->%list_elem_of_singleton.
    + rewrite (proj2 (Z.leb_le _ _)) by lia.
      destruct (event_loop _ _ _ _) as [[d' failed]|]; [|done].
      apply run_bind_Some in Hr as (u0 & ans0 & l0 & l0' & E0 & Hr & ->).
      assert (Hl0 : library_calls l0 = [] ∧ ∀ o, open_fds o l0 = o) by (by destruct failed; inv_run E0).
      rewrite library_calls_app, open_fds_app, (proj1 Hl0), (proj2 Hl0).
      apply run_bind_Some in Hr as (u & ans3 & l5 & l6 & Ep & Hr & ->).
      apply run_bind_Some in Hr as (u' & ans4 & l7 & l8 & Ed & Hr & ->).
      apply run_release_Some in Hr as (l9 & Hr & ->). injection Hr as <- <- <- <-.
      rewrite app_nil_r, !library_calls_app, (destroy_library _ _ _ _ _ Ed), !open_fds_app.
      change (open_fds ?o released) with o.
      apply (destroy_log _ _ _ _ _ (open_fds [a_ret k; listen_fd_ s1] l5)) in Ed as [-> _].
      split; [done|]. split; [unfold poller_destroy in Ep; by inv_run Ep|].
      unfold without_listen. rewrite (proj2 (Z.leb_le _ _)) by done. unfold poller_destroy in Ep.
      destruct (0 <? a_ret k) eqn:Hpos.
      * left. inv_run Ep. unfold open_fds. cbn [foldl fd_effect].
        apply filter_none, Forall_forall. intros f [Hnk Hg]%list_elem_of_filter. set_solver.
      * assert (Hk0 : a_ret k = 0) by lia. inv_run Ep. unfold open_fds. cbn [foldl]. rewrite Hk0.
        destruct (decide (listen_fd_ s1 = 0)) as [->|Hne]; [by left|right].
        rewrite filter_cons_True, filter_cons_False by (done || congruence).
        split; [done|]. exists k. split; [|done].
        rewrite !elem_of_app. right. left. by left.
  - destruct E as (Hfd & ->). apply run_bind_Some in Hr as (u & ans2 & l3 & l4 & El & Hr & ->).
    apply run_bind_Some in Hr as (u' & ans3 & l5 & l6 & Ed & Hr & ->). inv_run El.
    apply run_release_Some in Hr as (l7 & Hr & ->). injection Hr as <- <- <- <-.
    rewrite !library_calls_app, (destroy_library _ _ _ _ _ Ed).
    apply (destroy_log _ _ _ _ _ []) in Ed as [Ho _]. split; [done|]. split; [done|]. left.
    rewrite app_nil_r, !open_fds_app. change (open_fds ?o released) with o. cbn [open_fds foldl fd_effect]. fold (open_fds [] l5). rewrite Ho.
    unfold without_listen. by destruct (_ <=? _).
Qed.

(** ** Theorems *)


(** A start-up that goes through: a valid command line, a model that loads, a
    batch capacity in range, a tokenizer that gives at most 2^30 tokens for a
    prompt within the limit, a token limit below 2^30, a socket path. *)
Record starts (inp : MainInput) (cfg : RuntimeConfig) (m : llama_model) (ctx : llama_context) : Prop := {
  st_args : from_args (mi_env inp) (mi_args inp) = inr cfg;
  st_path : model_path cfg ≠ [];
  st_exists : mi_file_exists inp (model_path cfg) = true;
  st_model : llama_model_load_from_file (model_path cfg) (make_model_params cfg) = Some m;
  st_context : llama_init_from_model m (make_context_params cfg) = Some ctx;
  st_batch : 1 ≤ llama_n_batch ctx ≤ 2 ^ 30;
  st_tokens : max_tokens cfg < 2 ^ 30 - 1;
  st_fit : ∀ text, Z.of_nat (length text) ≤ 8192 →
    Z.of_nat (length (tokenize (Some (llama_model_get_vocab m)) text true true)) ≤ 2 ^ 30;
  st_socket : socket_path cfg ≠ [];
}.

Lemma starts_fit inp cfg m ctx :
  starts inp cfg m ctx → tokens_fit cfg (Some (llama_model_get_vocab m)).
Proof.
  intros St. destruct (parsed_config _ _ _ (st_args _ _ _ _ St)) as [[Hu _ _ (_ & Hp & _)] _].
  pose proof (st_tokens _ _ _ _ St). decompose_Forall_hyps. unfold in_u32 in *. split.
  - unfold INT_MAX. lia.
  - intros text Ht. rewrite Hp in Ht. pose proof (st_fit _ _ _ _ St text Ht). unfold INT_MAX. lia.
Qed.

(** The daemon of a start-up, when its loop is entered. *)
Definition first_daemon (inp : MainInput) (cfg : RuntimeConfig) (m : llama_model)
    (ctx : llama_context) (sfd : Z) : Daemon :=
  initial_daemon (poller_add (kq_opened (mi_kq inp) sfd) sfd PollFlags.Read).1 ctx
    (llama_model_get_vocab m) cfg (Some new_metrics) (mi_seed inp).

Lemma main_is_serve inp cfg m ctx :
  starts inp cfg m ctx →
  umad_main inp = (new_backend_guard;; serve_daemon (configure_from_env new_logger (mi_env inp)) inp cfg
    {| mh_cfg := cfg; mh_model := m; mh_ctx_params := make_context_params cfg |} ctx).
Proof.
  intros St. unfold umad_main. rewrite (st_args _ _ _ _ St).
  rewrite (bool_decide_eq_false_2 (model_path cfg = [])) by apply St. rewrite (st_exists _ _ _ _ St).
  cbn [negb]. unfold new_model_handle. rewrite bool_decide_eq_false_2 by apply St.
  rewrite (st_model _ _ _ _ St). unfold new_context. cbn [mh_model mh_ctx_params].
  by rewrite (st_context _ _ _ _ St).
Qed.

(** The descriptors when the loop is entered: what was open, and the listening
    socket. *)
Lemma first_daemon_open inp cfg m ctx sfd f :
  is_open (d_kq (first_daemon inp cfg m ctx sfd)) f ↔ f = sfd ∨ is_open (mi_kq inp) f.
Proof.
  destruct (opened_fresh (mi_kq inp) sfd) as [Ho _].
  pose proof (add_read_spec (kq_opened (mi_kq inp) sfd) sfd ltac:(apply Ho; by left)) as Hk.
  unfold first_daemon, initial_daemon. cbn [d_kq].
  destruct (poller_add _ _ _) as [q ok]. destruct Hk as (_ & Hk & _). cbn [fst]. by rewrite Hk, Ho.
Qed.

(** The descriptor a log entry closes. *)
Definition closed_fd (e : logged) : option Z :=
  match e with Called (SysClose f) _ => Some f | _ => None end.

End MainFacts.

(** ** Witnesses *)

#[local] Existing Instance Darwin.

(** A loader for which every path is a model. *)
#[local] Instance ToyLoader : LlamaLoader := {|
  llama_model := unit; model_rest := unit; context_rest := unit;
  llama_model_default_params := {| mp_use_mlock := false; mp_use_mmap := true; mp_rest := tt |};
  llama_context_default_params := {|
    cp_n_ctx := 512; cp_n_batch := 2048; cp_n_ubatch := 512; cp_n_threads := 4; cp_n_threads_batch := 4;
    cp_n_seq_max := 1; cp_flash_attn_type := 0; cp_offload_kqv := true; cp_kv_unified := false;
    cp_swa_full := true; cp_no_perf := true; cp_op_offload := true; cp_rest := tt |};
  LLAMA_FLASH_ATTN_TYPE_AUTO := -1;
  llama_model_load_from_file := λ _ _, Some tt;
  llama_init_from_model := λ _ _, Some (toy_ctx 0);
  llama_model_get_vocab := λ _, tt;
|}.

(** An interrupted wait, then a client that connects on descriptor 5, then a
    shutdown request. *)
Definition demo_step (w : WaitAnswer) (stop : bool) (fds : list Z) : LoopStep := {|
  ls_shutdown := stop; ls_ready_order := []; ls_wait := λ _, w; ls_event_order := [7];
  ls_answers := λ _, connect_answers; ls_now := 200; ls_close_order := fds; ls_tick_order := fds;
  ls_tick_now := 300; ls_tick_dur := 10 |}.

Definition demo_inp : MainInput := {|
  mi_env := λ _, None; mi_args := str <$> ["--model"; "m.gguf"]; mi_file_exists := λ _, true;
  mi_clock := str "12:00:00"; mi_kq := empty_kq; mi_seed := ([] : list float);
  mi_steps := [
    demo_step {| wa_nev := -1; wa_errno := EINTR; wa_kevs := [] |} false [];
    demo_step {| wa_nev := 1; wa_errno := EANY;
                 wa_kevs := [{| ke_fd := 7; ke_filter := EVFILT_READ; ke_error := false; ke_eof := false |}] |}
      false [5];
    demo_step {| wa_nev := 0; wa_errno := EANY; wa_kevs := [] |} true [5]] |}.

Definition demo_config : RuntimeConfig := default_config <| model_path := str "m.gguf" |>.

Definition demo_answers : list answer :=
  life_answers ++ [ok_answer 8; ok_answer 0; ok_answer 0; ok_answer 0].

Lemma demo_starts : starts demo_inp demo_config tt (toy_ctx 0).
Proof.
  split; [vm_compute; reflexivity|discriminate|reflexivity|reflexivity|reflexivity|cbn; lia|cbn; lia| |discriminate].
  intros text Ht. pose proof (toy_tokenize_length text) as Hl. unfold toy_vocab in Hl. cbn in Hl |- *. lia.
Qed.

Lemma demo_opens :
  ∃ l, Sys.run (open_listen (new_server (socket_path demo_config) (socket_mode demo_config))) demo_answers
       = Some ((true, demo_server 7), [ok_answer 8; ok_answer 0; ok_answer 0; ok_answer 0], l).
Proof. eexists. vm_compute. reflexivity. Defined.

Local Abbreviation demo_first := (first_daemon demo_inp demo_config tt (toy_ctx 0) 7).

Lemma demo_steps_ok : steps_ok false 7 demo_first (mi_steps demo_inp).
Proof.
  right. cbn [wait_events]. right. right. split; [split|intros d' _; by left].
  - split; [|done]. apply connect_event_ok; [|reflexivity].
    change (5 ∉ tk_open (d_kq demo_first)). by apply (bool_decide_unpack _).
  - intros d2 Hd2.
    change (Some (close_idle (on_accept demo_first (Some 5) 100) [5] 200) = Some d2) in Hd2.
    injection Hd2 as <-.
    assert (E : d_pool (close_idle (on_accept demo_first (Some 5) 100) [5] 200)
              = {[5 := new_session <| fd := 5 |> <| ctx := false |> <| last_activity_ns := 100 |>]})
      by (vm_compute; reflexivity).
    change (iteration_order (d_pool (close_idle (on_accept demo_first (Some 5) 100) [5] 200)) [5]).
    rewrite E. apply singleton_order.
Qed.


(** The client that connected is still open when the program is left. *)
Theorem shutdown_leaves_client_open :
  match Sys.run (umad_main demo_inp) demo_answers with
  | Some ((code, Some d), _, l) =>
      (code, bool_decide (5 ∈ tk_open (d_kq d)), bool_decide (5 ∈ omap closed_fd l))
  | _ => (-1, false, false)
  end = (0, true, false).
Proof. vm_compute. reflexivity. Qed.

(** The same start-up with an address that is in use. *)
Definition in_use : list answer :=
  [ok_answer 0; ok_answer 7; ok_answer 0; ok_answer 0; fail_answer EANY; ok_answer 0; ok_answer 0].

Lemma in_use_exits : ∃ l, Sys.run (umad_main demo_inp) in_use = Some ((2, None), [], l).
Proof.
  assert (E : match Sys.run (umad_main demo_inp) in_use with
              | Some ((code, None), [], _) => bool_decide (code = 2)
              | _ => false
              end = true) by (vm_compute; reflexivity).
  revert E. destruct (Sys.run _ _) as [[[[code [d|]] [|]] l]|]; try done.
  intros ->%bool_decide_eq_true. by exists l.
Defined.

